(* ===== verification/_CoqProject ===== *)
-Q . S2P
Prelude.v
CInt.v
Bytes.v
Limbs.v
Fe.v
FeMul.v
FeBytes.v
FePow.v
Prime25519.v
Scalar.v
ScalarOps.v
Group.v
Curve.v
FeField.v
Ge.v
Decode.v
Recode.v
GeData.v
ScalarMult.v
ScalarMultOk.v
Tables.v
Vartime.v
Order.v
FieldSpec.v
ScalarSpec.v
CurveSpec.v
HashToPoint.v
MultSpec.v
Keccak.v
Sponge.v
Sha3.v
KeccakSpec.v
Signatures.v
SignaturesOk.v
KeccakDigest.v
SignaturesSpec.v
Cvt.v
Job.v
Nonce.v
WorkerJob.v
Mining.v
MiningSpec.v
JobSpec.v
LineReader.v
MemPool.v
NetSpec.v
Failover.v
BlobReader.v
MerkleTree.v
BlockTemplate.v
BlockTemplateOk.v
BlockFormat.v
BlockHashes.v
BlockTemplateSpec.v
Umul128.v
WalletAddress.v
Base58.v
WalletSpec.v
MinerSignature.v
MinerSignatureSpec.v
Reciprocal.v
Blocks.v
WordMatrix.v
Blake256.v
BlakeHash.v
BlakeSpec.v
RandomMath.v
RandomProgram.v
RandomMathSpec.v
Blake2b.v
Blake2bHash.v
Blake2bSpec.v
Aes.v
SoftAes.v
SoftAesOk.v
AesHash.v
AesHashOk.v
AesSpec.v
Groestl.v
GroestlSpec.v
