(* ===== verification/Prelude.v ===== *)
(** * Verification of the xmrig miner

    The program mines cryptocurrencies: it gets jobs from a pool, hands ranges
    of nonces to its threads, hashes, and submits results.  This library models
    the parts of it that carry their own logic, translated from the C and C++
    sources under src/src/, and proves them correct.  File names below are
    relative to src/src/; every .v file starts with the sources it models.

    ** The parts and how they interact

    - Curve arithmetic (base/tools/cryptonote/crypto-ops.c, crypto-ops-data.c):
      the group of ed25519, from limbs to scalar multiplication.
    - Hashes (base/crypto/keccak.cpp, sha3.cpp): the permutation Keccak-f[1600],
      the one-shot hash and the incremental one; crypto/cn/c_blake256.c: BLAKE-256,
      BLAKE-224 and HMAC over both; crypto/cn/c_groestl.c: Groestl-256;
      crypto/randomx/blake2/blake2b.c and blake2_generator.cpp: BLAKE2b, the hash
      of Argon2 over it, and the generator RandomX draws its programs from.
    - Signatures (base/tools/cryptonote/Signatures.cpp): Schnorr signatures and
      one-time keys, over the curve and the hash.
    - Jobs (base/net/stratum/Job.cpp, base/tools/Cvt.cpp): what a pool sends.
    - Mining (crypto/common/Nonce.cpp, backend/common/WorkerJob.h, the hashing
      loop of backend/cpu/CpuWorker.cpp, handleJobChange of core/Miner.cpp): the
      threads that share the nonces of a job.
    - Block templates (base/tools/cryptonote/BlobReader.h, BlockTemplate.cpp): the
      block a daemon asks to mine, parsed, and the tree of its transactions.
    - Wallet addresses (base/tools/cryptonote/WalletAddress.cpp, umul128.h): the
      base58 strings a user configures, decoded to keys and networks.
    - Miner signatures (base/net/stratum/DaemonClient.cpp, Job.cpp, CpuWorker.cpp):
      some coins make the miner sign each block; the keys come from a block
      template, a wallet address and a secret key, the signature is made over the
      blob of a job, and the result goes back into the template.
    - CryptoNight-R (crypto/cn/r/variant4_random_math.h): the random program of
      a block height, generated from a chain of BLAKE-256 hashes, and its
      interpreter.
    - RandomX: software AES (crypto/randomx/soft_aes.cpp, soft_aes.h,
      crypto/cn/soft_aes.h), the hash and the filling of the scratchpad by it
      (crypto/randomx/aes_hash.cpp), and the reciprocal of a divisor
      (crypto/randomx/reciprocal.c).
    - Network input (base/net/tools/LineReader.cpp, MemPool.h) and the choice of
      a pool (base/net/stratum/strategies/FailoverStrategy.cpp).

    ** Conventions

    C integers are Z.  Where the code relies on the absence of overflow, an
    expression is an option: None is undefined behaviour (signed overflow, a
    read outside an array, a division by zero), and the theorems show Some.
    Where the code wraps, to_u8, to_u32, to_u64 and the like are written out
    (CInt.v).  Bytes are integers in [0, 256) (Bytes.v).  A C function that
    writes through pointers returns what it writes.  A loop that runs out of
    fuel is None as well (Running in the parser of block templates), so a theorem
    that shows Some shows that the run ends; where the code is undefined or does
    not end the theorems say so.

    ** The files

    - Prelude.v, CInt.v, Bytes.v, Limbs.v: congruences, options, C integers with
      an interval analysis that discharges overflow, byte strings, radices.
    - Fe.v, FeMul.v, FeBytes.v, FePow.v: fe_* on ten limbs of 26 and 25 bits.
      Scalar.v, ScalarOps.v: sc_* on limbs of 21 bits.
    - Prime25519.v: 2^255 - 19 is prime (Lucas).  Group.v, Curve.v: the
      specification, the twisted Edwards curve with its complete addition law,
      as an abelian group.  FeField.v: limbs as elements of the field.
    - Ge.v: the representations of points and ge_add, ge_madd and the like.
      Decode.v: ge_frombytes_vartime.  HashToPoint.v: ge_fromfe_frombytes_vartime
      with its assertions, and the Elligator map it computes.  Recode.v: slide
      and the radix-16 digits.  GeData.v: the tables.  ScalarMult.v: the ten scalar multiplications;
      ScalarMultOk.v and Vartime.v their loops; Tables.v: every table entry is
      the multiple it should be; Order.v: l times the base point is neutral.
    - FieldSpec.v, ScalarSpec.v, CurveSpec.v, MultSpec.v: the properties of
      these, with a witness for each.
    - Keccak.v (the permutation, and FIPS 202 on bits as its specification),
      Sponge.v (keccak, and the byte-wise sponge), Sha3.v, each with its proofs;
      properties in KeccakSpec.v.
    - Signatures.v takes its hash from the class Digest32; KeccakDigest.v shows
      that keccak implements it; SignaturesOk.v; properties in SignaturesSpec.v.
    - Cvt.v (hexadecimal), Job.v; properties in JobSpec.v.
    - Nonce.v (the atomics and next), WorkerJob.v (the two slots of a worker, its
      lanes, the system of all workers, and the ranges a worker owns), Mining.v
      (the invariant of the system); properties in MiningSpec.v.
    - BlobReader.v (the reader, with its bounds check as a parameter),
      MerkleTree.v (the hashes over buffers, and the tree),
      BlockTemplate.v (the members, and the parser in a monad with exceptions
      and early returns), BlockTemplateOk.v (what it keeps on any input, and
      where the two bounds checks agree), BlockFormat.v (the format of a block
      and the runs over it), BlockHashes.v; properties in BlockTemplateSpec.v.
    - Umul128.v (the product of two words, an interface with the two
      implementations of umul128.h), WalletAddress.v (the decoder, over the reader
      of BlobReader.v), Base58.v (the encoding as a specification, and the decoder
      against it); properties in WalletSpec.v.
    - MinerSignature.v puts together the parser, the addresses, the signatures and
      the worker; properties in MinerSignatureSpec.v.
    - Reciprocal.v: the function and its property.
    - Blocks.v: what a hash with a buffer for one block keeps of its message.
      WordMatrix.v: the mixing of four by four words and the ten permutations that
      BLAKE and BLAKE2b are specified with.
    - Blake256.v (the code, the specified rounds, and the compression), BlakeHash.v
      (the specified padding and counters, what a state holds, the updates and the
      end of the hash); properties in BlakeSpec.v.
    - Blake2b.v (the code, the specification, and the compression), Blake2bHash.v
      (what a state holds); properties in Blake2bSpec.v.
    - RandomMath.v (the generator and the interpreter), RandomProgram.v (what a
      program is: schedule, depth, redundancy and meaning; and the generator
      against it); properties in RandomMathSpec.v.
    - Aes.v (FIPS 197 on bytes), SoftAes.v (tables and rounds) and SoftAesOk.v,
      AesHash.v (the passes over a scratchpad) and AesHashOk.v; properties in
      AesSpec.v.
    - Groestl.v (the code); GroestlSpec.v (the specification, and the property).
    - LineReader.v, MemPool.v; properties in NetSpec.v.  Failover.v, with its
      properties.

    ** What the theorems show

    - Curve: no overflow for any limbs within the stated bounds; each routine
      computes the operation of the field, of the integers modulo the group
      order, or of the group; encodings are canonical and decoding accepts
      exactly the encodings; every scalar multiplication computes the sum of
      multiples; the constant-time recodings are exact; hashing to a point is
      total, no assertion fails, and it is the Elligator map.
    - Hashes: keccakf refines FIPS 202; keccak and the incremental hash are the
      sponge, for every way of cutting the input.
    - BLAKE-256: the hash is the specified one, and BLAKE-224 is followed by four
      bytes more; the message an incremental state holds after any update, which
      is not always the concatenation; HMAC.
    - BLAKE2b: the digest of RFC 7693 for every key and every way of cutting the
      message, H' of RFC 9106 for every length, what is refused and what a refusal
      leaves, and the stream the generator reads.
    - Groestl-256: the specified digest of every message below 2^34 bits.
    - CryptoNight-R: every program generated has 60 to 70 instructions; a first
      part fits the abstract processor in 45 cycles and has nothing to merge, a
      second part only lengthens the chain of dependences; the interpreter
      executes what the instructions mean.
    - RandomX: the tables and all software rounds are FIPS 197; the fused pass
      over the scratchpad is the two separate ones; programs have registers below
      eight and are filled exactly.
    - Signatures: check_signature accepts exactly the solutions of the
      verification equation, and what generate_signature makes is accepted; the
      two ends of a derivation agree.
    - Jobs: which strings are accepted and what they become.
    - Mining: in every interleaving, until a worker goes on after a refused
      reservation, no nonce is hashed twice; no reservation is refused before the
      counter has passed the mask; a reservation ends.
    - Block templates: every serialized block is parsed to its members; on other
      inputs the parser ends and stays inside the template as long as no varint is
      close to 2^64, and in any input the overflow of a bounds check matters only
      where a check in the integers would throw; the tree is the balanced one and
      its branch leads to the root.
    - Addresses: decode accepts exactly the base58 encodings of a tag, two keys
      and their checksum, reads back what a wallet wrote, and accepts a second
      spelling of it.
    - Miner signatures: keys are accepted only for a spend key that belongs to the
      address; from a block that pays the wallet the code derives the secret of
      its one-time key; every blob a worker hashes carries a signature
      that is accepted; the block submitted differs in nonce and signature only.
    - Reciprocal: the quotient has the highest power of two that fits 64 bits.
    - Network: lines that fit the buffer do not depend on the packets; buffers do
      not overlap; the strategy keeps to its listener's view and reaches a pool
      that works.
    Some theorems state defects (a stale response after a zero challenge, an
    output left unwritten, a division by zero, a pause that comes too late, a worker
    that hashes its blob again after a refused reservation, lengths that make the
    parser of block templates loop or leave its buffers, a digit table read outside
    for characters that are not ASCII, buffered bytes lost by an update).

    ** Concurrency

    A thread of Mining is a state machine whose steps are what it does between
    two atomic operations; a schedule is any list of thread numbers.  When a
    reservation is refused a CPU worker takes the job of the miner again unless
    the miner is paused, and a GPU worker goes on in any case; both then hash the
    blob they have, and are marked as having gone on.  The
    counters are atomics with a single modification order, so relaxed loads add
    no behaviour to fetch_add.  Job changes are modelled by the state after
    them, except in the theorem about a stale reservation.

    ** Bounds and fuel

    Loops over a fixed range recurse on the list of its indices.  keccak_absorb
    has as fuel the length of the input plus one, since every turn consumes a
    block; getline the length of the piece plus one, since every turn consumes a
    newline; an uninterrupted next needs two turns for reservations up to 2^31.
    generate_signature recurses on the list of the random draws.  The parser of
    block templates has any fuel above the length of the blob, since every field
    takes a byte; a varint has ten bytes before its shift is undefined; the
    levels of the tree are at most 64, the bits of their counter.  update_blocks,
    compress_blocks and transform_loop have the length of the data plus one, since
    every turn consumes a block; the loop over the bits of a divisor 65 turns, one
    more than it has bits.  produce has the length of the output plus one; the
    padding of Groestl 65 turns, one more than the buffer has bytes; mul_gf2 nine,
    one more than a byte has bits; the S-box 256; a pass over a scratchpad its
    blocks plus one.  A random program has 258 turns of its inner loop, since the
    code stops at the 257th, 46 cycles to look for a unit and 71 turns to lengthen
    the chain; how many programs are tried until one uses R8 is not bounded by the
    code, so attempts takes that number, and its result None after as many tries
    is kept apart from undefined behaviour.

    ** Not modelled

    The rest of the proofs of work (the loops of CryptoNight and the virtual
    machine of RandomX, GhostRider, KawPow, Argon2, JH-256 and Skein-256): they are
    vector intrinsics, generated machine code, GPU kernels or third-party C;
    the functions that compute one hash are not called by any model.  libuv,
    OpenSSL, rapidjson and llhttp, and the glue over them (HTTP, DNS, TLS, JSON,
    logging, the API, hardware access).  The random bytes of Cvt.cpp are a list
    of draws; strtoull is a parameter; the clients of the strategy, the listener
    and the contents of fresh buffers are inputs; whether a vector can be given
    given a size is the parameter alloc of the parser; whether char is signed is the
    parameter char_signed of the addresses.  What uninitialised memory holds (the
    arrays on the stack of BLAKE2b and Groestl, the array of a random program), the
    AES instructions of the processor and the speeds SelectSoftAESImpl measures are
    arguments as well. *)

From Stdlib Require Export ZArith Lia.
From stdpp Require Export base option list.

#[global] Open Scope Z_scope.

(** ** Hint databases and tactics *)

(** [cint] holds the rules that evaluate C integer expressions (CInt.v);
    [zcong] the congruences that rewriting modulo an integer uses. *)
Create HintDb cint discriminated.
Create HintDb zcong discriminated.

(** Decide a closed goal by evaluation. *)
Ltac eval_closed := vm_compute; reflexivity.

(** Evaluate the powers of two of closed exponent. *)
Ltac eval_pows :=
  repeat match goal with
    | |- context [2 ^ ?n] => let v := eval vm_compute in (2 ^ n) in change (2 ^ n) with v
    end.
Ltac eval_pows_in H :=
  repeat match type of H with
    | context [2 ^ ?n] => let v := eval vm_compute in (2 ^ n) in change (2 ^ n) with v in H
    end.

(** Split the conjunctions and existentials of the context. *)
Ltac split_hyps :=
  repeat match goal with
    | H : _ /\ _ |- _ => destruct H
    | H : exists _, _ |- _ => destruct H
    end.

(** ** Congruence modulo an integer *)

(** [eqmod m a b]: [a] and [b] are congruent modulo [m]; modulo [0] it is
    equality, since [Z.modulo a 0 = a]. *)
Definition eqmod (m a b : Z) : Prop := a mod m = b mod m.

Notation "a ≡[ m ] b" := (eqmod m a b)
  (at level 70, m at level 200, no associativity, format "a  ≡[ m ]  b") : Z_scope.

#[export] Instance eqmod_equiv m : Equivalence (eqmod m).
Proof. split; unfold eqmod; congruence. Qed.

#[export] Instance eqmod_dec m a b : Decision (eqmod m a b).
Proof. unfold eqmod. apply _. Defined.

Lemma eqmod_divide m a b : a ≡[m] b <-> exists q, a = b + q * m.
Proof.
  unfold eqmod. destruct (Z.eq_dec m 0) as [->|Hm].
  - rewrite !Z.mod_0_r. split; [intros ->; exists 0; lia | intros [q ->]; lia].
  - split.
    + intros H. exists (a / m - b / m).
      pose proof (Z.div_mod a m Hm). pose proof (Z.div_mod b m Hm). nia.
    + intros [q ->]. apply Z.mod_add; assumption.
Qed.

#[export] Instance eqmod_add m : Proper (eqmod m ==> eqmod m ==> eqmod m) Z.add.
Proof.
  intros a b Hab c d Hcd. apply eqmod_divide in Hab as [q ->], Hcd as [r ->].
  apply eqmod_divide. exists (q + r). ring.
Qed.

#[export] Instance eqmod_opp m : Proper (eqmod m ==> eqmod m) Z.opp.
Proof.
  intros a b Hab. apply eqmod_divide in Hab as [q ->].
  apply eqmod_divide. exists (- q). ring.
Qed.

#[export] Instance eqmod_sub m : Proper (eqmod m ==> eqmod m ==> eqmod m) Z.sub.
Proof. intros a b Hab c d Hcd. rewrite <- !Z.add_opp_r, Hab, Hcd. reflexivity. Qed.

#[export] Instance eqmod_mul m : Proper (eqmod m ==> eqmod m ==> eqmod m) Z.mul.
Proof.
  intros a b Hab c d Hcd. apply eqmod_divide in Hab as [q ->], Hcd as [r ->].
  apply eqmod_divide. exists (q * d + b * r + q * r * m). ring.
Qed.

Lemma eqmod_pow m a b n : 0 <= n -> a ≡[m] b -> a ^ n ≡[m] b ^ n.
Proof.
  intros Hn H. revert n Hn. apply (natlike_ind (fun n => a ^ n ≡[m] b ^ n)).
  - reflexivity.
  - intros n Hn IH. rewrite !Z.pow_succ_r, IH, H by assumption. reflexivity.
Qed.

(** Equal integers are congruent; [ring] then closes the identities. *)
Lemma eqmod_eq m a b : a = b -> a ≡[m] b.
Proof. intros ->. reflexivity. Qed.

Lemma eqmod_0_iff a b : a ≡[0] b <-> a = b.
Proof. unfold eqmod. rewrite !Z.mod_0_r. reflexivity. Qed.

Lemma eqmod_mod m a : a mod m ≡[m] a.
Proof. unfold eqmod. apply Zmod_mod. Qed.

(** A number in [0, m) is determined by its congruence class. *)
Lemma eqmod_small m a b : 0 <= a < m -> a ≡[m] b -> a = b mod m.
Proof. unfold eqmod. intros Ha H. rewrite <- H. symmetry. apply Z.mod_small, Ha. Qed.

Ltac eqmod_ring := apply eqmod_eq; ring.

#[export] Hint Resolve eqmod_mod : zcong.

(** ** Options *)

Lemma bind_Some_eq {A B} (x : option A) (f : A -> option B) a :
  x = Some a -> x ≫= f = f a.
Proof. intros ->. reflexivity. Qed.

Lemma bind_inv {A B} (x : option A) (f : A -> option B) b :
  x ≫= f = Some b -> exists a, x = Some a /\ f a = Some b.
Proof. destruct x as [a|]; [eauto | discriminate]. Qed.

(** [returns c Q]: the computation [c] succeeds, with a result in [Q]. *)
Definition returns {A} (c : option A) (Q : A -> Prop) : Prop := exists a, c = Some a /\ Q a.

Lemma returns_Some {A} (a : A) (Q : A -> Prop) : Q a -> returns (Some a) Q.
Proof. intros H. exists a. auto. Qed.

Lemma returns_bind {A B} (c : option A) (k : A -> option B) (R : A -> Prop) (Q : B -> Prop) :
  returns c R -> (forall a, R a -> returns (k a) Q) -> returns (c ≫= k) Q.
Proof. intros (a & -> & Ha) Hk. apply Hk, Ha. Qed.

Lemma returns_mono {A} (c : option A) (R Q : A -> Prop) :
  returns c R -> (forall a, R a -> Q a) -> returns c Q.
Proof. intros (a & -> & Ha) H. exists a. auto. Qed.

(** ** Lists *)

(** Every value of the first [n] indices: a bounded quantifier that
    evaluation decides. *)
Lemma forallb_seq_spec (P : nat -> bool) n :
  forallb P (seq 0 n) = true -> forall i, (i < n)%nat -> P i = true.
Proof.
  intros H i Hi. rewrite forallb_forall in H. apply H.
  apply in_seq. lia.
Qed.

Lemma Forall2_lookup_l_Some {A B} (P : A -> B -> Prop) (l : list A) (k : list B) i x :
  Forall2 P l k -> l !! i = Some x -> exists y, k !! i = Some y /\ P x y.
Proof. intros H Hi. eapply Forall2_lookup_l in H; eauto. Qed.

Lemma Forall2_lookup_r_Some {A B} (P : A -> B -> Prop) (l : list A) (k : list B) i y :
  Forall2 P l k -> k !! i = Some y -> exists x, l !! i = Some x /\ P x y.
Proof. intros H Hi. eapply Forall2_lookup_r in H; eauto. Qed.
