(* ===== verification/CInt.v ===== *)
(** * C integers

    Values of C integer expressions of type [int32_t] / [int] and [int64_t],
    with undefined behaviour made explicit: an expression evaluates to
    [Some z], or to [None] when an addition, subtraction, multiplication or
    negation in it overflows a signed type, or it reads outside an array.
    Operators are strict in [None].  Conversions to a narrower type and left
    shifts of signed values wrap, as the compilers the program targets define
    them. *)

From S2P Require Import Prelude.

(** ** Types and operators *)

Inductive width := W32 | W64.

Definition min_of (w : width) : Z :=
  match w with W32 => -2147483648 | W64 => -9223372036854775808 end.

Definition max_of (w : width) : Z :=
  match w with W32 => 2147483647 | W64 => 9223372036854775807 end.

Definition cval := option Z.

(** The result of a signed operation of width [w]. *)
Definition chk (w : width) (z : Z) : cval :=
  if (min_of w <=? z) && (z <=? max_of w) then Some z else None.

Definition cadd (w : width) (x y : cval) : cval := a ← x; b ← y; chk w (a + b).
Definition csub (w : width) (x y : cval) : cval := a ← x; b ← y; chk w (a - b).
Definition cmul (w : width) (x y : cval) : cval := a ← x; b ← y; chk w (a * b).
Definition copp (w : width) (x : cval) : cval := a ← x; chk w (- a).
(** [x >> n]: the arithmetic shift. *)
Definition cshr (x : cval) (n : Z) : cval := a ← x; Some (Z.shiftr a n).
(** [x | y] and [x & y] on values of one type. *)
Definition cor (x y : cval) : cval := a ← x; b ← y; Some (Z.lor a b).
Definition cand (x y : cval) : cval := a ← x; b ← y; Some (Z.land a b).

(** Conversions. *)
Definition to_u8 (z : Z) : Z := z mod 256.
Definition to_i8 (z : Z) : Z := (z + 128) mod 256 - 128.
Definition to_u32 (z : Z) : Z := z mod 4294967296.
Definition to_i32 (z : Z) : Z := (z + 2147483648) mod 4294967296 - 2147483648.
Definition to_u64 (z : Z) : Z := z mod 18446744073709551616.
Definition to_i64 (z : Z) : Z :=
  (z + 9223372036854775808) mod 18446744073709551616 - 9223372036854775808.

Definition wrap (w : width) (z : Z) : Z :=
  match w with W32 => to_i32 z | W64 => to_i64 z end.

(** [x << n] on a signed type: the bits that leave the type are lost, as the
    compilers define it where the standard leaves it undefined. *)
Definition cshl (w : width) (x : cval) (n : Z) : cval := a ← x; Some (wrap w (Z.shiftl a n)).

Declare Scope cint_scope.
Delimit Scope cint_scope with C.
(** 64-bit operators are circled, 32-bit operators boxed. *)
Infix "⊕" := (cadd W64) (at level 50, left associativity) : cint_scope.
Infix "⊖" := (csub W64) (at level 50, left associativity) : cint_scope.
Infix "⊗" := (cmul W64) (at level 40, left associativity) : cint_scope.
Infix "⊞" := (cadd W32) (at level 50, left associativity) : cint_scope.
Infix "⊟" := (csub W32) (at level 50, left associativity) : cint_scope.
Infix "⊠" := (cmul W32) (at level 40, left associativity) : cint_scope.
Infix "≫s" := cshr (at level 45, left associativity) : cint_scope.
Infix "≪32" := (cshl W32) (at level 45, left associativity) : cint_scope.
Infix "≪64" := (cshl W64) (at level 45, left associativity) : cint_scope.

(** An integer literal. *)
Notation "# z" := (@Some Z z) (at level 8, z at level 8, only parsing) : cint_scope.

(** ** Intervals *)

Definition itv := (Z * Z)%type.

Definition zin (x : Z) (I : itv) : Prop := fst I <= x <= snd I.

Definition fits (w : width) (I : itv) : bool :=
  (min_of w <=? fst I) && (snd I <=? max_of w).

Definition iadd (I J : itv) : itv := (fst I + fst J, snd I + snd J).
Definition isub (I J : itv) : itv := (fst I - snd J, snd I - fst J).
Definition iopp (I : itv) : itv := (- snd I, - fst I).
Definition imul (I J : itv) : itv :=
  let a := fst I * fst J in let b := fst I * snd J in
  let c := snd I * fst J in let d := snd I * snd J in
  (Z.min (Z.min a b) (Z.min c d), Z.max (Z.max a b) (Z.max c d)).
Definition ishr (I : itv) (n : Z) : itv := (Z.shiftr (fst I) n, Z.shiftr (snd I) n).
Definition ishl (I : itv) (n : Z) : itv := (Z.shiftl (fst I) n, Z.shiftl (snd I) n).
Definition ile (I J : itv) : bool := (fst J <=? fst I) && (snd I <=? snd J).
(** The symmetric interval of radius [b]. *)
Definition sym (b : Z) : itv := (- b, b).

#[export] Instance zin_dec x I : Decision (zin x I).
Proof. unfold zin. apply _. Defined.

Lemma ile_spec x I J : ile I J = true -> zin x I -> zin x J.
Proof. unfold ile, zin. rewrite andb_true_iff, !Z.leb_le. lia. Qed.

Lemma zin_add x y I J : zin x I -> zin y J -> zin (x + y) (iadd I J).
Proof. unfold zin, iadd. simpl. lia. Qed.

Lemma zin_sub x y I J : zin x I -> zin y J -> zin (x - y) (isub I J).
Proof. unfold zin, isub. simpl. lia. Qed.

Lemma zin_opp x I : zin x I -> zin (- x) (iopp I).
Proof. unfold zin, iopp. simpl. lia. Qed.

Lemma mul_between u v lo hi :
  lo <= v <= hi -> Z.min (u * lo) (u * hi) <= u * v <= Z.max (u * lo) (u * hi).
Proof.
  intros H. destruct (Z_le_gt_dec 0 u).
  - pose proof (Z.mul_le_mono_nonneg_l lo v u). pose proof (Z.mul_le_mono_nonneg_l v hi u). lia.
  - pose proof (Z.mul_le_mono_nonpos_l lo v u). pose proof (Z.mul_le_mono_nonpos_l v hi u). lia.
Qed.

Lemma zin_mul x y I J : zin x I -> zin y J -> zin (x * y) (imul I J).
Proof.
  unfold zin, imul. destruct I as [a b], J as [c d]. simpl. intros Hx Hy.
  pose proof (mul_between x y c d Hy) as H1.
  pose proof (mul_between c x a b Hx) as H2.
  pose proof (mul_between d x a b Hx) as H3.
  rewrite (Z.mul_comm c x), (Z.mul_comm c a), (Z.mul_comm c b) in H2.
  rewrite (Z.mul_comm d x), (Z.mul_comm d a), (Z.mul_comm d b) in H3.
  lia.
Qed.

Lemma zin_shr x I n : 0 <= n -> zin x I -> zin (Z.shiftr x n) (ishr I n).
Proof.
  unfold zin, ishr. simpl. intros Hn H. rewrite !Z.shiftr_div_pow2 by assumption.
  assert (0 < 2 ^ n) by (apply Z.pow_pos_nonneg; lia).
  split; apply Z.div_le_mono; lia.
Qed.

Lemma zin_shl x I n : 0 <= n -> zin x I -> zin (Z.shiftl x n) (ishl I n).
Proof.
  unfold zin, ishl. simpl. intros Hn H. rewrite !Z.shiftl_mul_pow2 by assumption.
  assert (0 < 2 ^ n) by (apply Z.pow_pos_nonneg; lia). nia.
Qed.

(** ** Evaluation with a bound

    [ev c e I]: the expression [c] has the defined value [e], which lies in
    [I].  The rules below follow the structure of an expression; their side
    conditions are closed and decided by evaluation. *)

Definition ev (c : cval) (e : Z) (I : itv) : Prop := c = Some e /\ zin e I.

Lemma chk_fits w e I : zin e I -> fits w I = true -> chk w e = Some e.
Proof.
  unfold zin, fits, chk. rewrite andb_true_iff, !Z.leb_le. intros H1 H2.
  destruct (Z.leb_spec (min_of w) e), (Z.leb_spec e (max_of w)); simpl; (reflexivity || lia).
Qed.

Lemma to_i32_id z : -2147483648 <= z <= 2147483647 -> to_i32 z = z.
Proof. unfold to_i32. intros H. rewrite Z.mod_small; lia. Qed.

Lemma to_i64_id z : min_of W64 <= z <= max_of W64 -> to_i64 z = z.
Proof. unfold to_i64. simpl. intros H. rewrite Z.mod_small; lia. Qed.

Lemma wrap_fits w z I : zin z I -> fits w I = true -> wrap w z = z.
Proof.
  unfold zin, fits. rewrite andb_true_iff, !Z.leb_le. intros H1 H2.
  destruct w; cbn in *; [apply to_i32_id | apply to_i64_id; cbn]; lia.
Qed.

(** Wrapping keeps the low bits. *)
Lemma wrap_mod256 w z : wrap w z mod 256 = z mod 256.
Proof.
  destruct w; cbn [wrap]; unfold to_i32, to_i64.
  - rewrite (Z.mod_eq (z + _) 4294967296) by lia.
    replace (_ - _ - _) with (z + (- (16777216 * ((z + 2147483648) / 4294967296))) * 256) by ring.
    apply Z.mod_add. lia.
  - rewrite (Z.mod_eq (z + _) 18446744073709551616) by lia. set (q := (z + _) / _).
    replace (_ - _ - _) with (z + (- (72057594037927936 * q)) * 256) by ring.
    apply Z.mod_add. lia.
Qed.

Lemma ev_lit z : ev (Some z) z (z, z).
Proof. split; [reflexivity | unfold zin; simpl; lia]. Qed.

Lemma ev_bin w f g (c d : cval) a b I J :
  (forall x y I J, zin x I -> zin y J -> zin (f x y) (g I J)) ->
  ev c a I -> ev d b J -> fits w (g I J) = true ->
  ev (x ← c; y ← d; chk w (f x y)) (f a b) (g I J).
Proof.
  intros Hf [-> Ha] [-> Hb] Hfit. pose proof (Hf _ _ _ _ Ha Hb) as H. cbn.
  split; [eapply chk_fits; eassumption | exact H].
Qed.

Lemma ev_add w c d a b I J :
  ev c a I -> ev d b J -> fits w (iadd I J) = true -> ev (cadd w c d) (a + b) (iadd I J).
Proof. apply (ev_bin w Z.add iadd), zin_add. Qed.

Lemma ev_sub w c d a b I J :
  ev c a I -> ev d b J -> fits w (isub I J) = true -> ev (csub w c d) (a - b) (isub I J).
Proof. apply (ev_bin w Z.sub isub), zin_sub. Qed.

Lemma ev_mul w c d a b I J :
  ev c a I -> ev d b J -> fits w (imul I J) = true -> ev (cmul w c d) (a * b) (imul I J).
Proof. apply (ev_bin w Z.mul imul), zin_mul. Qed.

Lemma ev_opp w c a I : ev c a I -> fits w (iopp I) = true -> ev (copp w c) (- a) (iopp I).
Proof.
  intros [-> Ha] Hfit. apply zin_opp in Ha. cbn.
  split; [eapply chk_fits; eassumption | exact Ha].
Qed.

Lemma ev_shr c a I n : ev c a I -> 0 <= n -> ev (cshr c n) (Z.shiftr a n) (ishr I n).
Proof. intros [-> Ha] Hn. split; [reflexivity | apply zin_shr; assumption]. Qed.

Lemma ev_shl w c a I n :
  ev c a I -> 0 <= n -> fits w (ishl I n) = true -> ev (cshl w c n) (Z.shiftl a n) (ishl I n).
Proof.
  intros [-> Ha] Hn Hfit. apply (zin_shl _ _ n Hn) in Ha. cbn.
  split; [f_equal; eapply wrap_fits; eassumption | exact Ha].
Qed.

Lemma ev_weaken c a I J : ev c a I -> ile I J = true -> ev c a J.
Proof. intros [-> Ha] H. split; [reflexivity | eapply ile_spec; eauto]. Qed.

Lemma ev_Some c a I : ev c a I -> c = Some a.
Proof. intros [H _]. exact H. Qed.

Lemma ev_zin c a I : ev c a I -> zin a I.
Proof. intros [_ H]. exact H. Qed.

#[export] Hint Resolve ev_lit ev_add ev_sub ev_mul ev_opp : cint.

(** Evaluate an expression bottom up, generating its value and interval. *)
Ltac ev_step :=
  match goal with
  | H : ev ?c _ _ |- ev ?c _ _ => exact H
  | |- ev (Some _) _ _ => apply ev_lit
  | |- ev (cadd _ _ _) _ _ => eapply ev_add; [ev_step | ev_step | eval_closed]
  | |- ev (csub _ _ _) _ _ => eapply ev_sub; [ev_step | ev_step | eval_closed]
  | |- ev (cmul _ _ _) _ _ => eapply ev_mul; [ev_step | ev_step | eval_closed]
  | |- ev (copp _ _) _ _ => eapply ev_opp; [ev_step | eval_closed]
  | |- ev (cshr _ _) _ _ => eapply ev_shr; [ev_step | lia]
  | |- ev (cshl _ _ _) _ _ => eapply ev_shl; [ev_step | lia | eval_closed]
  end.

(** ** Conversions *)

Lemma to_u64_id z : 0 <= z < 18446744073709551616 -> to_u64 z = z.
Proof. apply Z.mod_small. Qed.

Lemma to_u8_range z : 0 <= to_u8 z < 256.
Proof. apply Z.mod_pos_bound. lia. Qed.
