(* ===== verification/Bytes.v ===== *)
(** * Byte strings

    Bytes are integers in [0, 256); [load_3] and [load_4] of crypto-ops.c read
    them little-endian.  The lemmas relate byte strings, the integers they
    stand for, and the bit windows from which limbs are loaded and into which
    they are packed. *)

From S2P Require Import Prelude.
From S2P Require Import CInt.

(** ** Data *)

Definition is_byte (b : Z) : Prop := 0 <= b < 256.
Definition is_bytes (s : list Z) : Prop := Forall is_byte s.

(** A string of [n] bytes. *)
Definition bytes_of (n : nat) (s : list Z) : Prop := is_bytes s /\ length s = n.

#[export] Instance is_byte_dec b : Decision (is_byte b).
Proof. unfold is_byte. apply _. Defined.

#[export] Instance is_bytes_dec s : Decision (is_bytes s).
Proof. unfold is_bytes. apply _. Defined.

#[export] Instance bytes_of_dec n s : Decision (bytes_of n s).
Proof. unfold bytes_of. apply _. Defined.

(** The little-endian value: [s[0] + 256*s[1] + ...]. *)
Fixpoint le_val (s : list Z) : Z :=
  match s with [] => 0 | b :: s => b + 256 * le_val s end.

(** The first [n] bytes of the little-endian encoding of [v]. *)
Fixpoint le_bytes (n : nat) (v : Z) : list Z :=
  match n with O => [] | S n => v mod 256 :: le_bytes n (v / 256) end.

(** ** Loads *)

Definition load_3 (s : list Z) : option Z :=
  b0 ← s !! 0%nat; b1 ← s !! 1%nat; b2 ← s !! 2%nat;
  let result := b0 in
  let result := Z.lor result (to_u64 (Z.shiftl b1 8)) in
  let result := Z.lor result (to_u64 (Z.shiftl b2 16)) in
  Some result.

Definition load_4 (s : list Z) : option Z :=
  b0 ← s !! 0%nat; b1 ← s !! 1%nat; b2 ← s !! 2%nat; b3 ← s !! 3%nat;
  let result := b0 in
  let result := Z.lor result (to_u64 (Z.shiftl b1 8)) in
  let result := Z.lor result (to_u64 (Z.shiftl b2 16)) in
  let result := Z.lor result (to_u64 (Z.shiftl b3 24)) in
  Some result.

(** ** Disjoint bits *)

Lemma lor_shiftl_add a b n :
  0 <= n -> 0 <= a < 2 ^ n -> Z.lor a (Z.shiftl b n) = a + b * 2 ^ n.
Proof.
  intros Hn Ha. rewrite <- Z.shiftl_mul_pow2 by assumption.
  assert (Hl : Z.land a (Z.shiftl b n) = 0).
  { apply Z.bits_inj'. intros i Hi. rewrite Z.land_spec, Z.bits_0.
    destruct (Z_lt_ge_dec i n).
    - rewrite Z.shiftl_spec_low by assumption. apply andb_false_r.
    - rewrite <- (Z.mod_small a (2 ^ n)) by assumption.
      rewrite Z.mod_pow2_bits_high by lia. reflexivity. }
  rewrite Z.add_nocarry_lxor by exact Hl. symmetry. apply Z.lxor_lor, Hl.
Qed.

Lemma land_ones_r a n : 0 <= n -> Z.land (Z.ones n) a = a mod 2 ^ n.
Proof. intros Hn. rewrite Z.land_comm. apply Z.land_ones, Hn. Qed.

(** ** Values and encodings *)

Lemma le_val_range s : is_bytes s -> 0 <= le_val s < 2 ^ (8 * Z.of_nat (length s)).
Proof.
  induction 1 as [|b s Hb _ IH]; [cbn; lia|]. cbn [le_val length].
  rewrite Nat2Z.inj_succ. replace (8 * Z.succ (Z.of_nat (length s))) with
    (8 + 8 * Z.of_nat (length s)) by lia.
  rewrite Z.pow_add_r by lia. change (2 ^ 8) with 256. unfold is_byte in Hb. lia.
Qed.

Lemma le_val_drop s k : is_bytes s -> le_val (drop k s) = le_val s / 2 ^ (8 * Z.of_nat k).
Proof.
  intros Hs. revert s Hs. induction k as [|k IH]; intros s Hs.
  - rewrite Z.div_1_r. reflexivity.
  - destruct Hs as [|b s Hb Hs]; [rewrite Z.div_0_l; [reflexivity | apply Z.pow_nonzero; lia]|].
    cbn [drop le_val]. rewrite (IH s Hs), Nat2Z.inj_succ.
    replace (8 * Z.succ (Z.of_nat k)) with (8 + 8 * Z.of_nat k) by lia.
    rewrite Z.pow_add_r, <- Z.div_div by (try apply Z.pow_pos_nonneg; lia).
    f_equal. change (2 ^ 8) with 256. unfold is_byte in Hb.
    apply Z.div_unique with b; lia.
Qed.

Lemma le_bytes_val n v : le_val (le_bytes n v) = v mod 2 ^ (8 * Z.of_nat n).
Proof.
  revert v. induction n as [|n IH]; intros v; [symmetry; apply Z.mod_1_r|].
  cbn [le_bytes le_val]. rewrite IH, Nat2Z.inj_succ.
  replace (8 * Z.succ (Z.of_nat n)) with (8 + 8 * Z.of_nat n) by lia.
  rewrite Z.pow_add_r by lia. change (2 ^ 8) with 256.
  rewrite Z.rem_mul_r; [reflexivity | lia | apply Z.pow_pos_nonneg; lia].
Qed.

Lemma le_bytes_length n v : length (le_bytes n v) = n.
Proof. revert v. induction n as [|n IH]; intros v; cbn; auto. Qed.

Lemma le_bytes_bytes n v : is_bytes (le_bytes n v).
Proof.
  revert v. induction n as [|n IH]; intros v; cbn; constructor.
  - apply Z.mod_pos_bound. lia.
  - apply IH.
Qed.

Lemma le_bytes_le_val s : is_bytes s -> le_bytes (length s) (le_val s) = s.
Proof.
  induction 1 as [|b s Hb _ IH]; [reflexivity|]. cbn [le_bytes le_val length].
  unfold is_byte in Hb. f_equal.
  - symmetry. apply Z.mod_unique with (le_val s); lia.
  - replace ((b + 256 * le_val s) / 256) with (le_val s); [exact IH|].
    apply Z.div_unique with b; lia.
Qed.

(** Strings of one length with the same value are equal. *)
Lemma le_val_inj s t :
  is_bytes s -> is_bytes t -> length s = length t -> le_val s = le_val t -> s = t.
Proof.
  intros Hs Ht Hl Hv. rewrite <- (le_bytes_le_val s Hs), <- (le_bytes_le_val t Ht).
  rewrite Hl, Hv. reflexivity.
Qed.

(** ** What the loads read *)

Lemma byte_shift b n :
  is_byte b -> 0 <= n <= 48 -> to_u64 (Z.shiftl b n) = Z.shiftl b n.
Proof.
  intros Hb Hn. rewrite Z.shiftl_mul_pow2 by lia. apply to_u64_id.
  unfold is_byte in Hb.
  assert (0 < 2 ^ n) by (apply Z.pow_pos_nonneg; lia).
  assert (2 ^ n <= 2 ^ 48) by (apply Z.pow_le_mono_r; lia).
  change (2 ^ 48) with 281474976710656 in *. nia.
Qed.

Lemma load_3_eq b0 b1 b2 s :
  is_byte b0 -> is_byte b1 -> is_byte b2 ->
  load_3 (b0 :: b1 :: b2 :: s) = Some (b0 + 256 * b1 + 65536 * b2).
Proof.
  intros H0 H1 H2. unfold load_3. cbn [lookup list_lookup mbind option_bind].
  rewrite !byte_shift by (assumption || lia).
  unfold is_byte in *.
  rewrite (lor_shiftl_add b0 b1 8) by (cbn; lia).
  rewrite (lor_shiftl_add _ b2 16) by (cbn; lia).
  f_equal. cbn. lia.
Qed.

Lemma load_4_eq b0 b1 b2 b3 s :
  is_byte b0 -> is_byte b1 -> is_byte b2 -> is_byte b3 ->
  load_4 (b0 :: b1 :: b2 :: b3 :: s) = Some (b0 + 256 * b1 + 65536 * b2 + 16777216 * b3).
Proof.
  intros H0 H1 H2 H3. unfold load_4. cbn [lookup list_lookup mbind option_bind].
  rewrite !byte_shift by (assumption || lia).
  unfold is_byte in *.
  rewrite (lor_shiftl_add b0 b1 8) by (cbn; lia).
  rewrite (lor_shiftl_add _ b2 16) by (cbn; lia).
  rewrite (lor_shiftl_add _ b3 24) by (cbn; lia).
  f_equal. cbn. lia.
Qed.

Lemma drop_3 (s : list Z) : (3 <= length s)%nat -> exists b0 b1 b2 t, s = b0 :: b1 :: b2 :: t.
Proof. destruct s as [|? [|? [|? ?]]]; cbn; (lia || eauto). Qed.

Lemma drop_4 (s : list Z) :
  (4 <= length s)%nat -> exists b0 b1 b2 b3 t, s = b0 :: b1 :: b2 :: b3 :: t.
Proof. destruct s as [|? [|? [|? [|? ?]]]]; cbn; (lia || eauto 6). Qed.

(** A load at offset [k] reads the 24 or 32 bits of the value from bit [8k]. *)
Lemma load_3_val s k :
  is_bytes s -> (k + 3 <= length s)%nat ->
  load_3 (drop k s) = Some ((le_val s / 2 ^ (8 * Z.of_nat k)) mod 2 ^ 24).
Proof.
  intros Hs Hk. rewrite <- (le_val_drop s k Hs).
  assert (Hd : is_bytes (drop k s)) by (apply Forall_drop, Hs).
  destruct (drop_3 (drop k s)) as (b0 & b1 & b2 & t & E); [rewrite length_drop; lia|].
  rewrite E in *. inversion_clear Hd as [|? ? H0 Hd1].
  inversion_clear Hd1 as [|? ? H1 Hd2]. inversion_clear Hd2 as [|? ? H2 _].
  rewrite load_3_eq by assumption. f_equal. cbn [le_val]. unfold is_byte in *.
  apply Z.mod_unique with (le_val t); change (2 ^ 24) with 16777216; lia.
Qed.

Lemma load_4_val s k :
  is_bytes s -> (k + 4 <= length s)%nat ->
  load_4 (drop k s) = Some ((le_val s / 2 ^ (8 * Z.of_nat k)) mod 2 ^ 32).
Proof.
  intros Hs Hk. rewrite <- (le_val_drop s k Hs).
  assert (Hd : is_bytes (drop k s)) by (apply Forall_drop, Hs).
  destruct (drop_4 (drop k s)) as (b0 & b1 & b2 & b3 & t & E); [rewrite length_drop; lia|].
  rewrite E in *. inversion_clear Hd as [|? ? H0 Hd1].
  inversion_clear Hd1 as [|? ? H1 Hd2]. inversion_clear Hd2 as [|? ? H2 Hd3].
  inversion_clear Hd3 as [|? ? H3 _].
  rewrite load_4_eq by assumption. f_equal. cbn [le_val]. unfold is_byte in *.
  apply Z.mod_unique with (le_val t); change (2 ^ 32) with 4294967296; lia.
Qed.

(** ** Bit windows *)

(** A window of a window. *)
Lemma mod_div_mod v a b c n :
  0 <= a -> 0 <= c -> 0 <= n -> c + n <= b ->
  ((v / 2 ^ a) mod 2 ^ b / 2 ^ c) mod 2 ^ n = (v / 2 ^ (a + c)) mod 2 ^ n.
Proof.
  intros Ha Hc Hn Hb.
  rewrite (Z.pow_add_r 2 a c), <- Z.div_div by (try apply Z.pow_pos_nonneg; lia).
  set (u := v / 2 ^ a). apply Z.bits_inj'. intros i Hi.
  destruct (Z_lt_ge_dec i n).
  - rewrite !Z.mod_pow2_bits_low, !Z.div_pow2_bits by lia.
    apply Z.mod_pow2_bits_low. lia.
  - rewrite !Z.mod_pow2_bits_high by lia. reflexivity.
Qed.

(** Splitting off the lowest [n] bits at bit [a]. *)
Lemma window_split v a n b :
  0 <= a -> 0 <= n -> b = a + n ->
  v / 2 ^ a = (v / 2 ^ a) mod 2 ^ n + 2 ^ n * (v / 2 ^ b).
Proof.
  intros Ha Hn ->. rewrite Z.pow_add_r, <- Z.div_div by (try apply Z.pow_pos_nonneg; lia).
  rewrite Z.add_comm. apply Z.div_mod, Z.pow_nonzero; lia.
Qed.

(** The byte of [v] at bit [w + o], where the limb [h] of [n] bits starts at
    bit [w] and the byte lies inside it, or crosses into the next limb [h']. *)
Lemma byte_inside v w o n h T :
  0 <= w -> 0 <= o -> o + 8 <= n -> v / 2 ^ w = h + 2 ^ n * T ->
  v / 2 ^ (w + o) mod 256 = to_u8 (Z.shiftr h o).
Proof.
  intros Hw Ho Hn HT. rewrite Z.pow_add_r, <- Z.div_div by (try apply Z.pow_pos_nonneg; lia).
  rewrite HT, Z.shiftr_div_pow2 by lia. unfold to_u8.
  replace n with (n - o - 8 + 8 + o) by lia. rewrite !Z.pow_add_r by lia.
  replace (h + 2 ^ (n - o - 8) * 2 ^ 8 * 2 ^ o * T)
    with (h + (2 ^ (n - o - 8) * T * 256) * 2 ^ o) by (change (2 ^ 8) with 256; ring).
  rewrite Z.div_add by (apply Z.pow_nonzero; lia). apply Z.mod_add. lia.
Qed.

Lemma byte_across v w o n h h' n' T :
  0 <= w -> 0 <= o < n -> 0 <= n' -> 8 <= n - o + n' -> 0 <= h < 2 ^ n ->
  v / 2 ^ w = h + 2 ^ n * (h' + 2 ^ n' * T) ->
  v / 2 ^ (w + o) mod 256 = to_u8 (Z.lor (Z.shiftr h o) (Z.shiftl h' (n - o))).
Proof.
  intros Hw Ho Hn' Hn Hh HT.
  rewrite Z.pow_add_r, <- Z.div_div by (try apply Z.pow_pos_nonneg; lia).
  assert (Hn2 : 2 ^ n = 2 ^ (n - o) * 2 ^ o) by (rewrite <- Z.pow_add_r by lia; f_equal; lia).
  assert (0 < 2 ^ o) by (apply Z.pow_pos_nonneg; lia).
  rewrite lor_shiftl_add; [|lia|].
  - rewrite HT, Z.shiftr_div_pow2, Hn2 by lia. unfold to_u8.
    replace (h + 2 ^ (n - o) * 2 ^ o * (h' + 2 ^ n' * T))
      with (h + (h' * 2 ^ (n - o) + 2 ^ (n - o) * 2 ^ n' * T) * 2 ^ o) by ring.
    rewrite Z.div_add by lia. rewrite <- Z.pow_add_r by lia.
    replace (n - o + n') with (n - o + n' - 8 + 8) by lia. rewrite Z.pow_add_r by lia.
    change (2 ^ 8) with 256.
    replace (h / 2 ^ o + (h' * 2 ^ (n - o) + 2 ^ (n - o + n' - 8) * 256 * T))
      with (h / 2 ^ o + h' * 2 ^ (n - o) + 2 ^ (n - o + n' - 8) * T * 256) by ring.
    apply Z.mod_add. lia.
  - rewrite Z.shiftr_div_pow2 by lia. split; [apply Z.div_pos; lia|].
    apply Z.div_lt_upper_bound; lia.
Qed.

(** Only the low byte of the operands matters in the low byte of [|]. *)
Lemma to_u8_lor a b : to_u8 (Z.lor a b) = Z.lor (to_u8 a) (to_u8 b).
Proof.
  unfold to_u8. change 256 with (2 ^ 8). apply Z.bits_inj'. intros i Hi.
  rewrite Z.lor_spec. destruct (Z_lt_ge_dec i 8).
  - rewrite !Z.mod_pow2_bits_low by lia. apply Z.lor_spec.
  - rewrite !Z.mod_pow2_bits_high by lia. reflexivity.
Qed.

(** Advance past a limb. *)
Lemma limb_next v w n h T :
  0 <= w -> 0 <= n -> 0 <= h < 2 ^ n -> v / 2 ^ w = h + 2 ^ n * T -> v / 2 ^ (w + n) = T.
Proof.
  intros Hw Hn Hh HT. rewrite Z.pow_add_r, <- Z.div_div by (try apply Z.pow_pos_nonneg; lia).
  rewrite HT. symmetry. apply Z.div_unique with h; lia.
Qed.

(** The encoding of [v] byte by byte. *)
Lemma le_bytes_at n v :
  le_bytes n v = map (fun k => v / 2 ^ (8 * Z.of_nat k) mod 256) (seq 0 n).
Proof.
  revert v. induction n as [|n IH]; intros v; [reflexivity|].
  cbn [le_bytes seq map]. f_equal; [cbn; rewrite Z.div_1_r; reflexivity|].
  rewrite <- seq_shift, map_map, (IH (v / 256)). apply map_ext. intros k.
  rewrite Nat2Z.inj_succ. replace (8 * Z.succ (Z.of_nat k)) with (8 + 8 * Z.of_nat k) by lia.
  rewrite Z.pow_add_r, <- Z.div_div by (try apply Z.pow_pos_nonneg; lia). reflexivity.
Qed.

Lemma le_bytes_mod n v w : v mod 2 ^ (8 * Z.of_nat n) = w mod 2 ^ (8 * Z.of_nat n) -> le_bytes n v = le_bytes n w.
Proof.
  intros E. apply le_val_inj; try apply le_bytes_bytes; [rewrite !le_bytes_length; reflexivity|]. rewrite !le_bytes_val. exact E.
Qed.

(** The encoding in two parts. *)
Lemma le_bytes_add n k v : le_bytes (n + k) v = le_bytes n v ++ le_bytes k (v / 2 ^ (8 * Z.of_nat n)).
Proof.
  revert v. induction n as [|n IH]; intros v; [cbn; rewrite Z.div_1_r; reflexivity|].
  cbn [le_bytes Nat.add app]. rewrite IH, Nat2Z.inj_succ. replace (8 * Z.succ (Z.of_nat n)) with (8 + 8 * Z.of_nat n) by lia.
  rewrite Z.pow_add_r, <- Z.div_div by (try apply Z.pow_pos_nonneg; lia). reflexivity.
Qed.

Lemma concat_bytes l : Forall is_bytes l -> is_bytes (concat l).
Proof. intros H. induction H; cbn [concat]; [apply Forall_nil_2 | apply Forall_app; split; assumption]. Qed.
