(* ===== verification/Limbs.v ===== *)
(** * Limb vectors

    Arrays of limbs in a mixed radix, their value, and the straight-line
    programs of carries that normalise them.  A program is a list of steps,
    each of which reads and writes limbs; its abstract run over intervals,
    which evaluation decides, shows that no step overflows and bounds the
    result. *)

From S2P Require Import Prelude.
From S2P Require Import CInt.
Local Open Scope cint_scope.

(** ** Values *)

(** The value of limbs [h] at bit weights [ws]; limbs beyond the weights are
    dead and count for nothing. *)
Fixpoint lval (ws h : list Z) : Z :=
  match ws, h with
  | w :: ws, x :: h => x * 2 ^ w + lval ws h
  | _, _ => 0
  end.

Lemma lval_insert ws h i w x y :
  ws !! i = Some w -> h !! i = Some x ->
  lval ws (<[i:=y]> h) = lval ws h + (y - x) * 2 ^ w.
Proof.
  revert h i. induction ws as [|w' ws IH]; intros [|x' h] [|i]; simpl; try discriminate.
  - intros [= ->] [= ->]. ring.
  - intros Hw Hx. rewrite (IH h i Hw Hx). ring.
Qed.

Lemma lval_insert_dead ws h i y : ws !! i = None -> lval ws (<[i:=y]> h) = lval ws h.
Proof.
  revert h i. induction ws as [|w' ws IH]; intros [|x' h] [|i]; simpl; try discriminate; auto.
  intros Hw. rewrite (IH h i Hw). reflexivity.
Qed.

(** ** Interval vectors *)

Definition zins (h : list Z) (Is : list itv) : Prop := Forall2 zin h Is.

Lemma zins_nil : zins [] [].
Proof. constructor. Qed.

Lemma zins_cons x X h Is : zin x X -> zins h Is -> zins (x :: h) (X :: Is).
Proof. intros. constructor; assumption. Qed.

Fixpoint iles (Is Js : list itv) : bool :=
  match Is, Js with
  | [], [] => true
  | X :: Is, Y :: Js => ile X Y && iles Is Js
  | _, _ => false
  end.

Lemma zins_weaken h Is Js : iles Is Js = true -> zins h Is -> zins h Js.
Proof.
  intros H Hh. revert Js H. induction Hh; intros [|J Js]; cbn; try discriminate.
  - constructor.
  - rewrite andb_true_iff. intros [H1 H2]. constructor; [eapply ile_spec|]; eauto.
    apply IHHh, H2.
Qed.

Lemma zins_lookup h Is i I :
  zins h Is -> Is !! i = Some I -> exists x, h !! i = Some x /\ ev (h !! i) x I.
Proof.
  intros H Hi. destruct (Forall2_lookup_r_Some _ _ _ _ _ H Hi) as [x [Hx Hz]].
  exists x. split; [exact Hx | split; assumption].
Qed.

(** Name the limbs of a vector of known length. *)
Ltac zins_open_aux H :=
  lazymatch type of H with
  | Forall2 _ _ (_ :: _) =>
      let H1 := fresh "Hx" in let H2 := fresh "Hrest" in
      apply Forall2_cons_inv_r in H; destruct H as (? & ? & H1 & H2 & ->);
      zins_open_aux H2
  | _ => apply Forall2_nil_inv_r in H as ->
  end.

Ltac zins_open H := unfold zins in H; zins_open_aux H.

Lemma zins_insert h Is i x I : zins h Is -> zin x I -> zins (<[i:=x]> h) (<[i:=I]> Is).
Proof. intros. apply Forall2_insert; assumption. Qed.

(** ** Programs *)

Definition step := list Z -> option (list Z).
Definition astep := list itv -> option (list itv).

(** Run a straight-line program. *)
Fixpoint run {A} (p : list (A -> option A)) (h : A) : option A :=
  match p with
  | [] => Some h
  | s :: p => h' ← s h; run p h'
  end.

Lemma run_app {A} (p q : list (A -> option A)) h : run (p ++ q) h = (h' ← run p h; run q h').
Proof.
  revert h. induction p as [|s p IH]; intros h; cbn; [reflexivity|].
  destruct (s h); cbn; auto.
Qed.

(** [step_ok m ws ws' f a]: from limbs within intervals that the abstract
    step [a] accepts, [f] does not fail, ends within the result of [a], and
    the value at [ws'] afterwards is congruent to the value at [ws] before. *)
Definition step_ok (m : Z) (ws ws' : list Z) (f : step) (a : astep) : Prop :=
  forall h Is Is', zins h Is -> a Is = Some Is' ->
  exists h', f h = Some h' /\ zins h' Is' /\ lval ws' h' ≡[m] lval ws h.

(** A program each of whose steps is sound, from weights [ws] to [ws']. *)
Inductive prog_ok (m : Z) : list Z -> list Z -> list step -> list astep -> Prop :=
| prog_nil ws : prog_ok m ws ws [] []
| prog_cons ws ws' ws'' f a p q :
    step_ok m ws ws' f a -> prog_ok m ws' ws'' p q -> prog_ok m ws ws'' (f :: p) (a :: q).

Lemma run_ok m ws ws' p q : prog_ok m ws ws' p q -> step_ok m ws ws' (run p) (run q).
Proof.
  induction 1 as [ws|ws ws1 ws2 f a p q Hf _ IH]; intros h Is Is' Hh; cbn.
  - intros [= <-]. exists h. split; [reflexivity | split; [exact Hh | reflexivity]].
  - intros Ha. apply bind_inv in Ha as [Is1 [Ha Hq]].
    destruct (Hf h Is Is1 Hh Ha) as [h1 [-> [Hh1 Hv1]]]. cbn.
    destruct (IH h1 Is1 Is' Hh1 Hq) as [h2 [-> [Hh2 Hv2]]].
    exists h2. split; [reflexivity | split; [exact Hh2 | rewrite Hv2; exact Hv1]].
Qed.

(** ** Carries *)

(** [carry = (h_i + rnd) >> sh; h_j += carry * k; h_i -= carry << sh].
    [rnd] is half the radix for a rounding carry and [0] for a truncating one;
    [k] is [1] except for the wrap-around of a reduction. *)
Definition carry (w : width) (sh rnd k : Z) (i j : nat) : step := fun h =>
  c ← cshr (cadd w (h !! i) (#rnd)) sh;
  hj ← cadd w (h !! j) (cmul w (#c) (#k));
  hi ← csub w (h !! i) (cshl w (#c) sh);
  Some (<[i:=hi]> (<[j:=hj]> h)).

Definition acarry (w : width) (sh rnd k : Z) (i j : nat) : astep := fun Is =>
  I ← Is !! i; J ← Is !! j;
  let S := iadd I (rnd, rnd) in
  let C := ishr S sh in
  let K := imul C (k, k) in
  let J' := iadd J K in
  let L := ishl C sh in
  if fits w S && fits w K && fits w J' && fits w L && fits w (- rnd, 2 ^ sh - 1 - rnd)
  then Some (<[i:=(- rnd, 2 ^ sh - 1 - rnd)]> (<[j:=J']> Is))
  else None.

(** [carry = h_i >> sh; h_i -= carry << sh]: the carry out is dropped. *)
Definition floor_top (w : width) (sh : Z) (i : nat) : step := fun h =>
  c ← cshr (h !! i) sh;
  hi ← csub w (h !! i) (cshl w (#c) sh);
  Some (<[i:=hi]> h).

Definition afloor_top (w : width) (sh : Z) (i : nat) : astep := fun Is =>
  I ← Is !! i;
  if fits w (ishl (ishr I sh) sh) && fits w (0, 2 ^ sh - 1)
  then Some (<[i:=(0, 2 ^ sh - 1)]> Is) else None.

Lemma carry_rest x rnd sh :
  0 <= sh ->
  x - Z.shiftl (Z.shiftr (x + rnd) sh) sh = (x + rnd) mod 2 ^ sh - rnd.
Proof.
  intros Hsh. rewrite Z.shiftl_mul_pow2, Z.shiftr_div_pow2 by assumption.
  pose proof (Z.div_mod (x + rnd) (2 ^ sh)). lia.
Qed.

Lemma carry_ok_gen w sh rnd k i j ws ws' m :
  0 <= sh -> i <> j ->
  (forall h x y c, h !! i = Some x -> h !! j = Some y ->
     lval ws' (<[i:=x - Z.shiftl c sh]> (<[j:=y + c * k]> h)) ≡[m] lval ws h) ->
  step_ok m ws ws' (carry w sh rnd k i j) (acarry w sh rnd k i j).
Proof.
  intros Hsh Hij Hval h Is Is' Hh. unfold acarry.
  intros [I [HI Ha]]%bind_inv. apply bind_inv in Ha as [J [HJ Ha]].
  destruct (zins_lookup _ _ _ _ Hh HI) as [x [Hx Hex]].
  destruct (zins_lookup _ _ _ _ Hh HJ) as [y [Hy Hey]].
  cbv zeta in Ha. destruct (_ && _) eqn:Hfit in Ha; [injection Ha as <- | discriminate].
  rewrite !andb_true_iff in Hfit. destruct Hfit as [[[[HS HK] HJ'] HL] HI'].
  set (c := Z.shiftr (x + rnd) sh).
  assert (Hc : ev (cshr (cadd w (h !! i) (#rnd)) sh) c (ishr (iadd I (rnd, rnd)) sh)).
  { apply ev_shr; [apply ev_add; [exact Hex | apply ev_lit | exact HS] | exact Hsh]. }
  assert (Hc' : ev (#c) c (ishr (iadd I (rnd, rnd)) sh)).
  { destruct Hc as [_ Hc]. split; [reflexivity | exact Hc]. }
  assert (Hj : ev (cadd w (h !! j) (cmul w (#c) (#k))) (y + c * k)
                 (iadd J (imul (ishr (iadd I (rnd, rnd)) sh) (k, k)))).
  { apply ev_add; [exact Hey | apply ev_mul; [exact Hc' | apply ev_lit | exact HK] | exact HJ']. }
  assert (Hl : ev (cshl w (#c) sh) (Z.shiftl c sh) (ishl (ishr (iadd I (rnd, rnd)) sh) sh)).
  { apply ev_shl; assumption. }
  assert (Hr : zin (x - Z.shiftl c sh) (- rnd, 2 ^ sh - 1 - rnd)).
  { unfold c, zin. rewrite carry_rest by assumption. cbn.
    pose proof (Z.mod_pos_bound (x + rnd) (2 ^ sh)).
    assert (0 < 2 ^ sh) by (apply Z.pow_pos_nonneg; lia). lia. }
  unfold carry. rewrite (ev_Some _ _ _ Hc). cbn [mbind option_bind].
  rewrite (ev_Some _ _ _ Hj), (ev_Some _ _ _ Hl). cbn [mbind option_bind].
  rewrite Hx. cbn [csub mbind option_bind]. rewrite (chk_fits _ _ _ Hr HI'). cbn.
  eexists. split; [reflexivity|]. split.
  - apply zins_insert; [apply zins_insert; [exact Hh | apply Hj] | exact Hr].
  - apply Hval; assumption.
Qed.

(** A carry between live limbs whose weights match modulo [m]. *)
Lemma carry_ok w sh rnd k i j ws m wi wj :
  0 <= sh -> i <> j -> ws !! i = Some wi -> ws !! j = Some wj -> 0 <= wi ->
  k * 2 ^ wj ≡[m] 2 ^ (sh + wi) ->
  step_ok m ws ws (carry w sh rnd k i j) (acarry w sh rnd k i j).
Proof.
  intros Hsh Hij Hwi Hwj Hpos Hk. apply carry_ok_gen; try assumption.
  intros h x y c Hx Hy.
  rewrite (lval_insert _ _ _ wi x) by (assumption || (rewrite list_lookup_insert_ne; auto)).
  rewrite (lval_insert _ _ _ wj y) by assumption.
  transitivity (lval ws h + c * (k * 2 ^ wj) - c * 2 ^ (sh + wi)).
  - apply eqmod_eq. rewrite Z.shiftl_mul_pow2, Z.pow_add_r by lia. ring.
  - rewrite Hk. eqmod_ring.
Qed.

(** Dropping a carry out at a weight that is a multiple of the modulus. *)
Lemma floor_top_ok w sh i ws m wi :
  0 <= sh -> ws !! i = Some wi -> 0 <= wi -> 2 ^ (sh + wi) ≡[m] 0 ->
  step_ok m ws ws (floor_top w sh i) (afloor_top w sh i).
Proof.
  intros Hsh Hwi Hpos Hm h Is Is' Hh. unfold afloor_top. intros [I [HI Ha]]%bind_inv.
  destruct (zins_lookup _ _ _ _ Hh HI) as [x [Hx Hex]].
  destruct (_ && _) eqn:Hfit in Ha; [injection Ha as <- | discriminate].
  rewrite andb_true_iff in Hfit. destruct Hfit as [HL HR].
  pose proof (ev_shr _ _ _ sh Hex Hsh) as Hc.
  assert (Hl : ev (cshl w (#(Z.shiftr x sh)) sh) (Z.shiftl (Z.shiftr x sh) sh)
                 (ishl (ishr I sh) sh)).
  { apply ev_shl; [split; [reflexivity | apply Hc] | exact Hsh | exact HL]. }
  assert (Hr : zin (x - Z.shiftl (Z.shiftr x sh) sh) (0, 2 ^ sh - 1)).
  { pose proof (carry_rest x 0 sh Hsh) as E. rewrite !Z.add_0_r, Z.sub_0_r in E. rewrite E.
    pose proof (Z.mod_pos_bound x (2 ^ sh)).
    assert (0 < 2 ^ sh) by (apply Z.pow_pos_nonneg; lia). unfold zin. cbn [fst snd]. lia. }
  unfold floor_top. rewrite (ev_Some _ _ _ Hc). cbn [mbind option_bind].
  rewrite Hx, (ev_Some _ _ _ Hl). cbn [csub mbind option_bind].
  rewrite (chk_fits _ _ _ Hr HR). cbn [mbind option_bind].
  eexists. split; [reflexivity|]. split; [apply zins_insert; assumption|].
  rewrite (lval_insert _ _ _ wi x) by assumption.
  transitivity (lval ws h - Z.shiftr x sh * 2 ^ (sh + wi)).
  - apply eqmod_eq. rewrite Z.shiftl_mul_pow2, Z.pow_add_r by lia. ring.
  - rewrite Hm. eqmod_ring.
Qed.

(** Discharge [prog_ok] of a program of carries between live limbs. *)
Ltac carry_tac :=
  first
    [ eapply carry_ok; [lia | lia | reflexivity | reflexivity | lia | eval_closed]
    | eapply floor_top_ok; [lia | reflexivity | lia | eval_closed] ].

Ltac prog_tac := repeat (eapply prog_cons; [carry_tac|]); apply prog_nil.
