(* ===== verification/Fe.v ===== *)
(** * Field elements: representation and the linear operations

    [typedef int32_t fe[10]] of src/src/base/tools/cryptonote/crypto-ops.h and
    the operations of crypto-ops.c without carries.  A field element is ten
    signed limbs of alternating 26 and 25 bits; the functions are translated
    limb by limb and fail where a 32-bit operation would overflow. *)

From S2P Require Import Prelude.
From S2P Require Import CInt.
From S2P Require Import Limbs.
Local Open Scope cint_scope.

(** ** Data *)

Abbreviation fe := (list Z).

(** p = 2^255 - 19. *)
Definition p : Z := 57896044618658097711785492504343953926634992332820282019728792003956564819949.

Definition fe_weights : list Z := [0; 26; 51; 77; 102; 128; 153; 179; 204; 230].

(** The integer a field element stands for. *)
Definition fe_val (f : fe) : Z := lval fe_weights f.

(** [fe_within c f]: |f| bounded by c/100 times 2^25, 2^24, 2^25, 2^24, etc.,
    the form in which the code states its pre- and postconditions. *)
Definition fe_bound (c w : Z) : itv := sym (c * w / 100).

Definition fe_bounds (c : Z) : list itv :=
  [fe_bound c 33554432; fe_bound c 16777216; fe_bound c 33554432; fe_bound c 16777216;
   fe_bound c 33554432; fe_bound c 16777216; fe_bound c 33554432; fe_bound c 16777216;
   fe_bound c 33554432; fe_bound c 16777216].

Definition fe_within (c : Z) (f : fe) : Prop := zins f (fe_bounds c).

#[export] Instance fe_within_dec c f : Decision (fe_within c f).
Proof. unfold fe_within, zins. apply _. Defined.

(** Collect the limbs computed by a function. *)
Fixpoint limbs (cs : list cval) : option (list Z) :=
  match cs with
  | [] => Some []
  | c :: cs => x ← c; xs ← limbs cs; Some (x :: xs)
  end.

(** ** Operations *)

Definition fe_0 : fe := [0; 0; 0; 0; 0; 0; 0; 0; 0; 0].

Definition fe_1 : fe := [1; 0; 0; 0; 0; 0; 0; 0; 0; 0].

Definition fe_add (f g : fe) : option fe :=
  let f0 := f !! 0%nat in let f1 := f !! 1%nat in let f2 := f !! 2%nat in
  let f3 := f !! 3%nat in let f4 := f !! 4%nat in let f5 := f !! 5%nat in
  let f6 := f !! 6%nat in let f7 := f !! 7%nat in let f8 := f !! 8%nat in
  let f9 := f !! 9%nat in
  let g0 := g !! 0%nat in let g1 := g !! 1%nat in let g2 := g !! 2%nat in
  let g3 := g !! 3%nat in let g4 := g !! 4%nat in let g5 := g !! 5%nat in
  let g6 := g !! 6%nat in let g7 := g !! 7%nat in let g8 := g !! 8%nat in
  let g9 := g !! 9%nat in
  limbs [f0 ⊞ g0; f1 ⊞ g1; f2 ⊞ g2; f3 ⊞ g3; f4 ⊞ g4;
         f5 ⊞ g5; f6 ⊞ g6; f7 ⊞ g7; f8 ⊞ g8; f9 ⊞ g9].

Definition fe_sub (f g : fe) : option fe :=
  let f0 := f !! 0%nat in let f1 := f !! 1%nat in let f2 := f !! 2%nat in
  let f3 := f !! 3%nat in let f4 := f !! 4%nat in let f5 := f !! 5%nat in
  let f6 := f !! 6%nat in let f7 := f !! 7%nat in let f8 := f !! 8%nat in
  let f9 := f !! 9%nat in
  let g0 := g !! 0%nat in let g1 := g !! 1%nat in let g2 := g !! 2%nat in
  let g3 := g !! 3%nat in let g4 := g !! 4%nat in let g5 := g !! 5%nat in
  let g6 := g !! 6%nat in let g7 := g !! 7%nat in let g8 := g !! 8%nat in
  let g9 := g !! 9%nat in
  limbs [f0 ⊟ g0; f1 ⊟ g1; f2 ⊟ g2; f3 ⊟ g3; f4 ⊟ g4;
         f5 ⊟ g5; f6 ⊟ g6; f7 ⊟ g7; f8 ⊟ g8; f9 ⊟ g9].

Definition fe_neg (f : fe) : option fe :=
  let f0 := f !! 0%nat in let f1 := f !! 1%nat in let f2 := f !! 2%nat in
  let f3 := f !! 3%nat in let f4 := f !! 4%nat in let f5 := f !! 5%nat in
  let f6 := f !! 6%nat in let f7 := f !! 7%nat in let f8 := f !! 8%nat in
  let f9 := f !! 9%nat in
  let neg := copp W32 in
  limbs [neg f0; neg f1; neg f2; neg f3; neg f4; neg f5; neg f6; neg f7; neg f8; neg f9].

Definition fe_copy (f : fe) : option fe :=
  limbs [f !! 0%nat; f !! 1%nat; f !! 2%nat; f !! 3%nat; f !! 4%nat;
         f !! 5%nat; f !! 6%nat; f !! 7%nat; f !! 8%nat; f !! 9%nat].

(** The assertion of fe_cmov, on an [unsigned int]. *)
Definition cmov_assert (b : Z) : bool :=
  let bnot x := 4294967295 - x in
  Z.lor (Z.land (to_u32 (b - 1)) (bnot b))
        (Z.land (to_u32 (b - 2)) (bnot (to_u32 (b - 1)))) =? 4294967295.

(** One limb of fe_cmov: [x = f ^ g; x &= b; f ^ x] with [b] negated as an
    [unsigned int], so that [&] is computed on unsigned values. *)
Definition cmov_limb (b : Z) (f g : cval) : cval :=
  a ← f; c ← g;
  let x := Z.lxor a c in
  let x := to_i32 (Z.land (to_u32 x) (to_u32 (- b))) in
  Some (Z.lxor a x).

Definition fe_cmov (f g : fe) (b : Z) : option fe :=
  if cmov_assert b then
    let cmov i := cmov_limb b (f !! i) (g !! i) in
    limbs [cmov 0%nat; cmov 1%nat; cmov 2%nat; cmov 3%nat; cmov 4%nat;
           cmov 5%nat; cmov 6%nat; cmov 7%nat; cmov 8%nat; cmov 9%nat]
  else None.

(** ** Lemmas *)

(** Open a bounded field element into its limbs. *)
Ltac fe_open H := unfold fe_within, fe_bounds in H; zins_open H.

Ltac fe_close :=
  unfold fe_within, fe_bounds; repeat (apply zins_cons; [try assumption|]); try apply zins_nil.

Lemma fe_bound_add a b w x y :
  zin x (fe_bound a w) -> zin y (fe_bound b w) -> zin (x + y) (fe_bound (a + b) w).
Proof.
  unfold zin, fe_bound, sym. simpl. rewrite Z.mul_add_distr_r. intros Hx Hy.
  pose proof (Z.div_mod (a * w) 100). pose proof (Z.div_mod (b * w) 100).
  pose proof (Z.div_mod (a * w + b * w) 100).
  pose proof (Z.mod_pos_bound (a * w) 100). pose proof (Z.mod_pos_bound (b * w) 100).
  pose proof (Z.mod_pos_bound (a * w + b * w) 100). lia.
Qed.

Lemma fe_bound_opp c w x : zin x (fe_bound c w) -> zin (- x) (fe_bound c w).
Proof. unfold zin, fe_bound, sym. simpl. lia. Qed.

Lemma fe_bound_mono a b w x : 0 <= w -> a <= b -> zin x (fe_bound a w) -> zin x (fe_bound b w).
Proof.
  unfold zin, fe_bound, sym. simpl. intros Hw Hab Hx.
  assert (a * w / 100 <= b * w / 100) by (apply Z.div_le_mono; nia). lia.
Qed.

(** Sums of limbs that stay well inside an [int32_t]. *)
Lemma fe_bound_fits c w x :
  c <= 6000 -> 0 <= w <= 33554432 -> zin x (fe_bound c w) -> chk W32 x = Some x.
Proof.
  intros Hc Hw Hx. apply (chk_fits W32 x (sym 2013265920)); [|reflexivity].
  assert (Hw' : zin x (fe_bound 6000 w)) by (eapply fe_bound_mono; [..|exact Hx]; lia).
  assert (6000 * w / 100 <= 2013265920) by (apply Z.div_le_upper_bound; lia).
  unfold zin, fe_bound, sym in *. cbn [fst snd] in *. lia.
Qed.

Lemma fe_within_mono a b f : a <= b -> fe_within a f -> fe_within b f.
Proof. intros Hab H. fe_open H. fe_close; (eapply fe_bound_mono; [| |eassumption]; lia). Qed.

Lemma fe_0_within c : 0 <= c -> fe_within c fe_0.
Proof.
  intros Hc. apply (fe_within_mono 0); [exact Hc|].
  apply (bool_decide_eq_true_1 (fe_within 0 fe_0)). eval_closed.
Qed.

Lemma fe_1_within c : 1 <= c -> fe_within c fe_1.
Proof.
  intros Hc. apply (fe_within_mono 1); [exact Hc|].
  apply (bool_decide_eq_true_1 (fe_within 1 fe_1)). eval_closed.
Qed.

Lemma fe_val_0 : fe_val fe_0 = 0.
Proof. reflexivity. Qed.

Lemma fe_val_1 : fe_val fe_1 = 1.
Proof. reflexivity. Qed.

Lemma chk_add a b w x y :
  zin x (fe_bound a w) -> zin y (fe_bound b w) -> a + b <= 6000 -> 0 <= w <= 33554432 ->
  chk W32 (x + y) = Some (x + y).
Proof. intros. apply (fe_bound_fits (a + b) w); [lia | lia | apply fe_bound_add; assumption]. Qed.

Lemma chk_sub a b w x y :
  zin x (fe_bound a w) -> zin y (fe_bound b w) -> a + b <= 6000 -> 0 <= w <= 33554432 ->
  chk W32 (x - y) = Some (x - y).
Proof. intros. rewrite <- Z.add_opp_r. apply (chk_add a b w); auto using fe_bound_opp. Qed.

Lemma chk_opp c w x :
  zin x (fe_bound c w) -> c <= 6000 -> 0 <= w <= 33554432 -> chk W32 (- x) = Some (- x).
Proof. intros. apply (fe_bound_fits c w); auto using fe_bound_opp. Qed.

Lemma fe_add_ok a b f g :
  a + b <= 6000 -> fe_within a f -> fe_within b g ->
  exists h, fe_add f g = Some h /\ fe_within (a + b) h /\ fe_val h = fe_val f + fe_val g.
Proof.
  intros Hab Hf Hg. fe_open Hf. fe_open Hg.
  unfold fe_add. cbn [lookup list_lookup cadd mbind option_bind limbs].
  do 10 (erewrite (chk_add a b) by (eassumption || lia)).
  cbn. eexists. split; [reflexivity|]. split.
  - fe_close; apply fe_bound_add; assumption.
  - unfold fe_val. cbn [lval fe_weights]. ring.
Qed.

Lemma fe_sub_ok a b f g :
  a + b <= 6000 -> fe_within a f -> fe_within b g ->
  exists h, fe_sub f g = Some h /\ fe_within (a + b) h /\ fe_val h = fe_val f - fe_val g.
Proof.
  intros Hab Hf Hg. fe_open Hf. fe_open Hg.
  unfold fe_sub. cbn [lookup list_lookup csub mbind option_bind limbs].
  do 10 (erewrite (chk_sub a b) by (eassumption || lia)).
  cbn. eexists. split; [reflexivity|]. split.
  - fe_close; rewrite <- Z.add_opp_r; apply fe_bound_add; auto using fe_bound_opp.
  - unfold fe_val. cbn [lval fe_weights]. ring.
Qed.

Lemma fe_neg_ok c f :
  c <= 6000 -> fe_within c f ->
  exists h, fe_neg f = Some h /\ fe_within c h /\ fe_val h = - fe_val f.
Proof.
  intros Hc Hf. fe_open Hf.
  unfold fe_neg. cbn [lookup list_lookup copp mbind option_bind limbs].
  do 10 (erewrite (chk_opp c) by (eassumption || lia)).
  cbn. eexists. split; [reflexivity|]. split.
  - fe_close; apply fe_bound_opp; assumption.
  - unfold fe_val. cbn [lval fe_weights]. ring.
Qed.

Lemma fe_copy_ok c f : fe_within c f -> fe_copy f = Some f.
Proof. intros Hf. fe_open Hf. reflexivity. Qed.

Lemma to_i32_u32 x : to_i32 (to_u32 x) = to_i32 x.
Proof. unfold to_i32, to_u32. rewrite Zplus_mod_idemp_l. reflexivity. Qed.

Lemma cmov_limb_0 x y : cmov_limb 0 (Some x) (Some y) = Some x.
Proof.
  cbn. change (to_u32 0) with 0. rewrite Z.land_0_r. cbn. rewrite Z.lxor_0_r. reflexivity.
Qed.

Lemma i32_shiftr z :
  -2147483648 <= z <= 2147483647 <-> Z.shiftr z 31 = 0 \/ Z.shiftr z 31 = -1.
Proof.
  rewrite Z.shiftr_div_pow2 by lia. change (2 ^ 31) with 2147483648.
  pose proof (Z.div_mod z 2147483648). pose proof (Z.mod_pos_bound z 2147483648). lia.
Qed.

Lemma lxor_i32_range x y :
  -2147483648 <= x <= 2147483647 -> -2147483648 <= y <= 2147483647 ->
  -2147483648 <= Z.lxor x y <= 2147483647.
Proof.
  rewrite !i32_shiftr, Z.shiftr_lxor.
  intros [-> | ->] [-> | ->]; cbn; auto.
Qed.

Lemma cmov_limb_1 x y :
  -2147483648 <= x <= 2147483647 -> -2147483648 <= y <= 2147483647 ->
  cmov_limb 1 (Some x) (Some y) = Some y.
Proof.
  intros Hx Hy. pose proof (lxor_i32_range x y Hx Hy) as Hxy. cbn.
  change (to_u32 (- (1))) with (Z.ones 32). rewrite Z.land_ones by lia.
  change (2 ^ 32) with 4294967296. fold (to_u32 (to_u32 (Z.lxor x y))).
  rewrite !to_i32_u32. unfold to_i32. rewrite Z.mod_small by lia.
  f_equal. replace (Z.lxor x y + 2147483648 - 2147483648) with (Z.lxor x y) by ring.
  rewrite <- Z.lxor_assoc, Z.lxor_nilpotent. reflexivity.
Qed.

Lemma fe_bound_i32 c w x :
  zin x (fe_bound c w) -> c <= 6000 -> 0 <= w <= 33554432 -> -2147483648 <= x <= 2147483647.
Proof.
  intros Hx Hc Hw. pose proof (fe_bound_fits c w x Hc Hw Hx) as H. unfold chk in H.
  destruct (_ && _) eqn:E in H; [|discriminate]. rewrite andb_true_iff, !Z.leb_le in E.
  exact E.
Qed.

(** fe_cmov replaces [f] by [g] when [b = 1] and keeps it when [b = 0]. *)
Lemma fe_cmov_ok a c f g b :
  a <= 6000 -> c <= 6000 -> fe_within a f -> fe_within c g -> b = 0 \/ b = 1 ->
  fe_cmov f g b = Some (if b =? 1 then g else f).
Proof.
  intros Ha Hc Hf Hg Hb. fe_open Hf. fe_open Hg.
  unfold fe_cmov. cbn [lookup list_lookup].
  destruct Hb as [-> | ->]; [change (cmov_assert 0) with true | change (cmov_assert 1) with true];
    cbv iota beta zeta.
  - rewrite !cmov_limb_0. reflexivity.
  - do 10 (rewrite cmov_limb_1 by (eapply fe_bound_i32; [eassumption|lia|lia])). reflexivity.
Qed.
