(* ===== verification/FeMul.v ===== *)
(** * Multiplication and squaring of field elements

    [fe_mul], [fe_sq] and [fe_sq2] of crypto-ops.c: 32-bit precomputations,
    64-bit schoolbook products, and the twelve carries that bring the limbs
    back to 26 and 25 bits. *)

From S2P Require Import Prelude.
From S2P Require Import CInt.
From S2P Require Import Limbs.
From S2P Require Import Fe.
Local Open Scope cint_scope.

(** ** Operations *)

(** [carry = (h_i + (int64_t) (1<<25)) >> 26; h_j += carry; h_i -= carry << 26]. *)
Definition carry26 (i j : nat) : step := carry W64 26 33554432 1 i j.

(** [carry = (h_i + (int64_t) (1<<24)) >> 25; h_j += carry; h_i -= carry << 25]. *)
Definition carry25 (i j : nat) : step := carry W64 25 16777216 1 i j.

(** The wrap-around [h0 += carry9 * 19]. *)
Definition carry25_19 (i j : nat) : step := carry W64 25 16777216 19 i j.

(** The carry chain shared by the three functions. *)
Definition fe_carry : list step :=
  [carry26 0 1; carry26 4 5;
   carry25 1 2; carry25 5 6;
   carry26 2 3; carry26 6 7;
   carry25 3 4; carry25 7 8;
   carry26 4 5; carry26 8 9;
   carry25_19 9 0;
   carry26 0 1].

(** [h[i] = h_i], from [int64_t] to [int32_t]. *)
Definition fe_store (h : list Z) : fe := map to_i32 h.

Definition fe_mul_products (f g : fe) : option (list Z) :=
  let f0 := f !! 0%nat in let f1 := f !! 1%nat in let f2 := f !! 2%nat in
  let f3 := f !! 3%nat in let f4 := f !! 4%nat in let f5 := f !! 5%nat in
  let f6 := f !! 6%nat in let f7 := f !! 7%nat in let f8 := f !! 8%nat in
  let f9 := f !! 9%nat in let g0 := g !! 0%nat in let g1 := g !! 1%nat in
  let g2 := g !! 2%nat in let g3 := g !! 3%nat in let g4 := g !! 4%nat in
  let g5 := g !! 5%nat in let g6 := g !! 6%nat in let g7 := g !! 7%nat in
  let g8 := g !! 8%nat in let g9 := g !! 9%nat in let g1_19 := #19 ⊠ g1 in
  let g2_19 := #19 ⊠ g2 in let g3_19 := #19 ⊠ g3 in let g4_19 := #19 ⊠ g4 in
  let g5_19 := #19 ⊠ g5 in let g6_19 := #19 ⊠ g6 in let g7_19 := #19 ⊠ g7 in
  let g8_19 := #19 ⊠ g8 in let g9_19 := #19 ⊠ g9 in let f1_2 := #2 ⊠ f1 in
  let f3_2 := #2 ⊠ f3 in let f5_2 := #2 ⊠ f5 in let f7_2 := #2 ⊠ f7 in
  let f9_2 := #2 ⊠ f9 in let f0g0 := f0 ⊗ g0 in let f0g1 := f0 ⊗ g1 in
  let f0g2 := f0 ⊗ g2 in let f0g3 := f0 ⊗ g3 in let f0g4 := f0 ⊗ g4 in
  let f0g5 := f0 ⊗ g5 in let f0g6 := f0 ⊗ g6 in let f0g7 := f0 ⊗ g7 in
  let f0g8 := f0 ⊗ g8 in let f0g9 := f0 ⊗ g9 in let f1g0 := f1 ⊗ g0 in
  let f1g1_2 := f1_2 ⊗ g1 in let f1g2 := f1 ⊗ g2 in let f1g3_2 := f1_2 ⊗ g3 in
  let f1g4 := f1 ⊗ g4 in let f1g5_2 := f1_2 ⊗ g5 in let f1g6 := f1 ⊗ g6 in
  let f1g7_2 := f1_2 ⊗ g7 in let f1g8 := f1 ⊗ g8 in let f1g9_38 := f1_2 ⊗ g9_19 in
  let f2g0 := f2 ⊗ g0 in let f2g1 := f2 ⊗ g1 in let f2g2 := f2 ⊗ g2 in
  let f2g3 := f2 ⊗ g3 in let f2g4 := f2 ⊗ g4 in let f2g5 := f2 ⊗ g5 in
  let f2g6 := f2 ⊗ g6 in let f2g7 := f2 ⊗ g7 in let f2g8_19 := f2 ⊗ g8_19 in
  let f2g9_19 := f2 ⊗ g9_19 in let f3g0 := f3 ⊗ g0 in let f3g1_2 := f3_2 ⊗ g1 in
  let f3g2 := f3 ⊗ g2 in let f3g3_2 := f3_2 ⊗ g3 in let f3g4 := f3 ⊗ g4 in
  let f3g5_2 := f3_2 ⊗ g5 in let f3g6 := f3 ⊗ g6 in let f3g7_38 := f3_2 ⊗ g7_19 in
  let f3g8_19 := f3 ⊗ g8_19 in let f3g9_38 := f3_2 ⊗ g9_19 in let f4g0 := f4 ⊗ g0 in
  let f4g1 := f4 ⊗ g1 in let f4g2 := f4 ⊗ g2 in let f4g3 := f4 ⊗ g3 in
  let f4g4 := f4 ⊗ g4 in let f4g5 := f4 ⊗ g5 in let f4g6_19 := f4 ⊗ g6_19 in
  let f4g7_19 := f4 ⊗ g7_19 in let f4g8_19 := f4 ⊗ g8_19 in let f4g9_19 := f4 ⊗ g9_19 in
  let f5g0 := f5 ⊗ g0 in let f5g1_2 := f5_2 ⊗ g1 in let f5g2 := f5 ⊗ g2 in
  let f5g3_2 := f5_2 ⊗ g3 in let f5g4 := f5 ⊗ g4 in let f5g5_38 := f5_2 ⊗ g5_19 in
  let f5g6_19 := f5 ⊗ g6_19 in let f5g7_38 := f5_2 ⊗ g7_19 in let f5g8_19 := f5 ⊗ g8_19 in
  let f5g9_38 := f5_2 ⊗ g9_19 in let f6g0 := f6 ⊗ g0 in let f6g1 := f6 ⊗ g1 in
  let f6g2 := f6 ⊗ g2 in let f6g3 := f6 ⊗ g3 in let f6g4_19 := f6 ⊗ g4_19 in
  let f6g5_19 := f6 ⊗ g5_19 in let f6g6_19 := f6 ⊗ g6_19 in let f6g7_19 := f6 ⊗ g7_19 in
  let f6g8_19 := f6 ⊗ g8_19 in let f6g9_19 := f6 ⊗ g9_19 in let f7g0 := f7 ⊗ g0 in
  let f7g1_2 := f7_2 ⊗ g1 in let f7g2 := f7 ⊗ g2 in let f7g3_38 := f7_2 ⊗ g3_19 in
  let f7g4_19 := f7 ⊗ g4_19 in let f7g5_38 := f7_2 ⊗ g5_19 in let f7g6_19 := f7 ⊗ g6_19 in
  let f7g7_38 := f7_2 ⊗ g7_19 in let f7g8_19 := f7 ⊗ g8_19 in
  let f7g9_38 := f7_2 ⊗ g9_19 in let f8g0 := f8 ⊗ g0 in let f8g1 := f8 ⊗ g1 in
  let f8g2_19 := f8 ⊗ g2_19 in let f8g3_19 := f8 ⊗ g3_19 in let f8g4_19 := f8 ⊗ g4_19 in
  let f8g5_19 := f8 ⊗ g5_19 in let f8g6_19 := f8 ⊗ g6_19 in let f8g7_19 := f8 ⊗ g7_19 in
  let f8g8_19 := f8 ⊗ g8_19 in let f8g9_19 := f8 ⊗ g9_19 in let f9g0 := f9 ⊗ g0 in
  let f9g1_38 := f9_2 ⊗ g1_19 in let f9g2_19 := f9 ⊗ g2_19 in
  let f9g3_38 := f9_2 ⊗ g3_19 in let f9g4_19 := f9 ⊗ g4_19 in
  let f9g5_38 := f9_2 ⊗ g5_19 in let f9g6_19 := f9 ⊗ g6_19 in
  let f9g7_38 := f9_2 ⊗ g7_19 in let f9g8_19 := f9 ⊗ g8_19 in
  let f9g9_38 := f9_2 ⊗ g9_19 in
  let h0 := f0g0 ⊕ f1g9_38 ⊕ f2g8_19 ⊕ f3g7_38 ⊕ f4g6_19 ⊕ f5g5_38 ⊕ f6g4_19 ⊕ f7g3_38 ⊕ f8g2_19 ⊕ f9g1_38 in
  let h1 := f0g1 ⊕ f1g0 ⊕ f2g9_19 ⊕ f3g8_19 ⊕ f4g7_19 ⊕ f5g6_19 ⊕ f6g5_19 ⊕ f7g4_19 ⊕ f8g3_19 ⊕ f9g2_19 in
  let h2 := f0g2 ⊕ f1g1_2 ⊕ f2g0 ⊕ f3g9_38 ⊕ f4g8_19 ⊕ f5g7_38 ⊕ f6g6_19 ⊕ f7g5_38 ⊕ f8g4_19 ⊕ f9g3_38 in
  let h3 := f0g3 ⊕ f1g2 ⊕ f2g1 ⊕ f3g0 ⊕ f4g9_19 ⊕ f5g8_19 ⊕ f6g7_19 ⊕ f7g6_19 ⊕ f8g5_19 ⊕ f9g4_19 in
  let h4 := f0g4 ⊕ f1g3_2 ⊕ f2g2 ⊕ f3g1_2 ⊕ f4g0 ⊕ f5g9_38 ⊕ f6g8_19 ⊕ f7g7_38 ⊕ f8g6_19 ⊕ f9g5_38 in
  let h5 := f0g5 ⊕ f1g4 ⊕ f2g3 ⊕ f3g2 ⊕ f4g1 ⊕ f5g0 ⊕ f6g9_19 ⊕ f7g8_19 ⊕ f8g7_19 ⊕ f9g6_19 in
  let h6 := f0g6 ⊕ f1g5_2 ⊕ f2g4 ⊕ f3g3_2 ⊕ f4g2 ⊕ f5g1_2 ⊕ f6g0 ⊕ f7g9_38 ⊕ f8g8_19 ⊕ f9g7_38 in
  let h7 := f0g7 ⊕ f1g6 ⊕ f2g5 ⊕ f3g4 ⊕ f4g3 ⊕ f5g2 ⊕ f6g1 ⊕ f7g0 ⊕ f8g9_19 ⊕ f9g8_19 in
  let h8 := f0g8 ⊕ f1g7_2 ⊕ f2g6 ⊕ f3g5_2 ⊕ f4g4 ⊕ f5g3_2 ⊕ f6g2 ⊕ f7g1_2 ⊕ f8g0 ⊕ f9g9_38 in
  let h9 := f0g9 ⊕ f1g8 ⊕ f2g7 ⊕ f3g6 ⊕ f4g5 ⊕ f5g4 ⊕ f6g3 ⊕ f7g2 ⊕ f8g1 ⊕ f9g0 in
  limbs [h0; h1; h2; h3; h4; h5; h6; h7; h8; h9].

Definition fe_mul (f g : fe) : option fe :=
  h ← fe_mul_products f g; h ← run fe_carry h; Some (fe_store h).

Definition fe_sq_products (f : fe) : option (list Z) :=
  let f0 := f !! 0%nat in let f1 := f !! 1%nat in let f2 := f !! 2%nat in
  let f3 := f !! 3%nat in let f4 := f !! 4%nat in let f5 := f !! 5%nat in
  let f6 := f !! 6%nat in let f7 := f !! 7%nat in let f8 := f !! 8%nat in
  let f9 := f !! 9%nat in let f0_2 := #2 ⊠ f0 in let f1_2 := #2 ⊠ f1 in
  let f2_2 := #2 ⊠ f2 in let f3_2 := #2 ⊠ f3 in let f4_2 := #2 ⊠ f4 in
  let f5_2 := #2 ⊠ f5 in let f6_2 := #2 ⊠ f6 in let f7_2 := #2 ⊠ f7 in
  let f5_38 := #38 ⊠ f5 in let f6_19 := #19 ⊠ f6 in let f7_38 := #38 ⊠ f7 in
  let f8_19 := #19 ⊠ f8 in let f9_38 := #38 ⊠ f9 in let f0f0 := f0 ⊗ f0 in
  let f0f1_2 := f0_2 ⊗ f1 in let f0f2_2 := f0_2 ⊗ f2 in let f0f3_2 := f0_2 ⊗ f3 in
  let f0f4_2 := f0_2 ⊗ f4 in let f0f5_2 := f0_2 ⊗ f5 in let f0f6_2 := f0_2 ⊗ f6 in
  let f0f7_2 := f0_2 ⊗ f7 in let f0f8_2 := f0_2 ⊗ f8 in let f0f9_2 := f0_2 ⊗ f9 in
  let f1f1_2 := f1_2 ⊗ f1 in let f1f2_2 := f1_2 ⊗ f2 in let f1f3_4 := f1_2 ⊗ f3_2 in
  let f1f4_2 := f1_2 ⊗ f4 in let f1f5_4 := f1_2 ⊗ f5_2 in let f1f6_2 := f1_2 ⊗ f6 in
  let f1f7_4 := f1_2 ⊗ f7_2 in let f1f8_2 := f1_2 ⊗ f8 in let f1f9_76 := f1_2 ⊗ f9_38 in
  let f2f2 := f2 ⊗ f2 in let f2f3_2 := f2_2 ⊗ f3 in let f2f4_2 := f2_2 ⊗ f4 in
  let f2f5_2 := f2_2 ⊗ f5 in let f2f6_2 := f2_2 ⊗ f6 in let f2f7_2 := f2_2 ⊗ f7 in
  let f2f8_38 := f2_2 ⊗ f8_19 in let f2f9_38 := f2 ⊗ f9_38 in let f3f3_2 := f3_2 ⊗ f3 in
  let f3f4_2 := f3_2 ⊗ f4 in let f3f5_4 := f3_2 ⊗ f5_2 in let f3f6_2 := f3_2 ⊗ f6 in
  let f3f7_76 := f3_2 ⊗ f7_38 in let f3f8_38 := f3_2 ⊗ f8_19 in
  let f3f9_76 := f3_2 ⊗ f9_38 in let f4f4 := f4 ⊗ f4 in let f4f5_2 := f4_2 ⊗ f5 in
  let f4f6_38 := f4_2 ⊗ f6_19 in let f4f7_38 := f4 ⊗ f7_38 in
  let f4f8_38 := f4_2 ⊗ f8_19 in let f4f9_38 := f4 ⊗ f9_38 in let f5f5_38 := f5 ⊗ f5_38 in
  let f5f6_38 := f5_2 ⊗ f6_19 in let f5f7_76 := f5_2 ⊗ f7_38 in
  let f5f8_38 := f5_2 ⊗ f8_19 in let f5f9_76 := f5_2 ⊗ f9_38 in
  let f6f6_19 := f6 ⊗ f6_19 in let f6f7_38 := f6 ⊗ f7_38 in let f6f8_38 := f6_2 ⊗ f8_19 in
  let f6f9_38 := f6 ⊗ f9_38 in let f7f7_38 := f7 ⊗ f7_38 in let f7f8_38 := f7_2 ⊗ f8_19 in
  let f7f9_76 := f7_2 ⊗ f9_38 in let f8f8_19 := f8 ⊗ f8_19 in let f8f9_38 := f8 ⊗ f9_38 in
  let f9f9_38 := f9 ⊗ f9_38 in
  let h0 := f0f0 ⊕ f1f9_76 ⊕ f2f8_38 ⊕ f3f7_76 ⊕ f4f6_38 ⊕ f5f5_38 in
  let h1 := f0f1_2 ⊕ f2f9_38 ⊕ f3f8_38 ⊕ f4f7_38 ⊕ f5f6_38 in
  let h2 := f0f2_2 ⊕ f1f1_2 ⊕ f3f9_76 ⊕ f4f8_38 ⊕ f5f7_76 ⊕ f6f6_19 in
  let h3 := f0f3_2 ⊕ f1f2_2 ⊕ f4f9_38 ⊕ f5f8_38 ⊕ f6f7_38 in
  let h4 := f0f4_2 ⊕ f1f3_4 ⊕ f2f2 ⊕ f5f9_76 ⊕ f6f8_38 ⊕ f7f7_38 in
  let h5 := f0f5_2 ⊕ f1f4_2 ⊕ f2f3_2 ⊕ f6f9_38 ⊕ f7f8_38 in
  let h6 := f0f6_2 ⊕ f1f5_4 ⊕ f2f4_2 ⊕ f3f3_2 ⊕ f7f9_76 ⊕ f8f8_19 in
  let h7 := f0f7_2 ⊕ f1f6_2 ⊕ f2f5_2 ⊕ f3f4_2 ⊕ f8f9_38 in
  let h8 := f0f8_2 ⊕ f1f7_4 ⊕ f2f6_2 ⊕ f3f5_4 ⊕ f4f4 ⊕ f9f9_38 in
  let h9 := f0f9_2 ⊕ f1f8_2 ⊕ f2f7_2 ⊕ f3f6_2 ⊕ f4f5_2 in
  limbs [h0; h1; h2; h3; h4; h5; h6; h7; h8; h9].

Definition fe_sq (f : fe) : option fe :=
  h ← fe_sq_products f; h ← run fe_carry h; Some (fe_store h).

Definition fe_sq2_products (f : fe) : option (list Z) :=
  let f0 := f !! 0%nat in let f1 := f !! 1%nat in let f2 := f !! 2%nat in
  let f3 := f !! 3%nat in let f4 := f !! 4%nat in let f5 := f !! 5%nat in
  let f6 := f !! 6%nat in let f7 := f !! 7%nat in let f8 := f !! 8%nat in
  let f9 := f !! 9%nat in let f0_2 := #2 ⊠ f0 in let f1_2 := #2 ⊠ f1 in
  let f2_2 := #2 ⊠ f2 in let f3_2 := #2 ⊠ f3 in let f4_2 := #2 ⊠ f4 in
  let f5_2 := #2 ⊠ f5 in let f6_2 := #2 ⊠ f6 in let f7_2 := #2 ⊠ f7 in
  let f5_38 := #38 ⊠ f5 in let f6_19 := #19 ⊠ f6 in let f7_38 := #38 ⊠ f7 in
  let f8_19 := #19 ⊠ f8 in let f9_38 := #38 ⊠ f9 in let f0f0 := f0 ⊗ f0 in
  let f0f1_2 := f0_2 ⊗ f1 in let f0f2_2 := f0_2 ⊗ f2 in let f0f3_2 := f0_2 ⊗ f3 in
  let f0f4_2 := f0_2 ⊗ f4 in let f0f5_2 := f0_2 ⊗ f5 in let f0f6_2 := f0_2 ⊗ f6 in
  let f0f7_2 := f0_2 ⊗ f7 in let f0f8_2 := f0_2 ⊗ f8 in let f0f9_2 := f0_2 ⊗ f9 in
  let f1f1_2 := f1_2 ⊗ f1 in let f1f2_2 := f1_2 ⊗ f2 in let f1f3_4 := f1_2 ⊗ f3_2 in
  let f1f4_2 := f1_2 ⊗ f4 in let f1f5_4 := f1_2 ⊗ f5_2 in let f1f6_2 := f1_2 ⊗ f6 in
  let f1f7_4 := f1_2 ⊗ f7_2 in let f1f8_2 := f1_2 ⊗ f8 in let f1f9_76 := f1_2 ⊗ f9_38 in
  let f2f2 := f2 ⊗ f2 in let f2f3_2 := f2_2 ⊗ f3 in let f2f4_2 := f2_2 ⊗ f4 in
  let f2f5_2 := f2_2 ⊗ f5 in let f2f6_2 := f2_2 ⊗ f6 in let f2f7_2 := f2_2 ⊗ f7 in
  let f2f8_38 := f2_2 ⊗ f8_19 in let f2f9_38 := f2 ⊗ f9_38 in let f3f3_2 := f3_2 ⊗ f3 in
  let f3f4_2 := f3_2 ⊗ f4 in let f3f5_4 := f3_2 ⊗ f5_2 in let f3f6_2 := f3_2 ⊗ f6 in
  let f3f7_76 := f3_2 ⊗ f7_38 in let f3f8_38 := f3_2 ⊗ f8_19 in
  let f3f9_76 := f3_2 ⊗ f9_38 in let f4f4 := f4 ⊗ f4 in let f4f5_2 := f4_2 ⊗ f5 in
  let f4f6_38 := f4_2 ⊗ f6_19 in let f4f7_38 := f4 ⊗ f7_38 in
  let f4f8_38 := f4_2 ⊗ f8_19 in let f4f9_38 := f4 ⊗ f9_38 in let f5f5_38 := f5 ⊗ f5_38 in
  let f5f6_38 := f5_2 ⊗ f6_19 in let f5f7_76 := f5_2 ⊗ f7_38 in
  let f5f8_38 := f5_2 ⊗ f8_19 in let f5f9_76 := f5_2 ⊗ f9_38 in
  let f6f6_19 := f6 ⊗ f6_19 in let f6f7_38 := f6 ⊗ f7_38 in let f6f8_38 := f6_2 ⊗ f8_19 in
  let f6f9_38 := f6 ⊗ f9_38 in let f7f7_38 := f7 ⊗ f7_38 in let f7f8_38 := f7_2 ⊗ f8_19 in
  let f7f9_76 := f7_2 ⊗ f9_38 in let f8f8_19 := f8 ⊗ f8_19 in let f8f9_38 := f8 ⊗ f9_38 in
  let f9f9_38 := f9 ⊗ f9_38 in
  let h0 := f0f0 ⊕ f1f9_76 ⊕ f2f8_38 ⊕ f3f7_76 ⊕ f4f6_38 ⊕ f5f5_38 in
  let h1 := f0f1_2 ⊕ f2f9_38 ⊕ f3f8_38 ⊕ f4f7_38 ⊕ f5f6_38 in
  let h2 := f0f2_2 ⊕ f1f1_2 ⊕ f3f9_76 ⊕ f4f8_38 ⊕ f5f7_76 ⊕ f6f6_19 in
  let h3 := f0f3_2 ⊕ f1f2_2 ⊕ f4f9_38 ⊕ f5f8_38 ⊕ f6f7_38 in
  let h4 := f0f4_2 ⊕ f1f3_4 ⊕ f2f2 ⊕ f5f9_76 ⊕ f6f8_38 ⊕ f7f7_38 in
  let h5 := f0f5_2 ⊕ f1f4_2 ⊕ f2f3_2 ⊕ f6f9_38 ⊕ f7f8_38 in
  let h6 := f0f6_2 ⊕ f1f5_4 ⊕ f2f4_2 ⊕ f3f3_2 ⊕ f7f9_76 ⊕ f8f8_19 in
  let h7 := f0f7_2 ⊕ f1f6_2 ⊕ f2f5_2 ⊕ f3f4_2 ⊕ f8f9_38 in
  let h8 := f0f8_2 ⊕ f1f7_4 ⊕ f2f6_2 ⊕ f3f5_4 ⊕ f4f4 ⊕ f9f9_38 in
  let h9 := f0f9_2 ⊕ f1f8_2 ⊕ f2f7_2 ⊕ f3f6_2 ⊕ f4f5_2 in
  let h0 := h0 ⊕ h0 in let h1 := h1 ⊕ h1 in let h2 := h2 ⊕ h2 in let h3 := h3 ⊕ h3 in
  let h4 := h4 ⊕ h4 in let h5 := h5 ⊕ h5 in let h6 := h6 ⊕ h6 in let h7 := h7 ⊕ h7 in
  let h8 := h8 ⊕ h8 in let h9 := h9 ⊕ h9 in
  limbs [h0; h1; h2; h3; h4; h5; h6; h7; h8; h9].

Definition fe_sq2 (f : fe) : option fe :=
  h ← fe_sq2_products f; h ← run fe_carry h; Some (fe_store h).

(** ** The carry chain *)

(** What the products leave in the limbs: at most 1.4 * 2^60 in the even and
    1.7 * 2^59 in the odd ones, as the code notes; twice that for [fe_sq2]. *)
Definition products_bounds (n : Z) : list itv :=
  let E := sym (n * 1614111200000000000) in let O := sym (n * 980000000000000000) in
  [E; O; E; O; E; O; E; O; E; O].

Lemma fe_carry_ok : exists q, prog_ok p fe_weights fe_weights fe_carry q /\
  exists Is, run q (products_bounds 2) = Some Is /\ iles Is (fe_bounds 101) = true.
Proof.
  eexists. split.
  - unfold fe_carry. prog_tac.
  - eexists. split; [vm_compute; reflexivity | eval_closed].
Qed.

Lemma fe_store_id c h : c <= 6000 -> fe_within c h -> fe_store h = h.
Proof.
  intros Hc H. fe_open H. unfold fe_store. cbn [map].
  repeat match goal with
    | H : zin ?x _ |- context [to_i32 ?x] =>
        rewrite (to_i32_id x) by (eapply fe_bound_i32; [exact H | lia | lia])
    end.
  reflexivity.
Qed.

Lemma fe_reduce_ok h :
  zins h (products_bounds 2) ->
  exists h', run fe_carry h = Some h' /\ fe_store h' = h' /\ fe_within 101 h' /\
    fe_val h' ≡[p] fe_val h.
Proof.
  intros Hh. destruct fe_carry_ok as [q [Hq [Is [Hrun Hle]]]].
  destruct (run_ok _ _ _ _ _ Hq h _ _ Hh Hrun) as [h' [-> [Hz Hv]]].
  apply (zins_weaken _ _ _ Hle) in Hz.
  exists h'. split; [reflexivity|]. split; [eapply (fe_store_id 101); [lia | exact Hz]|].
  split; [exact Hz | exact Hv].
Qed.

(** ** Products *)

(** The part of the product of limb values at weights 2^255 and above, as a
    multiple of 2^255. *)
Definition wrap_term (f g : list Z) (i j : nat) : Z :=
  (if Nat.odd i && Nat.odd j then 2 else 1) * 2 ^ nth (i + j - 10) fe_weights 0 *
  nth i f 0 * nth j g 0.

Definition wrap_quot (f g : list Z) : Z :=
  foldr Z.add 0
    (flat_map (fun i => map (wrap_term f g i) (seq (10 - i) i)) (seq 1 9)).

(** [limbs_ok cs xs Is]: the expressions evaluate to [xs] within [Is]. *)
Inductive limbs_ok : list cval -> list Z -> list itv -> Prop :=
| limbs_ok_nil : limbs_ok [] [] []
| limbs_ok_cons c cs x xs X Is :
    ev c x X -> limbs_ok cs xs Is -> limbs_ok (c :: cs) (x :: xs) (X :: Is).

Lemma limbs_ok_eval cs xs Is : limbs_ok cs xs Is -> limbs cs = Some xs /\ zins xs Is.
Proof.
  induction 1 as [|c cs x xs X Is [-> Hx] _ [IH1 IH2]]; cbn.
  - split; [reflexivity | apply zins_nil].
  - rewrite IH1. split; [reflexivity | apply zins_cons; assumption].
Qed.

Ltac limbs_tac := repeat (eapply limbs_ok_cons; [ev_step|]); apply limbs_ok_nil.

(** Bounded limbs as evaluated expressions. *)
Lemma zin_ev x I : zin x I -> ev (Some x) x I.
Proof. split; [reflexivity | assumption]. Qed.

Ltac zin_to_ev :=
  repeat match goal with H : zin ?x ?I |- _ => apply zin_ev in H end.

Lemma limbs_ok_intro (P : list Z -> Prop) cs xs Is Js :
  limbs_ok cs xs Is -> iles Is Js = true -> P xs ->
  exists h, limbs cs = Some h /\ zins h Js /\ P h.
Proof.
  intros H Hle HP. apply limbs_ok_eval in H as [H Hz].
  exists xs. split; [exact H|]. split; [eapply zins_weaken; eassumption | exact HP].
Qed.

(** Evaluate the products, bound them, and compare their value with [v] up to
    the multiple [q] of p. *)
Ltac products_tac q :=
  zin_to_ev; cbn [lookup list_lookup]; cbv zeta;
  eapply limbs_ok_intro; [limbs_tac | eval_closed |];
  apply eqmod_divide; exists q;
  unfold fe_val; cbv -[Z.mul Z.add Z.pow Z.opp]; ring.

Lemma fe_mul_products_ok f g :
  fe_within 330 f -> fe_within 330 g ->
  exists h, fe_mul_products f g = Some h /\ zins h (products_bounds 1) /\
    fe_val h ≡[p] fe_val f * fe_val g.
Proof.
  intros Hf Hg. fe_open Hf. fe_open Hg. unfold fe_mul_products.
  match goal with |- context [fe_val ?f * fe_val ?g] => products_tac (- wrap_quot f g) end.
Qed.

Lemma fe_sq_products_ok f :
  fe_within 330 f ->
  exists h, fe_sq_products f = Some h /\ zins h (products_bounds 1) /\
    fe_val h ≡[p] fe_val f * fe_val f.
Proof.
  intros Hf. fe_open Hf. unfold fe_sq_products.
  match goal with |- context [fe_val ?f * fe_val ?f] => products_tac (- wrap_quot f f) end.
Qed.

Lemma fe_sq2_products_ok f :
  fe_within 330 f ->
  exists h, fe_sq2_products f = Some h /\ zins h (products_bounds 2) /\
    fe_val h ≡[p] 2 * (fe_val f * fe_val f).
Proof.
  intros Hf. fe_open Hf. unfold fe_sq2_products.
  match goal with |- context [fe_val ?f * fe_val ?f] => products_tac (- (2 * wrap_quot f f)) end.
Qed.

(** ** The operations *)

(** Finish a product: carry its limbs, store them, and keep the value. *)
Lemma fe_finish h0 v Js :
  (exists h, h0 = Some h /\ zins h Js /\ fe_val h ≡[p] v) ->
  iles Js (products_bounds 2) = true ->
  exists h, (x ← h0; y ← run fe_carry x; Some (fe_store y)) = Some h /\
    fe_within 101 h /\ fe_val h ≡[p] v.
Proof.
  intros (h & -> & Hz & Hv) Hle. apply (zins_weaken _ _ _ Hle) in Hz.
  destruct (fe_reduce_ok h Hz) as (h' & Hrun & Hst & Hw & Hv').
  exists h'. cbn [mbind option_bind]. rewrite Hrun. cbn [mbind option_bind]. rewrite Hst.
  split; [reflexivity|]. split; [exact Hw|]. rewrite Hv'. exact Hv.
Qed.

Lemma fe_mul_ok f g :
  fe_within 330 f -> fe_within 330 g ->
  exists h, fe_mul f g = Some h /\ fe_within 101 h /\ fe_val h ≡[p] fe_val f * fe_val g.
Proof. intros Hf Hg. eapply fe_finish; [apply fe_mul_products_ok; assumption | eval_closed]. Qed.

Lemma fe_sq_ok f :
  fe_within 330 f ->
  exists h, fe_sq f = Some h /\ fe_within 101 h /\ fe_val h ≡[p] fe_val f * fe_val f.
Proof. intros Hf. eapply fe_finish; [apply fe_sq_products_ok; assumption | eval_closed]. Qed.

Lemma fe_sq2_ok f :
  fe_within 330 f ->
  exists h, fe_sq2 f = Some h /\ fe_within 101 h /\ fe_val h ≡[p] 2 * (fe_val f * fe_val f).
Proof. intros Hf. eapply fe_finish; [apply fe_sq2_products_ok; assumption | eval_closed]. Qed.
