(* ===== verification/FeBytes.v ===== *)
(** * Byte encodings of field elements

    [fe_tobytes], [fe_isnegative], [fe_isnonzero] and the [fe_frombytes] code
    that [ge_frombytes_vartime] and [ge_fromfe_frombytes_vartime] inline. *)

From S2P Require Import Prelude.
From S2P Require Import CInt.
From S2P Require Import Bytes.
From S2P Require Import Limbs.
From S2P Require Import Fe.
From S2P Require Import FeMul.
Local Open Scope cint_scope.

(** ** Encoding *)

(** An [unsigned char] from an [int]. *)
Definition byte (c : cval) : cval := z ← c; Some (to_u8 z).

(** The quotient estimate [q] of fe_tobytes. *)
Definition fe_quotient (h : fe) : cval :=
  let h0 := h !! 0%nat in let h1 := h !! 1%nat in let h2 := h !! 2%nat in
  let h3 := h !! 3%nat in let h4 := h !! 4%nat in let h5 := h !! 5%nat in
  let h6 := h !! 6%nat in let h7 := h !! 7%nat in let h8 := h !! 8%nat in
  let h9 := h !! 9%nat in
  let q := (#19 ⊠ h9 ⊞ #16777216) ≫s 25 in
  let q := (h0 ⊞ q) ≫s 26 in
  let q := (h1 ⊞ q) ≫s 25 in
  let q := (h2 ⊞ q) ≫s 26 in
  let q := (h3 ⊞ q) ≫s 25 in
  let q := (h4 ⊞ q) ≫s 26 in
  let q := (h5 ⊞ q) ≫s 25 in
  let q := (h6 ⊞ q) ≫s 26 in
  let q := (h7 ⊞ q) ≫s 25 in
  let q := (h8 ⊞ q) ≫s 26 in
  let q := (h9 ⊞ q) ≫s 25 in
  q.

(** [carry = h_i >> sh; h_j += carry; h_i -= carry << sh], in 32 bits. *)
Definition floor26 (i j : nat) : step := carry W32 26 0 1 i j.
Definition floor25 (i j : nat) : step := carry W32 25 0 1 i j.

Definition fe_freeze : list step :=
  [floor26 0 1; floor25 1 2; floor26 2 3; floor25 3 4; floor26 4 5;
   floor25 5 6; floor26 6 7; floor25 7 8; floor26 8 9; floor_top W32 25 9].

Definition fe_pack (h : fe) : option (list Z) :=
  let h0 := h !! 0%nat in let h1 := h !! 1%nat in let h2 := h !! 2%nat in
  let h3 := h !! 3%nat in let h4 := h !! 4%nat in let h5 := h !! 5%nat in
  let h6 := h !! 6%nat in let h7 := h !! 7%nat in let h8 := h !! 8%nat in
  let h9 := h !! 9%nat in
  limbs [byte (h0 ≫s 0); byte (h0 ≫s 8);
         byte (h0 ≫s 16); byte (cor (h0 ≫s 24) (h1 ≪32 2));
         byte (h1 ≫s 6); byte (h1 ≫s 14);
         byte (cor (h1 ≫s 22) (h2 ≪32 3)); byte (h2 ≫s 5);
         byte (h2 ≫s 13); byte (cor (h2 ≫s 21) (h3 ≪32 5));
         byte (h3 ≫s 3); byte (h3 ≫s 11);
         byte (cor (h3 ≫s 19) (h4 ≪32 6)); byte (h4 ≫s 2);
         byte (h4 ≫s 10); byte (h4 ≫s 18);
         byte (h5 ≫s 0); byte (h5 ≫s 8);
         byte (h5 ≫s 16); byte (cor (h5 ≫s 24) (h6 ≪32 1));
         byte (h6 ≫s 7); byte (h6 ≫s 15);
         byte (cor (h6 ≫s 23) (h7 ≪32 3)); byte (h7 ≫s 5);
         byte (h7 ≫s 13); byte (cor (h7 ≫s 21) (h8 ≪32 4));
         byte (h8 ≫s 4); byte (h8 ≫s 12);
         byte (cor (h8 ≫s 20) (h9 ≪32 6)); byte (h9 ≫s 2);
         byte (h9 ≫s 10); byte (h9 ≫s 18)].

Definition fe_tobytes (h : fe) : option (list Z) :=
  let q := fe_quotient h in
  h0 ← h !! 0%nat ⊞ #19 ⊠ q;
  h ← run fe_freeze (<[0%nat:=h0]> h);
  fe_pack h.

Definition fe_isnegative (f : fe) : option Z :=
  s ← fe_tobytes f; s0 ← s !! 0%nat; Some (Z.land s0 1).

(** [(((int) (s[0] | ... | s[31]) - 1) >> 8) + 1]. *)
Definition bytes_isnonzero (s : list Z) : Z :=
  Z.shiftr (foldl Z.lor 0 s - 1) 8 + 1.

Definition fe_isnonzero (f : fe) : option Z :=
  s ← fe_tobytes f; Some (bytes_isnonzero s).

(** ** Decoding *)

(** [int64_t h = load(s) << n]: shifted as a [uint64_t], then converted. *)
Definition ld (c : cval) (n : Z) : cval := v ← c; Some (to_i64 (to_u64 (Z.shiftl v n))).

Definition frombytes_limbs (s : list Z) (h9 : cval) : option (list Z) :=
  limbs [ld (load_4 s) 0; ld (load_3 (drop 4 s)) 6; ld (load_3 (drop 7 s)) 5;
         ld (load_3 (drop 10 s)) 3; ld (load_3 (drop 13 s)) 2; ld (load_4 (drop 16 s)) 0;
         ld (load_3 (drop 20 s)) 7; ld (load_3 (drop 23 s)) 5; ld (load_3 (drop 26 s)) 4; h9].

(** The ninth limb without, respectively with, the sign bit. *)
Definition frombytes_h9_masked (s : list Z) : cval :=
  ld (cand (load_3 (drop 29 s)) (#8388607)) 2.
Definition frombytes_h9 (s : list Z) : cval := ld (load_3 (drop 29 s)) 2.

(** The test for an encoding of a number in [p, 2^255). *)
Definition frombytes_noncanonical (h : list Z) : bool :=
  match h with
  | [h0; h1; h2; h3; h4; h5; h6; h7; h8; h9] =>
      (h9 =? 33554428) && (h8 =? 268435440) && (h7 =? 536870880) && (h6 =? 2147483520) &&
      (h5 =? 4294967295) && (h4 =? 67108860) && (h3 =? 134217720) && (h2 =? 536870880) &&
      (h1 =? 1073741760) && (4294967277 <=? h0)
  | _ => false
  end.

Definition frombytes_carry : list step :=
  [carry25_19 9 0; carry25 1 2; carry25 3 4; carry25 5 6; carry25 7 8;
   carry26 0 1; carry26 2 3; carry26 4 5; carry26 6 7; carry26 8 9].

(** ** The quotient *)

Lemma shiftr_bounds x n : 0 <= n -> 2 ^ n * Z.shiftr x n <= x < 2 ^ n * Z.shiftr x n + 2 ^ n.
Proof.
  intros Hn. rewrite Z.shiftr_div_pow2 by assumption.
  assert (0 < 2 ^ n) by (apply Z.pow_pos_nonneg; lia).
  pose proof (Z.div_mod x (2 ^ n)). pose proof (Z.mod_pos_bound x (2 ^ n)). lia.
Qed.

(** Replace shifts by fresh quotients with their bounds, innermost first. *)
Ltac name_shifts :=
  repeat match goal with
    | |- context [Z.shiftr ?x ?n] =>
        lazymatch x with context [Z.shiftr _ _] => fail | _ => idtac end;
        let H := fresh "Hq" in let q := fresh "q" in
        pose proof (shiftr_bounds x n ltac:(lia)) as H;
        eval_pows_in H;
        set (q := Z.shiftr x n) in *; clearbody q
    end.

(** The limbs of a value, as linear bounds. *)
Ltac zin_to_lia :=
  repeat match goal with
    | H : zin ?x ?I |- _ =>
        let I' := eval vm_compute in I in
        change (fst I' <= x <= snd I') in H; cbn [fst snd] in H
    | H : ev _ _ _ |- _ => apply ev_zin in H
    end.

Lemma fe_quotient_ok h :
  fe_within 320 h ->
  exists q, ev (fe_quotient h) q (-4, 4) /\ 0 <= fe_val h - q * p < p.
Proof.
  intros Hh. fe_open Hh. zin_to_ev. unfold fe_quotient. cbn [lookup list_lookup]. cbv zeta.
  eexists. split.
  - eapply ev_weaken; [ev_step | eval_closed].
  - zin_to_lia. unfold fe_val, p. cbn [lval fe_weights].
    eval_pows. name_shifts. lia.
Qed.

(** ** Freezing *)

(** 26- and 25-bit digits. *)
Definition fe_digits : list itv :=
  [(0, 67108863); (0, 33554431); (0, 67108863); (0, 33554431); (0, 67108863);
   (0, 33554431); (0, 67108863); (0, 33554431); (0, 67108863); (0, 33554431)].

Lemma fe_freeze_ok : exists q, prog_ok (2 ^ 255) fe_weights fe_weights fe_freeze q /\
  exists Is, run q (fe_bounds 360) = Some Is /\ iles Is fe_digits = true.
Proof.
  eexists. split.
  - unfold fe_freeze, floor26, floor25. prog_tac.
  - eexists. split; [vm_compute; reflexivity | eval_closed].
Qed.

Lemma fe_digits_range h : zins h fe_digits -> 0 <= fe_val h < 2 ^ 255.
Proof.
  intros H. unfold fe_digits in H. zins_open H. zin_to_lia.
  unfold fe_val. cbn [lval fe_weights]. eval_pows. lia.
Qed.

(** ** Packing *)

Lemma limbs_some_cons c cs x xs :
  c = Some x -> limbs cs = Some xs -> limbs (c :: cs) = Some (x :: xs).
Proof. intros -> H. cbn. rewrite H. reflexivity. Qed.

(** A byte read from one limb, and one that straddles two limbs. *)
Lemma pack_inside v w o n h T k :
  v / 2 ^ w = h + 2 ^ n * T -> 8 * k = w + o -> 0 <= w -> 0 <= o -> o + 8 <= n ->
  byte (cshr (Some h) o) = Some (v / 2 ^ (8 * k) mod 256).
Proof. intros HT -> Hw Ho Hn. rewrite (byte_inside v w o n h T); auto. Qed.

Lemma pack_across (W : width) v w o n h h' n' T k :
  v / 2 ^ w = h + 2 ^ n * (h' + 2 ^ n' * T) -> 0 <= h < 2 ^ n ->
  8 * k = w + o -> 0 <= w -> 0 <= o < n -> 0 <= n' -> 8 <= n - o + n' ->
  byte (cor (cshr (Some h) o) (cshl W (Some h') (n - o))) = Some (v / 2 ^ (8 * k) mod 256).
Proof.
  intros HT Hh -> Hw Ho Hn' Hn. cbn [byte cor cshr cshl mbind option_bind].
  rewrite (byte_across v w o n h h' n' T) by auto.
  rewrite !to_u8_lor. unfold to_u8 at 2. rewrite wrap_mod256. reflexivity.
Qed.

(** From [v] at the weight of one limb to [v] at the next. *)
Ltac limb_chain Hv :=
  lazymatch type of Hv with
  | ?v / 2 ^ ?w = ?h + 2 ^ ?n * ?T =>
      let H := fresh "Hw" in
      let w' := eval vm_compute in (w + n) in
      assert (H : v / 2 ^ w' = T) by
        (apply (limb_next v w n h T); [lia | lia | eval_pows; lia | exact Hv]);
      lazymatch T with _ + 2 ^ _ * 0 => idtac | _ => limb_chain H end
  end.

(** Every byte of a packing: from the windows of [v] at each limb. *)
Ltac pack_byte :=
  match goal with
  | Hw : ?v / 2 ^ ?w = ?h + 2 ^ ?n * ?T |- byte (cshr (Some ?h) ?o) = Some (?v / 2 ^ (8 * ?k) mod 256) =>
      apply (pack_inside v w o n h T k Hw); [reflexivity | lia | lia | lia]
  | Hw : ?v / 2 ^ ?w = ?h + 2 ^ ?n * (?h' + 2 ^ ?n' * ?T)
    |- byte (cor (cshr (Some ?h) ?o) (cshl ?W (Some ?h') _)) = Some (?v / 2 ^ (8 * ?k) mod 256) =>
      apply (pack_across W v w o n h h' n' T k Hw);
      [eval_pows; lia | reflexivity | lia | lia | lia | lia]
  end.

Ltac pack_tac := repeat (apply limbs_some_cons; [pack_byte|]); reflexivity.
Lemma fe_pack_ok h : zins h fe_digits -> fe_pack h = Some (le_bytes 32 (fe_val h)).
Proof.
  intros H. unfold fe_digits in H. zins_open H.
  rewrite le_bytes_at. unfold fe_pack. cbn [lookup list_lookup]. cbv zeta.
  match goal with |- context [fe_val ?l] => remember (fe_val l) as v eqn:Ev end.
  unfold fe_val in Ev. cbn [lval fe_weights] in Ev.
  match type of Ev with
  | _ = ?a * _ + (?b * _ + (?c * _ + (?d * _ + (?e * _ + (?f * _ + (?g * _ + (?h * _ + (?i * _ + (?j * _ + 0))))))))) =>
    assert (Hw0 : v / 2 ^ 0 = a + 2 ^ 26 * (b + 2 ^ 25 * (c + 2 ^ 26 * (d + 2 ^ 25 *
       (e + 2 ^ 26 * (f + 2 ^ 25 * (g + 2 ^ 26 * (h + 2 ^ 25 * (i + 2 ^ 26 *
       (j + 2 ^ 32 * 0))))))))))
      by (rewrite Z.div_1_r, Ev; eval_pows; ring)
  end.
  clear Ev. zin_to_lia.
  limb_chain Hw0.
  cbn [map seq]. pack_tac.
Qed.

(** ** The encoding functions *)

Lemma fe_bound_shift h q :
  fe_within 320 h -> zin q (-4, 4) ->
  exists h0, h !! 0%nat = Some h0 /\
    cadd W32 (#h0) (cmul W32 (#19) (#q)) = Some (h0 + 19 * q) /\
    zins (<[0%nat:=h0 + 19 * q]> h) (fe_bounds 360) /\
    fe_val (<[0%nat:=h0 + 19 * q]> h) = fe_val h + 19 * q.
Proof.
  intros Hh Hq. fe_open Hh. cbn [lookup list_lookup].
  eexists. split; [reflexivity|]. apply zin_ev in Hq.
  match goal with H : zin ?x (fe_bound 320 33554432) |- context [#?x ⊞ _] =>
    assert (H' := zin_ev _ _ H);
    assert (He : ev (#x ⊞ #19 ⊠ #q) (x + 19 * q) (fe_bound 360 33554432))
      by (eapply ev_weaken; [ev_step | eval_closed])
  end.
  split; [apply He|]. split.
  - cbn [insert list_insert]. apply zins_cons; [apply He|].
    repeat (apply zins_cons; [eapply (fe_bound_mono 320); [lia | lia | eassumption]|]).
    apply zins_nil.
  - unfold fe_val. cbn. ring.
Qed.

(** fe_tobytes encodes the canonical representative. *)
Lemma fe_tobytes_ok h :
  fe_within 320 h -> fe_tobytes h = Some (le_bytes 32 (fe_val h mod p)).
Proof.
  intros Hh. destruct (fe_quotient_ok h Hh) as (q & Hq & Hr).
  destruct (fe_bound_shift h q Hh (ev_zin _ _ _ Hq)) as (h0 & Hh0 & Hadd & Hz & Hv).
  destruct fe_freeze_ok as (a & Ha & Is & Hrun & Hle).
  destruct (run_ok _ _ _ _ _ Ha _ _ _ Hz Hrun) as (h' & Hrun' & Hz' & Hv').
  apply (zins_weaken _ _ _ Hle) in Hz'.
  assert (E : fe_val h' = fe_val h mod p).
  { pose proof (fe_digits_range h' Hz') as Hrange. fold (fe_val h') in Hv'.
    fold (fe_val (<[0%nat:=h0 + 19 * q]> h)) in Hv'. rewrite Hv in Hv'.
    apply eqmod_small in Hv'; [|exact Hrange].
    assert (Hp : p = 2 ^ 255 - 19) by reflexivity.
    replace (fe_val h + 19 * q) with ((fe_val h - q * p) + q * 2 ^ 255) in Hv' by (rewrite Hp; ring).
    rewrite Z.mod_add, Z.mod_small in Hv' by lia.
    apply Z.mod_unique with q; lia. }
  unfold fe_tobytes. rewrite (ev_Some _ _ _ Hq), Hh0, Hadd. cbn [mbind option_bind].
  rewrite Hrun'. cbn [mbind option_bind]. rewrite (fe_pack_ok h' Hz'), E. reflexivity.
Qed.

Lemma fe_isnegative_ok f :
  fe_within 320 f -> fe_isnegative f = Some (fe_val f mod p mod 2).
Proof.
  intros Hf. unfold fe_isnegative. rewrite (fe_tobytes_ok f Hf). cbn [mbind option_bind le_bytes lookup list_lookup].
  f_equal. change 1 with (Z.ones 1). rewrite Z.land_ones by lia.
  apply Z.mod_mod_divide. exists 128. reflexivity.
Qed.

Lemma is_byte_shiftr z : is_byte z <-> Z.shiftr z 8 = 0.
Proof.
  unfold is_byte. pose proof (shiftr_bounds z 8 ltac:(lia)) as H. eval_pows_in H. lia.
Qed.

Lemma lor_bytes_range a b : is_byte a -> is_byte b -> is_byte (Z.lor a b).
Proof. rewrite !is_byte_shiftr, Z.shiftr_lor. intros -> ->. reflexivity. Qed.

Lemma foldl_lor_zero s a :
  is_byte a -> is_bytes s ->
  is_byte (foldl Z.lor a s) /\ (foldl Z.lor a s = 0 <-> a = 0 /\ le_val s = 0).
Proof.
  revert a. induction s as [|b s IH]; intros a Ha Hs; cbn [foldl le_val].
  - split; [exact Ha | tauto].
  - inversion_clear Hs as [|? ? Hb Hs']. destruct (IH (Z.lor a b)) as [H1 H2].
    + apply lor_bytes_range; assumption.
    + exact Hs'.
    + split; [exact H1|]. rewrite H2, Z.lor_eq_0_iff.
      pose proof (le_val_range s Hs'). unfold is_byte in *. lia.
Qed.

(** The branch-free test of a byte string for zero. *)
Lemma bytes_isnonzero_ok s :
  is_bytes s -> bytes_isnonzero s = if le_val s =? 0 then 0 else 1.
Proof.
  intros Hs. destruct (foldl_lor_zero s 0) as [Hr Hz]; [unfold is_byte; lia | exact Hs |].
  unfold bytes_isnonzero. unfold is_byte in Hr.
  destruct (Z.eqb_spec (le_val s) 0) as [E|E].
  - rewrite (proj2 Hz) by auto. reflexivity.
  - assert (foldl Z.lor 0 s <> 0) by (intros H; apply E, Hz, H).
    rewrite Z.shiftr_div_pow2 by lia. rewrite Z.div_small; lia.
Qed.

Lemma fe_isnonzero_ok f :
  fe_within 320 f -> fe_isnonzero f = Some (if fe_val f mod p =? 0 then 0 else 1).
Proof.
  intros Hf. unfold fe_isnonzero. rewrite (fe_tobytes_ok f Hf). cbn [mbind option_bind].
  rewrite bytes_isnonzero_ok, le_bytes_val by apply le_bytes_bytes.
  pose proof (Z.mod_pos_bound (fe_val f) p). rewrite (Z.mod_small _ (2 ^ _)); [reflexivity|].
  unfold p in *. change (2 ^ (8 * Z.of_nat 32)) with
    115792089237316195423570985008687907853269984665640564039457584007913129639936. lia.
Qed.

(** ** The decoding functions *)

(** A loaded window, shifted into its limb. *)
Lemma ld_window c w j n :
  c = Some (w mod 2 ^ j) -> 0 <= j <= 32 -> 0 <= n <= 10 -> ld c n = Some (w mod 2 ^ j * 2 ^ n).
Proof.
  intros -> Hj Hn. cbn [ld mbind option_bind]. rewrite Z.shiftl_mul_pow2 by lia.
  assert (Hb : 0 <= w mod 2 ^ j < 2 ^ j) by (apply Z.mod_pos_bound, Z.pow_pos_nonneg; lia).
  assert (2 ^ j <= 2 ^ 32) by (apply Z.pow_le_mono_r; lia).
  assert (0 < 2 ^ n <= 2 ^ 10) by
    (split; [apply Z.pow_pos_nonneg; lia | apply Z.pow_le_mono_r; lia]).
  change (2 ^ 10) with 1024 in *. change (2 ^ 32) with 4294967296 in *.
  rewrite to_u64_id by nia. rewrite to_i64_id; [reflexivity | cbn; nia].
Qed.

(** The limbs of a 32-byte string: windows of its value. *)
Definition frombytes_windows (v h9 : Z) : list Z :=
  [v mod 2 ^ 32; v / 2 ^ 32 mod 2 ^ 24 * 2 ^ 6; v / 2 ^ 56 mod 2 ^ 24 * 2 ^ 5;
   v / 2 ^ 80 mod 2 ^ 24 * 2 ^ 3; v / 2 ^ 104 mod 2 ^ 24 * 2 ^ 2; v / 2 ^ 128 mod 2 ^ 32;
   v / 2 ^ 160 mod 2 ^ 24 * 2 ^ 7; v / 2 ^ 184 mod 2 ^ 24 * 2 ^ 5;
   v / 2 ^ 208 mod 2 ^ 24 * 2 ^ 4; h9].

Lemma frombytes_limbs_eq s c h9 :
  is_bytes s -> length s = 32%nat -> c = Some h9 ->
  frombytes_limbs s c = Some (frombytes_windows (le_val s) h9).
Proof.
  intros Hs Hl ->. unfold frombytes_limbs, frombytes_windows.
  change s with (drop 0 s) at 1.
  repeat (apply limbs_some_cons; [first
    [ etransitivity;
      [ eapply ld_window; [first [apply load_3_val | apply load_4_val]; [exact Hs | lia] | lia | lia]
      | f_equal; rewrite ?Z.mul_1_r, ?Z.div_1_r; reflexivity ]
    | reflexivity ] |]).
  reflexivity.
Qed.

(** Name the windows of [v] and the quotients above them, with their ranges. *)
Ltac name_windows v :=
  repeat match goal with
    | |- context [v / 2 ^ ?a mod 2 ^ ?n] => name_window (v / 2 ^ a) n
    | |- context [v mod 2 ^ ?n] => name_window v n
    | H : context [v / 2 ^ ?a mod 2 ^ ?n] |- _ => name_window (v / 2 ^ a) n
    end;
  repeat match goal with
    | H : context [v / 2 ^ ?a] |- _ =>
        let t := fresh "t" in set (t := v / 2 ^ a) in *; clearbody t; eval_pows_in H
    end
with name_window x n :=
  let H := fresh "Hwin" in let w := fresh "w" in
  pose proof (Z.mod_pos_bound x (2 ^ n) ltac:(lia)) as H;
  set (w := x mod 2 ^ n) in *; clearbody w; eval_pows_in H.

(** The windows cut a value below [2^k], [232 < k <= 256], into its limbs. *)
Lemma frombytes_windows_val v :
  0 <= v -> fe_val (frombytes_windows v (v / 2 ^ 232 * 2 ^ 2)) = v.
Proof.
  intros Hv. unfold fe_val, frombytes_windows. cbn [lval fe_weights].
  pose proof (window_split v 0 32 32 ltac:(lia) ltac:(lia) eq_refl) as E0.
  pose proof (window_split v 32 24 56 ltac:(lia) ltac:(lia) eq_refl) as E1.
  pose proof (window_split v 56 24 80 ltac:(lia) ltac:(lia) eq_refl) as E2.
  pose proof (window_split v 80 24 104 ltac:(lia) ltac:(lia) eq_refl) as E3.
  pose proof (window_split v 104 24 128 ltac:(lia) ltac:(lia) eq_refl) as E4.
  pose proof (window_split v 128 32 160 ltac:(lia) ltac:(lia) eq_refl) as E5.
  pose proof (window_split v 160 24 184 ltac:(lia) ltac:(lia) eq_refl) as E6.
  pose proof (window_split v 184 24 208 ltac:(lia) ltac:(lia) eq_refl) as E7.
  pose proof (window_split v 208 24 232 ltac:(lia) ltac:(lia) eq_refl) as E8.
  rewrite Z.div_1_r in E0. name_windows v. eval_pows. lia.
Qed.

Lemma frombytes_noncanonical_ok v :
  0 <= v < 2 ^ 255 ->
  frombytes_noncanonical (frombytes_windows v (v / 2 ^ 232 * 2 ^ 2)) = (p <=? v).
Proof.
  intros Hv. unfold frombytes_noncanonical, frombytes_windows.
  pose proof (window_split v 0 32 32 ltac:(lia) ltac:(lia) eq_refl) as E0.
  pose proof (window_split v 32 24 56 ltac:(lia) ltac:(lia) eq_refl) as E1.
  pose proof (window_split v 56 24 80 ltac:(lia) ltac:(lia) eq_refl) as E2.
  pose proof (window_split v 80 24 104 ltac:(lia) ltac:(lia) eq_refl) as E3.
  pose proof (window_split v 104 24 128 ltac:(lia) ltac:(lia) eq_refl) as E4.
  pose proof (window_split v 128 32 160 ltac:(lia) ltac:(lia) eq_refl) as E5.
  pose proof (window_split v 160 24 184 ltac:(lia) ltac:(lia) eq_refl) as E6.
  pose proof (window_split v 184 24 208 ltac:(lia) ltac:(lia) eq_refl) as E7.
  pose proof (window_split v 208 24 232 ltac:(lia) ltac:(lia) eq_refl) as E8.
  rewrite Z.div_1_r in E0. name_windows v. unfold p. eval_pows.
  apply Bool.eq_iff_eq_true. rewrite !andb_true_iff, !Z.eqb_eq, !Z.leb_le. lia.
Qed.

Lemma frombytes_windows_mod v h9 :
  frombytes_windows (v mod 2 ^ 255) h9 = frombytes_windows v h9.
Proof.
  unfold frombytes_windows.
  pose proof (fun c n => mod_div_mod v 0 255 c n ltac:(lia)) as H.
  rewrite Z.div_1_r in H. pose proof (H 0 32 ltac:(lia) ltac:(lia) ltac:(lia)) as H0.
  rewrite !Z.div_1_r in H0. rewrite H0. rewrite !H by lia. reflexivity.
Qed.

(** The limbs that ge_frombytes_vartime loads: the value without its top bit. *)
Lemma frombytes_masked_ok s :
  is_bytes s -> length s = 32%nat ->
  let v := le_val s mod 2 ^ 255 in
  frombytes_limbs s (frombytes_h9_masked s) = Some (frombytes_windows v (v / 2 ^ 232 * 2 ^ 2)).
Proof.
  intros Hs Hl v.
  unfold v at 1. rewrite frombytes_windows_mod. apply frombytes_limbs_eq; [exact Hs | exact Hl |].
  assert (E : v / 2 ^ 232 = (le_val s / 2 ^ 232 mod 2 ^ 24) mod 2 ^ 23).
  { unfold v. pose proof (le_val_range s Hs) as Hr. rewrite Hl in Hr.
    pose proof (window_split (le_val s) 232 24 256 ltac:(lia) ltac:(lia) eq_refl) as E1.
    pose proof (mod_div_mod (le_val s) 0 255 232 23 ltac:(lia) ltac:(lia) ltac:(lia) ltac:(lia)) as E2.
    rewrite Z.div_1_r in E2. rewrite (Z.div_small _ (2 ^ 256)) in E1 by exact Hr.
    rewrite Z.mul_0_r, Z.add_0_r in E1. rewrite <- E1. change (0 + 232) with 232 in E2.
    rewrite <- E2. symmetry. apply Z.mod_small.
    pose proof (Z.mod_pos_bound (le_val s) (2 ^ 255) ltac:(lia)) as Hm.
    split; [apply Z.div_pos; lia | apply Z.div_lt_upper_bound; eval_pows_in Hm; eval_pows; lia]. }
  rewrite E. unfold frombytes_h9_masked. rewrite load_3_val by (assumption || lia).
  cbn [cand mbind option_bind]. change 8388607 with (Z.ones 23). rewrite Z.land_ones by lia.
  apply (ld_window _ _ 23); [reflexivity | lia | lia].
Qed.

(** Those of ge_fromfe_frombytes_vartime: all 256 bits. *)
Lemma frombytes_unmasked_ok s :
  is_bytes s -> length s = 32%nat ->
  frombytes_limbs s (frombytes_h9 s) =
    Some (frombytes_windows (le_val s) (le_val s / 2 ^ 232 * 2 ^ 2)).
Proof.
  intros Hs Hl. apply frombytes_limbs_eq; [exact Hs | exact Hl |].
  unfold frombytes_h9. rewrite load_3_val by (assumption || lia).
  rewrite (ld_window _ (le_val s / 2 ^ 232) 24) by (reflexivity || lia).
  pose proof (le_val_range s Hs) as Hr. rewrite Hl in Hr.
  rewrite (Z.mod_small (le_val s / _)); [reflexivity|].
  split; [apply Z.div_pos; lia | apply Z.div_lt_upper_bound; [lia|]].
  rewrite <- Z.pow_add_r by lia. apply Hr.
Qed.

Definition frombytes_bounds : list itv :=
  [(0, 4294967295); (0, 1073741760); (0, 536870880); (0, 134217720); (0, 67108860);
   (0, 4294967295); (0, 2147483520); (0, 536870880); (0, 268435440); (0, 67108860)].

Lemma frombytes_windows_zins v :
  0 <= v < 2 ^ 256 -> zins (frombytes_windows v (v / 2 ^ 232 * 2 ^ 2)) frombytes_bounds.
Proof.
  intros Hv.
  assert (H9 : 0 <= v / 2 ^ 232 < 2 ^ 24).
  { split; [apply Z.div_pos; lia | apply Z.div_lt_upper_bound; [lia|]].
    rewrite <- Z.pow_add_r by lia. exact (proj2 Hv). }
  assert (Hw : forall x n k b, 0 <= n -> 0 <= k -> b = (2 ^ n - 1) * 2 ^ k ->
            zin (x mod 2 ^ n * 2 ^ k) (0, b)).
  { intros x n k b Hn Hk ->. unfold zin. cbn [fst snd].
    pose proof (Z.mod_pos_bound x (2 ^ n) ltac:(apply Z.pow_pos_nonneg; lia)).
    assert (0 < 2 ^ k) by (apply Z.pow_pos_nonneg; lia). nia. }
  assert (Hw0 : forall x, zin (x mod 2 ^ 32) (0, 4294967295)).
  { intros x. pose proof (Z.mod_pos_bound x (2 ^ 32) ltac:(lia)). unfold zin. cbn [fst snd]. lia. }
  unfold frombytes_windows, frombytes_bounds.
  repeat (apply zins_cons; [try (first [apply Hw; [lia | lia | reflexivity] | apply Hw0]) |]);
    [unfold zin; cbn [fst snd]; eval_pows_in H9; eval_pows; lia | apply zins_nil].
Qed.

Lemma frombytes_carry_ok : exists q, prog_ok p fe_weights fe_weights frombytes_carry q /\
  exists Is, run q frombytes_bounds = Some Is /\ iles Is (fe_bounds 101) = true.
Proof.
  eexists. split.
  - unfold frombytes_carry. prog_tac.
  - eexists. split; [vm_compute; reflexivity | eval_closed].
Qed.

Lemma frombytes_reduce_ok v :
  0 <= v < 2 ^ 256 ->
  exists h, run frombytes_carry (frombytes_windows v (v / 2 ^ 232 * 2 ^ 2)) = Some h /\
    fe_store h = h /\ fe_within 101 h /\ fe_val h ≡[p] v.
Proof.
  intros Hv. destruct frombytes_carry_ok as (q & Hq & Is & Hrun & Hle).
  destruct (run_ok _ _ _ _ _ Hq _ _ _ (frombytes_windows_zins v Hv) Hrun) as (h & -> & Hz & Hm).
  apply (zins_weaken _ _ _ Hle) in Hz. exists h. split; [reflexivity|].
  split; [apply (fe_store_id 101); [lia | exact Hz]|]. split; [exact Hz|].
  unfold fe_val. rewrite Hm. apply eqmod_eq, frombytes_windows_val. lia.
Qed.
