(* ===== verification/FePow.v ===== *)
(** * Inversion and roots of field elements

    The addition chains of [fe_invert] and [fe_divpowm1] of crypto-ops.c,
    which raise a field element to the powers p - 2 and (p - 5) / 8. *)

From S2P Require Import Prelude.
From S2P Require Import CInt.
From S2P Require Import Limbs.
From S2P Require Import Fe.
From S2P Require Import FeMul.

(** ** Operations *)

(** [for (i = 0; i < n; ++i) fe_sq(t, t)]. *)
Fixpoint fe_sqs (n : nat) (t : fe) : option fe :=
  match n with O => Some t | S n => t ← fe_sq t; fe_sqs n t end.

Definition fe_invert (z : fe) : option fe :=
  t0 ← fe_sq z;
  t1 ← fe_sq t0;
  t1 ← fe_sq t1;
  t1 ← fe_mul z t1;
  t0 ← fe_mul t0 t1;
  t2 ← fe_sq t0;
  t1 ← fe_mul t1 t2;
  t2 ← fe_sq t1;
  t2 ← fe_sqs 4 t2;
  t1 ← fe_mul t2 t1;
  t2 ← fe_sq t1;
  t2 ← fe_sqs 9 t2;
  t2 ← fe_mul t2 t1;
  t3 ← fe_sq t2;
  t3 ← fe_sqs 19 t3;
  t2 ← fe_mul t3 t2;
  t2 ← fe_sq t2;
  t2 ← fe_sqs 9 t2;
  t1 ← fe_mul t2 t1;
  t2 ← fe_sq t1;
  t2 ← fe_sqs 49 t2;
  t2 ← fe_mul t2 t1;
  t3 ← fe_sq t2;
  t3 ← fe_sqs 99 t3;
  t2 ← fe_mul t3 t2;
  t2 ← fe_sq t2;
  t2 ← fe_sqs 49 t2;
  t1 ← fe_mul t2 t1;
  t1 ← fe_sq t1;
  t1 ← fe_sqs 4 t1;
  fe_mul t1 t0.

(** The part of fe_divpowm1 taken from fe_pow22523.c. *)
Definition fe_pow22523 (uv7 : fe) : option fe :=
  t0 ← fe_sq uv7;
  t1 ← fe_sq t0;
  t1 ← fe_sq t1;
  t1 ← fe_mul uv7 t1;
  t0 ← fe_mul t0 t1;
  t0 ← fe_sq t0;
  t0 ← fe_mul t1 t0;
  t1 ← fe_sq t0;
  t1 ← fe_sqs 4 t1;
  t0 ← fe_mul t1 t0;
  t1 ← fe_sq t0;
  t1 ← fe_sqs 9 t1;
  t1 ← fe_mul t1 t0;
  t2 ← fe_sq t1;
  t2 ← fe_sqs 19 t2;
  t1 ← fe_mul t2 t1;
  t1 ← fe_sqs 10 t1;
  t0 ← fe_mul t1 t0;
  t1 ← fe_sq t0;
  t1 ← fe_sqs 49 t1;
  t1 ← fe_mul t1 t0;
  t2 ← fe_sq t1;
  t2 ← fe_sqs 99 t2;
  t1 ← fe_mul t2 t1;
  t1 ← fe_sqs 50 t1;
  t0 ← fe_mul t1 t0;
  t0 ← fe_sq t0;
  t0 ← fe_sq t0;
  fe_mul t0 uv7.

Definition fe_divpowm1 (u v : fe) : option fe :=
  v3 ← fe_sq v;
  v3 ← fe_mul v3 v;
  uv7 ← fe_sq v3;
  uv7 ← fe_mul uv7 v;
  uv7 ← fe_mul uv7 u;
  t0 ← fe_pow22523 uv7;
  t0 ← fe_mul t0 v3;
  fe_mul t0 u.

(** ** Powers *)

(** [pw c x f e]: [f] is within bound [c] and stands for [x^e]. *)
Definition pw (x : Z) (f : fe) (e : Z) : Prop :=
  fe_within 330 f /\ 0 <= e /\ fe_val f ≡[p] x ^ e.

(** A computation that yields the [e]-th power of [x], within 1.01. *)
Definition yields (c : option fe) (x e : Z) : Prop :=
  exists h, c = Some h /\ fe_within 101 h /\ pw x h e.

Lemma pw_intro x h e : fe_within 101 h -> 0 <= e -> fe_val h ≡[p] x ^ e -> pw x h e.
Proof. intros Hw He Hv. split; [apply (fe_within_mono 101); [lia | exact Hw] | auto]. Qed.

Lemma yields_mul x f g a b : pw x f a -> pw x g b -> yields (fe_mul f g) x (a + b).
Proof.
  intros (Hf & Ha & Ef) (Hg & Hb & Eg).
  destruct (fe_mul_ok f g Hf Hg) as (h & Hh & Hw & Hv). exists h.
  split; [exact Hh|]. split; [exact Hw|]. apply pw_intro; [exact Hw | lia |].
  rewrite Hv, Ef, Eg, Z.pow_add_r by lia. reflexivity.
Qed.

Lemma yields_sq x f a : pw x f a -> yields (fe_sq f) x (2 * a).
Proof.
  intros (Hf & Ha & Ef). destruct (fe_sq_ok f Hf) as (h & Hh & Hw & Hv). exists h.
  split; [exact Hh|]. split; [exact Hw|]. apply pw_intro; [exact Hw | lia |].
  rewrite Hv, Ef. replace (2 * a) with (a + a) by lia. rewrite Z.pow_add_r by lia. reflexivity.
Qed.

Lemma yields_sqs x n f a :
  fe_within 101 f -> pw x f a -> yields (fe_sqs n f) x (2 ^ Z.of_nat n * a).
Proof.
  revert f a. induction n as [|n IH]; intros f a Hw Hf.
  - exists f. rewrite Z.mul_1_l. auto.
  - cbn [fe_sqs]. destruct (yields_sq x f a Hf) as (h & E & Hw' & Hv).
    rewrite E. cbn [mbind option_bind].
    replace (2 ^ Z.of_nat (S n) * a) with (2 ^ Z.of_nat n * (2 * a)); [apply IH; assumption|].
    rewrite Nat2Z.inj_succ, Z.pow_succ_r by lia. ring.
Qed.

Lemma yields_bind x c k a b :
  yields c x a -> (forall h, fe_within 101 h -> pw x h a -> yields (k h) x b) ->
  yields (c ≫= k) x b.
Proof. intros (h & -> & Hw & Hv) Hk. apply Hk; assumption. Qed.

Lemma yields_exp c x a b : yields c x a -> a = b -> yields c x b.
Proof. intros H <-. exact H. Qed.

(** Follow an addition chain to its last multiplication. *)
Ltac chain_step :=
  first [apply yields_sqs | apply yields_mul | apply yields_sq]; eassumption.
Ltac chain_tac :=
  repeat (eapply yields_bind; [chain_step | intros ? ? ?]);
  eapply yields_exp; [chain_step | eval_closed].

(** fe_invert raises to the power p - 2. *)
Lemma fe_invert_pow z : fe_within 330 z -> yields (fe_invert z) (fe_val z) (p - 2).
Proof.
  intros Hz. assert (Hz1 : pw (fe_val z) z 1).
  { split; [exact Hz|]. split; [lia | rewrite Z.pow_1_r; reflexivity]. }
  unfold fe_invert. chain_tac.
Qed.

(** fe_pow22523 raises to the power (p - 5) / 8. *)
Lemma fe_pow22523_pow z : fe_within 330 z -> yields (fe_pow22523 z) (fe_val z) ((p - 5) / 8).
Proof.
  intros Hz. assert (Hz1 : pw (fe_val z) z 1).
  { split; [exact Hz|]. split; [lia | rewrite Z.pow_1_r; reflexivity]. }
  unfold fe_pow22523. chain_tac.
Qed.

Lemma fe_invert_ok z :
  fe_within 330 z ->
  exists h, fe_invert z = Some h /\ fe_within 101 h /\ fe_val h ≡[p] fe_val z ^ (p - 2).
Proof. intros Hz. destruct (fe_invert_pow z Hz) as (h & E & Hw & _ & _ & Hv). eauto. Qed.

Lemma fe_divpowm1_ok u v :
  fe_within 330 u -> fe_within 330 v ->
  exists h, fe_divpowm1 u v = Some h /\ fe_within 101 h /\
    fe_val h ≡[p] fe_val u * fe_val v ^ 3 * (fe_val u * fe_val v ^ 7) ^ ((p - 5) / 8).
Proof.
  intros Hu Hv. unfold fe_divpowm1.
  assert (Hv1 : pw (fe_val v) v 1).
  { split; [exact Hv|]. split; [lia | rewrite Z.pow_1_r; reflexivity]. }
  destruct (yields_sq _ _ _ Hv1) as (v2 & -> & _ & P2). cbn [mbind option_bind].
  destruct (yields_mul _ _ _ _ _ P2 Hv1) as (v3 & -> & W3 & P3). cbn [mbind option_bind].
  destruct (yields_sq _ _ _ P3) as (v6 & -> & _ & P6). cbn [mbind option_bind].
  destruct (yields_mul _ _ _ _ _ P6 Hv1) as (v7 & -> & W7 & P7). cbn [mbind option_bind].
  destruct P3 as (W3' & _ & E3), P7 as (W7' & _ & E7).
  change (2 * 1 + 1) with 3 in *. change (2 * 3 + 1) with 7 in E7.
  destruct (fe_mul_ok v7 u W7' Hu) as (uv7 & -> & Wu & Eu). cbn [mbind option_bind].
  apply (fe_within_mono 101 330) in Wu; [|lia].
  destruct (fe_pow22523_pow uv7 Wu) as (t0 & -> & _ & Wt & _ & Et). cbn [mbind option_bind].
  destruct (fe_mul_ok t0 v3 Wt W3') as (t1 & -> & Wt1 & Et1). cbn [mbind option_bind].
  apply (fe_within_mono 101 330) in Wt1; [|lia].
  destruct (fe_mul_ok t1 u Wt1 Hu) as (r & -> & Wr & Er).
  exists r. split; [reflexivity|]. split; [exact Wr|].
  rewrite Er, Et1, Et, E3.
  rewrite (eqmod_pow p (fe_val uv7) (fe_val u * fe_val v ^ 7)); [eqmod_ring | | ].
  - apply Z.div_pos; unfold p; lia.
  - rewrite Eu, E7. eqmod_ring.
Qed.
