(* ===== verification/Prime25519.v ===== *)
(** * p = 2^255 - 19 is prime

    A Pocklington test and the chain of certificates for p; with Fermat's
    theorem it makes the integers modulo p a field, and fe_invert an
    inversion. *)

From S2P Require Import Prelude.
From S2P Require Import Fe.
From Stdlib Require Import Znumtheory Zpow_facts Zcong.
From Stdlib Require Zmod.ZmodInv.

(** ** The test *)

Lemma prime_divisor e : 1 < e -> exists r, Z.prime r /\ (r | e).
Proof.
  intros He. assert (He0 : 0 <= e) by lia. revert e He0 He.
  apply (Z_lt_induction (fun e => 1 < e -> exists r, Z.prime r /\ (r | e))).
  intros e IH He. destruct (prime_dec e) as [Hp|Hn].
  - exists e. split; [apply prime_alt, Hp | apply Z.divide_refl].
  - destruct (not_prime_divide e He Hn) as (d & Hd & Hde).
    destruct (IH d ltac:(lia) ltac:(lia)) as (r & Hr & Hrd).
    exists r. split; [exact Hr | eapply Z.divide_trans; eassumption].
Qed.

(** A composite number has a prime divisor up to its square root. *)
Lemma small_divisor n : 1 < n -> ~ Z.prime n -> exists r, Z.prime r /\ (r | n) /\ r * r <= n.
Proof.
  intros Hn Hp. rewrite prime_alt in Hp.
  destruct (not_prime_divide n Hn Hp) as (d & Hd & c & Hc).
  assert (Hc1 : 1 < c < n) by nia.
  destruct (Z_le_gt_dec (d * d) n).
  - destruct (prime_divisor d ltac:(lia)) as (r & Hr & Hrd).
    exists r. split; [exact Hr|]. pose proof (Z.divide_pos_le r d ltac:(lia) Hrd).
    pose proof (Z.prime_ge_2 r Hr).
    split; [eapply Z.divide_trans; [exact Hrd | exists c; lia] | nia].
  - destruct (prime_divisor c ltac:(lia)) as (r & Hr & Hrc).
    exists r. split; [exact Hr|]. pose proof (Z.divide_pos_le r c ltac:(lia) Hrc).
    pose proof (Z.prime_ge_2 r Hr).
    split; [eapply Z.divide_trans; [exact Hrc | exists d; lia]|].
    assert (c < d) by nia. nia.
Qed.

(** The check of one prime [q] dividing [n - 1]. *)
Definition pock_check (n a q : Z) : bool :=
  ((n - 1) mod q =? 0) && (Zpow_mod a (n - 1) n =? 1) &&
  (Z.gcd (Zpow_mod a ((n - 1) / q) n - 1) n =? 1).

Lemma eqmod_pow_1 m b k : 0 <= k -> b ≡[m] 1 -> b ^ k ≡[m] 1.
Proof. intros Hk H. rewrite (eqmod_pow m b 1 k Hk H), Z.pow_1_l by exact Hk. reflexivity. Qed.

Lemma eqmod_0_divide m a : m <> 0 -> a ≡[m] 0 <-> (m | a).
Proof. intros Hm. unfold eqmod. rewrite Z.mod_0_l by exact Hm. apply Z.mod_divide, Hm. Qed.

Lemma eqmod_of_divide m r x y : (r | m) -> x ≡[m] y -> x ≡[r] y.
Proof.
  intros [c Hc] [z ->]%eqmod_divide. apply eqmod_divide. exists (z * c). rewrite Hc. ring.
Qed.

(** A power of [b] that is 1 keeps [b] away from 0. *)
Lemma eqmod_pow_1_nz r b q : 1 < r -> 0 < q -> b ^ q ≡[r] 1 -> ~ b ≡[r] 0.
Proof.
  intros Hr Hq H Hb. rewrite (eqmod_pow r b 0 q ltac:(lia) Hb), Z.pow_0_l in H by lia.
  unfold eqmod in H. rewrite !Z.mod_small in H by lia. lia.
Qed.

(** If coprime powers of [b] are 1, so is [b]. *)
Lemma eqmod_pow_coprime r b q s :
  0 < q -> 0 < s -> Z.coprime q s -> b ^ q ≡[r] 1 -> b ^ s ≡[r] 1 -> b ≡[r] 1.
Proof.
  intros Hq Hs Hcop Hbq Hbs. destruct (Z.eq_dec s 1) as [->|Hs1].
  { rewrite Z.pow_1_r in Hbs. exact Hbs. }
  set (u := Z.invmod q s).
  assert (Hu : u * q mod s = 1) by (apply Z.invmod_coprime; [lia | exact Hcop]).
  assert (Hu0 : 0 <= u) by (unfold u, Z.invmod; apply Z.mod_pos_bound; lia).
  pose proof (Z.div_mod (u * q) s ltac:(lia)) as Hdm. rewrite Hu in Hdm.
  assert (Hv0 : 0 <= u * q / s) by (apply Z.div_pos; nia).
  assert (Huq : b ^ (u * q) ≡[r] 1).
  { rewrite Z.mul_comm, Z.pow_mul_r by lia. apply eqmod_pow_1; assumption. }
  rewrite Hdm, Z.pow_add_r, Z.pow_1_r, Z.pow_mul_r in Huq by nia.
  rewrite (eqmod_pow_1 r (b ^ s) (u * q / s) Hv0 Hbs), Z.mul_1_l in Huq. exact Huq.
Qed.

(** Every prime divisor of [n] is 1 modulo [q]. *)
Lemma pock_divides n a q r :
  1 < n -> 0 < a -> Z.prime q -> pock_check n a q = true -> Z.prime r -> (r | n) -> (q | r - 1).
Proof.
  intros Hn Ha Hq Hc Hr Hrn. unfold pock_check in Hc.
  rewrite !andb_true_iff, !Z.eqb_eq in Hc. destruct Hc as [[Hdiv Hpow] Hgcd].
  pose proof (Z.prime_ge_2 q Hq) as Hq2. pose proof (Z.prime_ge_2 r Hr) as Hr2.
  apply Z.mod_divide in Hdiv as [k Hk]; [|lia]. rewrite Hk, Z.div_mul in Hgcd by lia.
  rewrite Zpow_mod_correct in Hpow, Hgcd by lia.
  assert (Hk0 : 0 < k) by nia.
  assert (Hbq : (a ^ k) ^ q ≡[r] 1).
  { apply (eqmod_of_divide n); [exact Hrn|]. rewrite <- Z.pow_mul_r, <- Hk by lia.
    unfold eqmod. rewrite Hpow, Z.mod_small by lia. reflexivity. }
  assert (Hb1 : ~ a ^ k ≡[r] 1).
  { intros H. assert (Hd : (r | Z.gcd (a ^ k mod n - 1) n)).
    { apply Z.gcd_greatest; [|exact Hrn]. apply eqmod_0_divide; [lia|].
      rewrite (eqmod_of_divide n r _ _ Hrn (eqmod_mod n (a ^ k))), H. reflexivity. }
    rewrite Hgcd in Hd. apply Z.divide_pos_le in Hd; lia. }
  destruct (Z.eq_dec ((r - 1) mod q) 0) as [E|E]; [apply Z.mod_divide; [lia | exact E]|].
  exfalso. apply Hb1, (eqmod_pow_coprime r _ q (r - 1)); [lia | lia | | exact Hbq |].
  - apply Z.coprime_prime_l; [exact Hq|]. intros Hd. apply E, Z.mod_divide; [lia | exact Hd].
  - unfold eqmod. rewrite (Z.mod_small 1) by lia. apply ZmodInv.Z.fermat_nz; [exact Hr|].
    intros Hz. apply (eqmod_pow_1_nz r (a ^ k) q); [lia | lia | exact Hbq |].
    unfold eqmod. rewrite Hz. symmetry. apply Z.mod_0_l. lia.
Qed.

(** One prime factor above the square root of [n] is enough, *)
Lemma pocklington n a q :
  1 < n -> 0 < a -> Z.prime q -> n < q * q -> pock_check n a q = true -> Z.prime n.
Proof.
  intros Hn Ha Hq Hqn Hc. destruct (prime_dec n) as [Hp|Hp]; [apply prime_alt, Hp|].
  rewrite <- prime_alt in Hp. destruct (small_divisor n Hn Hp) as (r & Hr & Hrn & Hrr).
  pose proof (pock_divides n a q r Hn Ha Hq Hc Hr Hrn) as Hd.
  pose proof (Z.prime_ge_2 r Hr). pose proof (Z.prime_ge_2 q Hq). apply Z.divide_pos_le in Hd; nia.
Qed.

(** as are two distinct ones whose product is. *)
Lemma pocklington2 n a q1 q2 :
  1 < n -> 0 < a -> Z.prime q1 -> Z.prime q2 -> q1 <> q2 -> n < (q1 * q2) * (q1 * q2) ->
  pock_check n a q1 = true -> pock_check n a q2 = true -> Z.prime n.
Proof.
  intros Hn Ha Hq1 Hq2 Hne Hqn Hc1 Hc2. destruct (prime_dec n) as [Hp|Hp]; [apply prime_alt, Hp|].
  rewrite <- prime_alt in Hp. destruct (small_divisor n Hn Hp) as (r & Hr & Hrn & Hrr).
  pose proof (pock_divides n a q1 r Hn Ha Hq1 Hc1 Hr Hrn) as [c Hc].
  pose proof (pock_divides n a q2 r Hn Ha Hq2 Hc2 Hr Hrn) as Hd2. rewrite Hc in Hd2.
  apply Z.divide_prime_mul in Hd2; [|exact Hq2].
  pose proof (Z.prime_ge_2 r Hr). pose proof (Z.prime_ge_2 q1 Hq1). pose proof (Z.prime_ge_2 q2 Hq2).
  destruct Hd2 as [Hd2|Hd2].
  - destruct Hd2 as [e He]. subst c. assert (0 < e) by nia. set (Q := q1 * q2) in *.
    assert (r - 1 = e * Q) by (rewrite Hc; unfold Q; ring). assert (0 < Q) by nia.
    assert (Q < r) by nia. nia.
  - apply Z.divide_prime_prime in Hd2; [congruence | assumption | assumption].
Qed.

(** Small primes by trial division. *)
Definition trial (n : Z) : bool :=
  forallb (fun d => negb (n mod Z.of_nat d =? 0)) (seq 2 (Z.to_nat n - 2)).

Lemma trial_prime n : 1 < n -> trial n = true -> Z.prime n.
Proof.
  intros Hn Ht. split; [exact Hn|]. intros d Hd Hdn.
  unfold trial in Ht. rewrite forallb_forall in Ht.
  specialize (Ht (Z.to_nat d)). rewrite Z2Nat.id in Ht by lia.
  rewrite (proj2 (Z.mod_divide n d ltac:(lia)) Hdn) in Ht.
  discriminate Ht. apply in_seq. lia.
Qed.

(** ** The certificates *)

Ltac small := apply trial_prime; [lia | eval_closed].
Ltac pock q H := apply (pocklington _ 2 q); [lia | lia | H | lia | eval_closed].
Ltac pock2 q1 H1 q2 H2 :=
  apply (pocklington2 _ 2 q1 q2); [lia | lia | H1 | H2 | lia | lia | eval_closed | eval_closed].

Lemma prime_569003 : Z.prime 569003.
Proof. pock2 419 ltac:(small) 97 ltac:(small). Qed.

Lemma prime_2773320623 : Z.prime 2773320623.
Proof. pock 569003 ltac:(apply prime_569003). Qed.

Lemma prime_72106336199 : Z.prime 72106336199.
Proof. pock 2773320623 ltac:(apply prime_2773320623). Qed.

Lemma prime_8574133 : Z.prime 8574133.
Proof. pock2 991 ltac:(small) 103 ltac:(small). Qed.

Lemma prime_1919519569386763 : Z.prime 1919519569386763.
Proof. pock2 8574133 ltac:(apply prime_8574133) 127 ltac:(small). Qed.

Lemma prime_116 : Z.prime 75445702479781427272750846543864801.
Proof.
  pock2 1919519569386763 ltac:(apply prime_1919519569386763)
        72106336199 ltac:(apply prime_72106336199).
Qed.

Lemma prime_1723 : Z.prime 1723.
Proof. pock2 41 ltac:(small) 7 ltac:(small). Qed.

Lemma prime_430751 : Z.prime 430751.
Proof. pock 1723 ltac:(apply prime_1723). Qed.

Lemma prime_4153 : Z.prime 4153.
Proof. pock 173 ltac:(small). Qed.

Lemma prime_55 : Z.prime 31757755568855353.
Proof. pock2 430751 ltac:(apply prime_430751) 4153 ltac:(apply prime_4153). Qed.

Lemma prime_236 :
  Z.prime 74058212732561358302231226437062788676166966415465897661863160754340907.
Proof.
  pock2 75445702479781427272750846543864801 ltac:(apply prime_116)
        31757755568855353 ltac:(apply prime_55).
Qed.

Lemma prime_p : Z.prime p.
Proof.
  unfold p.
  pock 74058212732561358302231226437062788676166966415465897661863160754340907
    ltac:(apply prime_236).
Qed.

(** ** The field *)

Lemma p_pos : 1 < p.
Proof. reflexivity. Qed.

Lemma fermat x : ~ x ≡[p] 0 -> x ^ (p - 1) ≡[p] 1.
Proof.
  intros Hx. unfold eqmod. rewrite (Z.mod_small 1) by (pose proof p_pos; lia).
  apply ZmodInv.Z.fermat_nz; [apply prime_p | exact Hx].
Qed.

(** No zero divisors. *)
Lemma eqmod_p_integral x y : x * y ≡[p] 0 -> x ≡[p] 0 \/ y ≡[p] 0.
Proof.
  assert (Hd : forall z, z ≡[p] 0 <-> (p | z)).
  { intros z. unfold eqmod. rewrite Z.mod_0_l by discriminate. apply Z.mod_divide. discriminate. }
  rewrite !Hd. intros H. apply Z.divide_prime_mul; [apply prime_p | exact H].
Qed.

Lemma eqmod_p_cancel x y z : ~ z ≡[p] 0 -> x * z ≡[p] y * z -> x ≡[p] y.
Proof.
  intros Hz H. assert (H0 : (x - y) * z ≡[p] 0).
  { rewrite Z.mul_sub_distr_r, H. eqmod_ring. }
  destruct (eqmod_p_integral _ _ H0) as [H1|H1]; [|contradiction].
  rewrite <- (Z.add_0_r y), <- H1. eqmod_ring.
Qed.
