(* ===== verification/Scalar.v ===== *)
(** * Scalars modulo the group order

    The reduction that the [sc_] functions of crypto-ops.c share: twelve (or
    twenty-four) 21-bit limbs in [int64_t], folds of the limbs at 2^252 and
    above, carries, and the packing into 32 bytes. *)

From S2P Require Import Prelude.
From S2P Require Import CInt.
From S2P Require Import Bytes.
From S2P Require Import Limbs.
From S2P Require Import Fe.
From S2P Require Import FeMul.
From S2P Require Import FeBytes.
Local Open Scope cint_scope.

(** The order of the base point. *)
Definition l : Z := 2 ^ 252 + 27742317777372353535851937790883648493.

(** ** Loading *)

(** [int64_t s_i = 2097151 & (load >> n)] and, for the last limb of a number,
    [int64_t s_i = (load >> n)]. *)
Definition limb21 (c : cval) (n : Z) : cval := v ← c; Some (to_i64 (Z.land 2097151 (Z.shiftr v n))).
Definition limb_top (c : cval) (n : Z) : cval := v ← c; Some (to_i64 (Z.shiftr v n)).

(** The limbs of 32 bytes. *)
Definition sc_load32 (s : list Z) : option (list Z) :=
  limbs
    [limb21 (load_3 s) 0; limb21 (load_4 (drop 2 s)) 5; limb21 (load_3 (drop 5 s)) 2;
     limb21 (load_4 (drop 7 s)) 7; limb21 (load_4 (drop 10 s)) 4; limb21 (load_3 (drop 13 s)) 1;
     limb21 (load_4 (drop 15 s)) 6; limb21 (load_3 (drop 18 s)) 3; limb21 (load_3 (drop 21 s)) 0;
     limb21 (load_4 (drop 23 s)) 5; limb21 (load_3 (drop 26 s)) 2; limb_top (load_4 (drop 28 s)) 7].

(** The limbs of 64 bytes. *)
Definition sc_load64 (s : list Z) : option (list Z) :=
  limbs
    [limb21 (load_3 s) 0; limb21 (load_4 (drop 2 s)) 5; limb21 (load_3 (drop 5 s)) 2;
     limb21 (load_4 (drop 7 s)) 7; limb21 (load_4 (drop 10 s)) 4; limb21 (load_3 (drop 13 s)) 1;
     limb21 (load_4 (drop 15 s)) 6; limb21 (load_3 (drop 18 s)) 3; limb21 (load_3 (drop 21 s)) 0;
     limb21 (load_4 (drop 23 s)) 5; limb21 (load_3 (drop 26 s)) 2; limb21 (load_4 (drop 28 s)) 7;
     limb21 (load_4 (drop 31 s)) 4; limb21 (load_3 (drop 34 s)) 1; limb21 (load_4 (drop 36 s)) 6;
     limb21 (load_3 (drop 39 s)) 3; limb21 (load_3 (drop 42 s)) 0; limb21 (load_4 (drop 44 s)) 5;
     limb21 (load_3 (drop 47 s)) 2; limb21 (load_4 (drop 49 s)) 7; limb21 (load_4 (drop 52 s)) 4;
     limb21 (load_3 (drop 55 s)) 1; limb21 (load_4 (drop 57 s)) 6; limb_top (load_4 (drop 60 s)) 3].

(** ** Steps *)

(** [carry_i = (s_i + (1<<20)) >> 21; s_j += carry_i; s_i -= carry_i << 21]. *)
Definition carry21 (i j : nat) : step := carry W64 21 1048576 1 i j.

(** [carry_i = s_i >> 21; s_j += carry_i; s_i -= carry_i << 21]. *)
Definition floor21 (i j : nat) : step := carry W64 21 0 1 i j.

(** [s_j += s_i * k] and [s_j -= s_i * k]. *)
Definition madd (k : Z) (i j : nat) : step := fun s =>
  sj ← s !! j ⊕ s !! i ⊗ #k; Some (<[j:=sj]> s).
Definition msub (k : Z) (i j : nat) : step := fun s =>
  sj ← s !! j ⊖ s !! i ⊗ #k; Some (<[j:=sj]> s).

(** The six lines that fold limb [i] into the limbs from [i - 12] to [i - 7]. *)
Definition sc_fold_steps (i : nat) : list step :=
  [madd 666643 i (i - 12); madd 470296 i (i - 11); madd 654183 i (i - 10);
   msub 997805 i (i - 9); madd 136657 i (i - 8); msub 683901 i (i - 7)]%nat.
Definition sc_fold (i : nat) : step := run (sc_fold_steps i).

(** [s_i = 0]. *)
Definition sc_clear (i : nat) : step := fun s => Some (<[i:=0]> s).

(** ** Programs *)

(** The carries after a product. *)
Definition sc_carry_products : list step :=
  [carry21 0 1; carry21 2 3; carry21 4 5; carry21 6 7; carry21 8 9; carry21 10 11;
   carry21 12 13; carry21 14 15; carry21 16 17; carry21 18 19; carry21 20 21; carry21 22 23;
   carry21 1 2; carry21 3 4; carry21 5 6; carry21 7 8; carry21 9 10; carry21 11 12;
   carry21 13 14; carry21 15 16; carry21 17 18; carry21 19 20; carry21 21 22].

(** From twenty-four limbs to twelve. *)
Definition sc_reduce_high : list step :=
  [sc_fold 23; sc_fold 22; sc_fold 21; sc_fold 20; sc_fold 19; sc_fold 18;
   carry21 6 7; carry21 8 9; carry21 10 11; carry21 12 13; carry21 14 15; carry21 16 17;
   carry21 7 8; carry21 9 10; carry21 11 12; carry21 13 14; carry21 15 16;
   sc_fold 17; sc_fold 16; sc_fold 15; sc_fold 14; sc_fold 13; sc_fold 12; sc_clear 12].

(** Limbs to about 2^251 in absolute value, *)
Definition sc_reduce_round : list step :=
  [carry21 0 1; carry21 2 3; carry21 4 5; carry21 6 7; carry21 8 9; carry21 10 11;
   carry21 1 2; carry21 3 4; carry21 5 6; carry21 7 8; carry21 9 10; carry21 11 12;
   sc_fold 12; sc_clear 12].

(** to digits and a sign in limb 12, *)
Definition sc_reduce_floor : list step :=
  [floor21 0 1; floor21 1 2; floor21 2 3; floor21 3 4; floor21 4 5; floor21 5 6;
   floor21 6 7; floor21 7 8; floor21 8 9; floor21 9 10; floor21 10 11; floor21 11 12].

(** and the sign folded away. *)
Definition sc_reduce_final : list step :=
  [sc_fold 12;
   floor21 0 1; floor21 1 2; floor21 2 3; floor21 3 4; floor21 4 5; floor21 5 6;
   floor21 6 7; floor21 7 8; floor21 8 9; floor21 9 10; floor21 10 11].

Definition sc_reduce_low : list step := sc_reduce_round ++ sc_reduce_floor ++ sc_reduce_final.

(** ** Packing *)

Definition sc_pack (s : list Z) : option (list Z) :=
  let s0 := s !! 0%nat in let s1 := s !! 1%nat in let s2 := s !! 2%nat in
  let s3 := s !! 3%nat in let s4 := s !! 4%nat in let s5 := s !! 5%nat in
  let s6 := s !! 6%nat in let s7 := s !! 7%nat in let s8 := s !! 8%nat in
  let s9 := s !! 9%nat in let s10 := s !! 10%nat in let s11 := s !! 11%nat in
  limbs [byte (s0 ≫s 0); byte (s0 ≫s 8); byte (cor (s0 ≫s 16) (s1 ≪64 5));
         byte (s1 ≫s 3); byte (s1 ≫s 11); byte (cor (s1 ≫s 19) (s2 ≪64 2));
         byte (s2 ≫s 6); byte (cor (s2 ≫s 14) (s3 ≪64 7));
         byte (s3 ≫s 1); byte (s3 ≫s 9); byte (cor (s3 ≫s 17) (s4 ≪64 4));
         byte (s4 ≫s 4); byte (s4 ≫s 12); byte (cor (s4 ≫s 20) (s5 ≪64 1));
         byte (s5 ≫s 7); byte (cor (s5 ≫s 15) (s6 ≪64 6));
         byte (s6 ≫s 2); byte (s6 ≫s 10); byte (cor (s6 ≫s 18) (s7 ≪64 3));
         byte (s7 ≫s 5); byte (s7 ≫s 13);
         byte (s8 ≫s 0); byte (s8 ≫s 8); byte (cor (s8 ≫s 16) (s9 ≪64 5));
         byte (s9 ≫s 3); byte (s9 ≫s 11); byte (cor (s9 ≫s 19) (s10 ≪64 2));
         byte (s10 ≫s 6); byte (cor (s10 ≫s 14) (s11 ≪64 7));
         byte (s11 ≫s 1); byte (s11 ≫s 9); byte (s11 ≫s 17)].

(** ** Weights *)

Definition sc_weights (n : nat) : list Z := map (fun i => 21 * Z.of_nat i) (seq 0 n).
Definition sc_val (n : nat) (s : list Z) : Z := lval (sc_weights n) s.

Lemma sc_weights_lookup n i : (i < n)%nat -> sc_weights n !! i = Some (21 * Z.of_nat i).
Proof.
  intros H. unfold sc_weights. rewrite list_lookup_fmap, lookup_seq_lt by exact H. reflexivity.
Qed.

Lemma sc_weights_S n : sc_weights (S n) = sc_weights n ++ [21 * Z.of_nat n].
Proof. unfold sc_weights. rewrite seq_S, map_app. reflexivity. Qed.

Lemma sc_weights_length n : length (sc_weights n) = n.
Proof. unfold sc_weights. rewrite length_map, length_seq. reflexivity. Qed.

Lemma lval_snoc ws w h x :
  h !! length ws = Some x -> lval (ws ++ [w]) h = lval ws h + x * 2 ^ w.
Proof.
  revert h. induction ws as [|w' ws IH]; intros [|y h]; cbn; try discriminate.
  - intros [= ->]. destruct h; ring.
  - intros Hx. rewrite (IH h Hx). ring.
Qed.

Lemma sc_val_S n s x : s !! n = Some x -> sc_val (S n) s = sc_val n s + x * 2 ^ (21 * Z.of_nat n).
Proof.
  intros H. unfold sc_val. rewrite sc_weights_S. apply lval_snoc.
  rewrite sc_weights_length. exact H.
Qed.

(** ** Folds *)

Definition amadd (k : Z) (i j : nat) : astep := fun Is =>
  I ← Is !! i; J ← Is !! j;
  let K := imul I (k, k) in
  if fits W64 K && fits W64 (iadd J K) then Some (<[j:=iadd J K]> Is) else None.
Definition amsub (k : Z) (i j : nat) : astep := fun Is =>
  I ← Is !! i; J ← Is !! j;
  let K := imul I (k, k) in
  if fits W64 K && fits W64 (isub J K) then Some (<[j:=isub J K]> Is) else None.

(** [folds i ws t p q]: the steps [p] add [t] times limb [i] to the value. *)
Inductive folds (i : nat) (ws : list Z) : Z -> list step -> list astep -> Prop :=
| folds_nil : folds i ws 0 [] []
| folds_madd k j w t p q :
    j <> i -> ws !! j = Some w -> folds i ws t p q ->
    folds i ws (k * 2 ^ w + t) (madd k i j :: p) (amadd k i j :: q)
| folds_msub k j w t p q :
    j <> i -> ws !! j = Some w -> folds i ws t p q ->
    folds i ws (- k * 2 ^ w + t) (msub k i j :: p) (amsub k i j :: q).

Lemma madd_run k i j h Is Is' x :
  j <> i -> zins h Is -> amadd k i j Is = Some Is' -> h !! i = Some x ->
  exists y, h !! j = Some y /\ madd k i j h = Some (<[j:=y + x * k]> h) /\
    zins (<[j:=y + x * k]> h) Is' /\ <[j:=y + x * k]> h !! i = Some x.
Proof.
  intros Hij Hh Ha Hx. unfold amadd in Ha.
  apply bind_inv in Ha as (I & HI & Ha). apply bind_inv in Ha as (J & HJ & Ha).
  cbv zeta in Ha. destruct (_ && _) eqn:Hf in Ha; [injection Ha as <- | discriminate].
  rewrite andb_true_iff in Hf. destruct Hf as [HK HS].
  destruct (zins_lookup _ _ _ _ Hh HI) as (x' & Hx' & Hex). assert (x' = x) as -> by congruence.
  destruct (zins_lookup _ _ _ _ Hh HJ) as (y & Hy & Hey). exists y. split; [exact Hy|].
  pose proof (ev_add _ _ _ _ _ _ _ Hey (ev_mul _ _ _ _ _ _ _ Hex (ev_lit k) HK) HS) as He.
  unfold madd. rewrite (ev_Some _ _ _ He). split; [reflexivity|]. split.
  - apply zins_insert; [exact Hh | apply He].
  - rewrite list_lookup_insert_ne by exact Hij. exact Hx.
Qed.

Lemma msub_run k i j h Is Is' x :
  j <> i -> zins h Is -> amsub k i j Is = Some Is' -> h !! i = Some x ->
  exists y, h !! j = Some y /\ msub k i j h = Some (<[j:=y - x * k]> h) /\
    zins (<[j:=y - x * k]> h) Is' /\ <[j:=y - x * k]> h !! i = Some x.
Proof.
  intros Hij Hh Ha Hx. unfold amsub in Ha.
  apply bind_inv in Ha as (I & HI & Ha). apply bind_inv in Ha as (J & HJ & Ha).
  cbv zeta in Ha. destruct (_ && _) eqn:Hf in Ha; [injection Ha as <- | discriminate].
  rewrite andb_true_iff in Hf. destruct Hf as [HK HS].
  destruct (zins_lookup _ _ _ _ Hh HI) as (x' & Hx' & Hex). assert (x' = x) as -> by congruence.
  destruct (zins_lookup _ _ _ _ Hh HJ) as (y & Hy & Hey). exists y. split; [exact Hy|].
  pose proof (ev_sub _ _ _ _ _ _ _ Hey (ev_mul _ _ _ _ _ _ _ Hex (ev_lit k) HK) HS) as He.
  unfold msub. rewrite (ev_Some _ _ _ He). split; [reflexivity|]. split.
  - apply zins_insert; [exact Hh | apply He].
  - rewrite list_lookup_insert_ne by exact Hij. exact Hx.
Qed.

Lemma folds_ok i ws t p q :
  folds i ws t p q -> forall h Is Is' x,
  zins h Is -> run q Is = Some Is' -> h !! i = Some x ->
  exists h', run p h = Some h' /\ zins h' Is' /\ h' !! i = Some x /\
    lval ws h' = lval ws h + x * t.
Proof.
  induction 1 as [|k j w t p q Hij Hw _ IH|k j w t p q Hij Hw _ IH]; intros h Is Is' x Hh; cbn [run].
  - intros [= <-] Hx. exists h. repeat split; auto. ring.
  - intros Ha Hx. apply bind_inv in Ha as (Is1 & Ha & Hq).
    destruct (madd_run _ _ _ _ _ _ _ Hij Hh Ha Hx) as (y & Hy & -> & Hz & Hx').
    destruct (IH _ _ _ _ Hz Hq Hx') as (h' & Hrun & Hz' & Hi & Hv).
    exists h'. split; [exact Hrun|]. split; [exact Hz'|]. split; [exact Hi|].
    rewrite Hv, (lval_insert ws h j w y) by assumption. ring.
  - intros Ha Hx. apply bind_inv in Ha as (Is1 & Ha & Hq).
    destruct (msub_run _ _ _ _ _ _ _ Hij Hh Ha Hx) as (y & Hy & -> & Hz & Hx').
    destruct (IH _ _ _ _ Hz Hq Hx') as (h' & Hrun & Hz' & Hi & Hv).
    exists h'. split; [exact Hrun|]. split; [exact Hz'|]. split; [exact Hi|].
    rewrite Hv, (lval_insert ws h j w y) by assumption. ring.
Qed.

Definition asc_fold (i : nat) : astep := fun Is =>
  _ ← Is !! i;
  run [amadd 666643 i (i - 12); amadd 470296 i (i - 11); amadd 654183 i (i - 10);
       amsub 997805 i (i - 9); amadd 136657 i (i - 8); amsub 683901 i (i - 7)]%nat Is.

(** A fold replaces 2^252 by 2^252 - l, exactly. *)
Lemma sc_fold_exact i s Is Is' :
  (12 <= i)%nat -> zins s Is -> asc_fold i Is = Some Is' ->
  exists x s', s !! i = Some x /\ sc_fold i s = Some s' /\ zins s' Is' /\ s' !! i = Some x /\
    sc_val i s' = sc_val i s + x * ((2 ^ 252 - l) * 2 ^ (21 * Z.of_nat (i - 12))).
Proof.
  intros Hi Hs Ha. unfold asc_fold in Ha. apply bind_inv in Ha as (I & HI & Ha).
  destruct (zins_lookup _ _ _ _ Hs HI) as (x & Hx & _).
  assert (Hw : forall k, (k < 12)%nat ->
    sc_weights i !! (i - 12 + k)%nat = Some (21 * Z.of_nat (i - 12) + 21 * Z.of_nat k)).
  { intros k Hk. rewrite sc_weights_lookup by lia. f_equal. lia. }
  assert (Hf : exists t, t = (2 ^ 252 - l) * 2 ^ (21 * Z.of_nat (i - 12)) /\
    folds i (sc_weights i) t (sc_fold_steps i)
      [amadd 666643 i (i - 12); amadd 470296 i (i - 11); amadd 654183 i (i - 10);
       amsub 997805 i (i - 9); amadd 136657 i (i - 8); amsub 683901 i (i - 7)]%nat).
  { eexists. split; [|unfold sc_fold_steps;
      replace (i - 12)%nat with (i - 12 + 0)%nat by lia;
      replace (i - 11)%nat with (i - 12 + 1)%nat by lia;
      replace (i - 10)%nat with (i - 12 + 2)%nat by lia;
      replace (i - 9)%nat with (i - 12 + 3)%nat by lia;
      replace (i - 8)%nat with (i - 12 + 4)%nat by lia;
      replace (i - 7)%nat with (i - 12 + 5)%nat by lia;
      repeat (first [apply folds_madd | apply folds_msub]; [lia | apply Hw; lia |]);
      apply folds_nil].
    rewrite !Z.pow_add_r by lia. unfold l. set (W := 2 ^ (21 * Z.of_nat (i - 12))).
    cbn [Z.of_nat]. eval_pows. ring. }
  destruct Hf as (t & -> & Hf).
  destruct (folds_ok _ _ _ _ _ Hf _ _ _ _ Hs Ha Hx) as (s' & Hrun & Hz & Hx' & Hv).
  exists x, s'. auto.
Qed.

Lemma sc_fold_ok i :
  (12 <= i)%nat -> step_ok l (sc_weights (S i)) (sc_weights i) (sc_fold i) (asc_fold i).
Proof.
  intros Hi h Is Is' Hh Ha.
  destruct (sc_fold_exact i h Is Is' Hi Hh Ha) as (x & h' & Hx & Hrun & Hz & _ & Hv).
  exists h'. split; [exact Hrun|]. split; [exact Hz|].
  fold (sc_val i h') (sc_val (S i) h). rewrite Hv, (sc_val_S i h x Hx).
  apply eqmod_divide. exists (- x * 2 ^ (21 * Z.of_nat (i - 12))).
  replace (21 * Z.of_nat i) with (252 + 21 * Z.of_nat (i - 12)) by lia.
  rewrite Z.pow_add_r by lia. ring.
Qed.

Definition asc_clear (i : nat) : astep := fun Is => _ ← Is !! i; Some (<[i:=(0, 0)]> Is).

Lemma sc_clear_ok m i :
  step_ok m (sc_weights i) (sc_weights (S i)) (sc_clear i) (asc_clear i).
Proof.
  intros h Is Is' Hh. unfold asc_clear. intros (I & HI & [= <-])%bind_inv.
  destruct (zins_lookup _ _ _ _ Hh HI) as (x & Hx & _). unfold sc_clear.
  eexists. split; [reflexivity|]. split.
  - apply zins_insert; [exact Hh | unfold zin; cbn; lia].
  - fold (sc_val (S i) (<[i:=0]> h)). rewrite (sc_val_S _ _ 0).
    + unfold sc_val. rewrite lval_insert_dead; [eqmod_ring|].
      apply lookup_ge_None_2. rewrite sc_weights_length. lia.
    + apply list_lookup_insert_eq. apply lookup_lt_Some in Hx. exact Hx.
Qed.

Lemma sc_carry_ok m n r i :
  (S i < n)%nat ->
  step_ok m (sc_weights n) (sc_weights n) (carry W64 21 r 1 i (S i)) (acarry W64 21 r 1 i (S i)).
Proof.
  intros Hi. eapply carry_ok.
  - lia.
  - lia.
  - apply sc_weights_lookup. lia.
  - apply sc_weights_lookup. exact Hi.
  - lia.
  - apply eqmod_eq. rewrite Z.mul_1_l. f_equal. lia.
Qed.

Ltac sc_prog_tac :=
  repeat (eapply prog_cons;
          [first [apply sc_carry_ok; lia | apply sc_fold_ok; lia | apply sc_clear_ok]|]);
  apply prog_nil.

(** ** The final phase *)

Definition digit : itv := (0, 2097151).

(** Limbs before the floor carries: twelve of at most 2^20 plus the fold of
    a small limb 12, then 0. *)
Definition round_bounds : list itv :=
  repeat (sym 20000000000000) 10 ++ [sym 1000000000; sym 1050000; (0, 0)].
Definition floor_bounds : list itv := repeat digit 12 ++ [sym 1000000].
Definition final_bounds : list itv := repeat digit 11 ++ [sym 10000000].

Definition asc_round : list astep :=
  [acarry W64 21 1048576 1 0 1; acarry W64 21 1048576 1 2 3; acarry W64 21 1048576 1 4 5;
   acarry W64 21 1048576 1 6 7; acarry W64 21 1048576 1 8 9; acarry W64 21 1048576 1 10 11;
   acarry W64 21 1048576 1 1 2; acarry W64 21 1048576 1 3 4; acarry W64 21 1048576 1 5 6;
   acarry W64 21 1048576 1 7 8; acarry W64 21 1048576 1 9 10; acarry W64 21 1048576 1 11 12;
   asc_fold 12; asc_clear 12]%nat.
Definition asc_floors (n : nat) : list astep := map (fun i => acarry W64 21 0 1 i (S i)) (seq 0 n).

Lemma sc_reduce_round_ok : prog_ok l (sc_weights 13) (sc_weights 13) sc_reduce_round asc_round.
Proof. unfold sc_reduce_round, carry21. sc_prog_tac. Qed.

Lemma sc_reduce_floor_ok :
  prog_ok 0 (sc_weights 13) (sc_weights 13) sc_reduce_floor (asc_floors 12).
Proof. unfold sc_reduce_floor, floor21. sc_prog_tac. Qed.

Lemma sc_floors_ok :
  prog_ok 0 (sc_weights 12) (sc_weights 12) (drop 1 sc_reduce_final) (asc_floors 11).
Proof. unfold sc_reduce_final, floor21. cbn [drop]. sc_prog_tac. Qed.

(** The limbs [Is] are small enough for the three phases. *)
Definition sc_low_fits (Is : list itv) : bool :=
  match run asc_round Is with
  | Some Is1 => iles (take 13 Is1) round_bounds &&
      match run (asc_floors 12) Is1 with
      | Some Is2 => iles (take 13 Is2) floor_bounds &&
          match (Is3 ← asc_fold 12 Is2; run (asc_floors 11) Is3) with
          | Some Is4 => iles (take 12 Is4) final_bounds
          | None => false
          end
      | None => false
      end
  | None => false
  end.

Lemma zins_take n h Is : zins h Is -> zins (take n h) (take n Is).
Proof. apply Forall2_take. Qed.

Lemma lval_take ws h : lval ws (take (length ws) h) = lval ws h.
Proof.
  revert h. induction ws as [|w ws IH]; intros [|x h]; cbn; try reflexivity.
  rewrite IH. reflexivity.
Qed.

Lemma sc_val_take n h : sc_val n (take n h) = sc_val n h.
Proof. unfold sc_val. rewrite <- (sc_weights_length n) at 2. apply lval_take. Qed.

Ltac sc_eval_val := unfold sc_val, sc_weights; cbn [lval map seq];
  repeat match goal with
    | |- context [21 * Z.of_nat ?n] =>
        let v := eval vm_compute in (21 * Z.of_nat n) in change (21 * Z.of_nat n) with v
    end; eval_pows.

(** The value after the rounding carries. *)
Lemma round_range h :
  zins h round_bounds -> - 2 ^ 252 <= sc_val 13 h < 2 ^ 252.
Proof.
  intros H. cbn [round_bounds repeat app] in H. zins_open H. zin_to_lia. sc_eval_val. lia.
Qed.

(** After the floor carries limb 12 is the sign. *)
Lemma floor_sign h x :
  zins h floor_bounds -> h !! 12%nat = Some x ->
  - 2 ^ 252 <= sc_val 13 h < 2 ^ 252 -> (x = -1 \/ x = 0) /\ 0 <= sc_val 13 h - x * 2 ^ 252 < 2 ^ 252.
Proof.
  intros H. cbn [floor_bounds repeat app] in H. zins_open H. cbn. intros [= ->].
  zin_to_lia. sc_eval_val. lia.
Qed.

(** Limbs of a value below l: eleven digits and a last limb of at most 2^21. *)
Definition packed_bounds : list itv := repeat digit 11 ++ [(0, 2097152)].

Lemma final_top h :
  zins h final_bounds -> 0 <= sc_val 12 h < l -> zins h packed_bounds.
Proof.
  intros H Hr. cbn [final_bounds packed_bounds repeat app] in *. zins_open H.
  repeat (apply zins_cons; [assumption|]). apply zins_cons; [|apply zins_nil].
  revert Hr. unfold l. sc_eval_val. zin_to_lia. unfold zin. cbn [fst snd]. lia.
Qed.

(** The three phases: from limbs of value [v] to those of [v mod l]. *)
Lemma sc_reduce_low_ok h Is :
  zins h Is -> sc_low_fits Is = true ->
  exists h', run sc_reduce_low h = Some h' /\ zins (take 12 h') packed_bounds /\
    sc_val 12 h' = sc_val 13 h mod l.
Proof.
  intros Hh. unfold sc_low_fits.
  destruct (run asc_round Is) as [Is1|] eqn:E1; [|discriminate].
  rewrite andb_true_iff. intros [F1 F]. revert F.
  destruct (run (asc_floors 12) Is1) as [Is2|] eqn:E2; [|discriminate].
  rewrite andb_true_iff. intros [F2 F]. revert F.
  destruct (asc_fold 12 Is2) as [Is3|] eqn:E3; [|discriminate]. cbn [mbind option_bind].
  destruct (run (asc_floors 11) Is3) as [Is4|] eqn:E4; [|discriminate]. intros F4.
  destruct (run_ok _ _ _ _ _ sc_reduce_round_ok _ _ _ Hh E1) as (h1 & R1 & Z1 & V1).
  destruct (run_ok _ _ _ _ _ sc_reduce_floor_ok _ _ _ Z1 E2) as (h2 & R2 & Z2 & V2).
  destruct (sc_fold_exact 12 h2 Is2 Is3 ltac:(lia) Z2 E3) as (x & h3 & Hx & R3 & Z3 & _ & V3).
  destruct (run_ok _ _ _ _ _ sc_floors_ok _ _ _ Z3 E4) as (h4 & R4 & Z4 & V4).
  rewrite eqmod_0_iff in V2, V4.
  pose proof (round_range _ (zins_weaken _ _ _ F1 (zins_take 13 _ _ Z1))) as Hr.
  rewrite sc_val_take in Hr. fold (sc_val 13 h1) (sc_val 13 h2) in V2. rewrite <- V2 in Hr.
  destruct (floor_sign (take 13 h2) x) as [Hs Hd].
  { exact (zins_weaken _ _ _ F2 (zins_take 13 _ _ Z2)). }
  { rewrite lookup_take_lt by lia. exact Hx. }
  { rewrite sc_val_take. exact Hr. }
  rewrite sc_val_take in Hd. pose proof (sc_val_S 12 h2 x Hx) as E12.
  fold (sc_val 12 h4) (sc_val 12 h3) in V4. cbn [Nat.sub] in V3.
  change (2 ^ (21 * Z.of_nat 0)) with 1 in V3. change (21 * Z.of_nat 12) with 252 in E12.
  fold (sc_val 13 h1) (sc_val 13 h) in V1.
  assert (Hval : sc_val 12 h4 = sc_val 13 h2 - x * l) by lia.
  assert (Hl : 2 ^ 252 < l) by reflexivity.
  assert (Hrange : 0 <= sc_val 12 h4 < l) by (destruct Hs; subst x; lia).
  exists h4. split.
  - unfold sc_reduce_low. unfold step. rewrite run_app, R1. cbn [mbind option_bind].
    rewrite run_app, R2. cbn [mbind option_bind]. change sc_reduce_final with
      (sc_fold 12 :: drop 1 sc_reduce_final). cbn [run]. rewrite R3. exact R4.
  - split.
    + apply final_top; [exact (zins_weaken _ _ _ F4 (zins_take 12 _ _ Z4))|].
      rewrite sc_val_take. exact Hrange.
    + apply eqmod_small; [exact Hrange|]. rewrite Hval, V2, <- V1.
      apply eqmod_divide. exists (- x). ring.
Qed.

Lemma sc_pack_take h : sc_pack (take 12 h) = sc_pack h.
Proof. unfold sc_pack. rewrite !lookup_take_lt by lia. reflexivity. Qed.

Lemma sc_pack_ok h :
  zins (take 12 h) packed_bounds -> sc_pack h = Some (le_bytes 32 (sc_val 12 h)).
Proof.
  intros H. rewrite <- sc_pack_take, <- sc_val_take. set (t := take 12 h) in *. clearbody t. clear h.
  cbn [packed_bounds repeat app] in H. zins_open H. unfold digit in *.
  rewrite le_bytes_at. unfold sc_pack. cbn [lookup list_lookup]. cbv zeta.
  match goal with |- context [sc_val 12 ?l] => remember (sc_val 12 l) as v eqn:Ev end.
  unfold sc_val, sc_weights in Ev. cbn [lval map seq] in Ev.
  match type of Ev with
  | _ = ?a * _ + (?b * _ + (?c * _ + (?d * _ + (?e * _ + (?f * _ + (?g * _ + (?h * _ + (?i * _ + (?j * _ + (?k * _ + (?m * _ + 0))))))))))) =>
    assert (Hw0 : v / 2 ^ 0 = a + 2 ^ 21 * (b + 2 ^ 21 * (c + 2 ^ 21 * (d + 2 ^ 21 *
       (e + 2 ^ 21 * (f + 2 ^ 21 * (g + 2 ^ 21 * (h + 2 ^ 21 * (i + 2 ^ 21 *
       (j + 2 ^ 21 * (k + 2 ^ 21 * (m + 2 ^ 30 * 0))))))))))))
      by (rewrite Z.div_1_r, Ev; revert Ev; sc_eval_val; intros _; ring)
  end.
  clear Ev. zin_to_lia.
  limb_chain Hw0.
  cbn [map seq]. pack_tac.
Qed.

(** Reduce and pack. *)
Definition sc_finish (s : list Z) : option (list Z) := s ← run sc_reduce_low s; sc_pack s.

Lemma sc_finish_ok h Is :
  zins h Is -> sc_low_fits Is = true ->
  sc_finish h = Some (le_bytes 32 (sc_val 13 h mod l)).
Proof.
  intros Hh Hf. destruct (sc_reduce_low_ok h Is Hh Hf) as (h' & Hrun & Hz & Hv).
  unfold sc_finish. rewrite Hrun. cbn [mbind option_bind]. rewrite sc_pack_ok, Hv by exact Hz.
  reflexivity.
Qed.
