(* ===== verification/ScalarOps.v ===== *)
(** * Scalar operations

    [sc_0], [sc_reduce], [sc_reduce32], [sc_add], [sc_sub], [sc_mul],
    [sc_muladd], [sc_mulsub], [sc_check] and [sc_isnonzero] of crypto-ops.c,
    on strings of 32 bytes (64 for [sc_reduce]).  Each result is the encoding
    of the integer result in [0, l), whatever the 32-byte inputs.  The
    functions read their inputs before they write [s], so an output that
    overlaps an input changes nothing. *)

From S2P Require Import Prelude.
From S2P Require Import CInt.
From S2P Require Import Bytes.
From S2P Require Import Limbs.
From S2P Require Import Fe.
From S2P Require Import FeMul.
From S2P Require Import FeBytes.
From S2P Require Import Scalar.
Local Open Scope cint_scope.

(** ** Operations *)

Definition sc_0 : list Z := repeat 0 32.

Definition sc_reduce (s : list Z) : option (list Z) :=
  s ← sc_load64 s; s ← run sc_reduce_high s; sc_finish s.

(** [s12 = 0] after the twelve limbs. *)
Definition sc_reduce32 (s : list Z) : option (list Z) :=
  s ← sc_load32 s; sc_finish (s ++ [0]).

Definition sc_add_limbs (a b : list Z) : option (list Z) :=
  limbs [a !! 0%nat ⊕ b !! 0%nat; a !! 1%nat ⊕ b !! 1%nat; a !! 2%nat ⊕ b !! 2%nat;
         a !! 3%nat ⊕ b !! 3%nat; a !! 4%nat ⊕ b !! 4%nat; a !! 5%nat ⊕ b !! 5%nat;
         a !! 6%nat ⊕ b !! 6%nat; a !! 7%nat ⊕ b !! 7%nat; a !! 8%nat ⊕ b !! 8%nat;
         a !! 9%nat ⊕ b !! 9%nat; a !! 10%nat ⊕ b !! 10%nat; a !! 11%nat ⊕ b !! 11%nat; #0].

Definition sc_add (a b : list Z) : option (list Z) :=
  a ← sc_load32 a; b ← sc_load32 b; s ← sc_add_limbs a b; sc_finish s.

Definition sc_sub_limbs (a b : list Z) : option (list Z) :=
  limbs [a !! 0%nat ⊖ b !! 0%nat; a !! 1%nat ⊖ b !! 1%nat; a !! 2%nat ⊖ b !! 2%nat;
         a !! 3%nat ⊖ b !! 3%nat; a !! 4%nat ⊖ b !! 4%nat; a !! 5%nat ⊖ b !! 5%nat;
         a !! 6%nat ⊖ b !! 6%nat; a !! 7%nat ⊖ b !! 7%nat; a !! 8%nat ⊖ b !! 8%nat;
         a !! 9%nat ⊖ b !! 9%nat; a !! 10%nat ⊖ b !! 10%nat; a !! 11%nat ⊖ b !! 11%nat; #0].

Definition sc_sub (a b : list Z) : option (list Z) :=
  a ← sc_load32 a; b ← sc_load32 b; s ← sc_sub_limbs a b; sc_finish s.

Definition sc_mul_products (a b : list Z) : option (list Z) :=
  let a0 := a !! 0%nat in let a1 := a !! 1%nat in let a2 := a !! 2%nat in let a3 := a !! 3%nat in
  let a4 := a !! 4%nat in let a5 := a !! 5%nat in let a6 := a !! 6%nat in let a7 := a !! 7%nat in
  let a8 := a !! 8%nat in let a9 := a !! 9%nat in let a10 := a !! 10%nat in let a11 := a !! 11%nat in
  let b0 := b !! 0%nat in let b1 := b !! 1%nat in let b2 := b !! 2%nat in let b3 := b !! 3%nat in
  let b4 := b !! 4%nat in let b5 := b !! 5%nat in let b6 := b !! 6%nat in let b7 := b !! 7%nat in
  let b8 := b !! 8%nat in let b9 := b !! 9%nat in let b10 := b !! 10%nat in let b11 := b !! 11%nat in
  limbs
    [a0 ⊗ b0;
     a0 ⊗ b1 ⊕ a1 ⊗ b0;
     a0 ⊗ b2 ⊕ a1 ⊗ b1 ⊕ a2 ⊗ b0;
     a0 ⊗ b3 ⊕ a1 ⊗ b2 ⊕ a2 ⊗ b1 ⊕ a3 ⊗ b0;
     a0 ⊗ b4 ⊕ a1 ⊗ b3 ⊕ a2 ⊗ b2 ⊕ a3 ⊗ b1 ⊕ a4 ⊗ b0;
     a0 ⊗ b5 ⊕ a1 ⊗ b4 ⊕ a2 ⊗ b3 ⊕ a3 ⊗ b2 ⊕ a4 ⊗ b1 ⊕ a5 ⊗ b0;
     a0 ⊗ b6 ⊕ a1 ⊗ b5 ⊕ a2 ⊗ b4 ⊕ a3 ⊗ b3 ⊕ a4 ⊗ b2 ⊕ a5 ⊗ b1 ⊕ a6 ⊗ b0;
     a0 ⊗ b7 ⊕ a1 ⊗ b6 ⊕ a2 ⊗ b5 ⊕ a3 ⊗ b4 ⊕ a4 ⊗ b3 ⊕ a5 ⊗ b2 ⊕ a6 ⊗ b1 ⊕ a7 ⊗ b0;
     a0 ⊗ b8 ⊕ a1 ⊗ b7 ⊕ a2 ⊗ b6 ⊕ a3 ⊗ b5 ⊕ a4 ⊗ b4 ⊕ a5 ⊗ b3 ⊕ a6 ⊗ b2 ⊕ a7 ⊗ b1
       ⊕ a8 ⊗ b0;
     a0 ⊗ b9 ⊕ a1 ⊗ b8 ⊕ a2 ⊗ b7 ⊕ a3 ⊗ b6 ⊕ a4 ⊗ b5 ⊕ a5 ⊗ b4 ⊕ a6 ⊗ b3 ⊕ a7 ⊗ b2
       ⊕ a8 ⊗ b1 ⊕ a9 ⊗ b0;
     a0 ⊗ b10 ⊕ a1 ⊗ b9 ⊕ a2 ⊗ b8 ⊕ a3 ⊗ b7 ⊕ a4 ⊗ b6 ⊕ a5 ⊗ b5 ⊕ a6 ⊗ b4 ⊕ a7 ⊗ b3
       ⊕ a8 ⊗ b2 ⊕ a9 ⊗ b1 ⊕ a10 ⊗ b0;
     a0 ⊗ b11 ⊕ a1 ⊗ b10 ⊕ a2 ⊗ b9 ⊕ a3 ⊗ b8 ⊕ a4 ⊗ b7 ⊕ a5 ⊗ b6 ⊕ a6 ⊗ b5 ⊕ a7 ⊗ b4
       ⊕ a8 ⊗ b3 ⊕ a9 ⊗ b2 ⊕ a10 ⊗ b1 ⊕ a11 ⊗ b0;
     a1 ⊗ b11 ⊕ a2 ⊗ b10 ⊕ a3 ⊗ b9 ⊕ a4 ⊗ b8 ⊕ a5 ⊗ b7 ⊕ a6 ⊗ b6 ⊕ a7 ⊗ b5 ⊕ a8 ⊗ b4
       ⊕ a9 ⊗ b3 ⊕ a10 ⊗ b2 ⊕ a11 ⊗ b1;
     a2 ⊗ b11 ⊕ a3 ⊗ b10 ⊕ a4 ⊗ b9 ⊕ a5 ⊗ b8 ⊕ a6 ⊗ b7 ⊕ a7 ⊗ b6 ⊕ a8 ⊗ b5 ⊕ a9 ⊗ b4
       ⊕ a10 ⊗ b3 ⊕ a11 ⊗ b2;
     a3 ⊗ b11 ⊕ a4 ⊗ b10 ⊕ a5 ⊗ b9 ⊕ a6 ⊗ b8 ⊕ a7 ⊗ b7 ⊕ a8 ⊗ b6 ⊕ a9 ⊗ b5 ⊕ a10 ⊗ b4
       ⊕ a11 ⊗ b3;
     a4 ⊗ b11 ⊕ a5 ⊗ b10 ⊕ a6 ⊗ b9 ⊕ a7 ⊗ b8 ⊕ a8 ⊗ b7 ⊕ a9 ⊗ b6 ⊕ a10 ⊗ b5 ⊕ a11 ⊗ b4;
     a5 ⊗ b11 ⊕ a6 ⊗ b10 ⊕ a7 ⊗ b9 ⊕ a8 ⊗ b8 ⊕ a9 ⊗ b7 ⊕ a10 ⊗ b6 ⊕ a11 ⊗ b5;
     a6 ⊗ b11 ⊕ a7 ⊗ b10 ⊕ a8 ⊗ b9 ⊕ a9 ⊗ b8 ⊕ a10 ⊗ b7 ⊕ a11 ⊗ b6;
     a7 ⊗ b11 ⊕ a8 ⊗ b10 ⊕ a9 ⊗ b9 ⊕ a10 ⊗ b8 ⊕ a11 ⊗ b7;
     a8 ⊗ b11 ⊕ a9 ⊗ b10 ⊕ a10 ⊗ b9 ⊕ a11 ⊗ b8;
     a9 ⊗ b11 ⊕ a10 ⊗ b10 ⊕ a11 ⊗ b9;
     a10 ⊗ b11 ⊕ a11 ⊗ b10;
     a11 ⊗ b11;
     #0].

Definition sc_muladd_products (a b c : list Z) : option (list Z) :=
  let a0 := a !! 0%nat in let a1 := a !! 1%nat in let a2 := a !! 2%nat in let a3 := a !! 3%nat in
  let a4 := a !! 4%nat in let a5 := a !! 5%nat in let a6 := a !! 6%nat in let a7 := a !! 7%nat in
  let a8 := a !! 8%nat in let a9 := a !! 9%nat in let a10 := a !! 10%nat in let a11 := a !! 11%nat in
  let b0 := b !! 0%nat in let b1 := b !! 1%nat in let b2 := b !! 2%nat in let b3 := b !! 3%nat in
  let b4 := b !! 4%nat in let b5 := b !! 5%nat in let b6 := b !! 6%nat in let b7 := b !! 7%nat in
  let b8 := b !! 8%nat in let b9 := b !! 9%nat in let b10 := b !! 10%nat in let b11 := b !! 11%nat in
  let c0 := c !! 0%nat in let c1 := c !! 1%nat in let c2 := c !! 2%nat in let c3 := c !! 3%nat in
  let c4 := c !! 4%nat in let c5 := c !! 5%nat in let c6 := c !! 6%nat in let c7 := c !! 7%nat in
  let c8 := c !! 8%nat in let c9 := c !! 9%nat in let c10 := c !! 10%nat in let c11 := c !! 11%nat in
  limbs
    [c0 ⊕ a0 ⊗ b0;
     c1 ⊕ (a0 ⊗ b1 ⊕ a1 ⊗ b0);
     c2 ⊕ (a0 ⊗ b2 ⊕ a1 ⊗ b1 ⊕ a2 ⊗ b0);
     c3 ⊕ (a0 ⊗ b3 ⊕ a1 ⊗ b2 ⊕ a2 ⊗ b1 ⊕ a3 ⊗ b0);
     c4 ⊕ (a0 ⊗ b4 ⊕ a1 ⊗ b3 ⊕ a2 ⊗ b2 ⊕ a3 ⊗ b1 ⊕ a4 ⊗ b0);
     c5 ⊕ (a0 ⊗ b5 ⊕ a1 ⊗ b4 ⊕ a2 ⊗ b3 ⊕ a3 ⊗ b2 ⊕ a4 ⊗ b1 ⊕ a5 ⊗ b0);
     c6 ⊕ (a0 ⊗ b6 ⊕ a1 ⊗ b5 ⊕ a2 ⊗ b4 ⊕ a3 ⊗ b3 ⊕ a4 ⊗ b2 ⊕ a5 ⊗ b1 ⊕ a6 ⊗ b0);
     c7 ⊕ (a0 ⊗ b7 ⊕ a1 ⊗ b6 ⊕ a2 ⊗ b5 ⊕ a3 ⊗ b4 ⊕ a4 ⊗ b3 ⊕ a5 ⊗ b2 ⊕ a6 ⊗ b1
       ⊕ a7 ⊗ b0);
     c8 ⊕ (a0 ⊗ b8 ⊕ a1 ⊗ b7 ⊕ a2 ⊗ b6 ⊕ a3 ⊗ b5 ⊕ a4 ⊗ b4 ⊕ a5 ⊗ b3 ⊕ a6 ⊗ b2
       ⊕ a7 ⊗ b1 ⊕ a8 ⊗ b0);
     c9 ⊕ (a0 ⊗ b9 ⊕ a1 ⊗ b8 ⊕ a2 ⊗ b7 ⊕ a3 ⊗ b6 ⊕ a4 ⊗ b5 ⊕ a5 ⊗ b4 ⊕ a6 ⊗ b3
       ⊕ a7 ⊗ b2 ⊕ a8 ⊗ b1 ⊕ a9 ⊗ b0);
     c10 ⊕ (a0 ⊗ b10 ⊕ a1 ⊗ b9 ⊕ a2 ⊗ b8 ⊕ a3 ⊗ b7 ⊕ a4 ⊗ b6 ⊕ a5 ⊗ b5 ⊕ a6 ⊗ b4
       ⊕ a7 ⊗ b3 ⊕ a8 ⊗ b2 ⊕ a9 ⊗ b1 ⊕ a10 ⊗ b0);
     c11 ⊕ (a0 ⊗ b11 ⊕ a1 ⊗ b10 ⊕ a2 ⊗ b9 ⊕ a3 ⊗ b8 ⊕ a4 ⊗ b7 ⊕ a5 ⊗ b6 ⊕ a6 ⊗ b5
       ⊕ a7 ⊗ b4 ⊕ a8 ⊗ b3 ⊕ a9 ⊗ b2 ⊕ a10 ⊗ b1 ⊕ a11 ⊗ b0);
     a1 ⊗ b11 ⊕ a2 ⊗ b10 ⊕ a3 ⊗ b9 ⊕ a4 ⊗ b8 ⊕ a5 ⊗ b7 ⊕ a6 ⊗ b6 ⊕ a7 ⊗ b5 ⊕ a8 ⊗ b4
       ⊕ a9 ⊗ b3 ⊕ a10 ⊗ b2 ⊕ a11 ⊗ b1;
     a2 ⊗ b11 ⊕ a3 ⊗ b10 ⊕ a4 ⊗ b9 ⊕ a5 ⊗ b8 ⊕ a6 ⊗ b7 ⊕ a7 ⊗ b6 ⊕ a8 ⊗ b5 ⊕ a9 ⊗ b4
       ⊕ a10 ⊗ b3 ⊕ a11 ⊗ b2;
     a3 ⊗ b11 ⊕ a4 ⊗ b10 ⊕ a5 ⊗ b9 ⊕ a6 ⊗ b8 ⊕ a7 ⊗ b7 ⊕ a8 ⊗ b6 ⊕ a9 ⊗ b5 ⊕ a10 ⊗ b4
       ⊕ a11 ⊗ b3;
     a4 ⊗ b11 ⊕ a5 ⊗ b10 ⊕ a6 ⊗ b9 ⊕ a7 ⊗ b8 ⊕ a8 ⊗ b7 ⊕ a9 ⊗ b6 ⊕ a10 ⊗ b5 ⊕ a11 ⊗ b4;
     a5 ⊗ b11 ⊕ a6 ⊗ b10 ⊕ a7 ⊗ b9 ⊕ a8 ⊗ b8 ⊕ a9 ⊗ b7 ⊕ a10 ⊗ b6 ⊕ a11 ⊗ b5;
     a6 ⊗ b11 ⊕ a7 ⊗ b10 ⊕ a8 ⊗ b9 ⊕ a9 ⊗ b8 ⊕ a10 ⊗ b7 ⊕ a11 ⊗ b6;
     a7 ⊗ b11 ⊕ a8 ⊗ b10 ⊕ a9 ⊗ b9 ⊕ a10 ⊗ b8 ⊕ a11 ⊗ b7;
     a8 ⊗ b11 ⊕ a9 ⊗ b10 ⊕ a10 ⊗ b9 ⊕ a11 ⊗ b8;
     a9 ⊗ b11 ⊕ a10 ⊗ b10 ⊕ a11 ⊗ b9;
     a10 ⊗ b11 ⊕ a11 ⊗ b10;
     a11 ⊗ b11;
     #0].

Definition sc_mulsub_products (a b c : list Z) : option (list Z) :=
  let a0 := a !! 0%nat in let a1 := a !! 1%nat in let a2 := a !! 2%nat in let a3 := a !! 3%nat in
  let a4 := a !! 4%nat in let a5 := a !! 5%nat in let a6 := a !! 6%nat in let a7 := a !! 7%nat in
  let a8 := a !! 8%nat in let a9 := a !! 9%nat in let a10 := a !! 10%nat in let a11 := a !! 11%nat in
  let b0 := b !! 0%nat in let b1 := b !! 1%nat in let b2 := b !! 2%nat in let b3 := b !! 3%nat in
  let b4 := b !! 4%nat in let b5 := b !! 5%nat in let b6 := b !! 6%nat in let b7 := b !! 7%nat in
  let b8 := b !! 8%nat in let b9 := b !! 9%nat in let b10 := b !! 10%nat in let b11 := b !! 11%nat in
  let c0 := c !! 0%nat in let c1 := c !! 1%nat in let c2 := c !! 2%nat in let c3 := c !! 3%nat in
  let c4 := c !! 4%nat in let c5 := c !! 5%nat in let c6 := c !! 6%nat in let c7 := c !! 7%nat in
  let c8 := c !! 8%nat in let c9 := c !! 9%nat in let c10 := c !! 10%nat in let c11 := c !! 11%nat in
  limbs
    [c0 ⊖ a0 ⊗ b0;
     c1 ⊖ (a0 ⊗ b1 ⊕ a1 ⊗ b0);
     c2 ⊖ (a0 ⊗ b2 ⊕ a1 ⊗ b1 ⊕ a2 ⊗ b0);
     c3 ⊖ (a0 ⊗ b3 ⊕ a1 ⊗ b2 ⊕ a2 ⊗ b1 ⊕ a3 ⊗ b0);
     c4 ⊖ (a0 ⊗ b4 ⊕ a1 ⊗ b3 ⊕ a2 ⊗ b2 ⊕ a3 ⊗ b1 ⊕ a4 ⊗ b0);
     c5 ⊖ (a0 ⊗ b5 ⊕ a1 ⊗ b4 ⊕ a2 ⊗ b3 ⊕ a3 ⊗ b2 ⊕ a4 ⊗ b1 ⊕ a5 ⊗ b0);
     c6 ⊖ (a0 ⊗ b6 ⊕ a1 ⊗ b5 ⊕ a2 ⊗ b4 ⊕ a3 ⊗ b3 ⊕ a4 ⊗ b2 ⊕ a5 ⊗ b1 ⊕ a6 ⊗ b0);
     c7 ⊖ (a0 ⊗ b7 ⊕ a1 ⊗ b6 ⊕ a2 ⊗ b5 ⊕ a3 ⊗ b4 ⊕ a4 ⊗ b3 ⊕ a5 ⊗ b2 ⊕ a6 ⊗ b1
       ⊕ a7 ⊗ b0);
     c8 ⊖ (a0 ⊗ b8 ⊕ a1 ⊗ b7 ⊕ a2 ⊗ b6 ⊕ a3 ⊗ b5 ⊕ a4 ⊗ b4 ⊕ a5 ⊗ b3 ⊕ a6 ⊗ b2
       ⊕ a7 ⊗ b1 ⊕ a8 ⊗ b0);
     c9 ⊖ (a0 ⊗ b9 ⊕ a1 ⊗ b8 ⊕ a2 ⊗ b7 ⊕ a3 ⊗ b6 ⊕ a4 ⊗ b5 ⊕ a5 ⊗ b4 ⊕ a6 ⊗ b3
       ⊕ a7 ⊗ b2 ⊕ a8 ⊗ b1 ⊕ a9 ⊗ b0);
     c10 ⊖ (a0 ⊗ b10 ⊕ a1 ⊗ b9 ⊕ a2 ⊗ b8 ⊕ a3 ⊗ b7 ⊕ a4 ⊗ b6 ⊕ a5 ⊗ b5 ⊕ a6 ⊗ b4
       ⊕ a7 ⊗ b3 ⊕ a8 ⊗ b2 ⊕ a9 ⊗ b1 ⊕ a10 ⊗ b0);
     c11 ⊖ (a0 ⊗ b11 ⊕ a1 ⊗ b10 ⊕ a2 ⊗ b9 ⊕ a3 ⊗ b8 ⊕ a4 ⊗ b7 ⊕ a5 ⊗ b6 ⊕ a6 ⊗ b5
       ⊕ a7 ⊗ b4 ⊕ a8 ⊗ b3 ⊕ a9 ⊗ b2 ⊕ a10 ⊗ b1 ⊕ a11 ⊗ b0);
     copp W64 (a1 ⊗ b11 ⊕ a2 ⊗ b10 ⊕ a3 ⊗ b9 ⊕ a4 ⊗ b8 ⊕ a5 ⊗ b7 ⊕ a6 ⊗ b6 ⊕ a7 ⊗ b5
       ⊕ a8 ⊗ b4 ⊕ a9 ⊗ b3 ⊕ a10 ⊗ b2 ⊕ a11 ⊗ b1);
     copp W64 (a2 ⊗ b11 ⊕ a3 ⊗ b10 ⊕ a4 ⊗ b9 ⊕ a5 ⊗ b8 ⊕ a6 ⊗ b7 ⊕ a7 ⊗ b6 ⊕ a8 ⊗ b5
       ⊕ a9 ⊗ b4 ⊕ a10 ⊗ b3 ⊕ a11 ⊗ b2);
     copp W64 (a3 ⊗ b11 ⊕ a4 ⊗ b10 ⊕ a5 ⊗ b9 ⊕ a6 ⊗ b8 ⊕ a7 ⊗ b7 ⊕ a8 ⊗ b6 ⊕ a9 ⊗ b5
       ⊕ a10 ⊗ b4 ⊕ a11 ⊗ b3);
     copp W64 (a4 ⊗ b11 ⊕ a5 ⊗ b10 ⊕ a6 ⊗ b9 ⊕ a7 ⊗ b8 ⊕ a8 ⊗ b7 ⊕ a9 ⊗ b6 ⊕ a10 ⊗ b5
       ⊕ a11 ⊗ b4);
     copp W64 (a5 ⊗ b11 ⊕ a6 ⊗ b10 ⊕ a7 ⊗ b9 ⊕ a8 ⊗ b8 ⊕ a9 ⊗ b7 ⊕ a10 ⊗ b6
       ⊕ a11 ⊗ b5);
     copp W64 (a6 ⊗ b11 ⊕ a7 ⊗ b10 ⊕ a8 ⊗ b9 ⊕ a9 ⊗ b8 ⊕ a10 ⊗ b7 ⊕ a11 ⊗ b6);
     copp W64 (a7 ⊗ b11 ⊕ a8 ⊗ b10 ⊕ a9 ⊗ b9 ⊕ a10 ⊗ b8 ⊕ a11 ⊗ b7);
     copp W64 (a8 ⊗ b11 ⊕ a9 ⊗ b10 ⊕ a10 ⊗ b9 ⊕ a11 ⊗ b8);
     copp W64 (a9 ⊗ b11 ⊕ a10 ⊗ b10 ⊕ a11 ⊗ b9);
     copp W64 (a10 ⊗ b11 ⊕ a11 ⊗ b10);
     copp W64 a11 ⊗ b11;
     #0].


Definition sc_mul (a b : list Z) : option (list Z) :=
  a ← sc_load32 a; b ← sc_load32 b; s ← sc_mul_products a b;
  s ← run sc_carry_products s; s ← run sc_reduce_high s; sc_finish s.

Definition sc_muladd (a b c : list Z) : option (list Z) :=
  a ← sc_load32 a; b ← sc_load32 b; c ← sc_load32 c; s ← sc_muladd_products a b c;
  s ← run sc_carry_products s; s ← run sc_reduce_high s; sc_finish s.

Definition sc_mulsub (a b c : list Z) : option (list Z) :=
  a ← sc_load32 a; b ← sc_load32 b; c ← sc_load32 c; s ← sc_mulsub_products a b c;
  s ← run sc_carry_products s; s ← run sc_reduce_high s; sc_finish s.

Definition signum (a : Z) : Z := if 0 <? a then 1 else if a <? 0 then -1 else 0.

(** The limbs are loaded as [uint64_t] and kept as [int64_t]; the sum has at
    most eight bits, so it and its conversion to [int] are exact. *)
Definition sc_check (s : list Z) : option Z :=
  s0 ← load_4 s; s1 ← load_4 (drop 4 s); s2 ← load_4 (drop 8 s); s3 ← load_4 (drop 12 s);
  s4 ← load_4 (drop 16 s); s5 ← load_4 (drop 20 s); s6 ← load_4 (drop 24 s);
  s7 ← load_4 (drop 28 s);
  Some (Z.shiftr
    (signum (1559614444 - s0) + Z.shiftl (signum (1477600026 - s1)) 1 +
     Z.shiftl (signum (2734136534 - s2)) 2 + Z.shiftl (signum (350157278 - s3)) 3 +
     Z.shiftl (signum (- s4)) 4 + Z.shiftl (signum (- s5)) 5 +
     Z.shiftl (signum (- s6)) 6 + Z.shiftl (signum (268435456 - s7)) 7) 8).

(** The same expression as [fe_isnonzero]'s, on the bytes of a scalar. *)
Definition sc_isnonzero (s : list Z) : Z := bytes_isnonzero s.

(** ** Loads *)

Definition window21 (v : Z) (i : nat) : Z := v / 2 ^ (21 * Z.of_nat i) mod 2 ^ 21.

Lemma limb21_ok c v j n i b :
  c = Some (v / 2 ^ b mod 2 ^ j) -> 0 <= b -> 0 <= n -> n + 21 <= j ->
  b + n = 21 * Z.of_nat i -> limb21 c n = Some (window21 v i).
Proof.
  intros -> Hb Hn Hj Hi. unfold limb21, window21. cbn [mbind option_bind].
  rewrite Z.shiftr_div_pow2 by lia. change 2097151 with (Z.ones 21).
  rewrite land_ones_r, mod_div_mod, Hi by lia.
  rewrite to_i64_id; [reflexivity|]. cbn [min_of max_of].
  pose proof (Z.mod_pos_bound (v / 2 ^ (21 * Z.of_nat i)) (2 ^ 21) ltac:(lia)) as H.
  eval_pows_in H. eval_pows. lia.
Qed.

Lemma limb_top_ok c v j n i b :
  c = Some (v / 2 ^ b mod 2 ^ j) -> 0 <= b -> 0 <= n -> 0 <= j <= 32 ->
  0 <= v < 2 ^ (b + j) -> b + n = 21 * Z.of_nat i ->
  limb_top c n = Some (v / 2 ^ (21 * Z.of_nat i)).
Proof.
  intros -> Hb Hn Hj Hv Hi. unfold limb_top. cbn [mbind option_bind].
  assert (Hq : 0 <= v / 2 ^ b < 2 ^ j).
  { split; [apply Z.div_pos; lia|].
    apply Z.div_lt_upper_bound; [lia|]. rewrite <- Z.pow_add_r by lia. lia. }
  rewrite Z.mod_small by exact Hq.
  rewrite Z.shiftr_div_pow2, Z.div_div, <- Z.pow_add_r, Hi by lia.
  rewrite to_i64_id; [reflexivity|]. rewrite <- Hi, Z.pow_add_r, <- Z.div_div by lia.
  assert (2 ^ j <= 2 ^ 32) by (apply Z.pow_le_mono_r; lia).
  assert (1 <= 2 ^ n) by (change 1 with (2 ^ 0); apply Z.pow_le_mono_r; lia).
  set (q := v / 2 ^ b) in *. set (m := 2 ^ n) in *.
  assert (q / m <= q) by (apply Z.div_le_upper_bound; [lia | clearbody q m; nia]).
  assert (0 <= q / m) by (apply Z.div_pos; lia).
  change (2 ^ 32) with 4294967296 in *. cbn [min_of max_of]. lia.
Qed.

Definition windows (v : Z) (n : nat) : list Z :=
  map (window21 v) (seq 0 n) ++ [v / 2 ^ (21 * Z.of_nat n)].

Lemma sc_load32_ok s :
  is_bytes s -> length s = 32%nat -> sc_load32 s = Some (windows (le_val s) 11).
Proof.
  intros Hs Hl. pose proof (le_val_range s Hs) as Hr. rewrite Hl in Hr.
  unfold sc_load32, windows. change s with (drop 0 s) at 1. cbn [map seq app].
  repeat (apply limbs_some_cons; [first
    [ eapply limb21_ok;
      [first [apply load_3_val | apply load_4_val]; [exact Hs | lia] | lia | lia | lia | lia]
    | eapply limb_top_ok;
      [apply load_4_val; [exact Hs | lia] | lia | lia | lia | exact Hr | lia] ]|]).
  reflexivity.
Qed.

Lemma sc_load64_ok s :
  is_bytes s -> length s = 64%nat -> sc_load64 s = Some (windows (le_val s) 23).
Proof.
  intros Hs Hl. pose proof (le_val_range s Hs) as Hr. rewrite Hl in Hr.
  unfold sc_load64, windows. change s with (drop 0 s) at 1. cbn [map seq app].
  repeat (apply limbs_some_cons; [first
    [ eapply limb21_ok;
      [first [apply load_3_val | apply load_4_val]; [exact Hs | lia] | lia | lia | lia | lia]
    | eapply limb_top_ok;
      [apply load_4_val; [exact Hs | lia] | lia | lia | lia | exact Hr | lia] ]|]).
  reflexivity.
Qed.

(** The limbs add up to the number. *)
Lemma windows_prefix v n rest : sc_val n (map (window21 v) (seq 0 n) ++ rest) = v mod 2 ^ (21 * Z.of_nat n).
Proof.
  revert rest. induction n as [|n IH]; intros rest.
  - cbn. rewrite Z.mod_1_r. reflexivity.
  - rewrite seq_S, map_app, <- app_assoc. cbn [map app Nat.add].
    rewrite (sc_val_S n _ (window21 v n)), IH.
    + unfold window21. rewrite Nat2Z.inj_succ.
      replace (21 * Z.succ (Z.of_nat n)) with (21 * Z.of_nat n + 21) by lia.
      rewrite Z.pow_add_r, Z.rem_mul_r by (try apply Z.pow_nonzero; lia). ring.
    + rewrite lookup_app_r by (rewrite length_map, length_seq; lia).
      rewrite length_map, length_seq, Nat.sub_diag. reflexivity.
Qed.

Lemma windows_val v n rest : sc_val (S n) (windows v n ++ rest) = v.
Proof.
  unfold windows. rewrite <- app_assoc, (sc_val_S n _ (v / 2 ^ (21 * Z.of_nat n))), windows_prefix.
  - rewrite Z.add_comm, Z.mul_comm. symmetry. apply Z.div_mod, Z.pow_nonzero; lia.
  - rewrite lookup_app_r by (rewrite length_map, length_seq; lia).
    rewrite length_map, length_seq, Nat.sub_diag. reflexivity.
Qed.

(** Their bounds. *)
Lemma window21_digit v i : zin (window21 v i) digit.
Proof.
  unfold window21, zin, digit. cbn [fst snd].
  pose proof (Z.mod_pos_bound (v / 2 ^ (21 * Z.of_nat i)) (2 ^ 21) ltac:(lia)) as H.
  change (2 ^ 21) with 2097152 in *. lia.
Qed.

Lemma windows_zins v n t :
  0 <= v < 2 ^ (21 * Z.of_nat n) * (t + 1) -> zins (windows v n) (repeat digit n ++ [(0, t)]).
Proof.
  intros Hv. unfold windows. apply Forall2_app.
  - clear Hv. generalize 0%nat. induction n as [|n IH]; intros k; cbn [seq map repeat]; constructor.
    + apply window21_digit.
    + apply IH.
  - constructor; [|constructor]. unfold zin. cbn [fst snd].
    pose proof (Z.pow_pos_nonneg 2 (21 * Z.of_nat n) ltac:(lia) ltac:(lia)).
    split; [apply Z.div_pos; lia|]. apply Z.lt_succ_r, Z.div_lt_upper_bound; lia.
Qed.

Definition load32_bounds : list itv := repeat digit 11 ++ [(0, 33554431)].
Definition load64_bounds : list itv := repeat digit 23 ++ [(0, 536870911)].

Lemma sc_load32_spec s :
  is_bytes s -> length s = 32%nat ->
  exists h, sc_load32 s = Some h /\ zins h load32_bounds /\ sc_val 12 h = le_val s.
Proof.
  intros Hs Hl. pose proof (le_val_range s Hs) as Hr. rewrite Hl in Hr.
  eexists. split; [apply sc_load32_ok; assumption|]. split.
  - apply windows_zins. exact Hr.
  - pose proof (windows_val (le_val s) 11 []) as E. rewrite app_nil_r in E. exact E.
Qed.

Lemma sc_load64_spec s :
  is_bytes s -> length s = 64%nat ->
  exists h, sc_load64 s = Some h /\ zins h load64_bounds /\ sc_val 24 h = le_val s.
Proof.
  intros Hs Hl. pose proof (le_val_range s Hs) as Hr. rewrite Hl in Hr.
  eexists. split; [apply sc_load64_ok; assumption|]. split.
  - apply windows_zins. exact Hr.
  - pose proof (windows_val (le_val s) 23 []) as E. rewrite app_nil_r in E. exact E.
Qed.

(** ** The high reduction *)

Definition arnd (i : nat) : astep := acarry W64 21 1048576 1 i (S i).
Definition asc_carry_products : list astep :=
  map (fun i => arnd (2 * i)) (seq 0 12) ++ map (fun i => arnd (2 * i + 1)) (seq 0 11).
Definition asc_high : list astep :=
  map asc_fold [23; 22; 21; 20; 19; 18]%nat ++ map arnd [6; 8; 10; 12; 14; 16]%nat ++
  map arnd [7; 9; 11; 13; 15]%nat ++ map asc_fold [17; 16; 15; 14; 13; 12]%nat ++ [asc_clear 12].

Lemma sc_carry_products_ok :
  prog_ok 0 (sc_weights 24) (sc_weights 24) sc_carry_products asc_carry_products.
Proof. unfold sc_carry_products, carry21. sc_prog_tac. Qed.

Lemma sc_reduce_high_ok : prog_ok l (sc_weights 24) (sc_weights 13) sc_reduce_high asc_high.
Proof. unfold sc_reduce_high, carry21. sc_prog_tac. Qed.

Definition sc_high_fits (Is : list itv) : bool :=
  match run asc_high Is with Some Is' => sc_low_fits Is' | None => false end.

Lemma sc_high_finish_ok h Is :
  zins h Is -> sc_high_fits Is = true ->
  (s ← run sc_reduce_high h; sc_finish s) = Some (le_bytes 32 (sc_val 24 h mod l)).
Proof.
  intros Hh. unfold sc_high_fits. destruct (run asc_high Is) as [Is'|] eqn:E; [|discriminate].
  intros Hf. destruct (run_ok _ _ _ _ _ sc_reduce_high_ok _ _ _ Hh E) as (h' & -> & Hz & Hv).
  cbn [mbind option_bind]. rewrite (sc_finish_ok h' Is' Hz Hf). unfold sc_val. rewrite Hv. reflexivity.
Qed.

(** Bounds of the products. *)
Definition sc_products_bounds : list itv := repeat (sym 2251799813685248) 23 ++ [(0, 0)].

Lemma sc_products_fits :
  match run asc_carry_products sc_products_bounds with
  | Some Is => sc_high_fits Is
  | None => false
  end = true.
Proof. eval_closed. Qed.

Lemma sc_products_finish_ok h :
  zins h sc_products_bounds ->
  (s ← run sc_carry_products h; s ← run sc_reduce_high s; sc_finish s) =
    Some (le_bytes 32 (sc_val 24 h mod l)).
Proof.
  intros Hh. pose proof sc_products_fits as Hf. revert Hf.
  destruct (run asc_carry_products sc_products_bounds) as [Is|] eqn:E; [|discriminate].
  intros Hf. destruct (run_ok _ _ _ _ _ sc_carry_products_ok _ _ _ Hh E) as (h' & -> & Hz & Hv).
  rewrite eqmod_0_iff in Hv. fold (sc_val 24 h') (sc_val 24 h) in Hv.
  cbn [mbind option_bind]. rewrite <- Hv. apply (sc_high_finish_ok h' Is Hz Hf).
Qed.

(** ** The operations *)

Lemma sc_reduce_ok s :
  is_bytes s -> length s = 64%nat -> sc_reduce s = Some (le_bytes 32 (le_val s mod l)).
Proof.
  intros Hs Hl. destruct (sc_load64_spec s Hs Hl) as (h & Hload & Hz & Hv).
  unfold sc_reduce. rewrite Hload, <- Hv. cbn [mbind option_bind].
  apply (sc_high_finish_ok h _ Hz). eval_closed.
Qed.

Lemma sc_val_13 h : length h = 12%nat -> sc_val 13 (h ++ [0]) = sc_val 12 h.
Proof.
  intros Hl. rewrite (sc_val_S 12 _ 0).
  - rewrite <- (sc_val_take 12 (h ++ [0])), <- Hl, take_app_length, Hl. ring.
  - rewrite lookup_app_r by lia. rewrite Hl. reflexivity.
Qed.

Lemma sc_reduce32_ok s :
  is_bytes s -> length s = 32%nat -> sc_reduce32 s = Some (le_bytes 32 (le_val s mod l)).
Proof.
  intros Hs Hl. destruct (sc_load32_spec s Hs Hl) as (h & Hload & Hz & Hv).
  unfold sc_reduce32. rewrite Hload. cbn [mbind option_bind].
  pose proof (Forall2_length _ _ _ Hz) as Hlen.
  rewrite (sc_finish_ok _ (load32_bounds ++ [(0, 0)])).
  - rewrite sc_val_13, Hv by exact Hlen. reflexivity.
  - apply Forall2_app; [exact Hz|]. constructor; [unfold zin; cbn; lia | constructor].
  - eval_closed.
Qed.

(** Evaluate limb-wise expressions on bounded limbs and compare values. *)
Ltac sc_limbs_tac :=
  zin_to_ev; cbn [lookup list_lookup]; cbv zeta;
  eapply limbs_ok_intro; [limbs_tac | eval_closed | ];
  sc_eval_val; ring.

Ltac load32_open H := cbn [load32_bounds repeat app] in H; zins_open H.

Definition sc_sum_bounds : list itv := repeat (sym 4194303) 11 ++ [sym 67108863; (0, 0)].

Lemma sc_add_limbs_ok a b :
  zins a load32_bounds -> zins b load32_bounds ->
  exists h, sc_add_limbs a b = Some h /\ zins h sc_sum_bounds /\
    sc_val 13 h = sc_val 12 a + sc_val 12 b.
Proof.
  intros Ha Hb. load32_open Ha. load32_open Hb. unfold digit in *. unfold sc_add_limbs. sc_limbs_tac.
Qed.

Lemma sc_sub_limbs_ok a b :
  zins a load32_bounds -> zins b load32_bounds ->
  exists h, sc_sub_limbs a b = Some h /\ zins h sc_sum_bounds /\
    sc_val 13 h = sc_val 12 a - sc_val 12 b.
Proof.
  intros Ha Hb. load32_open Ha. load32_open Hb. unfold digit in *. unfold sc_sub_limbs. sc_limbs_tac.
Qed.

Lemma sc_mul_products_ok a b :
  zins a load32_bounds -> zins b load32_bounds ->
  exists h, sc_mul_products a b = Some h /\ zins h sc_products_bounds /\
    sc_val 24 h = sc_val 12 a * sc_val 12 b.
Proof.
  intros Ha Hb. load32_open Ha. load32_open Hb. unfold digit in *. unfold sc_mul_products.
  sc_limbs_tac.
Qed.

Lemma sc_muladd_products_ok a b c :
  zins a load32_bounds -> zins b load32_bounds -> zins c load32_bounds ->
  exists h, sc_muladd_products a b c = Some h /\ zins h sc_products_bounds /\
    sc_val 24 h = sc_val 12 c + sc_val 12 a * sc_val 12 b.
Proof.
  intros Ha Hb Hc. load32_open Ha. load32_open Hb. load32_open Hc. unfold digit in *.
  unfold sc_muladd_products. sc_limbs_tac.
Qed.

Lemma sc_mulsub_products_ok a b c :
  zins a load32_bounds -> zins b load32_bounds -> zins c load32_bounds ->
  exists h, sc_mulsub_products a b c = Some h /\ zins h sc_products_bounds /\
    sc_val 24 h = sc_val 12 c - sc_val 12 a * sc_val 12 b.
Proof.
  intros Ha Hb Hc. load32_open Ha. load32_open Hb. load32_open Hc. unfold digit in *.
  unfold sc_mulsub_products. sc_limbs_tac.
Qed.

(** The whole functions: load, combine, reduce, pack. *)
Lemma sc_add_ok a b :
  bytes_of 32 a -> bytes_of 32 b ->
  sc_add a b = Some (le_bytes 32 ((le_val a + le_val b) mod l)).
Proof.
  intros [Ha La] [Hb Lb].
  destruct (sc_load32_spec a Ha La) as (ha & Ea & Za & <-).
  destruct (sc_load32_spec b Hb Lb) as (hb & Eb & Zb & <-).
  destruct (sc_add_limbs_ok ha hb Za Zb) as (h & Eh & Zh & <-).
  unfold sc_add. rewrite Ea, Eb. cbn [mbind option_bind]. rewrite Eh.
  apply (sc_finish_ok h _ Zh). eval_closed.
Qed.

Lemma sc_sub_ok a b :
  bytes_of 32 a -> bytes_of 32 b ->
  sc_sub a b = Some (le_bytes 32 ((le_val a - le_val b) mod l)).
Proof.
  intros [Ha La] [Hb Lb].
  destruct (sc_load32_spec a Ha La) as (ha & Ea & Za & <-).
  destruct (sc_load32_spec b Hb Lb) as (hb & Eb & Zb & <-).
  destruct (sc_sub_limbs_ok ha hb Za Zb) as (h & Eh & Zh & <-).
  unfold sc_sub. rewrite Ea, Eb. cbn [mbind option_bind]. rewrite Eh.
  apply (sc_finish_ok h _ Zh). eval_closed.
Qed.

Lemma sc_mul_ok a b :
  bytes_of 32 a -> bytes_of 32 b ->
  sc_mul a b = Some (le_bytes 32 (le_val a * le_val b mod l)).
Proof.
  intros [Ha La] [Hb Lb].
  destruct (sc_load32_spec a Ha La) as (ha & Ea & Za & <-).
  destruct (sc_load32_spec b Hb Lb) as (hb & Eb & Zb & <-).
  destruct (sc_mul_products_ok ha hb Za Zb) as (h & Eh & Zh & <-).
  unfold sc_mul. rewrite Ea, Eb. cbn [mbind option_bind]. rewrite Eh.
  apply (sc_products_finish_ok h Zh).
Qed.

Lemma sc_muladd_ok a b c :
  bytes_of 32 a -> bytes_of 32 b -> bytes_of 32 c ->
  sc_muladd a b c = Some (le_bytes 32 ((le_val c + le_val a * le_val b) mod l)).
Proof.
  intros [Ha La] [Hb Lb] [Hc Lc].
  destruct (sc_load32_spec a Ha La) as (ha & Ea & Za & <-).
  destruct (sc_load32_spec b Hb Lb) as (hb & Eb & Zb & <-).
  destruct (sc_load32_spec c Hc Lc) as (hc & Ec & Zc & <-).
  destruct (sc_muladd_products_ok ha hb hc Za Zb Zc) as (h & Eh & Zh & <-).
  unfold sc_muladd. rewrite Ea, Eb, Ec. cbn [mbind option_bind]. rewrite Eh.
  apply (sc_products_finish_ok h Zh).
Qed.

Lemma sc_mulsub_ok a b c :
  bytes_of 32 a -> bytes_of 32 b -> bytes_of 32 c ->
  sc_mulsub a b c = Some (le_bytes 32 ((le_val c - le_val a * le_val b) mod l)).
Proof.
  intros [Ha La] [Hb Lb] [Hc Lc].
  destruct (sc_load32_spec a Ha La) as (ha & Ea & Za & <-).
  destruct (sc_load32_spec b Hb Lb) as (hb & Eb & Zb & <-).
  destruct (sc_load32_spec c Hc Lc) as (hc & Ec & Zc & <-).
  destruct (sc_mulsub_products_ok ha hb hc Za Zb Zc) as (h & Eh & Zh & <-).
  unfold sc_mulsub. rewrite Ea, Eb, Ec. cbn [mbind option_bind]. rewrite Eh.
  apply (sc_products_finish_ok h Zh).
Qed.

(** ** The canonicity check *)

(** [s] has the sign of [d]. *)
Definition same_sign (s d : Z) : Prop := (s < 0 <-> d < 0) /\ (s = 0 <-> d = 0).

Lemma signum_same d : same_sign (signum d) d.
Proof.
  unfold same_sign, signum. destruct (Z.ltb_spec 0 d), (Z.ltb_spec d 0); lia.
Qed.

(** Signs of digits, most significant last, compare like the numbers. *)
Lemma same_sign_step s d d0 :
  same_sign s d -> - 2 ^ 32 < d0 < 2 ^ 32 -> same_sign (signum d0 + 2 * s) (d0 + 2 ^ 32 * d).
Proof.
  change (2 ^ 32) with 4294967296. unfold same_sign, signum. intros H Hd.
  destruct (Z.ltb_spec 0 d0), (Z.ltb_spec d0 0); lia.
Qed.

Lemma signum_range d : -1 <= signum d <= 1.
Proof. unfold signum. destruct (Z.ltb_spec 0 d), (Z.ltb_spec d 0); lia. Qed.

Lemma shiftr8_sign s d :
  same_sign s d -> -256 <= s < 256 -> Z.shiftr s 8 = if d <? 0 then -1 else 0.
Proof.
  intros [H1 H2] Hs. rewrite Z.shiftr_div_pow2 by lia. change (2 ^ 8) with 256.
  destruct (Z.ltb_spec d 0).
  - symmetry. apply Z.div_unique with (s + 256); lia.
  - apply Z.div_small. lia.
Qed.

(** Eight 32-bit digits. *)
Lemma digits32 v :
  0 <= v < 2 ^ 256 ->
  exists d0 d1 d2 d3 d4 d5 d6 d7,
    v mod 2 ^ 32 = d0 /\ v / 2 ^ 32 mod 2 ^ 32 = d1 /\ v / 2 ^ 64 mod 2 ^ 32 = d2 /\
    v / 2 ^ 96 mod 2 ^ 32 = d3 /\ v / 2 ^ 128 mod 2 ^ 32 = d4 /\ v / 2 ^ 160 mod 2 ^ 32 = d5 /\
    v / 2 ^ 192 mod 2 ^ 32 = d6 /\ v / 2 ^ 224 mod 2 ^ 32 = d7 /\
    v = d0 + 2 ^ 32 * (d1 + 2 ^ 32 * (d2 + 2 ^ 32 * (d3 + 2 ^ 32 *
          (d4 + 2 ^ 32 * (d5 + 2 ^ 32 * (d6 + 2 ^ 32 * d7)))))).
Proof.
  intros Hv. do 8 eexists. repeat (split; [reflexivity|]).
  pose proof (window_split v 0 32 32 ltac:(lia) ltac:(lia) eq_refl) as E0.
  rewrite Z.div_1_r in E0. etransitivity; [exact E0|]. do 2 f_equal.
  etransitivity; [exact (window_split v 32 32 64 ltac:(lia) ltac:(lia) eq_refl)|]. do 2 f_equal.
  etransitivity; [exact (window_split v 64 32 96 ltac:(lia) ltac:(lia) eq_refl)|]. do 2 f_equal.
  etransitivity; [exact (window_split v 96 32 128 ltac:(lia) ltac:(lia) eq_refl)|]. do 2 f_equal.
  etransitivity; [exact (window_split v 128 32 160 ltac:(lia) ltac:(lia) eq_refl)|]. do 2 f_equal.
  etransitivity; [exact (window_split v 160 32 192 ltac:(lia) ltac:(lia) eq_refl)|]. do 2 f_equal.
  etransitivity; [exact (window_split v 192 32 224 ltac:(lia) ltac:(lia) eq_refl)|]. do 2 f_equal.
  symmetry. apply Z.mod_small.
  split; [apply Z.div_pos; lia | apply Z.div_lt_upper_bound; [lia|]].
  rewrite <- Z.pow_add_r by lia. apply Hv.
Qed.

Lemma sc_check_ok s :
  bytes_of 32 s -> sc_check s = Some (if le_val s <? l then 0 else -1).
Proof.
  intros [Hs Hl]. pose proof (le_val_range s Hs) as Hr. rewrite Hl in Hr.
  destruct (digits32 (le_val s) Hr) as (d0 & d1 & d2 & d3 & d4 & d5 & d6 & d7 &
    E0 & E1 & E2 & E3 & E4 & E5 & E6 & E7 & Hv).
  pose proof (load_4_val s 0 Hs ltac:(lia)) as L0. change (drop 0 s) with s in L0.
  change (2 ^ (8 * Z.of_nat 0)) with 1 in L0. rewrite Z.div_1_r in L0.
  unfold sc_check. rewrite L0, !load_4_val by (exact Hs || lia). cbn [mbind option_bind].
  repeat match goal with
    | |- context [2 ^ (8 * Z.of_nat ?n)] =>
        let e := eval vm_compute in (8 * Z.of_nat n) in change (8 * Z.of_nat n) with e
    end.
  rewrite E0, E1, E2, E3, E4, E5, E6, E7. f_equal.
  assert (Hb : forall x d, x mod 2 ^ 32 = d -> 0 <= d < 2 ^ 32)
    by (intros x d <-; apply Z.mod_pos_bound; lia).
  apply Hb in E0, E1, E2, E3, E4, E5, E6, E7. clear Hb.
  rewrite (shiftr8_sign _ (l - 1 - le_val s)).
  - destruct (Z.ltb_spec (l - 1 - le_val s) 0), (Z.ltb_spec (le_val s) l); (reflexivity || lia).
  - pose proof (signum_same (268435456 - d7)) as H.
    apply (same_sign_step _ _ (- d6)) in H; [|lia].
    apply (same_sign_step _ _ (- d5)) in H; [|lia].
    apply (same_sign_step _ _ (- d4)) in H; [|lia].
    apply (same_sign_step _ _ (350157278 - d3)) in H; [|lia].
    apply (same_sign_step _ _ (2734136534 - d2)) in H; [|lia].
    apply (same_sign_step _ _ (1477600026 - d1)) in H; [|lia].
    apply (same_sign_step _ _ (1559614444 - d0)) in H; [|lia].
    match goal with H : same_sign ?s ?d |- same_sign ?s' ?d' =>
      replace s' with s; [replace d' with d; [exact H|]|] end.
    + rewrite Hv. unfold l. eval_pows. ring.
    + rewrite !Z.shiftl_mul_pow2 by lia. eval_pows. ring.
  - rewrite !Z.shiftl_mul_pow2 by lia. eval_pows.
    pose proof (signum_range (1559614444 - d0)). pose proof (signum_range (1477600026 - d1)).
    pose proof (signum_range (2734136534 - d2)). pose proof (signum_range (350157278 - d3)).
    pose proof (signum_range (- d4)). pose proof (signum_range (- d5)).
    pose proof (signum_range (- d6)). pose proof (signum_range (268435456 - d7)). lia.
Qed.
