(* ===== verification/Group.v ===== *)
(** * Abelian groups and multiples

    The interface between the scalar multiplications and the group they
    compute in: a scalar multiplication is proved against [AbGroup], which the
    curve implements (Curve.v). *)

From S2P Require Import Prelude.

Declare Scope group_scope.
Delimit Scope group_scope with G.

Class AbGroup (G : Type) := {
  gzero : G;
  gadd : G -> G -> G;
  gopp : G -> G;
  gadd_assoc P Q R : gadd P (gadd Q R) = gadd (gadd P Q) R;
  gadd_comm P Q : gadd P Q = gadd Q P;
  gadd_0_l P : gadd gzero P = P;
  gadd_opp_l P : gadd (gopp P) P = gzero;
}.

Infix "+" := gadd : group_scope.
Notation "- P" := (gopp P) : group_scope.

Section Group.
Context `{AbGroup G}.
Local Open Scope group_scope.
Implicit Types P Q R : G.

Lemma gadd_0_r P : P + gzero = P.
Proof. rewrite gadd_comm. apply gadd_0_l. Qed.

Lemma gadd_opp_r P : P + - P = gzero.
Proof. rewrite gadd_comm. apply gadd_opp_l. Qed.

Lemma gadd_cancel_l P Q R : P + Q = P + R -> Q = R.
Proof.
  intros E. rewrite <- (gadd_0_l Q), <- (gadd_0_l R), <- (gadd_opp_l P), <- !gadd_assoc, E.
  reflexivity.
Qed.

Lemma gadd_swap P Q R S : (P + Q) + (R + S) = (P + R) + (Q + S).
Proof.
  rewrite <- !gadd_assoc. f_equal. rewrite !gadd_assoc. f_equal. apply gadd_comm.
Qed.

Lemma gopp_0 : - gzero = gzero.
Proof. rewrite <- (gadd_0_r (- gzero)). apply gadd_opp_l. Qed.

Lemma gopp_opp P : - - P = P.
Proof. apply (gadd_cancel_l (- P)). rewrite gadd_opp_r, gadd_opp_l. reflexivity. Qed.

Lemma gopp_add P Q : - (P + Q) = - P + - Q.
Proof.
  apply (gadd_cancel_l (P + Q)). rewrite gadd_opp_r, gadd_swap, !gadd_opp_r, gadd_0_l. reflexivity.
Qed.

(** Multiples by naturals, then by integers. *)
Fixpoint nmul (n : nat) (P : G) : G :=
  match n with O => gzero | S n => P + nmul n P end.

Definition gmul (n : Z) (P : G) : G :=
  if n <? 0 then - nmul (Z.to_nat (- n)) P else nmul (Z.to_nat n) P.

Lemma nmul_add n m P : nmul (n + m) P = nmul n P + nmul m P.
Proof.
  induction n as [|n IH]; cbn [nmul Nat.add]; [rewrite gadd_0_l; reflexivity|].
  rewrite IH, gadd_assoc. reflexivity.
Qed.

Lemma gmul_0 P : gmul 0 P = gzero.
Proof. reflexivity. Qed.

Lemma gmul_1 P : gmul 1 P = P.
Proof. exact (gadd_0_r P). Qed.

Lemma gmul_opp_l n P : gmul (- n) P = - gmul n P.
Proof.
  unfold gmul. destruct (Z.ltb_spec (- n) 0), (Z.ltb_spec n 0); try lia.
  - rewrite Z.opp_involutive. reflexivity.
  - rewrite gopp_opp. reflexivity.
  - assert (n = 0)%Z as -> by lia. symmetry. exact gopp_0.
Qed.

Lemma gmul_succ n P : gmul (n + 1) P = P + gmul n P.
Proof.
  unfold gmul. destruct (Z.ltb_spec (n + 1) 0), (Z.ltb_spec n 0); try lia.
  - replace (Z.to_nat (- n)) with (S (Z.to_nat (- (n + 1)))) by lia. cbn [nmul].
    rewrite gopp_add, gadd_assoc, gadd_opp_r, gadd_0_l. reflexivity.
  - assert (n = -1)%Z as -> by lia. change (gzero = P + - (P + gzero)).
    rewrite gadd_0_r, gadd_opp_r. reflexivity.
  - replace (Z.to_nat (n + 1)) with (S (Z.to_nat n)) by lia. reflexivity.
Qed.

Lemma gmul_add n m P : gmul (n + m) P = gmul n P + gmul m P.
Proof.
  revert m. assert (Hpos : forall n, (0 <= n)%Z -> forall m, gmul (n + m) P = gmul n P + gmul m P).
  { apply (natlike_ind (fun n => forall m, gmul (n + m) P = gmul n P + gmul m P)).
    - intros m. rewrite gmul_0, gadd_0_l. f_equal.
    - intros k Hk IH m. unfold Z.succ. rewrite (gmul_succ k), <- gadd_assoc, <- IH, <- gmul_succ.
      f_equal. lia. }
  intros m. destruct (Z_le_gt_dec 0 n); [apply Hpos; assumption|].
  apply (gadd_cancel_l (gmul (- n) P)). rewrite <- Hpos by lia.
  rewrite gadd_assoc, <- Hpos by lia. rewrite Z.add_opp_diag_l, gmul_0, gadd_0_l.
  f_equal. lia.
Qed.

Lemma gmul_2 P : gmul 2 P = P + P.
Proof. change (P + (P + gzero) = P + P). rewrite gadd_0_r. reflexivity. Qed.

Lemma gmul_double n P : gmul (2 * n) P = gmul n P + gmul n P.
Proof. rewrite <- gmul_add. f_equal. lia. Qed.

Lemma gmul_sub n m P : gmul (n - m) P = gmul n P + - gmul m P.
Proof. rewrite <- Z.add_opp_r, gmul_add, gmul_opp_l. reflexivity. Qed.

Lemma gmul_gadd n P Q : gmul n (P + Q) = gmul n P + gmul n Q.
Proof.
  assert (Hpos : forall n, (0 <= n)%Z -> gmul n (P + Q) = gmul n P + gmul n Q).
  { apply natlike_ind.
    - rewrite !gmul_0, gadd_0_l. reflexivity.
    - intros k Hk IH. unfold Z.succ. rewrite !gmul_succ, IH, gadd_swap. reflexivity. }
  destruct (Z_le_gt_dec 0 n); [apply Hpos; assumption|].
  rewrite <- (Z.opp_involutive n), !(gmul_opp_l (- n)), Hpos by lia. apply gopp_add.
Qed.

Lemma gmul_mul n m P : gmul (n * m) P = gmul n (gmul m P).
Proof.
  assert (Hpos : forall n, (0 <= n)%Z -> gmul (n * m) P = gmul n (gmul m P)).
  { apply natlike_ind.
    - rewrite !gmul_0. reflexivity.
    - intros k Hk IH. unfold Z.succ. rewrite Z.mul_add_distr_r, Z.mul_1_l, Z.add_comm, gmul_add.
      rewrite gmul_succ, IH. reflexivity. }
  destruct (Z_le_gt_dec 0 n); [apply Hpos; assumption|].
  rewrite <- (Z.opp_involutive n), Z.mul_opp_l, (gmul_opp_l (- n * m)), (gmul_opp_l (- n)), Hpos by lia. reflexivity.
Qed.

Lemma gmul_gzero n : gmul n gzero = gzero.
Proof. rewrite <- (gmul_0 gzero), <- gmul_mul, Z.mul_0_r. reflexivity. Qed.
End Group.
