(* ===== verification/Curve.v ===== *)
(** * The curve -x^2 + y^2 = 1 + d x^2 y^2

    The Edwards curve that the [ge_] functions of crypto-ops.c compute on: its
    addition law is complete and makes the points an Abelian group.  The
    algebra is proved over any field with a square root of -1 and a non-square
    [d], then instantiated with the integers modulo p. *)

From S2P Require Import Prelude.
From S2P Require Import Fe.
From S2P Require Import Prime25519.
From S2P Require Import Group.
From Stdlib Require Import Zmod Field Zpow_facts.

(** ** The addition law over a field *)

Section Edwards.
Context {F : Type} {rO rI : F} {radd rmul rsub rdiv : F -> F -> F} {ropp rinv : F -> F}.
Context (Fth : field_theory rO rI radd rmul rsub ropp rdiv rinv eq).
Context `{EqDecision F}.
Declare Scope F_scope.
Local Open Scope F_scope.
Local Infix "+" := radd : F_scope.
Local Infix "*" := rmul : F_scope.
Local Infix "-" := rsub : F_scope.
Local Infix "/" := rdiv : F_scope.
Local Notation "0" := rO : F_scope.
Local Notation "1" := rI : F_scope.
Add Field field_F : Fth.

Context (d i : F) (Hi : i * i = 0 - 1) (Hd : forall s, s * s <> d) (H2 : 1 + 1 <> 0).

Definition curve_eq (x y : F) : Prop := y * y - x * x = 1 + d * (x * x) * (y * y).

Definition curve_zero (x y : F) : F := y * y - x * x - (1 + d * (x * x) * (y * y)).

Lemma curve_zero_0 x y : curve_eq x y -> curve_zero x y = 0.
Proof. unfold curve_eq, curve_zero. intros ->. ring. Qed.

Lemma integral x y : x * y = 0 -> x = 0 \/ y = 0.
Proof.
  intros E. destruct (decide (x = 0)) as [Hx|Hx]; [auto|]. right.
  assert (y = (x * y) / x) as -> by (field; exact Hx). rewrite E. field. exact Hx.
Qed.

Lemma mul_nz x y : x <> 0 -> y <> 0 -> x * y <> 0.
Proof. intros Hx Hy E. destruct (integral _ _ E); auto. Qed.

Lemma sub_0 x y : x - y = 0 -> x = y.
Proof. intros E. replace x with ((x - y) + y) by ring. rewrite E. ring. Qed.

(** Cofactors of the curve equations in the identities below. *)
Definition cof_add1 (x1 y1 x2 y2 : F) : F :=
  d * x1 * x1 * y1 * y1 * x2 * x2 * x2 * x2 + (1 + 1) * d * x1 * x1 * y1 * y1 * x2 * x2
  + d * x1 * x1 * y1 * y1 * y2 * y2 * y2 * y2 + d * x1 * x1 * y1 * y1
  + (1 + 1) * x1 * x1 * y1 * y1 * x2 * x2 + (1 + 1) * x1 * x1 * y1 * y1 + x1 * x1 * y2 * y2
  + y1 * y1 * x2 * x2 + y1 * y1 + 1 - (1 + 1) * d * x1 * x1 * y1 * y1 * y2 * y2
  - (1 + 1) * x1 * x1 * y1 * y1 * y2 * y2 - x1 * x1 * x2 * x2 - x1 * x1 - y1 * y1 * y2 * y2.
Definition cof_add2 (x1 y1 x2 y2 : F) : F :=
  d * d * d * x1 * x1 * x1 * x1 * y1 * y1 * y1 * y1 * x2 * x2 * y2 * y2
  + d * d * x1 * x1 * x1 * x1 * y1 * y1 * y1 * y1 * y2 * y2
  + d * x1 * x1 * x1 * x1 * y1 * y1 * y2 * y2 + d * x1 * x1 * y1 * y1 * y1 * y1 * x2 * x2
  + x1 * x1 * x1 * x1 + (1 + 1) * x1 * x1 * y1 * y1 * y1 * y1 + y1 * y1 * y1 * y1
  - d * d * x1 * x1 * x1 * x1 * y1 * y1 * y1 * y1 * x2 * x2
  - d * d * x1 * x1 * x1 * x1 * y1 * y1 * y1 * y1
  - (1 + 1) * d * x1 * x1 * x1 * x1 * y1 * y1 * y1 * y1
  - d * x1 * x1 * x1 * x1 * y1 * y1 * x2 * x2 - d * x1 * x1 * y1 * y1 * y1 * y1 * y2 * y2
  - (1 + 1) * d * x1 * x1 * y1 * y1 - (1 + 1) * x1 * x1 * x1 * x1 * y1 * y1
  - (1 + 1) * (1 + 1) * x1 * x1 * y1 * y1.
Definition cof_x1 (x1 y1 x2 y2 x3 y3 : F) : F :=
  d * d * y1 * x2 * x2 * x2 * x2 * y2 * y2 * y2 * x3 * y3 * y3
  + d * d * y1 * x2 * x2 * x2 * y2 * y2 * y2 * y2 * x3 * x3 * y3
  + d * x1 * x2 * x2 * y2 * y2 * y2 * y3 * y3 * y3
  + d * x1 * x2 * y2 * y2 * y2 * y2 * x3 * y3 * y3
  + d * y1 * x2 * x2 * x2 * x2 * y2 * x3 * y3 * y3
  + d * y1 * x2 * x2 * x2 * y2 * y2 * y3 * y3 * y3
  - d * d * x1 * x2 * x2 * x2 * x2 * y2 * y2 * y2 * x3 * x3 * y3
  - d * d * x1 * x2 * x2 * x2 * y2 * y2 * y2 * y2 * x3 * y3 * y3
  - d * x1 * x2 * x2 * x2 * x2 * y2 * x3 * x3 * y3
  - d * x1 * x2 * x2 * x2 * y2 * y2 * x3 * x3 * x3 - d * x1 * x2 * x2 * x2 * y2 * y2 * x3
  - d * x1 * x2 * x2 * y2 * y2 * y2 * y3 - d * y1 * x2 * x2 * x2 * y2 * y2 * y3
  - d * y1 * x2 * x2 * y2 * y2 * y2 * x3 * x3 * x3 - d * y1 * x2 * x2 * y2 * y2 * y2 * x3
  - d * y1 * x2 * y2 * y2 * y2 * y2 * x3 * x3 * y3.
Definition cof_x2 (x1 y1 x2 y2 x3 y3 : F) : F :=
  d * x1 * x1 * x1 * x2 * x2 * y2 * x3 * x3 * y3
  + d * x1 * x1 * x1 * x2 * y2 * y2 * x3 * y3 * y3 + d * x1 * x1 * y1 * x2 * y2 * y2 * y3
  + d * x1 * y1 * y1 * x2 * x2 * y2 * y3 + d * x1 * x2 * x2 * y2 * x3 * x3 * y3
  + d * x1 * x2 * y2 * y2 * x3 * y3 * y3 + d * y1 * y1 * y1 * x2 * x2 * y2 * x3 * y3 * y3
  + d * y1 * y1 * y1 * x2 * y2 * y2 * x3 * x3 * y3
  - d * x1 * x1 * y1 * x2 * x2 * y2 * x3 * x3 * x3 - d * x1 * x1 * y1 * x2 * x2 * y2 * x3
  - d * x1 * x1 * y1 * x2 * y2 * y2 * y3 * y3 * y3
  - d * x1 * y1 * y1 * x2 * x2 * y2 * y3 * y3 * y3
  - d * x1 * y1 * y1 * x2 * y2 * y2 * x3 * x3 * x3 - d * x1 * y1 * y1 * x2 * y2 * y2 * x3
  - d * y1 * x2 * x2 * y2 * x3 * y3 * y3 - d * y1 * x2 * y2 * y2 * x3 * x3 * y3.
Definition cof_x3 (x1 y1 x2 y2 x3 y3 : F) : F :=
  d * d * x1 * x1 * y1 * x2 * x2 * x2 * x2 * y2 * y2 * y2 * x3
  + d * d * x1 * y1 * y1 * x2 * x2 * x2 * y2 * y2 * y2 * y2 * x3
  + d * x1 * x1 * x1 * x2 * x2 * x2 * y2 * y2 * x3
  + d * x1 * x1 * x1 * x2 * x2 * y2 * y2 * y2 * y3
  + d * x1 * x1 * y1 * x2 * x2 * x2 * x2 * y2 * x3
  + d * x1 * x1 * y1 * x2 * y2 * y2 * y2 * y2 * y3 + d * x1 * x2 * x2 * x2 * y2 * y2 * x3
  + d * x1 * x2 * x2 * y2 * y2 * y2 * y3 + d * y1 * x2 * x2 * x2 * y2 * y2 * y3
  + d * y1 * x2 * x2 * y2 * y2 * y2 * x3
  - d * d * x1 * x1 * y1 * x2 * x2 * x2 * y2 * y2 * y2 * y2 * y3
  - d * d * x1 * y1 * y1 * x2 * x2 * x2 * x2 * y2 * y2 * y2 * y3
  - d * x1 * y1 * y1 * x2 * x2 * x2 * x2 * y2 * y3
  - d * x1 * y1 * y1 * x2 * y2 * y2 * y2 * y2 * x3
  - d * y1 * y1 * y1 * x2 * x2 * x2 * y2 * y2 * y3
  - d * y1 * y1 * y1 * x2 * x2 * y2 * y2 * y2 * x3.
Definition cof_y1 (x1 y1 x2 y2 x3 y3 : F) : F :=
  d * d * x1 * x2 * x2 * x2 * x2 * y2 * y2 * y2 * x3 * y3 * y3
  + d * d * x1 * x2 * x2 * x2 * y2 * y2 * y2 * y2 * x3 * x3 * y3
  + d * x1 * x2 * x2 * x2 * x2 * y2 * x3 * y3 * y3
  + d * x1 * x2 * x2 * x2 * y2 * y2 * y3 * y3 * y3
  + d * y1 * x2 * x2 * y2 * y2 * y2 * y3 * y3 * y3
  + d * y1 * x2 * y2 * y2 * y2 * y2 * x3 * y3 * y3
  - d * d * y1 * x2 * x2 * x2 * x2 * y2 * y2 * y2 * x3 * x3 * y3
  - d * d * y1 * x2 * x2 * x2 * y2 * y2 * y2 * y2 * x3 * y3 * y3
  - d * x1 * x2 * x2 * x2 * y2 * y2 * y3 - d * x1 * x2 * x2 * y2 * y2 * y2 * x3 * x3 * x3
  - d * x1 * x2 * x2 * y2 * y2 * y2 * x3 - d * x1 * x2 * y2 * y2 * y2 * y2 * x3 * x3 * y3
  - d * y1 * x2 * x2 * x2 * x2 * y2 * x3 * x3 * y3
  - d * y1 * x2 * x2 * x2 * y2 * y2 * x3 * x3 * x3 - d * y1 * x2 * x2 * x2 * y2 * y2 * x3
  - d * y1 * x2 * x2 * y2 * y2 * y2 * y3.
Definition cof_y2 (x1 y1 x2 y2 x3 y3 : F) : F :=
  d * x1 * x1 * y1 * x2 * x2 * y2 * y3 * y3 * y3
  + d * x1 * x1 * y1 * x2 * y2 * y2 * x3 * x3 * x3 + d * x1 * x1 * y1 * x2 * y2 * y2 * x3
  + d * x1 * y1 * y1 * x2 * x2 * y2 * x3 * x3 * x3 + d * x1 * y1 * y1 * x2 * x2 * y2 * x3
  + d * x1 * y1 * y1 * x2 * y2 * y2 * y3 * y3 * y3 + d * y1 * x2 * x2 * y2 * x3 * x3 * y3
  + d * y1 * x2 * y2 * y2 * x3 * y3 * y3 - d * x1 * x1 * x1 * x2 * x2 * y2 * x3 * y3 * y3
  - d * x1 * x1 * x1 * x2 * y2 * y2 * x3 * x3 * y3 - d * x1 * x1 * y1 * x2 * x2 * y2 * y3
  - d * x1 * y1 * y1 * x2 * y2 * y2 * y3 - d * x1 * x2 * x2 * y2 * x3 * y3 * y3
  - d * x1 * x2 * y2 * y2 * x3 * x3 * y3 - d * y1 * y1 * y1 * x2 * x2 * y2 * x3 * x3 * y3
  - d * y1 * y1 * y1 * x2 * y2 * y2 * x3 * y3 * y3.
Definition cof_y3 (x1 y1 x2 y2 x3 y3 : F) : F :=
  d * d * x1 * x1 * y1 * x2 * x2 * x2 * x2 * y2 * y2 * y2 * y3
  + d * d * x1 * y1 * y1 * x2 * x2 * x2 * y2 * y2 * y2 * y2 * y3
  + d * x1 * x1 * x1 * x2 * x2 * x2 * y2 * y2 * y3
  + d * x1 * x1 * x1 * x2 * x2 * y2 * y2 * y2 * x3
  + d * x1 * x1 * y1 * x2 * x2 * x2 * x2 * y2 * y3
  + d * x1 * x1 * y1 * x2 * y2 * y2 * y2 * y2 * x3 + d * x1 * x2 * x2 * x2 * y2 * y2 * y3
  + d * x1 * x2 * x2 * y2 * y2 * y2 * x3 + d * y1 * x2 * x2 * x2 * y2 * y2 * x3
  + d * y1 * x2 * x2 * y2 * y2 * y2 * y3
  - d * d * x1 * x1 * y1 * x2 * x2 * x2 * y2 * y2 * y2 * y2 * x3
  - d * d * x1 * y1 * y1 * x2 * x2 * x2 * x2 * y2 * y2 * y2 * x3
  - d * x1 * y1 * y1 * x2 * x2 * x2 * x2 * y2 * x3
  - d * x1 * y1 * y1 * x2 * y2 * y2 * y2 * y2 * y3
  - d * y1 * y1 * y1 * x2 * x2 * x2 * y2 * y2 * x3
  - d * y1 * y1 * y1 * x2 * x2 * y2 * y2 * y2 * y3.

Section Addition.
Context (x1 y1 x2 y2 : F) (C1 : curve_eq x1 y1) (C2 : curve_eq x2 y2).
Let e := d * x1 * x2 * y1 * y2.

(** With e^2 = 1, (y1 + e i x1)^2 = d (x1 y1 (y2 + i x2))^2, and so for -i. *)
Lemma exceptional_square j :
  j * j = 0 - 1 -> e * e = 1 ->
  (y1 + e * j * x1) * (y1 + e * j * x1) =
  d * (x1 * y1 * (y2 + j * x2)) * (x1 * y1 * (y2 + j * x2)).
Proof.
  intros Hj He. unfold curve_eq in C1, C2.
  assert (E : d * (x1 * x1) * (y1 * y1) * (y2 * y2 - x2 * x2) = y1 * y1 - x1 * x1).
  { rewrite C1, C2. transitivity (d * (x1 * x1) * (y1 * y1) + e * e); [unfold e; ring|].
    rewrite He. ring. }
  transitivity (y1 * y1 + (j * j) * (e * e) * (x1 * x1) + (1 + 1) * j * e * (x1 * y1)); [ring|].
  transitivity (d * (x1 * x1) * (y1 * y1) * (y2 * y2 + (j * j) * (x2 * x2)) +
                (1 + 1) * j * e * (x1 * y1)); [|unfold e; ring].
  rewrite He, Hj.
  transitivity ((y1 * y1 - x1 * x1) + (1 + 1) * j * e * (x1 * y1)); [ring|].
  rewrite <- E. ring.
Qed.

Lemma exceptional_zero j : j * j = 0 - 1 -> e * e = 1 -> y2 + j * x2 = 0.
Proof.
  intros Hj He. destruct (decide (y2 + j * x2 = 0)) as [|Hn]; [assumption|].
  exfalso. assert (Hnz : x1 * y1 <> 0).
  { intros E. assert (e = 0) as E0 by (unfold e; transitivity (d * x2 * y2 * (x1 * y1)); [ring|];
      rewrite E; ring).
    rewrite E0 in He. apply (F_1_neq_0 Fth). rewrite <- He. ring. }
  pose proof (mul_nz _ _ Hnz Hn) as Hq.
  apply (Hd ((y1 + e * j * x1) / (x1 * y1 * (y2 + j * x2)))).
  transitivity ((y1 + e * j * x1) * (y1 + e * j * x1) /
    ((x1 * y1 * (y2 + j * x2)) * (x1 * y1 * (y2 + j * x2)))).
  - set (q := x1 * y1 * (y2 + j * x2)) in *. field. exact Hq.
  - rewrite (exceptional_square j Hj He).
    set (q := x1 * y1 * (y2 + j * x2)) in *. field. exact Hq.
Qed.

(** The denominators of the addition law do not vanish. *)
Lemma complete_sq : e * e <> 1.
Proof.
  intros He. pose proof (exceptional_zero i Hi He) as E1.
  assert (Hj : (0 - i) * (0 - i) = 0 - 1) by (transitivity (i * i); [ring | exact Hi]).
  pose proof (exceptional_zero (0 - i) Hj He) as E2.
  assert (Ey : y2 = 0).
  { destruct (integral (1 + 1) y2) as [E|E]; [|contradiction|exact E].
    transitivity ((y2 + i * x2) + (y2 + (0 - i) * x2)); [ring|]. rewrite E1, E2. ring. }
  apply (F_1_neq_0 Fth). rewrite <- He. unfold e. rewrite Ey. ring.
Qed.

Lemma complete_plus : 1 + e <> 0.
Proof.
  intros E. apply complete_sq. transitivity ((1 + e) * (e - 1) + 1); [ring|]. rewrite E. ring.
Qed.

Lemma complete_minus : 1 - e <> 0.
Proof.
  intros E. apply complete_sq. transitivity (1 - (1 - e) * (1 + e)); [ring|]. rewrite E. ring.
Qed.

(** The sum is on the curve. *)
Lemma curve_add :
  curve_eq ((x1 * y2 + y1 * x2) / (1 + e)) ((y1 * y2 + x1 * x2) / (1 - e)).
Proof.
  pose proof complete_plus as Hp. pose proof complete_minus as Hm. unfold curve_eq.
  assert (E : (y1 * y2 + x1 * x2) * (y1 * y2 + x1 * x2) * ((1 + e) * (1 + e)) -
              (x1 * y2 + y1 * x2) * (x1 * y2 + y1 * x2) * ((1 - e) * (1 - e)) -
              ((1 + e) * (1 + e) * ((1 - e) * (1 - e)) +
               d * ((x1 * y2 + y1 * x2) * (x1 * y2 + y1 * x2)) *
               ((y1 * y2 + x1 * x2) * (y1 * y2 + x1 * x2))) = 0).
  { transitivity (cof_add1 x1 y1 x2 y2 * curve_zero x1 y1 + cof_add2 x1 y1 x2 y2 * curve_zero x2 y2);
      [unfold cof_add1, cof_add2, curve_zero, e; ring|].
    rewrite (curve_zero_0 x1 y1 C1), (curve_zero_0 x2 y2 C2). ring. }
  set (a := 1 + e) in *. set (b := 1 - e) in *.
  set (X := x1 * y2 + y1 * x2) in *. set (Y := y1 * y2 + x1 * x2) in *. clearbody a b X Y.
  apply sub_0.
  transitivity ((Y * Y * (a * a) - X * X * (b * b) - (a * a * (b * b) + d * (X * X) * (Y * Y)))
                / (a * a * (b * b))); [field; auto|].
  rewrite E. field. auto.
Qed.
End Addition.

Lemma div_eq a b c e : b <> 0 -> e <> 0 -> a * e - c * b = 0 -> a / b = c / e.
Proof.
  intros Hb He E. apply sub_0. transitivity ((a * e - c * b) / (b * e)); [field; auto|].
  rewrite E. field. auto.
Qed.

(** Associativity. *)
Section Assoc.
Context (x1 y1 x2 y2 x3 y3 : F).
Context (C1 : curve_eq x1 y1) (C2 : curve_eq x2 y2) (C3 : curve_eq x3 y3).
Let e12 := d * x1 * x2 * y1 * y2.
Let e23 := d * x2 * x3 * y2 * y3.
Let X12 := x1 * y2 + y1 * x2.
Let Y12 := y1 * y2 + x1 * x2.
Let X23 := x2 * y3 + y2 * x3.
Let Y23 := y2 * y3 + x2 * x3.

Lemma assoc_x_num :
  (X12 * (1 - e12) * y3 + Y12 * (1 + e12) * x3) *
    ((1 + e23) * (1 - e23) + d * x1 * y1 * X23 * Y23) -
  (x1 * Y23 * (1 + e23) + y1 * X23 * (1 - e23)) *
    ((1 + e12) * (1 - e12) + d * x3 * y3 * X12 * Y12) = 0.
Proof.
  transitivity (cof_x1 x1 y1 x2 y2 x3 y3 * curve_zero x1 y1 +
    cof_x2 x1 y1 x2 y2 x3 y3 * curve_zero x2 y2 + cof_x3 x1 y1 x2 y2 x3 y3 * curve_zero x3 y3).
  - unfold cof_x1, cof_x2, cof_x3, curve_zero, X12, Y12, X23, Y23, e12, e23. ring.
  - rewrite (curve_zero_0 x1 y1 C1), (curve_zero_0 x2 y2 C2), (curve_zero_0 x3 y3 C3). ring.
Qed.

Lemma assoc_y_num :
  (Y12 * (1 + e12) * y3 + X12 * (1 - e12) * x3) *
    ((1 + e23) * (1 - e23) - d * x1 * y1 * X23 * Y23) -
  (y1 * Y23 * (1 + e23) + x1 * X23 * (1 - e23)) *
    ((1 + e12) * (1 - e12) - d * x3 * y3 * X12 * Y12) = 0.
Proof.
  transitivity (cof_y1 x1 y1 x2 y2 x3 y3 * curve_zero x1 y1 +
    cof_y2 x1 y1 x2 y2 x3 y3 * curve_zero x2 y2 + cof_y3 x1 y1 x2 y2 x3 y3 * curve_zero x3 y3).
  - unfold cof_y1, cof_y2, cof_y3, curve_zero, X12, Y12, X23, Y23, e12, e23. ring.
  - rewrite (curve_zero_0 x1 y1 C1), (curve_zero_0 x2 y2 C2), (curve_zero_0 x3 y3 C3). ring.
Qed.

Let x12 := X12 / (1 + e12).
Let y12 := Y12 / (1 - e12).
Let x23 := X23 / (1 + e23).
Let y23 := Y23 / (1 - e23).

Lemma assoc_x :
  (x12 * y3 + y12 * x3) / (1 + d * x12 * x3 * y12 * y3) =
  (x1 * y23 + y1 * x23) / (1 + d * x1 * x23 * y1 * y23).
Proof.
  pose proof (complete_plus x1 y1 x2 y2 C1 C2) as Hp. pose proof (complete_minus x1 y1 x2 y2 C1 C2) as Hm.
  pose proof (complete_plus x2 y2 x3 y3 C2 C3) as Hp'. pose proof (complete_minus x2 y2 x3 y3 C2 C3) as Hm'.
  apply div_eq.
  - exact (complete_plus x12 y12 x3 y3 (curve_add x1 y1 x2 y2 C1 C2) C3).
  - exact (complete_plus x1 y1 x23 y23 C1 (curve_add x2 y2 x3 y3 C2 C3)).
  - pose proof assoc_x_num as E. unfold x12, y12, x23, y23.
    fold e12 in Hp, Hm. fold e23 in Hp', Hm'. clearbody X12 Y12 X23 Y23.
    set (p12 := 1 + e12) in *. set (m12 := 1 - e12) in *. set (p23 := 1 + e23) in *.
    set (m23 := 1 - e23) in *. clearbody p12 m12 p23 m23.
    etransitivity; [|transitivity (0 / (p12 * m12 * (p23 * m23))); [|field; auto]];
      [|rewrite <- E; reflexivity].
    field. auto.
Qed.

Lemma assoc_y :
  (y12 * y3 + x12 * x3) / (1 - d * x12 * x3 * y12 * y3) =
  (y1 * y23 + x1 * x23) / (1 - d * x1 * x23 * y1 * y23).
Proof.
  pose proof (complete_plus x1 y1 x2 y2 C1 C2) as Hp. pose proof (complete_minus x1 y1 x2 y2 C1 C2) as Hm.
  pose proof (complete_plus x2 y2 x3 y3 C2 C3) as Hp'. pose proof (complete_minus x2 y2 x3 y3 C2 C3) as Hm'.
  apply div_eq.
  - exact (complete_minus x12 y12 x3 y3 (curve_add x1 y1 x2 y2 C1 C2) C3).
  - exact (complete_minus x1 y1 x23 y23 C1 (curve_add x2 y2 x3 y3 C2 C3)).
  - pose proof assoc_y_num as E. unfold x12, y12, x23, y23.
    fold e12 in Hp, Hm. fold e23 in Hp', Hm'. clearbody X12 Y12 X23 Y23.
    set (p12 := 1 + e12) in *. set (m12 := 1 - e12) in *. set (p23 := 1 + e23) in *.
    set (m23 := 1 - e23) in *. clearbody p12 m12 p23 m23.
    etransitivity; [|transitivity (0 / (p12 * m12 * (p23 * m23))); [|field; auto]];
      [|rewrite <- E; reflexivity].
    field. auto.
Qed.
End Assoc.
(** Neutral element, inverses, commutativity. *)
Lemma neutral_curve : curve_eq 0 1.
Proof. unfold curve_eq. ring. Qed.

Lemma neutral_x x y : (0 * y + 1 * x) / (1 + d * 0 * x * 1 * y) = x.
Proof.
  replace (1 + d * 0 * x * 1 * y) with 1 by ring. field. apply (F_1_neq_0 Fth).
Qed.

Lemma neutral_y x y : (1 * y + 0 * x) / (1 - d * 0 * x * 1 * y) = y.
Proof.
  replace (1 - d * 0 * x * 1 * y) with 1 by ring. field. apply (F_1_neq_0 Fth).
Qed.

Lemma opp_curve x y : curve_eq x y -> curve_eq (0 - x) y.
Proof.
  unfold curve_eq. intros E. transitivity (y * y - x * x); [ring|]. rewrite E. ring.
Qed.

Lemma div_0 a : a <> 0 -> 0 / a = 0.
Proof. intros Ha. field. exact Ha. Qed.

Lemma div_mul a b : b <> 0 -> a / b * b = a.
Proof. intros Hb. field. exact Hb. Qed.

Lemma inverse_x x y :
  curve_eq x y -> ((0 - x) * y + y * x) / (1 + d * (0 - x) * x * y * y) = 0.
Proof.
  intros C. pose proof (complete_plus (0 - x) y x y (opp_curve x y C) C) as Hn.
  transitivity (0 / (1 + d * (0 - x) * x * y * y)); [f_equal; ring | apply div_0, Hn].
Qed.

Lemma inverse_y x y :
  curve_eq x y -> (y * y + (0 - x) * x) / (1 - d * (0 - x) * x * y * y) = 1.
Proof.
  intros C. pose proof (complete_minus (0 - x) y x y (opp_curve x y C) C) as Hn.
  transitivity ((1 - d * (0 - x) * x * y * y) / (1 - d * (0 - x) * x * y * y)).
  - f_equal. transitivity (y * y - x * x); [ring|]. unfold curve_eq in C. rewrite C. ring.
  - set (q := 1 - d * (0 - x) * x * y * y) in *. field. exact Hn.
Qed.

Lemma comm_x x1 y1 x2 y2 :
  (x1 * y2 + y1 * x2) / (1 + d * x1 * x2 * y1 * y2) = (x2 * y1 + y2 * x1) / (1 + d * x2 * x1 * y2 * y1).
Proof. f_equal; ring. Qed.

Lemma comm_y x1 y1 x2 y2 :
  (y1 * y2 + x1 * x2) / (1 - d * x1 * x2 * y1 * y2) = (y2 * y1 + x2 * x1) / (1 - d * x2 * x1 * y2 * y1).
Proof. f_equal; ring. Qed.
End Edwards.

(** ** The field of the curve *)

Abbreviation F := (Zmod p).
Abbreviation ofZ := (Zmod.of_Z p).

Declare Scope F_scope.
Delimit Scope F_scope with F.
Infix "+" := Zmod.add : F_scope.
Infix "-" := Zmod.sub : F_scope.
Infix "*" := Zmod.mul : F_scope.
Infix "/" := Zmod.mdiv : F_scope.
Notation "0" := Zmod.zero : F_scope.
Notation "1" := Zmod.one : F_scope.

Definition F_field := Zmod.field_theory p prime_p.

#[export] Instance F_eq_dec : EqDecision F.
Proof.
  intros x y. destruct (decide (Zmod.to_Z x = Zmod.to_Z y)) as [E|E].
  - left. apply Zmod.to_Z_inj, E.
  - right. intros ->. apply E. reflexivity.
Defined.

Lemma ofZ_eq x y : ofZ x = ofZ y <-> x ≡[p] y.
Proof. apply Zmod.of_Z_inj. Qed.

(** d = -121665/121666 and a square root of -1. *)
Definition d_val : Z :=
  37095705934669439343138083508754565189542113879843219016388785533085940283555.
Definition i_val : Z :=
  19681161376707505956807079304988542015446066515923890162744021073123829784752.
Definition curve_d : F := ofZ d_val.
Definition curve_i : F := ofZ i_val.

Lemma d_val_eq : 121666 * d_val ≡[p] -121665.
Proof. eval_closed. Qed.

Lemma curve_i_sq : (curve_i * curve_i = 0 - 1)%F.
Proof. apply Zmod.to_Z_inj. eval_closed. Qed.

(** Euler's criterion: d has no square root. *)
Lemma d_val_euler : d_val ^ ((p - 1) / 2) ≡[p] -1.
Proof. unfold eqmod. rewrite <- Zpow_mod_correct by discriminate. eval_closed. Qed.

Lemma nonsquare_euler a k s :
  0 <= k -> k + k = p - 1 -> a ^ k ≡[p] -1 -> ~ a ≡[p] 0 -> ~ s * s ≡[p] a.
Proof.
  intros Hk Hkk Ha Hnz E. assert (Hs : ~ s ≡[p] 0).
  { intros H. apply Hnz. rewrite <- E, H. reflexivity. }
  pose proof (fermat s Hs) as Hf.
  rewrite <- (eqmod_pow p _ _ k Hk E), Z.pow_mul_l, <- Z.pow_add_r, Hkk, Hf in Ha by exact Hk.
  revert Ha. vm_compute. discriminate.
Qed.

Lemma curve_d_nonsquare s : (s * s <> curve_d)%F.
Proof.
  intros E. apply (nonsquare_euler d_val ((p - 1) / 2) (Zmod.to_Z s)).
  - vm_compute. discriminate.
  - eval_closed.
  - exact d_val_euler.
  - vm_compute. discriminate.
  - apply ofZ_eq. rewrite Zmod.of_Z_mul, !Zmod.of_Z_to_Z. exact E.
Qed.

Lemma F_two : (1 + 1 <> 0 :> F)%F.
Proof. intros E. apply (f_equal Zmod.to_Z) in E. discriminate E. Qed.

(** ** Points *)

Definition on_curve (P : F * F) : Prop :=
  (P.2 * P.2 - P.1 * P.1 = 1 + curve_d * (P.1 * P.1) * (P.2 * P.2))%F.

#[export] Instance on_curve_dec P : Decision (on_curve P).
Proof. unfold on_curve. apply _. Defined.

Definition point : Type := dsig on_curve.
Definition px (P : point) : F := (`P).1.
Definition py (P : point) : F := (`P).2.

Lemma point_on P : on_curve (px P, py P).
Proof. destruct P as [[x y] HP]. exact (bool_decide_unpack _ HP). Qed.

Lemma point_eq P Q : px P = px Q -> py P = py Q -> P = Q.
Proof.
  intros Hx Hy. apply dsig_eq. unfold px, py in *.
  destruct (`P) as [x y], (`Q) as [x' y']. cbn in *. congruence.
Qed.

#[export] Instance point_eq_dec : EqDecision point.
Proof. unfold point, dsig. apply _. Defined.

Definition sum_den (P Q : point) : F := (curve_d * px P * px Q * py P * py Q)%F.

Definition sum_coords (P Q : point) : F * F :=
  (((px P * py Q + py P * px Q) / (1 + sum_den P Q)),
   ((py P * py Q + px P * px Q) / (1 - sum_den P Q)))%F.

(** The laws of the section at this field. *)
Lemma sum_den_plus P Q : (1 + sum_den P Q <> 0)%F.
Proof.
  apply (complete_plus F_field curve_d curve_i curve_i_sq curve_d_nonsquare F_two);
    apply point_on.
Qed.

Lemma sum_den_minus P Q : (1 - sum_den P Q <> 0)%F.
Proof.
  apply (complete_minus F_field curve_d curve_i curve_i_sq curve_d_nonsquare F_two);
    apply point_on.
Qed.

Lemma sum_on P Q : on_curve (sum_coords P Q).
Proof.
  apply (curve_add F_field curve_d curve_i curve_i_sq curve_d_nonsquare F_two); apply point_on.
Qed.

Definition point_add (P Q : point) : point := dexist (sum_coords P Q) (sum_on P Q).

Definition point_zero : point := dexist (0, 1)%F (neutral_curve F_field curve_d).

Definition point_opp (P : point) : point :=
  dexist (0 - px P, py P)%F (opp_curve F_field curve_d _ _ (point_on P)).

Lemma point_add_assoc P Q R : point_add P (point_add Q R) = point_add (point_add P Q) R.
Proof.
  symmetry. apply point_eq.
  - apply (assoc_x F_field curve_d curve_i curve_i_sq curve_d_nonsquare F_two); apply point_on.
  - apply (assoc_y F_field curve_d curve_i curve_i_sq curve_d_nonsquare F_two); apply point_on.
Qed.

Lemma point_add_comm P Q : point_add P Q = point_add Q P.
Proof. apply point_eq; [apply (comm_x F_field) | apply (comm_y F_field)]. Qed.

Lemma point_add_0_l P : point_add point_zero P = P.
Proof. apply point_eq; [apply (neutral_x F_field) | apply (neutral_y F_field)]. Qed.

Lemma point_add_opp_l P : point_add (point_opp P) P = point_zero.
Proof.
  apply point_eq.
  - apply (inverse_x F_field curve_d curve_i curve_i_sq curve_d_nonsquare F_two), point_on.
  - apply (inverse_y F_field curve_d curve_i curve_i_sq curve_d_nonsquare F_two), point_on.
Qed.

#[export] Instance curve_group : AbGroup point := {|
  gzero := point_zero;
  gadd := point_add;
  gopp := point_opp;
  gadd_assoc := point_add_assoc;
  gadd_comm := point_add_comm;
  gadd_0_l := point_add_0_l;
  gadd_opp_l := point_add_opp_l;
|}.
