(* ===== verification/FeField.v ===== *)
(** * Field elements as elements of the field

    The operations of Fe.v, FeMul.v, FeBytes.v and FePow.v in the field of the
    curve: each limb vector is tracked by the bound of its limbs and by the
    field element it stands for, so that a sequence of operations is followed
    by [fe_steps].  The constants of crypto-ops-data.c are here too. *)

From S2P Require Import Prelude.
From S2P Require Import CInt.
From S2P Require Import Bytes.
From S2P Require Import Limbs.
From S2P Require Import Fe.
From S2P Require Import FeMul.
From S2P Require Import FeBytes.
From S2P Require Import FePow.
From S2P Require Import Prime25519.
From S2P Require Import Curve.
From Stdlib Require Import Zmod Ring.

(** ** Constants *)

Definition fe_d : fe :=
  [-10913610; 13857413; -15372611; 6949391; 114729; -8787816; -6275908; -3247719; -18696448; -12055116].
Definition fe_sqrtm1 : fe :=
  [-32595792; -7943725; 9377950; 3500415; 12389472; -272473; -25146209; -2005654; 326686; 11406482].
Definition fe_d2 : fe :=
  [-21827239; -5839606; -30745221; 13898782; 229458; 15978800; -12551817; -6495438; 29715968; 9444199].
Definition fe_ma2 : fe := [-12721188; -3529; 0; 0; 0; 0; 0; 0; 0; 0].
Definition fe_ma : fe := [-486662; 0; 0; 0; 0; 0; 0; 0; 0; 0].
Definition fe_fffb1 : fe :=
  [-31702527; -2466483; -26106795; -12203692; -12169197; -321052; 14850977; -10296299; -16929438; -407568].
Definition fe_fffb2 : fe :=
  [8166131; -6741800; -17040804; 3154616; 21461005; 1466302; -30876704; -6368709; 10503587; -13363080].
Definition fe_fffb3 : fe :=
  [-13620103; 14639558; 4532995; 7679154; 16815101; -15883539; -22863840; -14813421; 13716513; -6477756].
Definition fe_fffb4 : fe :=
  [-21786234; -12173074; 21573800; 4524538; -4645904; 16204591; 8012863; -8444712; 3212926; 6885324].

(** ** Values in the field *)

Add Ring F_ring : (Zmod.ring_theory p).

(** The field element a limb vector stands for. *)
Definition fF (f : fe) : F := ofZ (fe_val f).

(** [fv c v f]: the limbs of [f] are bounded by [c] and stand for [v]. *)
Definition fv (c : Z) (v : F) (f : fe) : Prop := fe_within c f /\ fF f = v.

Lemma fv_mono a b v f : a <= b -> fv a v f -> fv b v f.
Proof. intros Hab [Hw Hv]. split; [apply (fe_within_mono a); assumption | exact Hv]. Qed.

Lemma fv_eq c v w f : fv c v f -> v = w -> fv c w f.
Proof. intros H <-. exact H. Qed.

Lemma fv_0 : fv 0 0%F fe_0.
Proof. split; [apply fe_0_within; lia | reflexivity]. Qed.

Lemma fv_1 : fv 1 1%F fe_1.
Proof. split; [apply fe_1_within; lia | apply Zmod.to_Z_inj; eval_closed]. Qed.

Lemma fv_add a b x y f g :
  a + b <= 6000 -> fv a x f -> fv b y g -> returns (fe_add f g) (fv (a + b) (x + y)%F).
Proof.
  intros Hab [Hf <-] [Hg <-]. destruct (fe_add_ok a b f g Hab Hf Hg) as (h & E & Hw & Hv).
  exists h. split; [exact E|]. split; [exact Hw|]. unfold fF. rewrite Hv. apply Zmod.of_Z_add.
Qed.

Lemma fv_sub a b x y f g :
  a + b <= 6000 -> fv a x f -> fv b y g -> returns (fe_sub f g) (fv (a + b) (x - y)%F).
Proof.
  intros Hab [Hf <-] [Hg <-]. destruct (fe_sub_ok a b f g Hab Hf Hg) as (h & E & Hw & Hv).
  exists h. split; [exact E|]. split; [exact Hw|]. unfold fF. rewrite Hv. apply Zmod.of_Z_sub.
Qed.

Lemma fv_neg a x f : a <= 6000 -> fv a x f -> returns (fe_neg f) (fv a (0 - x)%F).
Proof.
  intros Ha [Hf <-]. destruct (fe_neg_ok a f Ha Hf) as (h & E & Hw & Hv).
  exists h. split; [exact E|]. split; [exact Hw|]. unfold fF. rewrite Hv, Zmod.of_Z_opp. ring.
Qed.

Lemma fv_copy a x f : fv a x f -> returns (fe_copy f) (fv a x).
Proof. intros [Hf Hx]. exists f. split; [apply (fe_copy_ok a), Hf | split; assumption]. Qed.

Lemma fv_mul a b x y f g :
  a <= 330 -> b <= 330 -> fv a x f -> fv b y g -> returns (fe_mul f g) (fv 101 (x * y)%F).
Proof.
  intros Ha Hb Hf Hg. apply (fv_mono a 330 _ _ Ha) in Hf as [Hf <-].
  apply (fv_mono b 330 _ _ Hb) in Hg as [Hg <-].
  destruct (fe_mul_ok f g Hf Hg) as (h & E & Hw & Hv). exists h. split; [exact E|].
  split; [exact Hw|]. unfold fF. apply ofZ_eq in Hv. rewrite Hv. apply Zmod.of_Z_mul.
Qed.

Lemma fv_sq a x f : a <= 330 -> fv a x f -> returns (fe_sq f) (fv 101 (x * x)%F).
Proof.
  intros Ha Hf. apply (fv_mono a 330 _ _ Ha) in Hf as [Hf <-].
  destruct (fe_sq_ok f Hf) as (h & E & Hw & Hv). exists h. split; [exact E|].
  split; [exact Hw|]. unfold fF. apply ofZ_eq in Hv. rewrite Hv. apply Zmod.of_Z_mul.
Qed.

Lemma fv_sq2 a x f : a <= 330 -> fv a x f -> returns (fe_sq2 f) (fv 101 ((1 + 1) * (x * x))%F).
Proof.
  intros Ha Hf. apply (fv_mono a 330 _ _ Ha) in Hf as [Hf <-].
  destruct (fe_sq2_ok f Hf) as (h & E & Hw & Hv). exists h. split; [exact E|].
  split; [exact Hw|]. unfold fF. apply ofZ_eq in Hv. rewrite Hv, !Zmod.of_Z_mul.
  assert (E2 : ofZ 2 = (1 + 1)%F) by (apply Zmod.to_Z_inj; eval_closed). rewrite E2. reflexivity.
Qed.

(** The inverse of [x], in the sense that its product with [x] is 1. *)
Lemma fv_invert a x f :
  a <= 330 -> x <> 0%F -> fv a x f ->
  returns (fe_invert f) (fun h => exists y, fv 101 y h /\ (x * y = 1)%F).
Proof.
  intros Ha Hx Hf. apply (fv_mono a 330 _ _ Ha) in Hf as [Hf <-].
  destruct (fe_invert_ok f Hf) as (h & E & Hw & Hv). exists h. split; [exact E|].
  exists (fF h). split; [split; [exact Hw | reflexivity]|].
  unfold fF in *. rewrite <- Zmod.of_Z_mul.
  transitivity (ofZ 1); [|apply Zmod.to_Z_inj; eval_closed].
  apply ofZ_eq. rewrite Hv. rewrite <- (fermat (fe_val f)).
  - apply eqmod_eq. rewrite <- Z.pow_succ_r by (vm_compute; discriminate). reflexivity.
  - intros H. apply Hx, ofZ_eq, H.
Qed.

(** ** Following a sequence of operations *)

Ltac fe_op :=
  first
    [ eapply fv_mul; [| |eassumption|eassumption]; lia
    | eapply fv_sq; [|eassumption]; lia
    | eapply fv_sq2; [|eassumption]; lia
    | eapply fv_add; [|eassumption|eassumption]; lia
    | eapply fv_sub; [|eassumption|eassumption]; lia
    | eapply fv_neg; [|eassumption]; lia
    | eapply fv_copy; eassumption ].

Ltac fe_step := eapply returns_bind; [solve [fe_op] | intros ? ?; cbv beta].

Ltac fe_steps := repeat fe_step; try apply returns_Some.

(** Bounds and values of a result. *)
Ltac fv_done :=
  eapply fv_eq; [eapply fv_mono; [|eassumption]; lia | try reflexivity; try ring].

(** ** The constants *)

Lemma fv_d : fv 101 curve_d fe_d.
Proof.
  split; [apply (bool_decide_eq_true_1 (fe_within 101 fe_d)); eval_closed|].
  apply ofZ_eq. eval_closed.
Qed.

Lemma fv_d2 : fv 101 ((1 + 1) * curve_d)%F fe_d2.
Proof.
  split; [apply (bool_decide_eq_true_1 (fe_within 101 fe_d2)); eval_closed|].
  apply Zmod.to_Z_inj. eval_closed.
Qed.

Lemma fv_sqrtm1 : fv 101 curve_i fe_sqrtm1.
Proof.
  split; [apply (bool_decide_eq_true_1 (fe_within 101 fe_sqrtm1)); eval_closed|].
  apply ofZ_eq. eval_closed.
Qed.
