(* ===== verification/Ge.v ===== *)
(** * Group elements

    The projective, extended, completed, cached and precomputed points of
    crypto-ops.h and the [ge_] functions of crypto-ops.c on them, each related
    to the point of the curve it stands for.  An output record of the code is
    a result here; where the code updates a coordinate of its output in place,
    the definition rebinds it. *)

From S2P Require Import Prelude.
From S2P Require Import CInt.
From S2P Require Import Bytes.
From S2P Require Import Limbs.
From S2P Require Import Fe.
From S2P Require Import FeMul.
From S2P Require Import FeBytes.
From S2P Require Import FePow.
From S2P Require Import Prime25519.
From S2P Require Import Group.
From S2P Require Import Curve.
From S2P Require Import FeField.
From Stdlib Require Import Zmod Ring.

(** ** Data *)

Record ge_p2 := P2 { p2_X : fe; p2_Y : fe; p2_Z : fe }.
Record ge_p3 := P3 { p3_X : fe; p3_Y : fe; p3_Z : fe; p3_T : fe }.
Record ge_p1p1 := P1P1 { p1_X : fe; p1_Y : fe; p1_Z : fe; p1_T : fe }.
Record ge_precomp := Precomp { yplusx : fe; yminusx : fe; xy2d : fe }.
Record ge_cached := Cached { YplusX : fe; YminusX : fe; c_Z : fe; T2d : fe }.

(** ** Operations *)

Definition ge_add (p : ge_p3) (q : ge_cached) : option ge_p1p1 :=
  rX ← fe_add (p3_Y p) (p3_X p);
  rY ← fe_sub (p3_Y p) (p3_X p);
  rZ ← fe_mul rX (YplusX q);
  rY ← fe_mul rY (YminusX q);
  rT ← fe_mul (T2d q) (p3_T p);
  rX ← fe_mul (p3_Z p) (c_Z q);
  t0 ← fe_add rX rX;
  rX ← fe_sub rZ rY;
  rY ← fe_add rZ rY;
  rZ ← fe_add t0 rT;
  rT ← fe_sub t0 rT;
  Some (P1P1 rX rY rZ rT).

Definition ge_sub (p : ge_p3) (q : ge_cached) : option ge_p1p1 :=
  rX ← fe_add (p3_Y p) (p3_X p);
  rY ← fe_sub (p3_Y p) (p3_X p);
  rZ ← fe_mul rX (YminusX q);
  rY ← fe_mul rY (YplusX q);
  rT ← fe_mul (T2d q) (p3_T p);
  rX ← fe_mul (p3_Z p) (c_Z q);
  t0 ← fe_add rX rX;
  rX ← fe_sub rZ rY;
  rY ← fe_add rZ rY;
  rZ ← fe_sub t0 rT;
  rT ← fe_add t0 rT;
  Some (P1P1 rX rY rZ rT).

Definition ge_madd (p : ge_p3) (q : ge_precomp) : option ge_p1p1 :=
  rX ← fe_add (p3_Y p) (p3_X p);
  rY ← fe_sub (p3_Y p) (p3_X p);
  rZ ← fe_mul rX (yplusx q);
  rY ← fe_mul rY (yminusx q);
  rT ← fe_mul (xy2d q) (p3_T p);
  t0 ← fe_add (p3_Z p) (p3_Z p);
  rX ← fe_sub rZ rY;
  rY ← fe_add rZ rY;
  rZ ← fe_add t0 rT;
  rT ← fe_sub t0 rT;
  Some (P1P1 rX rY rZ rT).

Definition ge_msub (p : ge_p3) (q : ge_precomp) : option ge_p1p1 :=
  rX ← fe_add (p3_Y p) (p3_X p);
  rY ← fe_sub (p3_Y p) (p3_X p);
  rZ ← fe_mul rX (yminusx q);
  rY ← fe_mul rY (yplusx q);
  rT ← fe_mul (xy2d q) (p3_T p);
  t0 ← fe_add (p3_Z p) (p3_Z p);
  rX ← fe_sub rZ rY;
  rY ← fe_add rZ rY;
  rZ ← fe_sub t0 rT;
  rT ← fe_add t0 rT;
  Some (P1P1 rX rY rZ rT).

Definition ge_p1p1_to_p2 (p : ge_p1p1) : option ge_p2 :=
  rX ← fe_mul (p1_X p) (p1_T p);
  rY ← fe_mul (p1_Y p) (p1_Z p);
  rZ ← fe_mul (p1_Z p) (p1_T p);
  Some (P2 rX rY rZ).

Definition ge_p1p1_to_p3 (p : ge_p1p1) : option ge_p3 :=
  rX ← fe_mul (p1_X p) (p1_T p);
  rY ← fe_mul (p1_Y p) (p1_Z p);
  rZ ← fe_mul (p1_Z p) (p1_T p);
  rT ← fe_mul (p1_X p) (p1_Y p);
  Some (P3 rX rY rZ rT).

Definition ge_p2_0 : ge_p2 := P2 fe_0 fe_1 fe_1.

Definition ge_p2_dbl (p : ge_p2) : option ge_p1p1 :=
  rX ← fe_sq (p2_X p);
  rZ ← fe_sq (p2_Y p);
  rT ← fe_sq2 (p2_Z p);
  rY ← fe_add (p2_X p) (p2_Y p);
  t0 ← fe_sq rY;
  rY ← fe_add rZ rX;
  rZ ← fe_sub rZ rX;
  rX ← fe_sub t0 rY;
  rT ← fe_sub rT rZ;
  Some (P1P1 rX rY rZ rT).

Definition ge_p3_0 : ge_p3 := P3 fe_0 fe_1 fe_1 fe_0.

Definition ge_p3_to_p2 (p : ge_p3) : option ge_p2 :=
  rX ← fe_copy (p3_X p);
  rY ← fe_copy (p3_Y p);
  rZ ← fe_copy (p3_Z p);
  Some (P2 rX rY rZ).

Definition ge_p3_dbl (p : ge_p3) : option ge_p1p1 := q ← ge_p3_to_p2 p; ge_p2_dbl q.

Definition ge_p3_to_cached (p : ge_p3) : option ge_cached :=
  rYplusX ← fe_add (p3_Y p) (p3_X p);
  rYminusX ← fe_sub (p3_Y p) (p3_X p);
  rZ ← fe_copy (p3_Z p);
  rT2d ← fe_mul (p3_T p) fe_d2;
  Some (Cached rYplusX rYminusX rZ rT2d).

(** The encoding of a point; the code of ge_p3_tobytes and of ge_tobytes. *)
Definition ge_encode (hX hY hZ : fe) : option (list Z) :=
  recip ← fe_invert hZ;
  x ← fe_mul hX recip;
  y ← fe_mul hY recip;
  s ← fe_tobytes y;
  s31 ← s !! 31%nat;
  n ← fe_isnegative x;
  Some (<[31%nat := to_u8 (Z.lxor s31 (Z.shiftl n 7))]> s).

Definition ge_p3_tobytes (h : ge_p3) : option (list Z) := ge_encode (p3_X h) (p3_Y h) (p3_Z h).

Definition ge_tobytes (h : ge_p2) : option (list Z) := ge_encode (p2_X h) (p2_Y h) (p2_Z h).

Definition ge_mul8 (t : ge_p2) : option ge_p1p1 :=
  r ← ge_p2_dbl t;
  u ← ge_p1p1_to_p2 r;
  r ← ge_p2_dbl u;
  u ← ge_p1p1_to_p2 r;
  ge_p2_dbl u.

(** The table [A, 3A, 5A, ..., 15A]. *)
Fixpoint ge_dsm_odds (n : nat) (s2 : ge_p3) (r : ge_cached) : option (list ge_cached) :=
  match n with
  | O => Some [r]
  | S n =>
      t ← ge_add s2 r;
      u ← ge_p1p1_to_p3 t;
      c ← ge_p3_to_cached u;
      rest ← ge_dsm_odds n s2 c;
      Some (r :: rest)
  end.

Definition ge_dsm_precomp (s : ge_p3) : option (list ge_cached) :=
  r0 ← ge_p3_to_cached s;
  t ← ge_p3_dbl s;
  s2 ← ge_p1p1_to_p3 t;
  ge_dsm_odds 7 s2 r0.

Definition ge_p3_is_point_at_infinity (p : ge_p3) : option Z :=
  (fix loop (ns : list nat) : option Z :=
     match ns with
     | [] => Some 1
     | n :: ns =>
         x ← p3_X p !! n; t ← p3_T p !! n;
         if negb (Z.lor x t =? 0) then Some 0 else
         y ← p3_Y p !! n; z ← p3_Z p !! n;
         if negb (y =? z) then Some 0 else loop ns
     end) (seq 0 10).

(** Constant-time selection. *)
Definition ge_precomp_0 : ge_precomp := Precomp fe_1 fe_1 fe_0.

Definition ge_precomp_cmov (t u : ge_precomp) (b : Z) : option ge_precomp :=
  a ← fe_cmov (yplusx t) (yplusx u) b;
  m ← fe_cmov (yminusx t) (yminusx u) b;
  x ← fe_cmov (xy2d t) (xy2d u) b;
  Some (Precomp a m x).

Definition ge_cached_0 : ge_cached := Cached fe_1 fe_1 fe_1 fe_0.

Definition ge_cached_cmov (t u : ge_cached) (b : Z) : option ge_cached :=
  a ← fe_cmov (YplusX t) (YplusX u) b;
  m ← fe_cmov (YminusX t) (YminusX u) b;
  z ← fe_cmov (c_Z t) (c_Z u) b;
  x ← fe_cmov (T2d t) (T2d u) b;
  Some (Cached a m z x).

(** ** What the records stand for *)

Definition p2_rep (P : point) (g : ge_p2) : Prop :=
  exists z, z <> 0%F /\ fv 101 (px P * z)%F (p2_X g) /\ fv 101 (py P * z)%F (p2_Y g) /\
    fv 101 z (p2_Z g).

Definition p3_rep (P : point) (g : ge_p3) : Prop :=
  exists z, z <> 0%F /\ fv 101 (px P * z)%F (p3_X g) /\ fv 101 (py P * z)%F (p3_Y g) /\
    fv 101 z (p3_Z g) /\ fv 101 (px P * py P * z)%F (p3_T g).

Definition p1p1_rep (P : point) (g : ge_p1p1) : Prop :=
  exists z t, z <> 0%F /\ t <> 0%F /\ fv 330 (px P * z)%F (p1_X g) /\
    fv 330 (py P * t)%F (p1_Y g) /\ fv 330 z (p1_Z g) /\ fv 330 t (p1_T g).

Definition cached_rep (P : point) (g : ge_cached) : Prop :=
  exists z, z <> 0%F /\ fv 202 ((py P + px P) * z)%F (YplusX g) /\
    fv 202 ((py P - px P) * z)%F (YminusX g) /\ fv 101 z (c_Z g) /\
    fv 101 ((1 + 1) * curve_d * px P * py P * z)%F (T2d g).

Definition precomp_rep (P : point) (g : ge_precomp) : Prop :=
  fv 101 (py P + px P)%F (yplusx g) /\ fv 101 (py P - px P)%F (yminusx g) /\
  fv 101 ((1 + 1) * curve_d * px P * py P)%F (xy2d g).

(** ** The addition laws *)

Lemma F_mul_nz (x y : F) : x <> 0%F -> y <> 0%F -> (x * y)%F <> 0%F.
Proof. apply (mul_nz F_field). Qed.

Lemma F_two_mul_nz (x : F) : x <> 0%F -> ((1 + 1) * x)%F <> 0%F.
Proof. intros Hx. apply F_mul_nz; [exact F_two | exact Hx]. Qed.

Lemma F_div_mul (a b : F) : b <> 0%F -> (a / b * b = a)%F.
Proof. apply (div_mul F_field). Qed.

Lemma F_inverse (x : F) : x <> 0%F -> exists y, (x * y = 1)%F.
Proof.
  intros Hx. exists (1 / x)%F. transitivity (1 / x * x)%F; [ring | apply F_div_mul, Hx].
Qed.

Lemma px_add P Q : (px (P + Q)%G * (1 + sum_den P Q) = px P * py Q + py P * px Q)%F.
Proof. apply F_div_mul, sum_den_plus. Qed.

Lemma py_add P Q : (py (P + Q)%G * (1 - sum_den P Q) = py P * py Q + px P * px Q)%F.
Proof. apply F_div_mul, sum_den_minus. Qed.

Lemma px_opp P : px (- P)%G = (0 - px P)%F.
Proof. reflexivity. Qed.

Lemma py_opp P : py (- P)%G = py P.
Proof. reflexivity. Qed.

(** The completed sum with scale [s]: what the four addition formulas leave. *)
Lemma p1p1_sum P Q s rX rY rZ rT vX vY vZ vT :
  s <> 0%F -> fv 330 vX rX -> fv 330 vY rY -> fv 330 vZ rZ -> fv 330 vT rT ->
  vX = (s * (px P * py Q + py P * px Q))%F -> vY = (s * (py P * py Q + px P * px Q))%F ->
  vZ = (s * (1 + sum_den P Q))%F -> vT = (s * (1 - sum_den P Q))%F ->
  p1p1_rep (P + Q)%G (P1P1 rX rY rZ rT).
Proof.
  intros Hs HX HY HZ HT EX EY EZ ET. exists vZ, vT. cbn [p1_X p1_Y p1_Z p1_T].
  split; [rewrite EZ; apply F_mul_nz; [exact Hs | apply sum_den_plus]|].
  split; [rewrite ET; apply F_mul_nz; [exact Hs | apply sum_den_minus]|].
  split; [|split; [|split; assumption]].
  - apply (fv_eq _ _ _ _ HX). rewrite EX, EZ, <- px_add. ring.
  - apply (fv_eq _ _ _ _ HY). rewrite EY, ET, <- py_add. ring.
Qed.

Ltac p1p1_done s :=
  eapply (p1p1_sum _ _ s);
  [ | eapply fv_mono; [|eassumption]; lia | eapply fv_mono; [|eassumption]; lia
    | eapply fv_mono; [|eassumption]; lia | eapply fv_mono; [|eassumption]; lia
    | unfold sum_den; rewrite ?px_opp, ?py_opp; ring .. ].

Lemma ge_add_ok P Q p q :
  p3_rep P p -> cached_rep Q q -> returns (ge_add p q) (p1p1_rep (P + Q)%G).
Proof.
  intros (z & Hz & HX & HY & HZ & HT) (w & Hw & HP & HM & HW & HD).
  unfold ge_add. fe_steps. p1p1_done ((1 + 1) * (z * w))%F.
  apply F_two_mul_nz, F_mul_nz; assumption.
Qed.

Lemma ge_sub_ok P Q p q :
  p3_rep P p -> cached_rep Q q -> returns (ge_sub p q) (p1p1_rep (P + - Q)%G).
Proof.
  intros (z & Hz & HX & HY & HZ & HT) (w & Hw & HP & HM & HW & HD).
  unfold ge_sub. fe_steps. p1p1_done ((1 + 1) * (z * w))%F.
  apply F_two_mul_nz, F_mul_nz; assumption.
Qed.

Lemma ge_madd_ok P Q p q :
  p3_rep P p -> precomp_rep Q q -> returns (ge_madd p q) (p1p1_rep (P + Q)%G).
Proof.
  intros (z & Hz & HX & HY & HZ & HT) (HP & HM & HD).
  unfold ge_madd. fe_steps. p1p1_done ((1 + 1) * z)%F.
  apply F_two_mul_nz, Hz.
Qed.

Lemma ge_msub_ok P Q p q :
  p3_rep P p -> precomp_rep Q q -> returns (ge_msub p q) (p1p1_rep (P + - Q)%G).
Proof.
  intros (z & Hz & HX & HY & HZ & HT) (HP & HM & HD).
  unfold ge_msub. fe_steps. p1p1_done ((1 + 1) * z)%F.
  apply F_two_mul_nz, Hz.
Qed.

(** Doubling: the curve equation gives the denominators. *)
Lemma ge_p2_dbl_ok P p : p2_rep P p -> returns (ge_p2_dbl p) (p1p1_rep (P + P)%G).
Proof.
  intros (z & Hz & HX & HY & HZ). unfold ge_p2_dbl. fe_steps.
  pose proof (point_on P) as HC. unfold on_curve in HC. cbn [fst snd] in HC.
  assert (Hd : (1 + sum_den P P = py P * py P - px P * px P)%F) by (rewrite HC; unfold sum_den; ring).
  assert (Hd' : (1 - sum_den P P = 1 + 1 - (py P * py P - px P * px P))%F)
    by (rewrite HC; unfold sum_den; ring).
  eapply (p1p1_sum P P (z * z)%F);
    [ apply F_mul_nz; exact Hz | eapply fv_mono; [|eassumption]; lia | eapply fv_mono; [|eassumption]; lia
    | eapply fv_mono; [|eassumption]; lia | eapply fv_mono; [|eassumption]; lia
    | rewrite ?Hd, ?Hd'; ring .. ].
Qed.

Lemma ge_p1p1_to_p2_ok P g : p1p1_rep P g -> returns (ge_p1p1_to_p2 g) (p2_rep P).
Proof.
  intros (z & t & Hz & Ht & HX & HY & HZ & HT). unfold ge_p1p1_to_p2. fe_steps.
  exists (z * t)%F. split; [apply F_mul_nz; assumption|]. cbn [p2_X p2_Y p2_Z].
  split; [|split]; fv_done.
Qed.

Lemma ge_p1p1_to_p3_ok P g : p1p1_rep P g -> returns (ge_p1p1_to_p3 g) (p3_rep P).
Proof.
  intros (z & t & Hz & Ht & HX & HY & HZ & HT). unfold ge_p1p1_to_p3. fe_steps.
  exists (z * t)%F. split; [apply F_mul_nz; assumption|]. cbn [p3_X p3_Y p3_Z p3_T].
  split; [|split; [|split]]; fv_done.
Qed.

Lemma F_one_nz : (1 <> 0 :> F)%F.
Proof. intros E. apply (f_equal Zmod.to_Z) in E. discriminate E. Qed.

Lemma px_0 : px gzero = 0%F.
Proof. reflexivity. Qed.

Lemma py_0 : py gzero = 1%F.
Proof. reflexivity. Qed.

Lemma ge_p2_0_ok : p2_rep gzero ge_p2_0.
Proof.
  exists 1%F. split; [exact F_one_nz|]. rewrite px_0, py_0. cbn [p2_X p2_Y p2_Z ge_p2_0].
  pose proof fv_0. pose proof fv_1. split; [|split]; fv_done.
Qed.

Lemma ge_p3_0_ok : p3_rep gzero ge_p3_0.
Proof.
  exists 1%F. split; [exact F_one_nz|]. rewrite px_0, py_0. cbn [p3_X p3_Y p3_Z p3_T ge_p3_0].
  pose proof fv_0. pose proof fv_1. split; [|split; [|split]]; fv_done.
Qed.

Lemma ge_p3_to_p2_ok P g : p3_rep P g -> returns (ge_p3_to_p2 g) (p2_rep P).
Proof.
  intros (z & Hz & HX & HY & HZ & HT). unfold ge_p3_to_p2. fe_steps.
  exists z. auto.
Qed.

Lemma ge_p3_dbl_ok P g : p3_rep P g -> returns (ge_p3_dbl g) (p1p1_rep (P + P)%G).
Proof.
  intros H. unfold ge_p3_dbl. eapply returns_bind; [apply ge_p3_to_p2_ok, H | apply ge_p2_dbl_ok].
Qed.

Lemma ge_p3_to_cached_ok P g : p3_rep P g -> returns (ge_p3_to_cached g) (cached_rep P).
Proof.
  intros (z & Hz & HX & HY & HZ & HT). pose proof fv_d2. unfold ge_p3_to_cached. fe_steps.
  exists z. split; [exact Hz|]. cbn [YplusX YminusX c_Z T2d].
  split; [|split; [|split]]; fv_done.
Qed.

Lemma ge_mul8_ok P g : p2_rep P g -> returns (ge_mul8 g) (p1p1_rep (gmul 8 P)).
Proof.
  intros H. replace (gmul 8 P) with (gmul 4 P + gmul 4 P)%G by (rewrite <- gmul_add; reflexivity).
  replace (gmul 4 P) with (gmul 2 P + gmul 2 P)%G by (rewrite <- gmul_add; reflexivity).
  rewrite gmul_2. unfold ge_mul8.
  eapply returns_bind; [apply ge_p2_dbl_ok, H | intros r Hr].
  eapply returns_bind; [apply ge_p1p1_to_p2_ok, Hr | intros u Hu].
  eapply returns_bind; [apply ge_p2_dbl_ok, Hu | intros r' Hr'].
  eapply returns_bind; [apply ge_p1p1_to_p2_ok, Hr' | intros u' Hu'].
  apply ge_p2_dbl_ok, Hu'.
Qed.

(** ** The table of odd multiples *)

(** [odds n m P r]: [r] holds m P, (m + 2) P, ..., [n + 1] entries. *)
Definition odds (n : nat) (m : Z) (P : point) (r : list ge_cached) : Prop :=
  length r = S n /\ forall j, (j <= n)%nat ->
    exists c, r !! j = Some c /\ cached_rep (gmul (m + 2 * Z.of_nat j) P) c.

Lemma ge_dsm_odds_ok n P s2 m r :
  p3_rep (gmul 2 P) s2 -> cached_rep (gmul m P) r -> returns (ge_dsm_odds n s2 r) (odds n m P).
Proof.
  intros Hs. revert m r. induction n as [|n IH]; intros m r Hr; cbn [ge_dsm_odds].
  - apply returns_Some. split; [reflexivity|]. intros [|j] Hj; [|lia].
    exists r. split; [reflexivity|]. rewrite Z.add_0_r. exact Hr.
  - eapply returns_bind; [apply ge_add_ok; eassumption | intros t Ht].
    eapply returns_bind; [apply ge_p1p1_to_p3_ok, Ht | intros u Hu].
    eapply returns_bind; [apply ge_p3_to_cached_ok, Hu | intros c Hc].
    rewrite gadd_comm, <- gmul_add in Hc.
    eapply returns_bind; [apply (IH (m + 2)), Hc | intros rest [Hl Hrest]].
    apply returns_Some. split; [cbn; f_equal; exact Hl|]. intros [|j] Hj.
    + exists r. split; [reflexivity|]. rewrite Z.add_0_r. exact Hr.
    + destruct (Hrest j ltac:(lia)) as (c' & Hc' & Hrep). exists c'. split; [exact Hc'|].
      replace (m + 2 * Z.of_nat (S j)) with (m + 2 + 2 * Z.of_nat j) by lia. exact Hrep.
Qed.

Lemma ge_dsm_precomp_ok P g : p3_rep P g -> returns (ge_dsm_precomp g) (odds 7 1 P).
Proof.
  intros H. unfold ge_dsm_precomp.
  eapply returns_bind; [apply ge_p3_to_cached_ok, H | intros r0 Hr0].
  eapply returns_bind; [apply ge_p3_dbl_ok, H | intros t Ht].
  eapply returns_bind; [apply ge_p1p1_to_p3_ok, Ht | intros s2 Hs2].
  apply ge_dsm_odds_ok; [rewrite gmul_2; exact Hs2 | rewrite gmul_1; exact Hr0].
Qed.

(** ** Encoding *)

(** The 32 bytes of a point: y, with the parity of x in the top bit. *)
Definition encode (P : point) : list Z :=
  le_bytes 32 (Zmod.to_Z (py P) + 2 ^ 255 * (Zmod.to_Z (px P) mod 2)).

Lemma fv_tobytes v f : fv 101 v f -> fe_tobytes f = Some (le_bytes 32 (Zmod.to_Z v)).
Proof.
  intros [Hw <-]. rewrite fe_tobytes_ok by (apply (fe_within_mono 101); [lia | exact Hw]).
  unfold fF. rewrite Zmod.to_Z_of_Z. reflexivity.
Qed.

Lemma fv_isnegative v f : fv 101 v f -> fe_isnegative f = Some (Zmod.to_Z v mod 2).
Proof.
  intros [Hw <-]. rewrite fe_isnegative_ok by (apply (fe_within_mono 101); [lia | exact Hw]).
  unfold fF. rewrite Zmod.to_Z_of_Z. reflexivity.
Qed.

Lemma lxor_128 a : 0 <= a < 128 -> Z.lxor a 128 = a + 128.
Proof.
  intros Ha. symmetry. apply Z.add_nocarry_lxor, Z.bits_inj'. intros i Hi.
  rewrite Z.land_spec, Z.bits_0. change 128 with (2 ^ 7). destruct (Z.eq_dec i 7) as [->|Hn].
  - rewrite <- (Z.mod_small a (2 ^ 7)) by (change (2 ^ 7) with 128; lia).
    rewrite Z.mod_pow2_bits_high by lia. reflexivity.
  - rewrite Z.pow2_bits_false by auto. apply andb_false_r.
Qed.

(** [s[31] ^= n << 7] adds the bit n at the top. *)
Lemma set_sign_bit v n s31 :
  0 <= v < 2 ^ 255 -> n = 0 \/ n = 1 -> le_bytes 32 v !! 31%nat = Some s31 ->
  <[31%nat := to_u8 (Z.lxor s31 (Z.shiftl n 7))]> (le_bytes 32 v) = le_bytes 32 (v + 2 ^ 255 * n).
Proof.
  intros Hv Hn Hs. rewrite !le_bytes_at in *. rewrite list_lookup_fmap in Hs.
  injection Hs as <-. apply list_eq. intros k. destruct (decide (k = 31%nat)) as [->|Hk].
  - rewrite list_lookup_insert_eq, list_lookup_fmap by (rewrite length_map, length_seq; lia).
    cbn [seq lookup list_lookup fmap option_fmap option_map].
    change (8 * Z.of_nat 31) with 248. f_equal.
    assert (Hq : 0 <= v / 2 ^ 248 < 128).
    { split; [apply Z.div_pos; lia | apply Z.div_lt_upper_bound; [lia|]].
      change (2 ^ 248 * 128) with (2 ^ 255). apply Hv. }
    change (2 ^ 255) with (128 * 2 ^ 248). rewrite (Z.mul_comm 128), <- Z.mul_assoc, (Z.mul_comm (2 ^ 248)).
    rewrite Z.div_add by discriminate. clear Hv. set (q := v / 2 ^ 248) in *. clearbody q.
    rewrite (Z.mod_small q) by lia. unfold to_u8.
    destruct Hn as [-> | ->]; [rewrite Z.lxor_0_r; f_equal; lia|].
    change (Z.shiftl 1 7) with 128. rewrite lxor_128 by exact Hq. reflexivity.
  - rewrite list_lookup_insert_ne by auto. rewrite !list_lookup_fmap.
    destruct (seq 0 32 !! k) as [k'|] eqn:E; [|reflexivity].
    apply lookup_seq in E as [-> Hk']. cbn [fmap option_fmap option_map Nat.add]. f_equal.
    replace (v + 2 ^ 255 * n) with (v + (n * 2 ^ (247 - 8 * Z.of_nat k) * 256) * 2 ^ (8 * Z.of_nat k)).
    + rewrite Z.div_add by (apply Z.pow_nonzero; lia). symmetry. apply Z.mod_add. lia.
    + f_equal. change 256 with (2 ^ 8). rewrite <- !Z.mul_assoc, <- !Z.pow_add_r by lia.
      rewrite Z.mul_comm. f_equal. f_equal. lia.
Qed.

Lemma to_Z_range (v : F) : 0 <= Zmod.to_Z v < p.
Proof. apply Zmod.unsigned_pos_bound. reflexivity. Qed.

Lemma to_Z_lt_255 (v : F) : 0 <= Zmod.to_Z v < 2 ^ 255.
Proof. pose proof (to_Z_range v) as H. revert H. unfold p. eval_pows. lia. Qed.

Lemma ge_encode_ok P z hX hY hZ :
  z <> 0%F -> fv 330 (px P * z)%F hX -> fv 330 (py P * z)%F hY -> fv 330 z hZ ->
  ge_encode hX hY hZ = Some (encode P).
Proof.
  intros Hz HX HY HZ. unfold ge_encode.
  destruct (fv_invert 330 z hZ ltac:(lia) Hz HZ) as (recip & -> & y & Hr & Hy).
  cbn [mbind option_bind].
  destruct (fv_mul 330 101 _ _ hX recip ltac:(lia) ltac:(lia) HX Hr) as (x' & -> & Hx').
  cbn [mbind option_bind].
  destruct (fv_mul 330 101 _ _ hY recip ltac:(lia) ltac:(lia) HY Hr) as (y' & -> & Hy').
  cbn [mbind option_bind].
  assert (E : forall a : F, (a * z * y = a)%F).
  { intros a. transitivity (a * (z * y))%F; [ring|]. rewrite Hy. ring. }
  rewrite E in Hx', Hy'. rewrite (fv_tobytes _ _ Hy'). cbn [mbind option_bind].
  destruct (le_bytes 32 (Zmod.to_Z (py P)) !! 31%nat) as [s31|] eqn:E31;
    [|apply lookup_ge_None in E31; rewrite le_bytes_length in E31; lia].
  cbn [mbind option_bind]. rewrite (fv_isnegative _ _ Hx'). cbn [mbind option_bind]. f_equal.
  apply set_sign_bit; [apply to_Z_lt_255 | | exact E31].
  pose proof (Z.mod_pos_bound (Zmod.to_Z (px P)) 2). lia.
Qed.

Lemma ge_p3_tobytes_ok P g : p3_rep P g -> ge_p3_tobytes g = Some (encode P).
Proof.
  intros (z & Hz & HX & HY & HZ & _). apply (ge_encode_ok P z); [exact Hz | eapply fv_mono; [|eassumption]; lia..].
Qed.

Lemma ge_tobytes_ok P g : p2_rep P g -> ge_tobytes g = Some (encode P).
Proof.
  intros (z & Hz & HX & HY & HZ). apply (ge_encode_ok P z); [exact Hz | eapply fv_mono; [|eassumption]; lia..].
Qed.
