(* ===== verification/Decode.v ===== *)
(** * Decoding points

    [ge_frombytes_vartime] of crypto-ops.c accepts exactly the encodings of
    points of the curve, and returns the point encoded. *)

From S2P Require Import Prelude.
From S2P Require Import CInt.
From S2P Require Import Bytes.
From S2P Require Import Limbs.
From S2P Require Import Fe.
From S2P Require Import FeMul.
From S2P Require Import FeBytes.
From S2P Require Import FePow.
From S2P Require Import Prime25519.
From S2P Require Import Group.
From S2P Require Import Curve.
From S2P Require Import FeField.
From S2P Require Import Ge.
From Stdlib Require Import Zmod Ring.

(** ** Operation *)

(** The root: x = sqrt(u/v), or no root. *)
Definition ge_frombytes_root (u v : fe) : option (option fe) :=
  hX ← fe_divpowm1 u v;
  vxx ← fe_sq hX;
  vxx ← fe_mul vxx v;
  check ← fe_sub vxx u;
  n ← fe_isnonzero check;
  if n =? 0 then Some (Some hX)
  else
    check ← fe_add vxx u;
    n ← fe_isnonzero check;
    if n =? 0 then (hX ← fe_mul hX fe_sqrtm1; Some (Some hX)) else Some None.

(** The sign: the root whose parity is [sign]. *)
Definition ge_frombytes_sign (hX : fe) (sign : Z) : option (option fe) :=
  neg ← fe_isnegative hX;
  if neg =? sign then Some (Some hX)
  else
    n ← fe_isnonzero hX;
    if n =? 0 then Some None else (hX ← fe_neg hX; Some (Some hX)).

(** [Some None] is the return value -1. *)
Definition ge_frombytes_vartime (s : list Z) : option (option ge_p3) :=
  h ← frombytes_limbs s (frombytes_h9_masked s);
  if frombytes_noncanonical h then Some None
  else
    h ← run frombytes_carry h;
    let hY := fe_store h in
    let hZ := fe_1 in
    u ← fe_sq hY;
    v ← fe_mul u fe_d;
    u ← fe_sub u hZ;
    v ← fe_add v hZ;
    root ← ge_frombytes_root u v;
    match root with
    | None => Some None
    | Some hX =>
        s31 ← s !! 31%nat;
        x ← ge_frombytes_sign hX (Z.shiftr s31 7);
        match x with
        | None => Some None
        | Some hX => hT ← fe_mul hX hY; Some (Some (P3 hX hY hZ hT))
        end
    end.

(** ** Square roots modulo p *)

Lemma euler_square a b : a ≡[p] b * b -> ~ b ≡[p] 0 -> a ^ ((p - 1) / 2) ≡[p] 1.
Proof.
  intros Hab Hb. rewrite (eqmod_pow p a (b * b)) by (exact Hab || (vm_compute; discriminate)).
  rewrite Z.pow_mul_l, <- Z.pow_add_r by (vm_compute; discriminate).
  change ((p - 1) / 2 + (p - 1) / 2) with (p - 1). apply fermat, Hb.
Qed.

Lemma square_1 c : c * c ≡[p] 1 -> c ≡[p] 1 \/ c ≡[p] -1.
Proof.
  intros H. assert (E : (c - 1) * (c + 1) ≡[p] 0).
  { replace ((c - 1) * (c + 1)) with (c * c - 1) by ring. rewrite H. reflexivity. }
  destruct (eqmod_p_integral _ _ E) as [H1|H1]; [left|right].
  - replace c with (c - 1 + 1) by ring. rewrite H1. reflexivity.
  - replace c with (c + 1 - 1) by ring. rewrite H1. reflexivity.
Qed.

(** The candidate root, and the fourth root of unity it leaves. *)
Definition root_candidate (u v : Z) : Z := u * v ^ 3 * (u * v ^ 7) ^ ((p - 5) / 8).
Definition root_unit (u v : Z) : Z := (u * v ^ 7) ^ ((p - 1) / 4).

Lemma root_candidate_sq u v :
  root_candidate u v * root_candidate u v * v = u * root_unit u v.
Proof.
  unfold root_candidate, root_unit. set (w := u * v ^ 7).
  replace ((p - 1) / 4) with ((p - 5) / 8 + (p - 5) / 8 + 1) by reflexivity.
  rewrite !Z.pow_add_r, Z.pow_1_r by (vm_compute; discriminate).
  set (k := w ^ ((p - 5) / 8)). unfold w. ring.
Qed.

Lemma root_unit_square u v x :
  v * (x * x) ≡[p] u -> ~ u ≡[p] 0 -> root_unit u v ≡[p] 1 \/ root_unit u v ≡[p] -1.
Proof.
  intros Hx Hu. apply square_1. unfold root_unit.
  rewrite <- Z.pow_add_r by (vm_compute; discriminate).
  change ((p - 1) / 4 + (p - 1) / 4) with ((p - 1) / 2).
  apply (euler_square _ (v ^ 4 * x)).
  - rewrite <- Hx. apply eqmod_eq. ring.
  - intros E. apply Hu. rewrite <- Hx. destruct (eqmod_p_integral _ _ E) as [E1|E1].
    + replace (v ^ 4) with (v * v * (v * v)) in E1 by ring.
      assert (Hv : v ≡[p] 0) by
        (destruct (eqmod_p_integral _ _ E1) as [E2|E2]; destruct (eqmod_p_integral _ _ E2); assumption).
      rewrite Hv. reflexivity.
    + rewrite E1. apply eqmod_eq. ring.
Qed.

(** ** The root *)

Lemma fv_isnonzero a x f :
  a <= 320 -> fv a x f -> fe_isnonzero f = Some (if decide (x = 0%F) then 0 else 1).
Proof.
  intros Ha [Hw <-]. rewrite fe_isnonzero_ok by (apply (fe_within_mono a); assumption).
  f_equal. unfold fF. destruct (Z.eqb_spec (fe_val f mod p) 0) as [E|E];
    destruct (decide _) as [D|D]; try reflexivity; exfalso.
  - apply D. apply (proj2 (ofZ_eq (fe_val f) 0)). exact E.
  - apply E. apply (proj1 (ofZ_eq (fe_val f) 0)). exact D.
Qed.

Lemma fv_divpowm1 a b u v f g :
  a <= 330 -> b <= 330 -> fv a u f -> fv b v g ->
  returns (fe_divpowm1 f g)
    (fun h => exists x c, fv 101 x h /\ (x * x * v = u * c)%F /\
       (forall y, (v * (y * y) = u)%F -> u <> 0%F -> c = 1%F \/ c = (0 - 1)%F)).
Proof.
  intros Ha Hb Hf Hg. apply (fv_mono a 330 _ _ Ha) in Hf as [Hf <-].
  apply (fv_mono b 330 _ _ Hb) in Hg as [Hg <-].
  destruct (fe_divpowm1_ok f g Hf Hg) as (h & E & Hw & Hv).
  exists h. split; [exact E|]. exists (fF h), (ofZ (root_unit (fe_val f) (fe_val g))).
  split; [split; [exact Hw | reflexivity]|]. unfold fF. rewrite <- !Zmod.of_Z_mul. split.
  - apply ofZ_eq. rewrite Hv. apply eqmod_eq, root_candidate_sq.
  - intros y Hy Hu. destruct (root_unit_square (fe_val f) (fe_val g) (Zmod.to_Z y)) as [H|H].
    + apply ofZ_eq. rewrite !Zmod.of_Z_mul, !Zmod.of_Z_to_Z. exact Hy.
    + intros H. apply Hu, ofZ_eq, H.
    + left. apply ofZ_eq in H. rewrite H. apply Zmod.to_Z_inj. eval_closed.
    + right. apply ofZ_eq in H. rewrite H. apply Zmod.to_Z_inj. eval_closed.
Qed.

Definition is_root (u v x : F) : Prop := (v * (x * x) = u)%F.

Lemma F_sub_0 (x y : F) : (x - y = 0)%F -> x = y.
Proof. apply (sub_0 F_field). Qed.

Ltac nonzero_step :=
  match goal with
  | H : fv ?a ?x ?k |- returns (fe_isnonzero ?k ≫= _) _ =>
      rewrite (fv_isnonzero a x k ltac:(lia) H); cbn [mbind option_bind]
  end.

Lemma ge_frombytes_root_ok u v f g :
  fv 102 u f -> fv 102 v g ->
  returns (ge_frombytes_root f g)
    (fun r => match r with
              | Some h => exists x, fv 101 x h /\ is_root u v x
              | None => forall x, ~ is_root u v x
              end).
Proof.
  intros Hu Hv. unfold ge_frombytes_root.
  eapply returns_bind; [eapply (fv_divpowm1 102 102); [lia | lia | exact Hu | exact Hv]|].
  intros hX (x & c & Hx & Hc & Hsq). fe_step. fe_step. fe_step.
  nonzero_step.
  destruct (decide _) as [D|D]; cbn [Z.eqb].
  - apply returns_Some. exists x. split; [exact Hx|]. apply F_sub_0 in D. unfold is_root.
    rewrite <- D. ring.
  - fe_step.
    nonzero_step.
    destruct (decide _) as [D'|D']; cbn [Z.eqb].
    + pose proof fv_sqrtm1. fe_step. apply returns_Some. eexists. split; [eassumption|].
      unfold is_root. transitivity ((x * x * v) * (curve_i * curve_i))%F; [ring|].
      rewrite curve_i_sq. apply F_sub_0.
      transitivity (0 - (x * x * v + u))%F; [ring|]. rewrite D'. ring.
    + apply returns_Some. intros y Hy. rewrite Hc in D, D'.
      destruct (decide (u = 0%F)) as [E|E].
      * apply D. rewrite E. ring.
      * destruct (Hsq y Hy E) as [-> | ->]; [apply D | apply D']; ring.
Qed.

(** ** The sign *)

Lemma F_neg_parity (x : F) : x <> 0%F -> Zmod.to_Z (0 - x)%F mod 2 = 1 - Zmod.to_Z x mod 2.
Proof.
  intros Hx. pose proof (to_Z_range x) as Hr.
  assert (Hn : Zmod.to_Z x <> 0).
  { intros E. apply Hx, Zmod.to_Z_inj. rewrite E. reflexivity. }
  assert (E : Zmod.to_Z (0 - x)%F = p - Zmod.to_Z x).
  { rewrite Zmod.to_Z_sub. change (Zmod.to_Z 0%F) with 0.
    replace (0 - Zmod.to_Z x) with (p - Zmod.to_Z x + (-1) * p) by ring.
    rewrite Z.mod_add by discriminate. apply Z.mod_small. lia. }
  rewrite E. set (k := Zmod.to_Z x) in *. unfold p. clearbody k.
  pose proof (Z.div_mod k 2 ltac:(lia)). pose proof (Z.mod_pos_bound k 2 ltac:(lia)).
  symmetry. apply Z.mod_unique with (28948022309329048855892746252171976963317496166410141009864396001978282409974 - k / 2); lia.
Qed.

Lemma ge_frombytes_sign_ok x hX sign :
  fv 101 x hX -> sign = 0 \/ sign = 1 ->
  returns (ge_frombytes_sign hX sign)
    (fun r => match r with
              | Some h => exists x', fv 101 x' h /\ (x' = x \/ x' = (0 - x)%F) /\
                            Zmod.to_Z x' mod 2 = sign
              | None => x = 0%F /\ sign = 1
              end).
Proof.
  intros Hx Hs. unfold ge_frombytes_sign. rewrite (fv_isnegative x hX Hx). cbn [mbind option_bind].
  pose proof (Z.mod_pos_bound (Zmod.to_Z x) 2 ltac:(lia)) as Hm.
  destruct (Z.eqb_spec (Zmod.to_Z x mod 2) sign) as [E|E].
  - apply returns_Some. exists x. auto.
  - nonzero_step. destruct (decide _) as [->|D]; cbn [Z.eqb].
    + apply returns_Some. split; [reflexivity|]. change (Zmod.to_Z 0%F mod 2) with 0 in E. lia.
    + fe_step. apply returns_Some. exists (0 - x)%F. split; [assumption|]. split; [auto|].
      rewrite F_neg_parity by exact D. lia.
Qed.

(** ** Encodings as numbers *)

Lemma encode_num P : 0 <= Zmod.to_Z (py P) + 2 ^ 255 * (Zmod.to_Z (px P) mod 2) < 2 ^ (8 * Z.of_nat 32).
Proof.
  pose proof (to_Z_lt_255 (py P)) as Hy. pose proof (Z.mod_pos_bound (Zmod.to_Z (px P)) 2 ltac:(lia)).
  change (2 ^ (8 * Z.of_nat 32)) with (2 ^ 255 * 2). nia.
Qed.

Lemma encode_iff P s :
  bytes_of 32 s ->
  encode P = s <-> Zmod.to_Z (py P) = le_val s mod 2 ^ 255 /\ Zmod.to_Z (px P) mod 2 = le_val s / 2 ^ 255.
Proof.
  intros [Hs Hl]. pose proof (encode_num P) as Hn. pose proof (to_Z_lt_255 (py P)) as Hy.
  split.
  - intros <-. assert (Ev : le_val (encode P) = Zmod.to_Z (py P) + 2 ^ 255 * (Zmod.to_Z (px P) mod 2))
      by (unfold encode; rewrite le_bytes_val; apply Z.mod_small, Hn).
    rewrite Ev. rewrite (Z.add_comm (Zmod.to_Z (py P))), (Z.mul_comm (2 ^ 255)).
    rewrite Z.div_add_l, (Z.div_small _ _ Hy), Z.add_0_r by discriminate. split; [|reflexivity].
    rewrite Z.add_comm, Z.mod_add, Z.mod_small by (exact Hy || discriminate). reflexivity.
  - intros [E1 E2]. unfold encode. rewrite E1, E2, Z.add_comm, <- Z.div_mod by discriminate.
    rewrite <- Hl. apply le_bytes_le_val, Hs.
Qed.

(** Two points with one encoding are equal. *)
Lemma root_eq_or_opp u v x y : v <> 0%F -> is_root u v x -> is_root u v y -> y = x \/ y = (0 - x)%F.
Proof.
  intros Hv Hx Hy. unfold is_root in *.
  assert (E : (v * ((y - x) * (y + x)) = 0)%F).
  { transitivity (v * (y * y) - v * (x * x))%F; [ring|]. rewrite Hx, Hy. ring. }
  destruct (integral F_field _ _ E) as [|E1]; [contradiction|].
  destruct (integral F_field _ _ E1) as [E2|E2]; [left; apply F_sub_0, E2 | right].
  apply F_sub_0. transitivity (y + x)%F; [ring | exact E2].
Qed.

Lemma denominator_nz (y : F) : (y * y * curve_d + 1 <> 0)%F.
Proof.
  intros E. assert (Hy : y <> 0%F).
  { intros ->. apply F_one_nz. transitivity (0 * 0 * curve_d + 1)%F; [ring | exact E]. }
  destruct (F_inverse y Hy) as (w & Hw). apply (curve_d_nonsquare (curve_i * w)).
  transitivity ((curve_i * curve_i) * (w * w))%F; [ring|]. rewrite curve_i_sq.
  transitivity ((curve_d * ((y * w) * (y * w))) - (y * y * curve_d + 1) * (w * w))%F; [ring|].
  rewrite E, Hw. ring.
Qed.

Lemma on_curve_root x y : on_curve (x, y) <-> is_root (y * y - 1)%F (y * y * curve_d + 1)%F x.
Proof.
  unfold on_curve, is_root. cbn [fst snd]. split; intros E; apply F_sub_0.
  - transitivity ((1 + curve_d * (x * x) * (y * y)) - (y * y - x * x))%F; [ring|]. rewrite E. ring.
  - transitivity ((y * y - 1) - (y * y * curve_d + 1) * (x * x))%F; [ring|]. rewrite E. ring.
Qed.

Lemma encode_inj P Q : encode P = encode Q -> P = Q.
Proof.
  intros E. assert (Hb : bytes_of 32 (encode Q)) by (split; [apply le_bytes_bytes | apply le_bytes_length]).
  destruct (proj1 (encode_iff P _ Hb) E) as [Ey Ex].
  destruct (proj1 (encode_iff Q _ Hb) eq_refl) as [Ey' Ex'].
  assert (Hy : py P = py Q) by (apply Zmod.to_Z_inj; congruence). rewrite <- Ex' in Ex.
  apply point_eq; [|exact Hy]. pose proof (point_on P) as HP. pose proof (point_on Q) as HQ.
  apply on_curve_root in HP, HQ. rewrite Hy in HP.
  destruct (root_eq_or_opp _ _ _ _ (denominator_nz (py Q)) HQ HP) as [H|H]; [exact H|].
  destruct (decide (px Q = 0%F)) as [E0|E0]; [rewrite H, E0; ring|].
  rewrite H, F_neg_parity in Ex by exact E0.
  pose proof (Z.mod_pos_bound (Zmod.to_Z (px Q)) 2 ltac:(lia)). lia.
Qed.

(** ** The function *)

Lemma byte31_sign s :
  bytes_of 32 s -> exists s31, s !! 31%nat = Some s31 /\ Z.shiftr s31 7 = le_val s / 2 ^ 255 /\
    (le_val s / 2 ^ 255 = 0 \/ le_val s / 2 ^ 255 = 1).
Proof.
  intros [Hs Hl]. pose proof (le_val_range s Hs) as Hr. rewrite Hl in Hr.
  pose proof (le_bytes_le_val s Hs) as E. rewrite Hl, le_bytes_at in E.
  exists (le_val s / 2 ^ 248 mod 256). split; [rewrite <- E at 1; reflexivity|].
  assert (Hq : 0 <= le_val s / 2 ^ 255 < 2).
  { split; [apply Z.div_pos; lia | apply Z.div_lt_upper_bound; [lia|]]. exact (proj2 Hr). }
  split; [|lia].
  rewrite Z.mod_small.
  - rewrite Z.shiftr_div_pow2, Z.div_div, <- Z.pow_add_r by lia. reflexivity.
  - split; [apply Z.div_pos; lia | apply Z.div_lt_upper_bound; [lia|]]. exact (proj2 Hr).
Qed.

(** The result of ge_frombytes_vartime, by the encoding it is given. *)
Definition decodes (s : list Z) (r : option ge_p3) : Prop :=
  match r with
  | Some g => exists P, p3_rep P g /\ encode P = s
  | None => forall P, encode P <> s
  end.

Lemma encode_root P s :
  bytes_of 32 s -> encode P = s ->
  let y := ofZ (le_val s mod 2 ^ 255) in
  py P = y /\ is_root (y * y - 1)%F (y * y * curve_d + 1)%F (px P).
Proof.
  intros Hs E y. apply (encode_iff P s Hs) in E as [Ey _].
  assert (py P = y) as Hy by (unfold y; rewrite <- Ey; symmetry; apply Zmod.of_Z_to_Z).
  split; [exact Hy|]. rewrite <- Hy. apply on_curve_root, point_on.
Qed.

Lemma ge_frombytes_vartime_ok s : bytes_of 32 s -> returns (ge_frombytes_vartime s) (decodes s).
Proof.
  intros Hs. pose proof Hs as [Hb Hl]. unfold ge_frombytes_vartime.
  rewrite (frombytes_masked_ok s Hb Hl). cbn [mbind option_bind].
  set (v := le_val s mod 2 ^ 255).
  assert (Hv : 0 <= v < 2 ^ 255) by (apply Z.mod_pos_bound; lia).
  rewrite (frombytes_noncanonical_ok v Hv). destruct (Z.leb_spec p v) as [Hp|Hp].
  { apply returns_Some. intros P E. apply (encode_iff P s Hs) in E as [Ey _].
    pose proof (to_Z_range (py P)). fold v in Ey. lia. }
  destruct (frombytes_reduce_ok v) as (h & -> & Hst & Hw & Hval).
  { split; [apply Hv|]. etransitivity; [apply Hv | reflexivity]. }
  cbn [mbind option_bind]. rewrite Hst. cbv zeta.
  assert (HY : fv 101 (ofZ v) h) by (split; [exact Hw | apply ofZ_eq, Hval]).
  pose proof fv_1. pose proof fv_d. set (y := ofZ v) in *. do 4 fe_step.
  eapply returns_bind; [apply (ge_frombytes_root_ok (y * y - 1)%F (y * y * curve_d + 1)%F);
    eapply fv_mono; [|eassumption | |eassumption]; lia|].
  intros [hX|] Hroot; cbv beta iota.
  2: { apply returns_Some. intros P E. apply (encode_root P s Hs) in E as [_ HP].
       exact (Hroot _ HP). }
  destruct Hroot as (x & Hx & Hroot). destruct (byte31_sign s Hs) as (s31 & Es & Eg & Hsg).
  rewrite Es. cbn [mbind option_bind]. rewrite Eg.
  eapply returns_bind; [apply (ge_frombytes_sign_ok x hX _ Hx Hsg)|].
  intros [hX'|] Hsign; cbv beta iota.
  - destruct Hsign as (x' & Hx' & Hxx & Hpar). fe_step. apply returns_Some.
    assert (HC : on_curve (x', y)).
    { apply on_curve_root. unfold is_root in *. rewrite <- Hroot. destruct Hxx; subst x'; ring. }
    set (P := (dexist (x', y) HC : point)). assert (Ex : px P = x') by reflexivity.
    assert (Ey : py P = y) by reflexivity. exists P. split.
    + exists 1%F. split; [exact F_one_nz|]. rewrite Ex, Ey. cbn [p3_X p3_Y p3_Z p3_T].
      split; [|split; [|split]]; fv_done.
    + apply (encode_iff P s Hs). rewrite Ex, Ey. split; [|exact Hpar].
      unfold y. rewrite Zmod.to_Z_of_Z. apply Z.mod_small. lia.
  - destruct Hsign as [-> Hsg1]. apply returns_Some. intros P E.
    pose proof E as E'. apply (encode_root P s Hs) in E' as [_ HP].
    apply (encode_iff P s Hs) in E as [_ Epar]. fold v in HP. fold y in HP.
    destruct (root_eq_or_opp _ _ _ _ (denominator_nz y) Hroot HP) as [Ex|Ex];
      rewrite Ex, Hsg1 in Epar; discriminate Epar.
Qed.
