(* ===== verification/Recode.v ===== *)
(** * Recoding scalars

    The signed digits that the scalar multiplications of crypto-ops.c read: the
    sliding-window digits of [slide], and the radix-16 digits that
    [ge_scalarmult_base] and [ge_scalarmult] compute, with the branch-free
    helpers [equal] and [negative]. *)

From S2P Require Import Prelude.
From S2P Require Import CInt.
From S2P Require Import Bytes.
From S2P Require Import Fe.

(** ** Sliding windows *)

(** [r[i] = 1 & (a[i >> 3] >> (i & 7))]. *)
Definition slide_bit (a : list Z) (i : nat) : option Z :=
  b ← a !! (i / 8)%nat; Some (to_i8 (Z.land 1 (Z.shiftr b (Z.of_nat (i mod 8))))).

Definition slide_init (a : list Z) : option (list Z) := limbs (map (slide_bit a) (seq 0 256)).

(** The loop on [k], of at most [n] rounds: add 1 at bit [k]. *)
Fixpoint slide_carry (n k : nat) (r : list Z) : option (list Z) :=
  match n with
  | O => Some r
  | S n =>
      rk ← r !! k;
      if rk =? 0 then Some (<[k:=1]> r) else slide_carry n (S k) (<[k:=0]> r)
  end.

(** The loop on [b]. *)
Fixpoint slide_window (i : nat) (bs : list nat) (r : list Z) : option (list Z) :=
  match bs with
  | [] => Some r
  | b :: bs =>
      if (i + b <? 256)%nat then
        x ← r !! (i + b)%nat;
        if x =? 0 then slide_window i bs r
        else
          ri ← r !! i;
          let d := Z.shiftl x (Z.of_nat b) in
          if ri + d <=? 15 then
            slide_window i bs (<[(i + b)%nat:=0]> (<[i:=to_i8 (ri + d)]> r))
          else if -15 <=? ri - d then
            r ← slide_carry (256 - (i + b)) (i + b) (<[i:=to_i8 (ri - d)]> r);
            slide_window i bs r
          else Some r
      else Some r
  end.

Fixpoint slide_loop (ks : list nat) (r : list Z) : option (list Z) :=
  match ks with
  | [] => Some r
  | i :: ks =>
      ri ← r !! i;
      r ← (if ri =? 0 then Some r else slide_window i (seq 1 6) r);
      slide_loop ks r
  end.

Definition slide (a : list Z) : option (list Z) :=
  r ← slide_init a; slide_loop (seq 0 256) r.

(** ** Radix 16 *)

Definition equal (b c : Z) : Z :=
  let ub := to_u8 b in
  let uc := to_u8 c in
  let x := Z.lxor ub uc in
  let y := to_u32 (x - 1) in
  to_u8 (Z.shiftr y 31).

Definition negative (b : Z) : Z := to_u8 (Z.shiftr (to_u64 b) 63).

(** [unsigned char babs = b - (((-bnegative) & b) << 1)]. *)
Definition abs_digit (b bnegative : Z) : Z := to_u8 (b - Z.shiftl (Z.land (- bnegative) b) 1).

(** The nibbles of ge_scalarmult_base, *)
Definition nibbles (a : list Z) : list Z :=
  flat_map (fun x => [Z.land (Z.shiftr x 0) 15; Z.land (Z.shiftr x 4) 15]) a.

(** and its carries: [e[i] += carry; carry = e[i] + 8; carry >>= 4;
    e[i] -= carry << 4], the last one into e[63]. *)
Fixpoint radix16_carry (e : list Z) (carry : Z) : list Z :=
  match e with
  | [] => []
  | [x] => [to_i8 (x + carry)]
  | x :: e =>
      let x := to_i8 (x + carry) in
      let carry := to_i8 (Z.shiftr (to_i8 (x + 8)) 4) in
      to_i8 (x - Z.shiftl carry 4) :: radix16_carry e carry
  end.

Definition radix16_base (a : list Z) : list Z := radix16_carry (nibbles a) 0.

(** The loop of ge_scalarmult, byte by byte. *)
Fixpoint radix16 (a : list Z) (carry : Z) : list Z :=
  match a with
  | [] => []
  | [x] =>
      let carry := carry + x in
      let carry2 := Z.shiftr (carry + 8) 4 in
      [to_i8 (carry - Z.shiftl carry2 4); to_i8 carry2]
  | x :: a =>
      let carry := carry + x in
      let carry2 := Z.shiftr (carry + 8) 4 in
      let e0 := to_i8 (carry - Z.shiftl carry2 4) in
      let carry := Z.shiftr (carry2 + 8) 4 in
      e0 :: to_i8 (carry2 - Z.shiftl carry 4) :: radix16 a carry
  end.

(** ** Digits in radix 2 *)

Fixpoint bval (r : list Z) : Z :=
  match r with [] => 0 | x :: r => x + 2 * bval r end.

Definition is_bit (x : Z) : Prop := x = 0 \/ x = 1.

Lemma bval_insert r k x y : r !! k = Some x -> bval (<[k:=y]> r) = bval r + (y - x) * 2 ^ Z.of_nat k.
Proof.
  revert k. induction r as [|z r IH]; intros [|k]; cbn [lookup list_lookup]; try discriminate.
  - intros [= ->]. cbn. lia.
  - intros Hk. change (<[S k:=y]> (z :: r)) with (z :: <[k:=y]> r). cbn [bval].
    rewrite (IH k Hk), Nat2Z.inj_succ, Z.pow_succ_r by lia. ring.
Qed.

Lemma bval_split r k : (k <= length r)%nat -> bval r = bval (take k r) + 2 ^ Z.of_nat k * bval (drop k r).
Proof.
  revert r. induction k as [|k IH]; intros r Hk.
  { rewrite take_0, drop_0. change (2 ^ Z.of_nat 0) with 1. cbn [bval]. lia. }
  destruct r as [|x r]; cbn [take drop bval length] in *; [lia|].
  rewrite (IH r) at 1 by lia. rewrite Nat2Z.inj_succ, Z.pow_succ_r by lia. ring.
Qed.

Lemma bval_drop_S r k x : r !! k = Some x -> bval (drop k r) = x + 2 * bval (drop (S k) r).
Proof. intros H. rewrite (drop_S r x k H). reflexivity. Qed.

Lemma bval_bits_range r : Forall is_bit r -> 0 <= bval r < 2 ^ Z.of_nat (length r).
Proof.
  induction 1 as [|x r Hx _ IH]; cbn [bval length]; [cbn; lia|].
  rewrite Nat2Z.inj_succ, Z.pow_succ_r by lia. unfold is_bit in Hx. lia.
Qed.

Lemma to_i8_small z : -128 <= z < 128 -> to_i8 z = z.
Proof. intros H. unfold to_i8. rewrite Z.mod_small; lia. Qed.

(** ** The initial bits *)

Lemma land_1_bit v n : 0 <= n -> Z.land 1 (Z.shiftr v n) = v / 2 ^ n mod 2.
Proof.
  intros Hn. rewrite Z.land_comm. change 1 with (Z.ones 1). rewrite Z.land_ones by lia.
  rewrite Z.shiftr_div_pow2 by exact Hn. reflexivity.
Qed.

Definition bits (v : Z) (k n : nat) : list Z := map (fun i => v / 2 ^ Z.of_nat i mod 2) (seq k n).

Lemma slide_bit_ok a i :
  is_bytes a -> (i < 8 * length a)%nat -> slide_bit a i = Some (le_val a / 2 ^ Z.of_nat i mod 2).
Proof.
  intros Ha Hi. unfold slide_bit.
  assert (Hq : (i / 8 < length a)%nat) by (apply Nat.Div0.div_lt_upper_bound; lia).
  pose proof (le_bytes_le_val a Ha) as E. rewrite le_bytes_at in E.
  assert (Hb : a !! (i / 8)%nat = Some (le_val a / 2 ^ (8 * Z.of_nat (i / 8)) mod 2 ^ 8)).
  { rewrite <- E at 1. rewrite list_lookup_fmap, lookup_seq_lt by exact Hq. reflexivity. }
  rewrite Hb. cbn [mbind option_bind]. rewrite land_1_bit by lia.
  pose proof (Nat.div_mod_eq i 8) as Hdm. pose proof (Nat.mod_upper_bound i 8 ltac:(lia)) as Hm.
  pose proof (mod_div_mod (le_val a) (8 * Z.of_nat (i / 8)) 8 (Z.of_nat (i mod 8)) 1
    ltac:(lia) ltac:(lia) ltac:(lia) ltac:(lia)) as E2.
  change (2 ^ 1) with 2 in E2. rewrite E2.
  replace (8 * Z.of_nat (i / 8) + Z.of_nat (i mod 8)) with (Z.of_nat i) by lia.
  f_equal. apply to_i8_small.
  pose proof (Z.mod_pos_bound (le_val a / 2 ^ Z.of_nat i) 2). lia.
Qed.

Lemma limbs_map {A} (f : A -> option Z) (g : A -> Z) l :
  (forall x, x ∈ l -> f x = Some (g x)) -> limbs (map f l) = Some (map g l).
Proof.
  induction l as [|x l IH]; intros H; cbn; [reflexivity|].
  rewrite (H x) by (left; fail || constructor). cbn. rewrite IH; [reflexivity|].
  intros y Hy. apply H. constructor. exact Hy.
Qed.

Lemma slide_init_ok a : bytes_of 32 a -> slide_init a = Some (bits (le_val a) 0 256).
Proof.
  intros [Ha Hl]. apply limbs_map. intros i Hi. apply slide_bit_ok; [exact Ha|].
  apply elem_of_seq in Hi. lia.
Qed.

Lemma bits_bits v k n : Forall is_bit (bits v k n).
Proof.
  apply Forall_forall. intros x Hx. unfold bits in Hx. apply list_elem_of_fmap in Hx as (i & -> & _).
  pose proof (Z.mod_pos_bound (v / 2 ^ Z.of_nat i) 2). unfold is_bit. lia.
Qed.

Lemma bits_val v k n :
  0 <= v < 2 ^ Z.of_nat (k + n) -> bval (bits v k n) = v / 2 ^ Z.of_nat k.
Proof.
  revert k. induction n as [|n IH]; intros k Hv; cbn [bits seq map bval].
  - rewrite Nat.add_0_r in Hv. symmetry. apply Z.div_small, Hv.
  - fold (bits v (S k) n). rewrite IH by (rewrite Nat.add_succ_comm; exact Hv).
    rewrite Nat2Z.inj_succ, Z.pow_succ_r, Z.mul_comm, (Z.mul_comm 2 (2 ^ _)), <- Z.div_div by lia.
    set (q := v / 2 ^ Z.of_nat k). pose proof (Z.div_mod q 2). lia.
Qed.

(** ** The carry of a window *)

(** From index [k] on, [r] holds bits. *)
Definition bits_from (k : nat) (r : list Z) : Prop :=
  forall j x, (k <= j)%nat -> r !! j = Some x -> is_bit x.

Definition same_below (k : nat) (r r' : list Z) : Prop := forall j, (j < k)%nat -> r' !! j = r !! j.

Lemma bits_from_insert k i y r :
  bits_from k r -> (i < k)%nat \/ is_bit y -> bits_from k (<[i:=y]> r).
Proof.
  intros H Hi j x Hj Hx. destruct (decide (j = i)) as [->|Hn].
  - destruct Hi as [Hi|Hi]; [lia|]. pose proof (lookup_lt_Some _ _ _ Hx) as Hl.
    rewrite length_insert in Hl. rewrite list_lookup_insert_eq in Hx by exact Hl. congruence.
  - rewrite list_lookup_insert_ne in Hx by auto. eapply H; eassumption.
Qed.

Lemma bits_from_mono k k' r : (k <= k')%nat -> bits_from k r -> bits_from k' r.
Proof. intros Hk H j x Hj. apply H. lia. Qed.

Lemma bits_from_drop k r : bits_from k r -> Forall is_bit (drop k r).
Proof.
  intros H. apply Forall_lookup. intros i x Hi. rewrite lookup_drop in Hi.
  eapply H; [|exact Hi]. lia.
Qed.

Lemma bits_from_range k r : bits_from k r -> 0 <= bval (drop k r) < 2 ^ Z.of_nat (length r - k).
Proof.
  intros H. apply bits_from_drop, bval_bits_range in H. rewrite length_drop in H. exact H.
Qed.

Lemma same_below_insert k i y r r' : (k <= i)%nat -> same_below k r r' -> same_below k r (<[i:=y]> r').
Proof. intros Hi H j Hj. rewrite list_lookup_insert_ne by lia. apply H, Hj. Qed.

Lemma drop_insert_self k y (r : list Z) : drop (S k) (<[k:=y]> r) = drop (S k) r.
Proof. apply drop_insert_lt. lia. Qed.

Lemma lookup_bit k r : bits_from k r -> (k < length r)%nat -> exists x, r !! k = Some x /\ is_bit x.
Proof.
  intros Hb Hk. destruct (lookup_lt_is_Some_2 r k Hk) as [x Hx].
  exists x. split; [exact Hx | eapply Hb; [|exact Hx]; lia].
Qed.

(** Adding 1 at a bit below the top, without overflow. *)
Lemma slide_carry_ok n k r :
  (k + n = length r)%nat -> bits_from k r -> bval (drop k r) + 1 < 2 ^ Z.of_nat n ->
  returns (slide_carry n k r) (fun r' =>
    length r' = length r /\ same_below k r r' /\ bits_from k r' /\
    bval r' = bval r + 2 ^ Z.of_nat k /\ (r !! k = Some 1 -> r' !! k = Some 0)).
Proof.
  revert k r. induction n as [|n IH]; intros k r Hl Hb Hv.
  { pose proof (bits_from_range k r Hb). cbn in Hv. lia. }
  destruct (lookup_bit k r Hb ltac:(lia)) as (x & Hx & Hbit). cbn [slide_carry]. rewrite Hx.
  cbn [mbind option_bind]. rewrite (bval_drop_S r k x Hx), Nat2Z.inj_succ, Z.pow_succ_r in Hv by lia.
  destruct (Z.eqb_spec x 0) as [->|Hn].
  - apply returns_Some. rewrite length_insert. split; [reflexivity|].
    split; [apply same_below_insert; [lia | intros ? ?; reflexivity]|].
    split; [apply bits_from_insert; [exact Hb | right; right; reflexivity]|].
    rewrite (bval_insert r k 0) by exact Hx. split; [ring | discriminate].
  - assert (x = 1) as -> by (destruct Hbit; [contradiction | assumption]).
    eapply returns_mono; [apply IH|].
    + rewrite length_insert. lia.
    + apply bits_from_insert; [apply (bits_from_mono k); [lia | exact Hb] | left; lia].
    + rewrite drop_insert_self. lia.
    + intros r' (H1 & H2 & H3 & H4 & _). rewrite length_insert in H1. split; [exact H1|].
      assert (Hk0 : r' !! k = Some 0).
      { rewrite H2 by lia. apply list_lookup_insert_eq. lia. }
      split; [intros j Hj; rewrite H2 by lia; apply list_lookup_insert_ne; lia|].
      split.
      { intros j y Hj Hy. destruct (decide (j = k)) as [->|]; [left; congruence|].
        eapply H3; [|exact Hy]. lia. }
      rewrite H4, (bval_insert r k 1), Nat2Z.inj_succ, Z.pow_succ_r by (exact Hx || lia).
      split; [ring | auto].
Qed.

(** ** The window at one index *)

(** [win i b lo hi r0 r]: the window at [i] has absorbed the bits below [i + b]. *)
Record win (i b : nat) (lo hi : Z) (r0 r : list Z) : Prop := Win {
  win_len : length r = 256%nat;
  win_below : same_below i r0 r;
  win_val : bval r = bval r0;
  win_digit : exists u, r !! i = Some u /\ Z.odd u = true /\ lo <= u <= hi;
  win_zeros : forall k, (i < k < i + b)%nat -> (k < 256)%nat -> r !! k = Some 0;
  win_bits : bits_from (i + b) r;
}.

Lemma win_weaken i b lo hi lo' hi' r0 r :
  lo' <= lo -> hi <= hi' -> win i b lo hi r0 r -> win i b lo' hi' r0 r.
Proof. intros ? ? [? ? ? (u & ? & ? & ?) ? ?]. split; auto. exists u. split; [assumption|]. split; [assumption | lia]. Qed.

(** Past the end there is nothing to absorb. *)
Lemma win_end i b b' lo hi r0 r : (256 <= i + b)%nat -> (b <= b')%nat -> win i b lo hi r0 r -> win i b' lo hi r0 r.
Proof.
  intros Hi Hb [? ? ? ? Hz Hbits]. split; auto.
  - intros k Hk Hk'. apply Hz; lia.
  - apply (bits_from_mono (i + b)); [lia | assumption].
Qed.

(** A zero bit is absorbed as it is. *)
Lemma win_skip i b lo hi r0 r : r !! (i + b)%nat = Some 0 -> win i b lo hi r0 r -> win i (S b) lo hi r0 r.
Proof.
  intros H0 [? ? ? ? Hz Hbits]. split; auto.
  - intros k Hk Hk'. destruct (decide (k = i + b)%nat) as [->|]; [exact H0 | apply Hz; lia].
  - apply (bits_from_mono (i + b)); [lia | assumption].
Qed.

(** A one is added to the digit. *)
Lemma win_add i b lo hi r0 r u :
  (1 <= b)%nat -> win i b lo hi r0 r -> r !! i = Some u -> r !! (i + b)%nat = Some 1 ->
  win i (S b) (lo + 2 ^ Z.of_nat b) (hi + 2 ^ Z.of_nat b) r0
    (<[(i + b)%nat:=0]> (<[i:=u + 2 ^ Z.of_nat b]> r)).
Proof.
  intros Hb [Hl Hbelow Hv (u' & Hu & Hodd & Hr) Hz Hbits] Hu' H1.
  assert (u' = u) as -> by congruence.
  pose proof (lookup_lt_Some _ _ _ H1) as Hlt. split.
  - rewrite !length_insert. exact Hl.
  - do 2 (apply same_below_insert; [lia|]). exact Hbelow.
  - rewrite (bval_insert _ _ 1) by (rewrite list_lookup_insert_ne by lia; exact H1).
    rewrite (bval_insert _ _ u) by exact Hu. rewrite Nat2Z.inj_add, Z.pow_add_r by lia.
    rewrite <- Hv. ring.
  - exists (u + 2 ^ Z.of_nat b). split.
    + rewrite list_lookup_insert_ne by lia. apply list_lookup_insert_eq. lia.
    + split; [|lia]. rewrite Z.odd_add, Hodd, Z.odd_pow by lia. reflexivity.
  - intros k Hk Hk'. destruct (decide (k = i + b)%nat) as [->|].
    + apply list_lookup_insert_eq. rewrite length_insert. lia.
    + rewrite !list_lookup_insert_ne by lia. apply Hz; lia.
  - apply bits_from_insert; [|left; lia]. apply bits_from_insert; [|left; lia].
    apply (bits_from_mono (i + b)); [lia | exact Hbits].
Qed.

Lemma same_below_take k r r' : same_below k r r' -> (k <= length r)%nat -> (k <= length r')%nat -> take k r' = take k r.
Proof.
  intros H Hl Hl'. apply list_eq. intros j. rewrite !lookup_take.
  destruct (decide (j < k)%nat); [apply H; assumption | reflexivity].
Qed.

(** Below this bound the carry of the window at [i] stays inside the array. *)
Definition room (i : nat) (r : list Z) : Prop :=
  bval r - bval (take i r) < 2 ^ 255 + 2 ^ Z.of_nat i.

Lemma win_room i lo hi r0 r u :
  (i + 4 < 256)%nat -> length r0 = 256%nat -> room i r0 -> win i 4 lo hi r0 r ->
  r !! i = Some u -> 1 <= u -> bval (drop (i + 4) r) + 1 < 2 ^ Z.of_nat (256 - (i + 4)).
Proof.
  intros Hi Hl0 Hroom [Hl Hbelow Hv _ Hz Hbits] Hu Hu1. unfold room in Hroom.
  rewrite <- Hv, (bval_split r i), (same_below_take i r0 r Hbelow) in Hroom by lia.
  rewrite (bval_drop_S r i u Hu), (bval_drop_S r (S i) 0), (bval_drop_S r (S (S i)) 0),
    (bval_drop_S r (S (S (S i))) 0) in Hroom by (apply Hz; lia).
  replace (S (S (S (S i)))) with (i + 4)%nat in Hroom by lia.
  set (t := bval (drop (i + 4) r)) in *.
  assert (E : 2 ^ 255 = 2 ^ Z.of_nat i * (16 * 2 ^ Z.of_nat (256 - (i + 5)))).
  { change 16 with (2 ^ 4). rewrite <- !Z.pow_add_r by lia. f_equal. lia. }
  replace (256 - (i + 4))%nat with (S (256 - (i + 5))) by lia.
  rewrite Nat2Z.inj_succ, Z.pow_succ_r by lia. rewrite E in Hroom.
  set (K := 2 ^ Z.of_nat (256 - (i + 5))) in *.
  pose proof (Z.pow_pos_nonneg 2 (Z.of_nat i) ltac:(lia) ltac:(lia)) as Hp.
  set (W := 2 ^ Z.of_nat i) in *. nia.
Qed.

Lemma win_sub i r0 r u :
  (i + 4 < 256)%nat -> length r0 = 256%nat -> room i r0 -> win i 4 1 15 r0 r ->
  r !! i = Some u -> r !! (i + 4)%nat = Some 1 ->
  returns (slide_carry (256 - (i + 4)) (i + 4) (<[i:=u - 16]> r)) (win i 5 (-15) 15 r0).
Proof.
  intros Hi Hl0 Hroom HW Hu H1. pose proof HW as [Hl Hbelow Hv (u' & Hu' & Hodd & Hr) Hz Hbits].
  assert (u' = u) as -> by congruence.
  pose proof (win_room i 1 15 r0 r u Hi Hl0 Hroom HW Hu ltac:(lia)) as Hov.
  eapply returns_mono; [apply slide_carry_ok|].
  - rewrite length_insert. lia.
  - apply bits_from_insert; [exact Hbits | left; lia].
  - rewrite drop_insert_lt by lia. exact Hov.
  - intros r' (H1' & H2 & H3 & H4 & H5). rewrite length_insert in H1'. split.
    + lia.
    + intros j Hj. rewrite H2 by lia. rewrite list_lookup_insert_ne by lia. apply Hbelow, Hj.
    + rewrite H4, (bval_insert r i u) by exact Hu. rewrite Nat2Z.inj_add, Z.pow_add_r by lia.
      change (2 ^ Z.of_nat 4) with 16. rewrite <- Hv. ring.
    + exists (u - 16). split; [rewrite H2 by lia; apply list_lookup_insert_eq; lia|].
      split; [rewrite Z.odd_sub, Hodd; reflexivity | lia].
    + intros k Hk Hk'. destruct (decide (k = i + 4)%nat) as [->|].
      * apply H5. rewrite list_lookup_insert_ne by lia. exact H1.
      * rewrite H2 by lia. rewrite list_lookup_insert_ne by lia. apply Hz; lia.
    + apply (bits_from_mono (i + 4)); [lia | exact H3].
Qed.

(** ** The loop on [b] *)

Lemma slide_window_cons i b bs r :
  slide_window i (b :: bs) r =
    if (i + b <? 256)%nat then
      x ← r !! (i + b)%nat;
      if x =? 0 then slide_window i bs r
      else
        ri ← r !! i;
        if ri + Z.shiftl x (Z.of_nat b) <=? 15 then
          slide_window i bs (<[(i + b)%nat:=0]> (<[i:=to_i8 (ri + Z.shiftl x (Z.of_nat b))]> r))
        else if -15 <=? ri - Z.shiftl x (Z.of_nat b) then
          r ← slide_carry (256 - (i + b)) (i + b) (<[i:=to_i8 (ri - Z.shiftl x (Z.of_nat b))]> r);
          slide_window i bs r
        else Some r
    else Some r.
Proof. reflexivity. Qed.

Lemma window_add_step i b bs r0 r :
  (1 <= b <= 3)%nat -> win i b 1 (2 ^ Z.of_nat b - 1) r0 r ->
  (forall r', win i (S b) 1 (2 ^ Z.of_nat (S b) - 1) r0 r' ->
     returns (slide_window i bs r') (win i 5 (-15) 15 r0)) ->
  returns (slide_window i (b :: bs) r) (win i 5 (-15) 15 r0).
Proof.
  intros Hb HW Hk. cbn [slide_window].
  assert (Hpow : 2 ^ Z.of_nat (S b) = 2 * 2 ^ Z.of_nat b) by (rewrite Nat2Z.inj_succ, Z.pow_succ_r; lia).
  assert (Hb8 : 2 <= 2 ^ Z.of_nat b <= 8) by (assert (b = 1 \/ b = 2 \/ b = 3)%nat as [-> | [-> | ->]] by lia; cbn; lia).
  destruct (Nat.ltb_spec (i + b) 256) as [Hi|Hi].
  2: { apply returns_Some. apply (win_end i b); [lia | lia|]. eapply win_weaken; [| |exact HW]; lia. }
  pose proof HW as [Hl _ _ (u & Hu & _ & Hr) _ Hbits].
  destruct (lookup_bit _ _ Hbits ltac:(lia)) as (x & Hx & Hbit). rewrite Hx. cbn [mbind option_bind].
  destruct (Z.eqb_spec x 0) as [->|Hn].
  - apply Hk. apply win_skip; [exact Hx|]. eapply win_weaken; [| |exact HW]; lia.
  - assert (x = 1) as -> by (destruct Hbit; [contradiction | assumption]).
    rewrite Hu. cbn [mbind option_bind]. rewrite Z.shiftl_1_l.
    destruct (Z.leb_spec (u + 2 ^ Z.of_nat b) 15); [|lia]. rewrite to_i8_small by lia.
    apply Hk. eapply win_weaken; [| |apply (win_add i b 1 (2 ^ Z.of_nat b - 1)); [lia | exact HW | exact Hu | exact Hx]]; lia.
Qed.

(** The two last rounds change nothing. *)
Lemma window_stop i bs r0 r :
  (bs = [5; 6]%nat \/ bs = [6%nat]) -> win i 5 (-15) 15 r0 r -> slide_window i bs r = Some r.
Proof.
  intros Hbs HW. pose proof HW as [Hl _ _ (u & Hu & _ & Hr) _ Hbits].
  assert (Hstep : forall b bs', (5 <= b <= 6)%nat -> slide_window i bs' r = Some r ->
            slide_window i (b :: bs') r = Some r).
  { intros b bs' Hb Hrec. cbn [slide_window]. destruct (Nat.ltb_spec (i + b) 256) as [Hi|Hi]; [|reflexivity].
    destruct (lookup_bit (i + b) r) as (x & Hx & Hbit); [apply (bits_from_mono (i + 5)); [lia | exact Hbits] | lia |].
    rewrite Hx. cbn [mbind option_bind]. destruct (Z.eqb_spec x 0) as [->|Hn]; [exact Hrec|].
    assert (x = 1) as -> by (destruct Hbit; [contradiction | assumption]).
    rewrite Hu. cbn [mbind option_bind]. rewrite Z.shiftl_1_l.
    assert (32 <= 2 ^ Z.of_nat b) by (change 32 with (2 ^ 5); apply Z.pow_le_mono_r; lia).
    destruct (Z.leb_spec (u + 2 ^ Z.of_nat b) 15); [lia|].
    destruct (Z.leb_spec (-15) (u - 2 ^ Z.of_nat b)); [lia | reflexivity]. }
  destruct Hbs as [-> | ->]; repeat (apply Hstep; [lia|]); reflexivity.
Qed.

Lemma window_last_step i r0 r :
  length r0 = 256%nat -> room i r0 -> win i 4 1 15 r0 r ->
  returns (slide_window i [4; 5; 6]%nat r) (win i 5 (-15) 15 r0).
Proof.
  intros Hl0 Hroom HW. rewrite slide_window_cons.
  destruct (Nat.ltb_spec (i + 4) 256) as [Hi|Hi].
  2: { apply returns_Some. apply (win_end i 4); [lia | lia|]. eapply win_weaken; [| |exact HW]; lia. }
  pose proof HW as [Hl _ _ (u & Hu & _ & Hr) _ Hbits].
  destruct (lookup_bit _ _ Hbits ltac:(lia)) as (x & Hx & Hbit). rewrite Hx. cbn [mbind option_bind].
  destruct (Z.eqb_spec x 0) as [->|Hn].
  - assert (HW5 : win i 5 (-15) 15 r0 r).
    { apply win_skip; [exact Hx|]. eapply win_weaken; [| |exact HW]; lia. }
    exists r. split; [apply (window_stop i _ r0); auto | exact HW5].
  - assert (x = 1) as -> by (destruct Hbit; [contradiction | assumption]).
    rewrite Hu. cbn [mbind option_bind]. change (Z.shiftl 1 (Z.of_nat 4)) with 16.
    destruct (Z.leb_spec (u + 16) 15); [lia|]. destruct (Z.leb_spec (-15) (u - 16)); [|lia].
    rewrite to_i8_small by lia.
    eapply returns_bind; [apply (win_sub i r0 r u); assumption|].
    intros r' HW'. exists r'. split; [apply (window_stop i _ r0); auto | exact HW'].
Qed.

Lemma slide_window_ok i r0 :
  (i < 256)%nat -> length r0 = 256%nat -> room i r0 -> bits_from i r0 -> r0 !! i = Some 1 ->
  returns (slide_window i (seq 1 6) r0) (win i 5 (-15) 15 r0).
Proof.
  intros Hi Hl Hroom Hbits H1. cbn [seq].
  assert (HW : win i 1 1 (2 ^ Z.of_nat 1 - 1) r0 r0).
  { split; [exact Hl | intros ? ?; reflexivity | reflexivity | | |].
    - exists 1. split; [exact H1|]. split; [reflexivity | cbn; lia].
    - intros k Hk. lia.
    - apply (bits_from_mono i); [lia | exact Hbits]. }
  apply window_add_step; [lia | exact HW | intros r1 HW1].
  apply window_add_step; [lia | exact HW1 | intros r2 HW2].
  apply window_add_step; [lia | exact HW2 | intros r3 HW3].
  apply window_last_step; [exact Hl | exact Hroom | exact HW3].
Qed.

(** ** The outer loop *)

(** A digit: zero, or odd of absolute value at most 15. *)
Definition slide_digit (d : Z) : Prop := d = 0 \/ (Z.odd d = true /\ -15 <= d <= 15).

#[export] Instance slide_digit_dec d : Decision (slide_digit d).
Proof. unfold slide_digit. apply _. Defined.

(** After index [i]: digits below, bits from [i] on, the first of them at [m]
    or later, and the digits not too far below 0. *)
Record slide_inv (a : Z) (i m : nat) (r : list Z) : Prop := SlideInv {
  si_len : length r = 256%nat;
  si_val : bval r = a;
  si_m : (i <= m)%nat;
  si_zeros : forall k, (i <= k < m)%nat -> (k < 256)%nat -> r !! k = Some 0;
  si_bits : bits_from i r;
  si_prefix : - 2 ^ Z.of_nat m < bval (take i r);
  si_digits : forall j d, (j < i)%nat -> r !! j = Some d -> slide_digit d;
}.

Lemma bval_take_S r i x : r !! i = Some x -> bval (take (S i) r) = bval (take i r) + 2 ^ Z.of_nat i * x.
Proof.
  intros Hx. pose proof (lookup_lt_Some _ _ _ Hx).
  pose proof (bval_split r i ltac:(lia)) as E1. pose proof (bval_split r (S i) ltac:(lia)) as E2.
  rewrite (bval_drop_S r i x Hx) in E1. rewrite Nat2Z.inj_succ, Z.pow_succ_r in E2 by lia. lia.
Qed.

Lemma slide_inv_zero a i m r :
  r !! i = Some 0 -> slide_inv a i m r -> slide_inv a (S i) (Nat.max m (S i)) r.
Proof.
  intros H0 [Hl Hv Hm Hz Hb Hp Hd]. split; [exact Hl | exact Hv | lia | | | | ].
  - intros k Hk Hk'. apply Hz; lia.
  - apply (bits_from_mono i); [lia | exact Hb].
  - rewrite (bval_take_S r i 0 H0), Z.mul_0_r, Z.add_0_r.
    assert (2 ^ Z.of_nat m <= 2 ^ Z.of_nat (Nat.max m (S i))) by (apply Z.pow_le_mono_r; lia). lia.
  - intros j d Hj Hx. destruct (decide (j = i)) as [->|]; [left; congruence | eapply Hd; [|exact Hx]; lia].
Qed.

Lemma slide_inv_window a i m r r' x :
  slide_inv a i m r -> r !! i = Some x -> x <> 0 -> win i 5 (-15) 15 r r' ->
  slide_inv a (S i) (i + 5) r'.
Proof.
  intros [Hl Hv Hm Hz Hb Hp Hd] Hx Hn [Hl' Hbelow Hv' (u & Hu & Hodd & Hr) Hz' Hb'].
  pose proof (lookup_lt_Some _ _ _ Hx) as Hi.
  assert (m = i) as ->.
  { destruct (decide (m = i)); [assumption|]. exfalso. apply Hn.
    specialize (Hz i ltac:(lia) ltac:(lia)). congruence. }
  split; [exact Hl' | congruence | lia | | | |].
  - intros k Hk Hk'. apply Hz'; lia.
  - intros j y Hj Hy. destruct (decide (j < i + 5)%nat).
    + left. pose proof (lookup_lt_Some _ _ _ Hy). rewrite Hz' in Hy by lia. congruence.
    + eapply Hb'; [|exact Hy]. lia.
  - rewrite (bval_take_S r' i u Hu), (same_below_take i r r' Hbelow) by lia.
    rewrite Nat2Z.inj_add, Z.pow_add_r by lia. change (2 ^ Z.of_nat 5) with 32. nia.
  - intros j d Hj Hy. destruct (decide (j = i)) as [->|].
    + right. assert (d = u) as -> by congruence. auto.
    + rewrite Hbelow in Hy by lia. eapply Hd; [|exact Hy]. lia.
Qed.

Lemma slide_loop_ok a n i m r :
  (i + n = 256)%nat -> a < 2 ^ 255 -> slide_inv a i m r ->
  returns (slide_loop (seq i n) r) (fun r' => exists m', slide_inv a 256 m' r').
Proof.
  revert i m r. induction n as [|n IH]; intros i m r Hi Ha HI; cbn [seq slide_loop].
  { apply returns_Some. exists m. replace 256%nat with i by lia. exact HI. }
  pose proof HI as [Hl Hv Hm Hz Hb Hp Hd].
  destruct (lookup_bit i r Hb ltac:(lia)) as (x & Hx & Hbit). rewrite Hx. cbn [mbind option_bind].
  destruct (Z.eqb_spec x 0) as [->|Hn].
  - cbn [mbind option_bind]. eapply IH; [lia | exact Ha | apply slide_inv_zero; eassumption].
  - assert (x = 1) as -> by (destruct Hbit; [contradiction | assumption]).
    assert (Hroom : room i r).
    { assert (m = i) as ->.
      { destruct (decide (m = i)); [assumption|].
        specialize (Hz i ltac:(lia) ltac:(lia)). congruence. }
      unfold room. lia. }
    eapply returns_bind; [apply slide_window_ok; [lia | exact Hl | exact Hroom | exact Hb | exact Hx]|].
    intros r' HW. eapply IH; [lia | exact Ha |]. eapply slide_inv_window; eassumption.
Qed.

(** The digits of a number below 2^255 add up to it. *)
Definition slide_digits (v : Z) (r : list Z) : Prop :=
  length r = 256%nat /\ bval r = v /\ Forall slide_digit r.

Lemma slide_ok a :
  bytes_of 32 a -> le_val a < 2 ^ 255 -> returns (slide a) (slide_digits (le_val a)).
Proof.
  intros Ha Hv. unfold slide. rewrite (slide_init_ok a Ha). cbn [mbind option_bind].
  assert (Hr : 0 <= le_val a < 2 ^ Z.of_nat (0 + 256)).
  { destruct Ha as [Hb Hl]. pose proof (le_val_range a Hb). rewrite Hl in *. exact H. }
  eapply returns_mono; [apply (slide_loop_ok (le_val a) 256 0 0); [reflexivity | exact Hv |]|].
  - split; [| | lia | lia | | cbn; lia | lia].
    + unfold bits. rewrite length_map. apply length_seq.
    + rewrite (bits_val _ 0 256 Hr). apply Z.div_1_r.
    + intros j x _ Hx. pose proof (bits_bits (le_val a) 0 256) as Hb.
      rewrite Forall_lookup in Hb. eapply Hb, Hx.
  - intros r (m & [Hl Hval _ _ _ _ Hd]). split; [exact Hl|]. split; [exact Hval|].
    apply Forall_lookup. intros j d Hj. eapply Hd; [|exact Hj].
    pose proof (lookup_lt_Some _ _ _ Hj). lia.
Qed.

(** ** Radix 16 *)

Fixpoint hval (e : list Z) : Z :=
  match e with [] => 0 | x :: e => x + 16 * hval e end.

Definition hex_digit (d : Z) : Prop := -8 <= d <= 8.

(** Digits of [v] between -8 and 8. *)
Definition hex_digits (v : Z) (e : list Z) : Prop := hval e = v /\ Forall hex_digit e.

Lemma shiftr4 x : Z.shiftr x 4 = x / 16.
Proof. rewrite Z.shiftr_div_pow2 by lia. reflexivity. Qed.

Lemma shiftl4 x : Z.shiftl x 4 = x * 16.
Proof. rewrite Z.shiftl_mul_pow2 by lia. reflexivity. Qed.

Lemma byte_nibbles x :
  is_byte x -> Z.land (Z.shiftr x 0) 15 = x mod 16 /\ Z.land (Z.shiftr x 4) 15 = x / 16.
Proof.
  intros Hx. change 15 with (Z.ones 4). rewrite !Z.land_ones, shiftr4 by lia. split; [reflexivity|].
  apply Z.mod_small. unfold is_byte in Hx. change (2 ^ 4) with 16.
  split; [apply Z.div_pos; lia | apply Z.div_lt_upper_bound; lia].
Qed.

Lemma nibbles_val a : is_bytes a -> hval (nibbles a) = le_val a.
Proof.
  unfold nibbles. induction 1 as [|x a Hx _ IH]; cbn [flat_map app hval le_val]; [reflexivity|].
  destruct (byte_nibbles x Hx) as [-> ->]. rewrite IH. pose proof (Z.div_mod x 16). lia.
Qed.

Lemma radix16_carry_ok e c y :
  Forall (fun x => 0 <= x <= 15) e -> 0 <= y <= 7 -> 0 <= c <= 1 ->
  hval (radix16_carry (e ++ [y]) c) = hval (e ++ [y]) + c /\
  Forall hex_digit (radix16_carry (e ++ [y]) c).
Proof.
  intros He Hy. revert c. induction He as [|x e Hx _ IH]; intros c Hc.
  - cbn [app radix16_carry hval]. rewrite to_i8_small by lia.
    split; [lia | constructor; [unfold hex_digit; lia | constructor]].
  - cbn [app]. set (t := e ++ [y]) in *.
    assert (E : radix16_carry (x :: t) c =
      to_i8 (to_i8 (x + c) - Z.shiftl (to_i8 (Z.shiftr (to_i8 (to_i8 (x + c) + 8)) 4)) 4)
      :: radix16_carry t (to_i8 (Z.shiftr (to_i8 (to_i8 (x + c) + 8)) 4))).
    { cbn [radix16_carry]. unfold t. destruct e; reflexivity. }
    rewrite E. rewrite (to_i8_small (x + c)), (to_i8_small (x + c + 8)), shiftr4, shiftl4 by lia.
    pose proof (Z.div_mod (x + c + 8) 16). pose proof (Z.mod_pos_bound (x + c + 8) 16).
    rewrite (to_i8_small ((x + c + 8) / 16)) by lia. rewrite to_i8_small by lia.
    destruct (IH ((x + c + 8) / 16)) as [IH1 IH2]; [lia|].
    cbn [hval]. rewrite IH1. split; [lia|]. constructor; [unfold hex_digit; lia | exact IH2].
Qed.

Lemma nibbles_app a b : nibbles (a ++ b) = nibbles a ++ nibbles b.
Proof. unfold nibbles. apply flat_map_app. Qed.

Lemma nibbles_range a : is_bytes a -> Forall (fun x => 0 <= x <= 15) (nibbles a).
Proof.
  unfold nibbles. induction 1 as [|x a Hx _ IH]; cbn [flat_map app]; [constructor|].
  destruct (byte_nibbles x Hx) as [-> ->]. unfold is_byte in Hx.
  pose proof (Z.div_mod x 16). pose proof (Z.mod_pos_bound x 16).
  constructor; [lia|]. constructor; [lia | exact IH].
Qed.

(** The last byte of a number below 2^255. *)
Lemma last_byte a :
  bytes_of 32 a -> le_val a < 2 ^ 255 ->
  exists b x, a = b ++ [x] /\ is_bytes b /\ length b = 31%nat /\ 0 <= x <= 127.
Proof.
  intros [Ha Hl] Hv. destruct (exists_last (l := a)) as (b & x & ->); [intros ->; discriminate|].
  rewrite length_app in Hl. cbn in Hl. apply Forall_app in Ha as [Hb Hx]. inversion_clear Hx.
  exists b, x. split; [reflexivity|]. split; [exact Hb|]. split; [lia|].
  assert (E : forall c, le_val (c ++ [x]) = le_val c + 2 ^ (8 * Z.of_nat (length c)) * x).
  { induction c as [|y c IH]; [cbn [app le_val length]; change (2 ^ (8 * Z.of_nat 0)) with 1; lia|].
    cbn [app le_val length]. rewrite IH, Nat2Z.inj_succ, Z.mul_succ_r, Z.pow_add_r by lia.
    change (2 ^ 8) with 256. ring. }
  rewrite E in Hv. replace (length b) with 31%nat in Hv by lia.
  pose proof (le_val_range b Hb) as Hr. unfold is_byte in *.
  change (2 ^ 255) with (2 ^ (8 * Z.of_nat 31) * 128) in Hv.
  change (2 ^ (8 * Z.of_nat 31)) with (2 ^ 248) in *. assert (0 < 2 ^ 248) by lia. nia.
Qed.

Lemma radix16_base_ok a :
  bytes_of 32 a -> le_val a < 2 ^ 255 ->
  hex_digits (le_val a) (radix16_base a) /\ length (radix16_base a) = 64%nat.
Proof.
  intros Ha Hv. destruct (last_byte a Ha Hv) as (b & x & -> & Hb & Hl & Hx).
  assert (Hxb : is_byte x) by (unfold is_byte; lia). destruct (byte_nibbles x Hxb) as [E0 E4].
  assert (En : nibbles (b ++ [x]) = (nibbles b ++ [x mod 16]) ++ [x / 16]).
  { rewrite nibbles_app, <- app_assoc. f_equal. unfold nibbles. cbn [flat_map app].
    rewrite E0, E4. reflexivity. }
  pose proof (Z.div_mod x 16). pose proof (Z.mod_pos_bound x 16).
  destruct (radix16_carry_ok (nibbles b ++ [x mod 16]) 0 (x / 16)) as [H1 H2].
  { apply Forall_app. split; [apply nibbles_range, Hb | constructor; [lia | constructor]]. }
  { lia. }
  { lia. }
  unfold radix16_base. split.
  - split; [|rewrite En; exact H2]. rewrite En, H1, <- En, Z.add_0_r. apply nibbles_val, Ha.
  - assert (Hlen : forall e c, length (radix16_carry e c) = length e).
    { induction e as [|y [|z e] IH]; intros c; [reflexivity | reflexivity |].
      cbn [radix16_carry length]. f_equal. apply IH. }
    rewrite Hlen. unfold nibbles. rewrite (flat_map_constant_length (c := 2)) by reflexivity.
    rewrite length_app, Hl. reflexivity.
Qed.

Lemma radix16_ok b c x :
  is_bytes b -> 0 <= x <= 127 -> 0 <= c <= 1 ->
  hex_digits (le_val (b ++ [x]) + c) (radix16 (b ++ [x]) c) /\
  length (radix16 (b ++ [x]) c) = (2 * S (length b))%nat.
Proof.
  intros Hb Hx. revert c. induction Hb as [|y b Hy _ IH]; intros c Hc.
  - cbn [app radix16 hval length]. rewrite shiftr4, shiftl4.
    pose proof (Z.div_mod (c + x + 8) 16). pose proof (Z.mod_pos_bound (c + x + 8) 16).
    rewrite !to_i8_small by lia. split; [|reflexivity]. split; [cbn [hval le_val]; lia|].
    repeat (constructor; [unfold hex_digit; lia|]). constructor.
  - cbn [app]. set (t := b ++ [x]) in *.
    assert (E : radix16 (y :: t) c =
      to_i8 (c + y - Z.shiftl (Z.shiftr (c + y + 8) 4) 4)
      :: to_i8 (Z.shiftr (c + y + 8) 4 - Z.shiftl (Z.shiftr (Z.shiftr (c + y + 8) 4 + 8) 4) 4)
      :: radix16 t (Z.shiftr (Z.shiftr (c + y + 8) 4 + 8) 4)).
    { cbn [radix16]. unfold t. destruct b; reflexivity. }
    rewrite E, !shiftr4, !shiftl4. unfold is_byte in Hy.
    pose proof (Z.div_mod (c + y + 8) 16). pose proof (Z.mod_pos_bound (c + y + 8) 16).
    set (q := (c + y + 8) / 16) in *.
    pose proof (Z.div_mod (q + 8) 16). pose proof (Z.mod_pos_bound (q + 8) 16).
    set (q' := (q + 8) / 16) in *. rewrite !to_i8_small by lia.
    destruct (IH q') as [[IH1 IH2] IH3]; [lia|].
    split; [split|].
    + cbn [hval le_val]. rewrite IH1. lia.
    + repeat (constructor; [unfold hex_digit; lia|]). exact IH2.
    + cbn [length]. rewrite IH3. lia.
Qed.

(** ** Selection by a digit *)

Lemma equal_ok b c : 0 <= b < 128 -> 0 <= c < 128 -> equal b c = if b =? c then 1 else 0.
Proof.
  intros Hb Hc. unfold equal, to_u8. rewrite (Z.mod_small b), (Z.mod_small c) by lia.
  destruct (Z.eqb_spec b c) as [->|Hn]; [rewrite Z.lxor_nilpotent; reflexivity|].
  assert (Hx : 0 <= Z.lxor b c < 128).
  { assert (Hs : Z.shiftr (Z.lxor b c) 7 = 0).
    { rewrite Z.shiftr_lxor, !Z.shiftr_div_pow2 by lia. change (2 ^ 7) with 128.
      rewrite !Z.div_small by lia. reflexivity. }
    rewrite Z.shiftr_div_pow2 in Hs by lia. change (2 ^ 7) with 128 in Hs.
    pose proof (Z.div_mod (Z.lxor b c) 128). pose proof (Z.mod_pos_bound (Z.lxor b c) 128). lia. }
  assert (Z.lxor b c <> 0) by (rewrite Z.lxor_eq_0_iff; exact Hn).
  unfold to_u32. rewrite (Z.mod_small (Z.lxor b c - 1)) by lia. rewrite Z.shiftr_div_pow2 by lia.
  rewrite Z.div_small by (change (2 ^ 31) with 2147483648; lia). reflexivity.
Qed.

Lemma negative_ok b : -128 <= b < 128 -> negative b = if b <? 0 then 1 else 0.
Proof.
  intros Hb. unfold negative, to_u64. destruct (Z.ltb_spec b 0).
  - rewrite <- (Z.mod_add b 1) by discriminate. rewrite Z.mod_small by lia.
    rewrite Z.shiftr_div_pow2 by lia. change (2 ^ 63) with 9223372036854775808.
    rewrite <- (Z.div_unique (b + 1 * 18446744073709551616) 9223372036854775808 1
      (b + 9223372036854775808)) by lia. reflexivity.
  - rewrite Z.mod_small, Z.shiftr_div_pow2, Z.div_small by (try change (2 ^ 63) with 9223372036854775808; lia).
    reflexivity.
Qed.

Lemma abs_digit_ok b : -128 <= b < 128 -> abs_digit b (negative b) = Z.abs b.
Proof.
  intros Hb. rewrite negative_ok by exact Hb. unfold abs_digit, to_u8.
  destruct (Z.ltb_spec b 0).
  - change (Z.land (- (1)) b) with (Z.land (-1) b). rewrite Z.land_m1_l, Z.shiftl_mul_pow2 by lia.
    change (2 ^ 1) with 2. rewrite Z.mod_small; lia.
  - change (- (0)) with 0. rewrite Z.land_0_l, Z.shiftl_0_l, Z.sub_0_r. rewrite Z.mod_small; lia.
Qed.
