(* ===== verification/ScalarMult.v ===== *)
(** * Scalar multiplication

    The fixed-window constant-time multiplications [ge_scalarmult],
    [ge_scalarmult_p3] and [ge_scalarmult_base] of crypto-ops.c, and the
    sliding-window ones: [ge_double_scalarmult_base_vartime],
    [ge_triple_scalarmult_base_vartime] and the [_precomp_] variants. *)

From S2P Require Import Prelude.
From S2P Require Import CInt.
From S2P Require Import Bytes.
From S2P Require Import Limbs.
From S2P Require Import Fe.
From S2P Require Import FeMul.
From S2P Require Import FeBytes.
From S2P Require Import FePow.
From S2P Require Import Prime25519.
From S2P Require Import Group.
From S2P Require Import Curve.
From S2P Require Import FeField.
From S2P Require Import Ge.
From S2P Require Import Recode.
From S2P Require Import GeData.
From Stdlib Require Import Zmod Ring.

(** ** Constant-time selection *)

(** The eight conditional moves from a table of multiples. *)
Fixpoint ge_cached_select (Ai : list ge_cached) (babs : Z) (js : list nat) (cur : ge_cached) :
    option ge_cached :=
  match js with
  | [] => Some cur
  | j :: js =>
      u ← Ai !! j;
      cur ← ge_cached_cmov cur u (equal (to_i8 babs) (Z.of_nat j + 1));
      ge_cached_select Ai babs js cur
  end.

(** The point [b * A] from the table of [A], ..., [8 * A]. *)
Definition ge_cached_digit (Ai : list ge_cached) (b : Z) : option ge_cached :=
  let bnegative := negative b in
  let babs := abs_digit b bnegative in
  cur ← ge_cached_select Ai babs (seq 0 8) ge_cached_0;
  a ← fe_copy (YminusX cur);
  m ← fe_copy (YplusX cur);
  z ← fe_copy (c_Z cur);
  x ← fe_neg (T2d cur);
  ge_cached_cmov cur (Cached a m z x) bnegative.

Fixpoint ge_precomp_select (row : list ge_precomp) (babs : Z) (js : list nat) (t : ge_precomp) :
    option ge_precomp :=
  match js with
  | [] => Some t
  | j :: js =>
      u ← row !! j;
      t ← ge_precomp_cmov t u (equal (to_i8 babs) (Z.of_nat j + 1));
      ge_precomp_select row babs js t
  end.

Definition select (pos : nat) (b : Z) : option ge_precomp :=
  let bnegative := negative b in
  let babs := abs_digit b bnegative in
  row ← ge_base !! pos;
  t ← ge_precomp_select row babs (seq 0 8) ge_precomp_0;
  a ← fe_copy (yminusx t);
  m ← fe_copy (yplusx t);
  x ← fe_neg (xy2d t);
  ge_precomp_cmov t (Precomp a m x) bnegative.

(** ** Fixed windows *)

(** The table [A, 2A, ..., 8A]: [n] entries after the one given. *)
Fixpoint ge_multiples (n : nat) (A : ge_p3) (r : ge_cached) : option (list ge_cached) :=
  match n with
  | O => Some [r]
  | S n =>
      t ← ge_add A r;
      u ← ge_p1p1_to_p3 t;
      c ← ge_p3_to_cached u;
      rest ← ge_multiples n A c;
      Some (r :: rest)
  end.

(** One round up to the last conversion: r becomes 16 r + e[i] A. *)
Definition ge_scalarmult_round (Ai : list ge_cached) (b : Z) (r : ge_p2) : option ge_p1p1 :=
  t ← ge_p2_dbl r;
  r ← ge_p1p1_to_p2 t;
  t ← ge_p2_dbl r;
  r ← ge_p1p1_to_p2 t;
  t ← ge_p2_dbl r;
  r ← ge_p1p1_to_p2 t;
  t ← ge_p2_dbl r;
  u ← ge_p1p1_to_p3 t;
  cur ← ge_cached_digit Ai b;
  ge_add u cur.

(** The rounds for [i] from [n - 1] down to 0. *)
Fixpoint ge_scalarmult_loop (Ai : list ge_cached) (e : list Z) (n : nat) (r : ge_p2) : option ge_p2 :=
  match n with
  | O => Some r
  | S i =>
      b ← e !! i;
      t ← ge_scalarmult_round Ai b r;
      r ← ge_p1p1_to_p2 t;
      ge_scalarmult_loop Ai e i r
  end.

Definition ge_scalarmult (a : list Z) (A : ge_p3) : option ge_p2 :=
  let e := radix16 a 0 in
  A0 ← ge_p3_to_cached A;
  Ai ← ge_multiples 7 A A0;
  ge_scalarmult_loop Ai e 64 ge_p2_0.

Fixpoint ge_scalarmult_loop_p3 (Ai : list ge_cached) (e : list Z) (n : nat) (r : ge_p2) (r3 : ge_p3) :
    option ge_p3 :=
  match n with
  | O => Some r3
  | S i =>
      b ← e !! i;
      t ← ge_scalarmult_round Ai b r;
      if (i =? 0)%nat then (r3 ← ge_p1p1_to_p3 t; ge_scalarmult_loop_p3 Ai e i r r3)
      else (r ← ge_p1p1_to_p2 t; ge_scalarmult_loop_p3 Ai e i r r3)
  end.

(** [r3] is the content of the output before the call. *)
Definition ge_scalarmult_p3 (r3 : ge_p3) (a : list Z) (A : ge_p3) : option ge_p3 :=
  let e := radix16 a 0 in
  A0 ← ge_p3_to_cached A;
  Ai ← ge_multiples 7 A A0;
  ge_scalarmult_loop_p3 Ai e 64 ge_p2_0 r3.

(** [for (i = ...; i < 64; i += 2) { select(&t, i / 2, e[i]); ge_madd ... }]. *)
Fixpoint ge_base_loop (e : list Z) (js : list nat) (h : ge_p3) : option ge_p3 :=
  match js with
  | [] => Some h
  | i :: js =>
      ei ← e !! i;
      t ← select (i / 2) ei;
      r ← ge_madd h t;
      h ← ge_p1p1_to_p3 r;
      ge_base_loop e js h
  end.

Definition ge_scalarmult_base (a : list Z) : option ge_p3 :=
  let e := radix16_base a in
  h ← ge_base_loop e (map (fun k => 2 * k + 1)%nat (seq 0 32)) ge_p3_0;
  r ← ge_p3_dbl h;
  s ← ge_p1p1_to_p2 r;
  r ← ge_p2_dbl s;
  s ← ge_p1p1_to_p2 r;
  r ← ge_p2_dbl s;
  s ← ge_p1p1_to_p2 r;
  r ← ge_p2_dbl s;
  h ← ge_p1p1_to_p3 r;
  ge_base_loop e (map (fun k => 2 * k)%nat (seq 0 32)) h.

(** ** Sliding windows *)

(** Add [d * A] for a digit [d], from the odd multiples of [A]. *)
Definition ge_add_digit (Ai : list ge_cached) (d : Z) (t : ge_p1p1) : option ge_p1p1 :=
  if 0 <? d then
    u ← ge_p1p1_to_p3 t; c ← Ai !! Z.to_nat (Z.quot d 2); ge_add u c
  else if d <? 0 then
    u ← ge_p1p1_to_p3 t; c ← Ai !! Z.to_nat (Z.quot (- d) 2); ge_sub u c
  else Some t.

Definition ge_madd_digit (d : Z) (t : ge_p1p1) : option ge_p1p1 :=
  if 0 <? d then
    u ← ge_p1p1_to_p3 t; c ← ge_Bi !! Z.to_nat (Z.quot d 2); ge_madd u c
  else if d <? 0 then
    u ← ge_p1p1_to_p3 t; c ← ge_Bi !! Z.to_nat (Z.quot (- d) 2); ge_msub u c
  else Some t.

(** [for (i = 255; i >= 0; --i) if (aslide[i] || ...) break;]: one more than
    the final [i], searching below [n]. *)
Fixpoint slide_top (slides : list (list Z)) (n : nat) : nat :=
  match n with
  | O => O
  | S i => if existsb (fun r => negb (nth i r 0 =? 0)) slides then n else slide_top slides i
  end.

(** The loop shared by the functions; [digits i] does the additions of round [i]. *)
Fixpoint vartime_loop (digits : nat -> ge_p1p1 -> option ge_p1p1) (n : nat) (r : ge_p2) : option ge_p2 :=
  match n with
  | O => Some r
  | S i =>
      t ← ge_p2_dbl r;
      t ← digits i t;
      r ← ge_p1p1_to_p2 t;
      vartime_loop digits i r
  end.

(** Its variant with an extended result, written in the last round only. *)
Fixpoint vartime_loop_p3 (digits : nat -> ge_p1p1 -> option ge_p1p1) (n : nat) (r : ge_p2) (r3 : ge_p3) :
    option ge_p3 :=
  match n with
  | O => Some r3
  | S i =>
      t ← ge_p2_dbl r;
      t ← digits i t;
      if (i =? 0)%nat then (r3 ← ge_p1p1_to_p3 t; vartime_loop_p3 digits i r r3)
      else (r ← ge_p1p1_to_p2 t; vartime_loop_p3 digits i r r3)
  end.

Definition ge_double_scalarmult_base_vartime (a : list Z) (A : ge_p3) (b : list Z) : option ge_p2 :=
  aslide ← slide a;
  bslide ← slide b;
  Ai ← ge_dsm_precomp A;
  vartime_loop
    (fun i t => d ← aslide !! i; t ← ge_add_digit Ai d t; d ← bslide !! i; ge_madd_digit d t)
    (slide_top [aslide; bslide] 256) ge_p2_0.

Definition ge_triple_scalarmult_base_vartime (a b : list Z) (Bi : list ge_cached) (c : list Z)
    (Ci : list ge_cached) : option ge_p2 :=
  aslide ← slide a;
  bslide ← slide b;
  cslide ← slide c;
  vartime_loop
    (fun i t => d ← aslide !! i; t ← ge_madd_digit d t; d ← bslide !! i; t ← ge_add_digit Bi d t;
                d ← cslide !! i; ge_add_digit Ci d t)
    (slide_top [aslide; bslide; cslide] 256) ge_p2_0.

Definition ge_double_scalarmult_base_vartime_p3 (r3 : ge_p3) (a : list Z) (A : ge_p3) (b : list Z) :
    option ge_p3 :=
  aslide ← slide a;
  bslide ← slide b;
  Ai ← ge_dsm_precomp A;
  vartime_loop_p3
    (fun i t => d ← aslide !! i; t ← ge_add_digit Ai d t; d ← bslide !! i; ge_madd_digit d t)
    (slide_top [aslide; bslide] 256) ge_p2_0 r3.

Definition ge_double_scalarmult_precomp_vartime2 (a : list Z) (Ai : list ge_cached) (b : list Z)
    (Bi : list ge_cached) : option ge_p2 :=
  aslide ← slide a;
  bslide ← slide b;
  vartime_loop
    (fun i t => d ← aslide !! i; t ← ge_add_digit Ai d t; d ← bslide !! i; ge_add_digit Bi d t)
    (slide_top [aslide; bslide] 256) ge_p2_0.

Definition ge_triple_scalarmult_precomp_vartime (a : list Z) (Ai : list ge_cached) (b : list Z)
    (Bi : list ge_cached) (c : list Z) (Ci : list ge_cached) : option ge_p2 :=
  aslide ← slide a;
  bslide ← slide b;
  cslide ← slide c;
  vartime_loop
    (fun i t => d ← aslide !! i; t ← ge_add_digit Ai d t; d ← bslide !! i; t ← ge_add_digit Bi d t;
                d ← cslide !! i; ge_add_digit Ci d t)
    (slide_top [aslide; bslide; cslide] 256) ge_p2_0.

Definition ge_double_scalarmult_precomp_vartime2_p3 (r3 : ge_p3) (a : list Z) (Ai : list ge_cached)
    (b : list Z) (Bi : list ge_cached) : option ge_p3 :=
  aslide ← slide a;
  bslide ← slide b;
  vartime_loop_p3
    (fun i t => d ← aslide !! i; t ← ge_add_digit Ai d t; d ← bslide !! i; ge_add_digit Bi d t)
    (slide_top [aslide; bslide] 256) ge_p2_0 r3.

Definition ge_double_scalarmult_precomp_vartime (a : list Z) (A : ge_p3) (b : list Z)
    (Bi : list ge_cached) : option ge_p2 :=
  Ai ← ge_dsm_precomp A;
  ge_double_scalarmult_precomp_vartime2 a Ai b Bi.
