(* ===== verification/ScalarMultOk.v ===== *)
(** * Correctness of the scalar multiplications

    Each function of ScalarMult.v computes its integer combination of points in
    the group of the curve, for the recoded values of its scalars. *)

From S2P Require Import Prelude.
From S2P Require Import CInt.
From S2P Require Import Bytes.
From S2P Require Import Limbs.
From S2P Require Import Fe.
From S2P Require Import FeMul.
From S2P Require Import FeBytes.
From S2P Require Import FePow.
From S2P Require Import Prime25519.
From S2P Require Import Group.
From S2P Require Import Curve.
From S2P Require Import FeField.
From S2P Require Import Ge.
From S2P Require Import Recode.
From S2P Require Import GeData.
From S2P Require Import ScalarMult.
From Stdlib Require Import Zmod Ring.

(** ** Conditional moves *)

Definition cached_in (g : ge_cached) : Prop :=
  fe_within 202 (YplusX g) /\ fe_within 202 (YminusX g) /\ fe_within 202 (c_Z g) /\
  fe_within 202 (T2d g).

Definition precomp_in (g : ge_precomp) : Prop :=
  fe_within 202 (yplusx g) /\ fe_within 202 (yminusx g) /\ fe_within 202 (xy2d g).

Lemma cached_rep_in P g : cached_rep P g -> cached_in g.
Proof.
  intros (z & _ & [H1 _] & [H2 _] & [H3 _] & [H4 _]). split; [exact H1|]. split; [exact H2|].
  split; eapply fe_within_mono; [|exact H3 | |exact H4]; lia.
Qed.

Lemma precomp_rep_in P g : precomp_rep P g -> precomp_in g.
Proof.
  intros ([H1 _] & [H2 _] & [H3 _]).
  split; [|split]; eapply fe_within_mono; [|exact H1 | |exact H2 | |exact H3]; lia.
Qed.

Lemma cmov_202 f g b :
  fe_within 202 f -> fe_within 202 g -> b = 0 \/ b = 1 -> fe_cmov f g b = Some (if b =? 1 then g else f).
Proof. intros Hf Hg Hb. apply (fe_cmov_ok 202 202); auto; lia. Qed.

Lemma ge_cached_cmov_ok t u b :
  cached_in t -> cached_in u -> b = 0 \/ b = 1 -> ge_cached_cmov t u b = Some (if b =? 1 then u else t).
Proof.
  intros (T1 & T2 & T3 & T4) (U1 & U2 & U3 & U4) Hb. unfold ge_cached_cmov.
  rewrite !cmov_202 by assumption. cbn [mbind option_bind].
  destruct (b =? 1); [destruct u | destruct t]; reflexivity.
Qed.

Lemma ge_precomp_cmov_ok t u b :
  precomp_in t -> precomp_in u -> b = 0 \/ b = 1 -> ge_precomp_cmov t u b = Some (if b =? 1 then u else t).
Proof.
  intros (T1 & T2 & T3) (U1 & U2 & U3) Hb. unfold ge_precomp_cmov.
  rewrite !cmov_202 by assumption. cbn [mbind option_bind].
  destruct (b =? 1); [destruct u | destruct t]; reflexivity.
Qed.

Lemma ge_cached_0_ok : cached_rep gzero ge_cached_0.
Proof.
  exists 1%F. split; [exact F_one_nz|]. rewrite px_0, py_0. cbn [YplusX YminusX c_Z T2d ge_cached_0].
  pose proof fv_0. pose proof fv_1. split; [|split; [|split]]; fv_done.
Qed.

Lemma ge_precomp_0_ok : precomp_rep gzero ge_precomp_0.
Proof.
  unfold precomp_rep. rewrite px_0, py_0. cbn [yplusx yminusx xy2d ge_precomp_0].
  pose proof fv_0. pose proof fv_1. split; [|split]; fv_done.
Qed.

(** ** Selection *)

(** [multiples n P Ai]: the entries P, 2P, ..., nP. *)
Definition multiples (n : nat) (P : point) (Ai : list ge_cached) : Prop :=
  forall j, (j < n)%nat -> exists c, Ai !! j = Some c /\ cached_rep (gmul (Z.of_nat j + 1) P) c.

Definition precomp_multiples (n : nat) (P : point) (row : list ge_precomp) : Prop :=
  forall j, (j < n)%nat -> exists c, row !! j = Some c /\ precomp_rep (gmul (Z.of_nat j + 1) P) c.

(** The multiple selected after [j] of the conditional moves. *)
Definition selected (m : Z) (j : nat) : Z := if m <=? Z.of_nat j then m else 0.

Lemma selected_S m j :
  0 <= m -> selected m (S j) = if m =? Z.of_nat j + 1 then Z.of_nat j + 1 else selected m j.
Proof.
  intros Hm. unfold selected. destruct (Z.leb_spec m (Z.of_nat (S j))), (Z.eqb_spec m (Z.of_nat j + 1)),
    (Z.leb_spec m (Z.of_nat j)); lia.
Qed.

Lemma ge_cached_select_ok P Ai m n j cur :
  multiples 8 P Ai -> 0 <= m <= 8 -> (j + n = 8)%nat -> cached_rep (gmul (selected m j) P) cur ->
  returns (ge_cached_select Ai m (seq j n) cur) (cached_rep (gmul m P)).
Proof.
  intros HT Hm. revert j cur. induction n as [|n IH]; intros j cur Hj Hcur; cbn [seq ge_cached_select].
  - apply returns_Some. unfold selected in Hcur. destruct (Z.leb_spec m (Z.of_nat j)); [exact Hcur | lia].
  - destruct (HT j ltac:(lia)) as (u & -> & Hu). cbn [mbind option_bind].
    rewrite to_i8_small, equal_ok by lia.
    rewrite (ge_cached_cmov_ok cur u) by (eauto using cached_rep_in; destruct (m =? _); auto).
    cbn [mbind option_bind]. apply IH; [lia|]. rewrite selected_S by lia.
    destruct (m =? Z.of_nat j + 1); assumption.
Qed.

Lemma ge_precomp_select_ok P row m n j cur :
  precomp_multiples 8 P row -> 0 <= m <= 8 -> (j + n = 8)%nat ->
  precomp_rep (gmul (selected m j) P) cur ->
  returns (ge_precomp_select row m (seq j n) cur) (precomp_rep (gmul m P)).
Proof.
  intros HT Hm. revert j cur. induction n as [|n IH]; intros j cur Hj Hcur; cbn [seq ge_precomp_select].
  - apply returns_Some. unfold selected in Hcur. destruct (Z.leb_spec m (Z.of_nat j)); [exact Hcur | lia].
  - destruct (HT j ltac:(lia)) as (u & -> & Hu). cbn [mbind option_bind].
    rewrite to_i8_small, equal_ok by lia.
    rewrite (ge_precomp_cmov_ok cur u) by (eauto using precomp_rep_in; destruct (m =? _); auto).
    cbn [mbind option_bind]. apply IH; [lia|]. rewrite selected_S by lia.
    destruct (m =? Z.of_nat j + 1); assumption.
Qed.

(** Negation: swap the sums, negate the product. *)
Lemma cached_neg P g :
  cached_rep P g ->
  returns (a ← fe_copy (YminusX g); m ← fe_copy (YplusX g); z ← fe_copy (c_Z g);
           x ← fe_neg (T2d g); Some (Cached a m z x)) (cached_rep (- P)%G).
Proof.
  intros (z & Hz & HP & HM & HZ & HD). fe_steps. exists z. split; [exact Hz|].
  rewrite px_opp, py_opp. cbn [YplusX YminusX c_Z T2d]. split; [|split; [|split]]; fv_done.
Qed.

Lemma precomp_neg P g :
  precomp_rep P g ->
  returns (a ← fe_copy (yminusx g); m ← fe_copy (yplusx g); x ← fe_neg (xy2d g);
           Some (Precomp a m x)) (precomp_rep (- P)%G).
Proof.
  intros (HP & HM & HD). fe_steps. unfold precomp_rep.
  rewrite px_opp, py_opp. cbn [yplusx yminusx xy2d]. split; [|split]; fv_done.
Qed.

Lemma gmul_abs (b : Z) (P : point) : gmul b P = if b <? 0 then (- gmul (Z.abs b) P)%G else gmul (Z.abs b) P.
Proof.
  destruct (Z.ltb_spec b 0).
  - rewrite <- gmul_opp_l. f_equal. lia.
  - f_equal. lia.
Qed.

Lemma ge_cached_digit_ok P Ai b :
  multiples 8 P Ai -> hex_digit b -> returns (ge_cached_digit Ai b) (cached_rep (gmul b P)).
Proof.
  intros HT Hb. unfold hex_digit in Hb. unfold ge_cached_digit.
  rewrite abs_digit_ok, negative_ok by lia.
  eapply returns_bind.
  { apply (ge_cached_select_ok P Ai (Z.abs b) 8 0); [exact HT | lia | reflexivity|].
    unfold selected. destruct (Z.leb_spec (Z.abs b) (Z.of_nat 0)); [|exact ge_cached_0_ok].
    replace (Z.abs b) with 0 by lia. exact ge_cached_0_ok. }
  intros cur Hcur. destruct (cached_neg _ _ Hcur) as (minus & E & Hminus).
  do 4 (apply bind_inv in E as (? & -> & E); cbn [mbind option_bind]). injection E as ->.
  rewrite (ge_cached_cmov_ok cur minus) by (eauto using cached_rep_in; destruct (b <? 0); auto).
  apply returns_Some. rewrite gmul_abs. destruct (b <? 0); assumption.
Qed.

(** ** The table of multiples *)

Lemma ge_multiples_ok n P A k r :
  p3_rep P A -> cached_rep (gmul k P) r ->
  returns (ge_multiples n A r) (fun Ai => forall j, (j <= n)%nat ->
    exists c, Ai !! j = Some c /\ cached_rep (gmul (k + Z.of_nat j) P) c).
Proof.
  intros HA. revert k r. induction n as [|n IH]; intros k r Hr; cbn [ge_multiples].
  - apply returns_Some. intros j Hj. assert (j = 0%nat) as -> by lia. exists r. rewrite Z.add_0_r. auto.
  - eapply returns_bind; [apply ge_add_ok; eassumption | intros t Ht].
    eapply returns_bind; [apply ge_p1p1_to_p3_ok, Ht | intros u Hu].
    eapply returns_bind; [apply ge_p3_to_cached_ok, Hu | intros c Hc].
    rewrite <- gmul_succ in Hc.
    eapply returns_bind; [apply (IH (k + 1)), Hc | intros rest Hrest].
    apply returns_Some. intros [|j] Hj.
    + exists r. rewrite Z.add_0_r. auto.
    + destruct (Hrest j ltac:(lia)) as (c' & Hc' & Hrep). exists c'. split; [exact Hc'|].
      replace (k + Z.of_nat (S j)) with (k + 1 + Z.of_nat j) by lia. exact Hrep.
Qed.

Lemma ge_table_ok P A :
  p3_rep P A -> returns (r ← ge_p3_to_cached A; ge_multiples 7 A r) (multiples 8 P).
Proof.
  intros HA. eapply returns_bind; [apply ge_p3_to_cached_ok, HA | intros r Hr].
  eapply returns_mono; [apply (ge_multiples_ok 7 P A 1 r HA); rewrite gmul_1; exact Hr|].
  intros Ai H j Hj. rewrite Z.add_comm. apply H. lia.
Qed.

(** ** Fixed windows *)

Lemma ge_scalarmult_round_ok P Q Ai b r :
  multiples 8 P Ai -> hex_digit b -> p2_rep Q r ->
  returns (ge_scalarmult_round Ai b r) (p1p1_rep (gmul 16 Q + gmul b P)%G).
Proof.
  intros HT Hb Hr. unfold ge_scalarmult_round.
  eapply returns_bind; [apply ge_p2_dbl_ok, Hr | intros t1 H1].
  eapply returns_bind; [apply ge_p1p1_to_p2_ok, H1 | intros r1 H1'].
  eapply returns_bind; [apply ge_p2_dbl_ok, H1' | intros t2 H2].
  eapply returns_bind; [apply ge_p1p1_to_p2_ok, H2 | intros r2 H2'].
  eapply returns_bind; [apply ge_p2_dbl_ok, H2' | intros t3 H3].
  eapply returns_bind; [apply ge_p1p1_to_p2_ok, H3 | intros r3 H3'].
  eapply returns_bind; [apply ge_p2_dbl_ok, H3' | intros t4 H4].
  eapply returns_bind; [apply ge_p1p1_to_p3_ok, H4 | intros u Hu].
  eapply returns_bind; [apply (ge_cached_digit_ok P); assumption | intros cur Hcur].
  rewrite <- !gmul_2, <- !gmul_mul in Hu. apply ge_add_ok; [exact Hu | exact Hcur].
Qed.

Lemma hval_split e i b :
  e !! i = Some b -> hval (drop i e) = b + 16 * hval (drop (S i) e).
Proof. intros H. rewrite (drop_S e b i H). reflexivity. Qed.

Lemma gmul_step (a b : Z) (P : point) : (gmul 16 (gmul a P) + gmul b P)%G = gmul (b + 16 * a) P.
Proof. rewrite <- gmul_mul, <- gmul_add. f_equal. lia. Qed.

Lemma ge_scalarmult_loop_ok P Ai e n r :
  multiples 8 P Ai -> Forall hex_digit e -> (n <= length e)%nat ->
  p2_rep (gmul (hval (drop n e)) P) r ->
  returns (ge_scalarmult_loop Ai e n r) (p2_rep (gmul (hval e) P)).
Proof.
  intros HT He. revert r. induction n as [|n IH]; intros r Hn Hr; cbn [ge_scalarmult_loop].
  - apply returns_Some. exact Hr.
  - destruct (lookup_lt_is_Some_2 e n) as [b Hb]; [lia|]. rewrite Hb. cbn [mbind option_bind].
    eapply returns_bind.
    { eapply (ge_scalarmult_round_ok P); [exact HT | | exact Hr]. eapply Forall_lookup_1; eassumption. }
    intros t Ht. rewrite gmul_step, <- (hval_split e n b Hb) in Ht.
    eapply returns_bind; [apply ge_p1p1_to_p2_ok, Ht | intros r' Hr']. apply IH; [lia | exact Hr'].
Qed.

Lemma ge_scalarmult_loop_p3_ok P Ai e n r r3 :
  multiples 8 P Ai -> Forall hex_digit e -> (n <= length e)%nat ->
  p2_rep (gmul (hval (drop n e)) P) r -> (n = 0%nat -> p3_rep (gmul (hval e) P) r3) ->
  returns (ge_scalarmult_loop_p3 Ai e n r r3) (p3_rep (gmul (hval e) P)).
Proof.
  intros HT He. revert r r3. induction n as [|n IH]; intros r r3 Hn Hr H0; cbn [ge_scalarmult_loop_p3].
  - apply returns_Some, H0. reflexivity.
  - destruct (lookup_lt_is_Some_2 e n) as [b Hb]; [lia|]. rewrite Hb. cbn [mbind option_bind].
    eapply returns_bind.
    { eapply (ge_scalarmult_round_ok P); [exact HT | | exact Hr]. eapply Forall_lookup_1; eassumption. }
    intros t Ht. rewrite gmul_step, <- (hval_split e n b Hb) in Ht.
    destruct (Nat.eqb_spec n 0) as [->|Hn0].
    + eapply returns_bind; [apply ge_p1p1_to_p3_ok, Ht | intros r' Hr']. apply returns_Some, Hr'.
    + eapply returns_bind; [apply ge_p1p1_to_p2_ok, Ht | intros r' Hr'].
      apply IH; [lia | exact Hr' | lia].
Qed.

(** The scalars of the fixed windows: 32 bytes, the last at most 127. *)
Lemma radix16_scalar a :
  bytes_of 32 a -> le_val a < 2 ^ 255 ->
  hval (radix16 a 0) = le_val a /\ Forall hex_digit (radix16 a 0) /\ length (radix16 a 0) = 64%nat.
Proof.
  intros Ha Hv. destruct (last_byte a Ha Hv) as (b & x & -> & Hb & Hl & Hx).
  destruct (radix16_ok b 0 x Hb Hx ltac:(lia)) as [[H1 H2] H3].
  rewrite Z.add_0_r in H1. rewrite Hl in H3. auto.
Qed.

Lemma ge_scalarmult_ok a P A :
  bytes_of 32 a -> le_val a < 2 ^ 255 -> p3_rep P A ->
  returns (ge_scalarmult a A) (p2_rep (gmul (le_val a) P)).
Proof.
  intros Ha Hv HA. destruct (radix16_scalar a Ha Hv) as (E & He & Hl).
  destruct (ge_table_ok P A HA) as (Ai & Et & HT). apply bind_inv in Et as (A0 & E0 & Et).
  unfold ge_scalarmult. rewrite E0. cbn [mbind option_bind]. rewrite Et. cbn [mbind option_bind].
  rewrite <- E. apply ge_scalarmult_loop_ok; [exact HT | exact He | rewrite Hl; lia |].
  rewrite drop_ge by lia. exact ge_p2_0_ok.
Qed.

Lemma ge_scalarmult_p3_ok r3 a P A :
  bytes_of 32 a -> le_val a < 2 ^ 255 -> p3_rep P A ->
  returns (ge_scalarmult_p3 r3 a A) (p3_rep (gmul (le_val a) P)).
Proof.
  intros Ha Hv HA. destruct (radix16_scalar a Ha Hv) as (E & He & Hl).
  destruct (ge_table_ok P A HA) as (Ai & Et & HT). apply bind_inv in Et as (A0 & E0 & Et).
  unfold ge_scalarmult_p3. rewrite E0. cbn [mbind option_bind]. rewrite Et. cbn [mbind option_bind].
  rewrite <- E. apply ge_scalarmult_loop_p3_ok; [exact HT | exact He | rewrite Hl; lia | | discriminate].
  rewrite drop_ge by lia. exact ge_p2_0_ok.
Qed.
