(* ===== verification/Tables.v ===== *)
(** * The base point and its tables

    The base point B = (x, 4/5) with x even, and the correctness of the tables
    of crypto-ops-data.c, checked by running the verified group operations
    over them. *)

From S2P Require Import Prelude.
From S2P Require Import CInt.
From S2P Require Import Bytes.
From S2P Require Import Limbs.
From S2P Require Import Fe.
From S2P Require Import FeMul.
From S2P Require Import FeBytes.
From S2P Require Import FePow.
From S2P Require Import Prime25519.
From S2P Require Import Group.
From S2P Require Import Curve.
From S2P Require Import FeField.
From S2P Require Import Ge.
From S2P Require Import Recode.
From S2P Require Import GeData.
From S2P Require Import ScalarMult.
From S2P Require Import ScalarMultOk.
From Stdlib Require Import Zmod Ring.

(** ** The base point *)

Definition base_x : Z :=
  15112221349535400772501151409588531511454012693041857206046113283949847762202.
Definition base_y : Z :=
  46316835694926478169428394003475163141307993866256225615783033603165251855960.

Lemma base_on_curve : on_curve (ofZ base_x, ofZ base_y).
Proof. apply (bool_decide_eq_true_1 (on_curve _)). eval_closed. Qed.

Definition base_point : point := dexist (ofZ base_x, ofZ base_y) base_on_curve.

(** Its y is 4/5 and its x is the even root. *)
Lemma base_point_coords : 5 * base_y ≡[p] 4 /\ base_x mod 2 = 0 /\ 0 <= base_x < p /\ 0 <= base_y < p.
Proof. split; [eval_closed|]. split; [reflexivity|]. split; split; vm_compute; congruence. Qed.

(** B in extended coordinates. *)
Definition base_p3 : ge_p3 :=
  P3 [-14297830; -7645148; 16144683; -16471763; 27570974; -2696100; -26142465; 8378389; 20764389; 8758491]
     [-26843541; -6710886; 13421773; -13421773; 26843546; 6710886; -13421773; 13421773; -26843546; -6710886]
     fe_1
     [28827062; -6116119; -27349572; 244363; 8635006; 11264893; 19351346; 13413597; 16611511; -6414980].

Lemma fv_check c f v : bool_decide (fe_within c f) && (fe_val f mod p =? v mod p) = true -> fv c (ofZ v) f.
Proof.
  rewrite andb_true_iff, bool_decide_eq_true, Z.eqb_eq. intros [Hw Hv].
  split; [exact Hw | apply ofZ_eq, Hv].
Qed.

Lemma base_p3_ok : p3_rep base_point base_p3.
Proof.
  exists 1%F. split; [exact F_one_nz|]. cbn [p3_X p3_Y p3_Z p3_T base_p3].
  change (px base_point) with (ofZ base_x). change (py base_point) with (ofZ base_y).
  pose proof fv_1. split; [|split; [|split]].
  - eapply fv_eq; [apply (fv_check 101 _ base_x); eval_closed | ring].
  - eapply fv_eq; [apply (fv_check 101 _ base_y); eval_closed | ring].
  - fv_done.
  - eapply fv_eq; [apply (fv_check 101 _ (base_x * base_y)); eval_closed|].
    rewrite Zmod.of_Z_mul. ring.
Qed.

(** ** Checking a table *)

Definition zeq (a b : Z) : bool := a mod p =? b mod p.

(** [g] is the precomputed form of the point of [h]. *)
Definition entry_check (h : ge_p3) (g : ge_precomp) : bool :=
  bool_decide (fe_within 101 (yplusx g)) && bool_decide (fe_within 101 (yminusx g)) &&
  bool_decide (fe_within 101 (xy2d g)) &&
  zeq (fe_val (yplusx g) * fe_val (p3_Z h)) (fe_val (p3_Y h) + fe_val (p3_X h)) &&
  zeq (fe_val (yminusx g) * fe_val (p3_Z h)) (fe_val (p3_Y h) - fe_val (p3_X h)) &&
  zeq (fe_val (xy2d g) * fe_val (p3_Z h)) (2 * d_val * fe_val (p3_T h)).

(** The row h, h + c, h + 2c, ...; the last point is returned. *)
Fixpoint row_check (c : ge_cached) (h : ge_p3) (g : ge_precomp) (row : list ge_precomp) : option ge_p3 :=
  if entry_check h g then
    match row with
    | [] => Some h
    | g' :: row => t ← ge_add h c; h ← ge_p1p1_to_p3 t; row_check c h g' row
    end
  else None.

(** Doubling five times: from 8 Q to 256 Q. *)
Definition times32 (h : ge_p3) : option ge_p3 :=
  r ← ge_p3_dbl h; h ← ge_p1p1_to_p3 r; r ← ge_p3_dbl h; h ← ge_p1p1_to_p3 r;
  r ← ge_p3_dbl h; h ← ge_p1p1_to_p3 r; r ← ge_p3_dbl h; h ← ge_p1p1_to_p3 r;
  r ← ge_p3_dbl h; ge_p1p1_to_p3 r.

Fixpoint table_check (h : ge_p3) (rows : list (list ge_precomp)) : bool :=
  match rows with
  | [] => true
  | (g :: row) :: rows =>
      match (c ← ge_p3_to_cached h; h8 ← row_check c h g row; times32 h8) with
      | Some h' => (length row =? 7)%nat && table_check h' rows
      | None => false
      end
  | _ => false
  end.

Lemma F_cancel (a b z : F) : z <> 0%F -> (a * z = b * z)%F -> a = b.
Proof.
  intros Hz E. apply (sub_0 F_field).
  destruct (integral F_field (a - b)%F z) as [H|H]; [|exact H | contradiction].
  transitivity (a * z - b * z)%F; [ring|]. rewrite E. ring.
Qed.

Lemma entry_check_ok P h g : p3_rep P h -> entry_check h g = true -> precomp_rep P g.
Proof.
  intros (z & Hz & [_ HX] & [_ HY] & [_ HZ] & [_ HT]). unfold entry_check.
  rewrite !andb_true_iff, !bool_decide_eq_true. intros [[[[[W1 W2] W3] E1] E2] E3].
  apply Z.eqb_eq, ofZ_eq in E1, E2, E3. unfold fF in *.
  rewrite Zmod.of_Z_mul, Zmod.of_Z_add, HX, HY, HZ in E1.
  rewrite Zmod.of_Z_mul, Zmod.of_Z_sub, HX, HY, HZ in E2.
  rewrite !Zmod.of_Z_mul, HT, HZ in E3. fold curve_d in E3.
  assert (E2' : ofZ 2 = (1 + 1)%F) by (apply Zmod.to_Z_inj; eval_closed). rewrite E2' in E3.
  split; [split; [exact W1|] | split; [split; [exact W2|] | split; [exact W3|]]];
    apply (F_cancel _ _ z Hz); unfold fF.
  - rewrite E1. ring.
  - rewrite E2. ring.
  - rewrite E3. ring.
Qed.

Lemma row_check_ok P S c h g row h' :
  p3_rep P h -> cached_rep S c -> row_check c h g row = Some h' ->
  (forall j e, (g :: row) !! j = Some e -> precomp_rep (P + gmul (Z.of_nat j) S)%G e) /\
  p3_rep (P + gmul (Z.of_nat (length row)) S)%G h'.
Proof.
  intros Hh Hc. revert P h g Hh. induction row as [|g' row IH]; intros P h g Hh; cbn [row_check];
    destruct (entry_check h g) eqn:E; try discriminate; pose proof (entry_check_ok P h g Hh E) as Hg.
  - intros [= <-]. split.
    + intros [|j] e; cbn [lookup list_lookup]; [|discriminate]. intros [= <-].
      change (Z.of_nat 0) with 0. rewrite gmul_0, gadd_0_r. exact Hg.
    + change (Z.of_nat (length [])) with 0. rewrite gmul_0, gadd_0_r. exact Hh.
  - intros Hrun. destruct (ge_add_ok P S h c Hh Hc) as (t & Et & Ht). rewrite Et in Hrun.
    cbn [mbind option_bind] in Hrun. destruct (ge_p1p1_to_p3_ok _ _ Ht) as (h1 & Eh & Hh1).
    rewrite Eh in Hrun. cbn [mbind option_bind] in Hrun.
    destruct (IH _ _ _ Hh1 Hrun) as [H1 H2].
    assert (Hs : forall n, ((P + S) + gmul (Z.of_nat n) S = P + gmul (Z.of_nat (Datatypes.S n)) S)%G).
    { intros n. rewrite <- gadd_assoc, <- gmul_succ. do 2 f_equal. lia. }
    split.
    + intros [|j] e; cbn [lookup list_lookup]; [intros [= <-]; change (Z.of_nat 0) with 0;
        rewrite gmul_0, gadd_0_r; exact Hg|].
      intros He. rewrite <- Hs. apply H1. exact He.
    + cbn [length]. rewrite <- Hs. exact H2.
Qed.

Lemma p3_double P h :
  p3_rep P h -> returns (r ← ge_p3_dbl h; ge_p1p1_to_p3 r) (p3_rep (gmul 2 P)).
Proof.
  intros H. rewrite gmul_2.
  eapply returns_bind; [apply ge_p3_dbl_ok, H | intros r Hr; apply ge_p1p1_to_p3_ok, Hr].
Qed.

Lemma p3_double_bind {A} P h (k : ge_p3 -> option A) (Q : A -> Prop) :
  p3_rep P h -> (forall h', p3_rep (gmul 2 P) h' -> returns (k h') Q) ->
  returns (r ← ge_p3_dbl h; h ← ge_p1p1_to_p3 r; k h) Q.
Proof.
  intros H Hk. destruct (p3_double P h H) as (h' & E & Hh). apply bind_inv in E as (r & -> & E).
  cbn [mbind option_bind]. rewrite E. apply Hk, Hh.
Qed.

Lemma times32_ok P h : p3_rep P h -> returns (times32 h) (p3_rep (gmul 32 P)).
Proof.
  intros H. unfold times32. do 4 (eapply p3_double_bind; [eassumption | intros ? ?]).
  eapply returns_mono; [eapply p3_double; eassumption|]. intros h5 H5.
  rewrite <- !gmul_mul in H5. exact H5.
Qed.

Lemma table_check_ok Q h rows :
  p3_rep Q h -> table_check h rows = true ->
  forall i row, rows !! i = Some row -> precomp_multiples 8 (gmul (256 ^ Z.of_nat i) Q) row.
Proof.
  revert Q h. induction rows as [|[|g row] rows IH]; intros Q h Hh Hc i r Hr; try discriminate.
  cbn [table_check] in Hc. destruct (ge_p3_to_cached_ok Q h Hh) as (c & Ec & Hcr). rewrite Ec in Hc.
  cbn [mbind option_bind] in Hc. destruct (row_check c h g row) as [h8|] eqn:E; [|discriminate].
  cbn [mbind option_bind] in Hc. destruct (row_check_ok Q Q c h g row h8 Hh Hcr E) as [H1 H2].
  destruct (times32_ok _ _ H2) as (h' & Eh & Hh'). rewrite Eh in Hc.
  rewrite andb_true_iff, Nat.eqb_eq in Hc. destruct Hc as [Hl Hc].
  destruct i as [|i]; cbn [lookup list_lookup] in Hr.
  - injection Hr as <-. change (256 ^ Z.of_nat 0) with 1. rewrite gmul_1. intros j Hj.
    destruct (lookup_lt_is_Some_2 (g :: row) j) as [e He]; [cbn; lia|].
    exists e. split; [exact He|]. rewrite gmul_succ. apply H1, He.
  - rewrite Hl, <- gmul_succ, <- gmul_mul in Hh'. change (32 * (Z.of_nat 7 + 1)) with 256 in Hh'.
    pose proof (IH _ _ Hh' Hc i r Hr) as H. rewrite <- gmul_mul in H.
    replace (256 ^ Z.of_nat (S i)) with (256 ^ Z.of_nat i * 256); [exact H|].
    rewrite Nat2Z.inj_succ, Z.pow_succ_r by lia. ring.
Qed.

(** ** The tables *)

Lemma ge_base_checked : table_check base_p3 ge_base = true.
Proof. eval_closed. Qed.

Lemma ge_base_ok i row :
  ge_base !! i = Some row -> precomp_multiples 8 (gmul (256 ^ Z.of_nat i) base_point) row.
Proof. apply (table_check_ok _ _ _ base_p3_ok ge_base_checked). Qed.

(** The odd multiples, starting from B in steps of 2 B. *)
Definition odds_check (tab : list ge_precomp) : bool :=
  match tab with
  | [] => false
  | g :: row =>
      match (r ← ge_p3_dbl base_p3; h ← ge_p1p1_to_p3 r; c ← ge_p3_to_cached h;
             row_check c base_p3 g row) with
      | Some _ => (length row =? 7)%nat
      | None => false
      end
  end.

(** [precomp_odds P tab]: the entries P, 3P, ..., 15P. *)
Definition precomp_odds (P : point) (tab : list ge_precomp) : Prop :=
  forall j, (j < 8)%nat -> exists c, tab !! j = Some c /\ precomp_rep (gmul (1 + 2 * Z.of_nat j) P) c.

Lemma odds_check_ok tab : odds_check tab = true -> precomp_odds base_point tab.
Proof.
  unfold odds_check. destruct tab as [|g row]; [discriminate|].
  destruct (p3_double _ _ base_p3_ok) as (h & E & Hh). apply bind_inv in E as (r & Er & Eh).
  rewrite Er. cbn [mbind option_bind]. rewrite Eh. cbn [mbind option_bind].
  destruct (ge_p3_to_cached_ok _ _ Hh) as (c & Ec & Hcr). rewrite Ec. cbn [mbind option_bind].
  destruct (row_check c base_p3 g row) as [h'|] eqn:E; [|discriminate].
  rewrite Nat.eqb_eq. intros Hl j Hj.
  destruct (row_check_ok _ _ _ _ _ _ _ base_p3_ok Hcr E) as [H1 _].
  destruct (lookup_lt_is_Some_2 (g :: row) j) as [e He]; [cbn; lia|]. exists e. split; [exact He|].
  rewrite gmul_add, gmul_1, Z.mul_comm, gmul_mul. apply H1, He.
Qed.

Lemma ge_Bi_checked : odds_check ge_Bi = true.
Proof. eval_closed. Qed.

Lemma ge_Bi_ok : precomp_odds base_point ge_Bi.
Proof. exact (odds_check_ok ge_Bi ge_Bi_checked). Qed.
