(* ===== verification/Vartime.v ===== *)
(** * Correctness of the multiplications that use the base point or windows

    [ge_scalarmult_base] over the verified table, and the sliding-window
    functions for one to three scalars. *)

From S2P Require Import Prelude.
From S2P Require Import CInt.
From S2P Require Import Bytes.
From S2P Require Import Limbs.
From S2P Require Import Fe.
From S2P Require Import FeMul.
From S2P Require Import FeBytes.
From S2P Require Import FePow.
From S2P Require Import Prime25519.
From S2P Require Import Group.
From S2P Require Import Curve.
From S2P Require Import FeField.
From S2P Require Import Ge.
From S2P Require Import Recode.
From S2P Require Import GeData.
From S2P Require Import ScalarMult.
From S2P Require Import ScalarMultOk.
From S2P Require Import Tables.
From Stdlib Require Import Zmod Ring.

(** ** The fixed base *)

Lemma select_ok pos b :
  (pos < 32)%nat -> hex_digit b ->
  returns (select pos b) (precomp_rep (gmul (b * 256 ^ Z.of_nat pos) base_point)).
Proof.
  intros Hpos Hb. unfold hex_digit in Hb. unfold select. rewrite abs_digit_ok, negative_ok by lia.
  destruct (lookup_lt_is_Some_2 ge_base pos Hpos) as [row Hrow]. pose proof (ge_base_ok pos row Hrow) as HT.
  rewrite Hrow. cbn [mbind option_bind]. set (P := gmul (256 ^ Z.of_nat pos) base_point) in *.
  eapply returns_bind.
  { apply (ge_precomp_select_ok P row (Z.abs b) 8 0); [exact HT | lia | reflexivity|].
    unfold selected. destruct (Z.leb_spec (Z.abs b) (Z.of_nat 0)); [|exact ge_precomp_0_ok].
    replace (Z.abs b) with 0 by lia. exact ge_precomp_0_ok. }
  intros cur Hcur. destruct (precomp_neg _ _ Hcur) as (minus & E & Hminus).
  do 3 (apply bind_inv in E as (? & -> & E); cbn [mbind option_bind]). injection E as ->.
  rewrite (ge_precomp_cmov_ok cur minus) by (eauto using precomp_rep_in; destruct (b <? 0); auto).
  apply returns_Some. rewrite gmul_mul. fold P. rewrite gmul_abs. destruct (b <? 0); assumption.
Qed.

(** What the rounds on the indices [js] add. *)
Definition base_sum (e : list Z) (js : list nat) : Z :=
  foldr (fun i s => nth i e 0 * 256 ^ Z.of_nat (i / 2) + s) 0 js.

Lemma base_sum_cons e i js : base_sum e (i :: js) = nth i e 0 * 256 ^ Z.of_nat (i / 2) + base_sum e js.
Proof. reflexivity. Qed.

Lemma ge_base_loop_ok e js Q h :
  Forall hex_digit e -> length e = 64%nat -> Forall (fun i => (i < 64)%nat) js -> p3_rep Q h ->
  returns (ge_base_loop e js h) (p3_rep (Q + gmul (base_sum e js) base_point)%G).
Proof.
  intros He Hl Hjs. revert Q h. induction Hjs as [|i js Hi _ IH]; intros Q h Hh; cbn [ge_base_loop].
  - apply returns_Some. unfold base_sum. cbn [foldr]. rewrite gmul_0, gadd_0_r. exact Hh.
  - destruct (lookup_lt_is_Some_2 e i) as [b Hb]; [lia|]. rewrite Hb. cbn [mbind option_bind].
    eapply returns_bind.
    { apply select_ok; [apply Nat.Div0.div_lt_upper_bound; lia | eapply Forall_lookup_1; eassumption]. }
    intros t Ht. eapply returns_bind; [apply ge_madd_ok; eassumption | intros r Hr].
    eapply returns_bind; [apply ge_p1p1_to_p3_ok, Hr | intros h' Hh'].
    eapply returns_mono; [apply IH, Hh'|]. intros g. unfold base_sum. cbn [foldr].
    rewrite (nth_lookup e i 0), Hb. cbn [default from_option id].
    rewrite (gmul_add (b * _)), gadd_assoc. auto.
Qed.

(** The digits at odd and even indices make up the scalar. *)
Lemma hval_pairs e n :
  length e = (2 * n)%nat ->
  16 * base_sum e (map (fun k => 2 * k + 1)%nat (seq 0 n)) +
    base_sum e (map (fun k => 2 * k)%nat (seq 0 n)) = hval e.
Proof.
  revert e. induction n as [|n IH]; intros e Hl.
  { destruct e; [reflexivity | discriminate]. }
  destruct e as [|x [|y e]]; cbn in Hl; try lia.
  assert (Hshift : forall f, (forall k, f (S k) = S (S (f k)))%nat ->
    base_sum (x :: y :: e) (map f (seq 1 n)) = 256 * base_sum e (map f (seq 0 n))).
  { intros f Hf. rewrite <- seq_shift, map_map. generalize (seq 0 n) as ks.
    induction ks as [|k ks IHk]; [reflexivity|]. unfold base_sum in *. cbn [map foldr].
    rewrite IHk, Hf. cbn [nth]. replace (S (S (f k)) / 2)%nat with (S (f k / 2))%nat.
    - rewrite Nat2Z.inj_succ, Z.pow_succ_r by lia. ring.
    - change (S (S (f k))) with (1 * 2 + f k)%nat. rewrite Nat.div_add_l by lia. reflexivity. }
  change (seq 0 (S n)) with (0 :: seq 1 n)%nat. cbn [map]. rewrite !base_sum_cons.
  rewrite !Hshift by (intros k; lia). change (2 * 0 + 1)%nat with 1%nat. change (2 * 0)%nat with 0%nat.
  change (256 ^ Z.of_nat (1 / 2)) with 1. change (256 ^ Z.of_nat (0 / 2)) with 1.
  specialize (IH e ltac:(lia)). cbn [hval nth]. lia.
Qed.

Lemma ge_scalarmult_base_ok a :
  bytes_of 32 a -> le_val a < 2 ^ 255 ->
  returns (ge_scalarmult_base a) (p3_rep (gmul (le_val a) base_point)).
Proof.
  intros Ha Hv. destruct (radix16_base_ok a Ha Hv) as [[Ev He] Hl].
  assert (Hlt : forall f, (forall k, (k < 32)%nat -> (f k < 64)%nat) ->
    Forall (fun i => (i < 64)%nat) (map f (seq 0 32))).
  { intros f Hf. apply Forall_forall. intros i Hi. apply list_elem_of_fmap in Hi as (k & -> & Hk).
    apply elem_of_seq in Hk. apply Hf. lia. }
  unfold ge_scalarmult_base. set (e := radix16_base a) in *.
  eapply returns_bind; [apply (ge_base_loop_ok e _ gzero); [exact He | exact Hl | apply Hlt; lia | exact ge_p3_0_ok]|].
  intros h Hh. rewrite gadd_0_l in Hh.
  eapply returns_bind; [apply ge_p3_dbl_ok, Hh | intros r1 H1].
  eapply returns_bind; [apply ge_p1p1_to_p2_ok, H1 | intros s1 H1'].
  eapply returns_bind; [apply ge_p2_dbl_ok, H1' | intros r2 H2].
  eapply returns_bind; [apply ge_p1p1_to_p2_ok, H2 | intros s2 H2'].
  eapply returns_bind; [apply ge_p2_dbl_ok, H2' | intros r3 H3].
  eapply returns_bind; [apply ge_p1p1_to_p2_ok, H3 | intros s3 H3'].
  eapply returns_bind; [apply ge_p2_dbl_ok, H3' | intros r4 H4].
  eapply returns_bind; [apply ge_p1p1_to_p3_ok, H4 | intros h' Hh'].
  rewrite <- !gmul_2, <- !gmul_mul in Hh'.
  eapply returns_mono; [eapply ge_base_loop_ok; [exact He | exact Hl | apply Hlt; lia | exact Hh']|].
  intros g. rewrite <- gmul_add. pose proof (hval_pairs e 32 Hl) as E.
  replace (2 * (2 * (2 * 2)) * _ + _) with (le_val a); [auto|]. rewrite <- Ev, <- E. reflexivity.
Qed.

(** ** Sliding windows *)

Lemma slide_digit_index d :
  slide_digit d -> 0 < d -> exists j, (j < 8)%nat /\ Z.to_nat (Z.quot d 2) = j /\ d = 1 + 2 * Z.of_nat j.
Proof.
  intros [->|[Hodd Hr]] Hd; [lia|]. exists (Z.to_nat (Z.quot d 2)).
  rewrite Z.quot_div_nonneg by lia. apply Z.odd_spec in Hodd as [k Hk].
  pose proof (Z.div_mod d 2). pose proof (Z.mod_pos_bound d 2). lia.
Qed.

Lemma slide_digit_opp d : slide_digit d -> slide_digit (- d).
Proof. intros [->|[Hodd Hr]]; [left; reflexivity | right]. rewrite Z.odd_opp. split; [exact Hodd | lia]. Qed.

Lemma ge_add_digit_ok P Q Ai d t :
  odds 7 1 P Ai -> slide_digit d -> p1p1_rep Q t ->
  returns (ge_add_digit Ai d t) (p1p1_rep (Q + gmul d P)%G).
Proof.
  intros [_ HT] Hd Ht. unfold ge_add_digit. destruct (Z.ltb_spec 0 d) as [Hp|Hp].
  - destruct (slide_digit_index d Hd Hp) as (j & Hj & -> & E).
    destruct (HT j ltac:(lia)) as (c & Hc & Hrep). rewrite <- E in Hrep.
    eapply returns_bind; [apply ge_p1p1_to_p3_ok, Ht | intros u Hu].
    rewrite Hc. cbn [mbind option_bind]. apply ge_add_ok; assumption.
  - destruct (Z.ltb_spec d 0) as [Hn|Hn].
    + destruct (slide_digit_index (- d) (slide_digit_opp d Hd) ltac:(lia)) as (j & Hj & -> & E).
      destruct (HT j ltac:(lia)) as (c & Hc & Hrep). rewrite <- E in Hrep.
      eapply returns_bind; [apply ge_p1p1_to_p3_ok, Ht | intros u Hu].
      rewrite Hc. cbn [mbind option_bind]. rewrite <- (Z.opp_involutive d), gmul_opp_l.
      apply ge_sub_ok; assumption.
    + replace d with 0 by lia. rewrite gmul_0, gadd_0_r. apply returns_Some, Ht.
Qed.

Lemma ge_madd_digit_ok Q d t :
  slide_digit d -> p1p1_rep Q t -> returns (ge_madd_digit d t) (p1p1_rep (Q + gmul d base_point)%G).
Proof.
  intros Hd Ht. unfold ge_madd_digit. destruct (Z.ltb_spec 0 d) as [Hp|Hp].
  - destruct (slide_digit_index d Hd Hp) as (j & Hj & -> & E).
    destruct (ge_Bi_ok j Hj) as (c & Hc & Hrep). rewrite <- E in Hrep.
    eapply returns_bind; [apply ge_p1p1_to_p3_ok, Ht | intros u Hu].
    rewrite Hc. cbn [mbind option_bind]. apply ge_madd_ok; assumption.
  - destruct (Z.ltb_spec d 0) as [Hn|Hn].
    + destruct (slide_digit_index (- d) (slide_digit_opp d Hd) ltac:(lia)) as (j & Hj & -> & E).
      destruct (ge_Bi_ok j Hj) as (c & Hc & Hrep). rewrite <- E in Hrep.
      eapply returns_bind; [apply ge_p1p1_to_p3_ok, Ht | intros u Hu].
      rewrite Hc. cbn [mbind option_bind]. rewrite <- (Z.opp_involutive d), gmul_opp_l.
      apply ge_msub_ok; assumption.
    + replace d with 0 by lia. rewrite gmul_0, gadd_0_r. apply returns_Some, Ht.
Qed.

(** What the rounds below [n] add up to, for the point [D i] added in round [i]. *)
Fixpoint wsum (D : nat -> point) (n : nat) : point :=
  match n with O => gzero | S i => (gmul (2 ^ Z.of_nat i) (D i) + wsum D i)%G end.

(** Round [i] adds [D i]. *)
Definition adds (digits : nat -> ge_p1p1 -> option ge_p1p1) (D : nat -> point) : Prop :=
  forall i Q t, (i < 256)%nat -> p1p1_rep Q t -> returns (digits i t) (p1p1_rep (Q + D i)%G).

Lemma vartime_step (D : nat -> point) n (Q : point) :
  (gmul (2 ^ Z.of_nat n) ((Q + Q) + D n) + wsum D n = gmul (2 ^ Z.of_nat (S n)) Q + wsum D (S n))%G.
Proof.
  cbn [wsum]. rewrite gmul_gadd, <- gmul_2, <- gmul_mul, gadd_assoc.
  rewrite Nat2Z.inj_succ, Z.pow_succ_r, (Z.mul_comm 2) by lia. reflexivity.
Qed.

Lemma vartime_loop_ok digits D n Q r :
  adds digits D -> (n <= 256)%nat -> p2_rep Q r ->
  returns (vartime_loop digits n r) (p2_rep (gmul (2 ^ Z.of_nat n) Q + wsum D n)%G).
Proof.
  intros HD. revert Q r. induction n as [|n IH]; intros Q r Hn Hr; cbn [vartime_loop].
  - apply returns_Some. cbn [wsum]. change (2 ^ Z.of_nat 0) with 1. rewrite gmul_1, gadd_0_r. exact Hr.
  - eapply returns_bind; [apply ge_p2_dbl_ok, Hr | intros t Ht].
    eapply returns_bind; [apply HD; [lia | exact Ht] | intros t' Ht'].
    eapply returns_bind; [apply ge_p1p1_to_p2_ok, Ht' | intros r' Hr'].
    rewrite <- vartime_step. apply IH; [lia | exact Hr'].
Qed.

Lemma vartime_loop_p3_ok digits D n Q r r3 :
  adds digits D -> (S n <= 256)%nat -> p2_rep Q r ->
  returns (vartime_loop_p3 digits (S n) r r3) (p3_rep (gmul (2 ^ Z.of_nat (S n)) Q + wsum D (S n))%G).
Proof.
  intros HD. revert Q r r3. induction n as [|n IH]; intros Q r r3 Hn Hr;
    rewrite <- vartime_step; cbn [vartime_loop_p3];
    (eapply returns_bind; [apply ge_p2_dbl_ok, Hr | intros t Ht]);
    (eapply returns_bind; [apply HD; [lia | exact Ht] | intros t' Ht']).
  - eapply returns_bind; [apply ge_p1p1_to_p3_ok, Ht' | intros r' Hr']. apply returns_Some.
    cbn [wsum]. change (2 ^ Z.of_nat 0) with 1. rewrite gmul_1, gadd_0_r. exact Hr'.
  - eapply returns_bind; [apply ge_p1p1_to_p2_ok, Ht' | intros r' Hr'].
    apply IH; [lia | exact Hr'].
Qed.

(** The digits of one scalar times one point. *)
Lemma wsum_slide (r : list Z) (P : point) n :
  (n <= length r)%nat -> wsum (fun i => gmul (nth i r 0) P) n = gmul (bval (take n r)) P.
Proof.
  induction n as [|n IH]; intros Hn; cbn [wsum]; [rewrite take_0; reflexivity|].
  destruct (lookup_lt_is_Some_2 r n) as [x Hx]; [lia|].
  rewrite IH, (bval_take_S r n x Hx), <- gmul_mul, <- gmul_add by lia.
  rewrite (nth_lookup r n 0), Hx. f_equal. cbn [default from_option id]. lia.
Qed.

Lemma wsum_add D E n : wsum (fun i => D i + E i)%G n = (wsum D n + wsum E n)%G.
Proof.
  induction n as [|n IH]; cbn [wsum]; [rewrite gadd_0_l; reflexivity|].
  rewrite IH, gmul_gadd. apply gadd_swap.
Qed.

(** Above the top index all digits are 0. *)
Lemma slide_top_le slides n : (slide_top slides n <= n)%nat.
Proof. induction n as [|n IH]; cbn [slide_top]; [lia|]. destruct (existsb _ _); lia. Qed.

Lemma slide_top_zero slides n r :
  In r slides -> (n <= length r)%nat -> bval (take (slide_top slides n) r) = bval (take n r).
Proof.
  intros Hin. induction n as [|n IH]; intros Hn; cbn [slide_top]; [reflexivity|].
  destruct (existsb _ _) eqn:E; [reflexivity|]. rewrite IH by lia.
  destruct (lookup_lt_is_Some_2 r n) as [x Hx]; [lia|]. rewrite (bval_take_S r n x Hx).
  assert (x = 0) as ->; [|ring].
  destruct (Z.eqb_spec x 0) as [|Hn0]; [assumption|]. exfalso.
  assert (existsb (fun r => negb (nth n r 0 =? 0)) slides = true); [|congruence].
  apply existsb_exists. exists r. split; [exact Hin|]. rewrite (nth_lookup r n 0), Hx.
  cbn [default from_option id]. destruct (Z.eqb_spec x 0); [contradiction | reflexivity].
Qed.

Lemma wsum_top slides r v (P : point) :
  In r slides -> slide_digits v r ->
  wsum (fun i => gmul (nth i r 0) P) (slide_top slides 256) = gmul v P.
Proof.
  intros Hin (Hl & Hv & _). pose proof (slide_top_le slides 256).
  rewrite wsum_slide, (slide_top_zero slides 256 r Hin) by lia. f_equal.
  rewrite take_ge by lia. exact Hv.
Qed.

Lemma slide_digits_lookup v r i :
  slide_digits v r -> (i < 256)%nat -> r !! i = Some (nth i r 0) /\ slide_digit (nth i r 0).
Proof.
  intros (Hl & _ & Hd) Hi. destruct (lookup_lt_is_Some_2 r i) as [x Hx]; [lia|].
  rewrite (nth_lookup r i 0), Hx. cbn [default from_option id]. split; [reflexivity|].
  eapply Forall_lookup_1; eassumption.
Qed.

Lemma adds_table P Ai v r :
  odds 7 1 P Ai -> slide_digits v r ->
  adds (fun i t => d ← r !! i; ge_add_digit Ai d t) (fun i => gmul (nth i r 0) P).
Proof.
  intros HT Hr i Q t Hi Ht. destruct (slide_digits_lookup v r i Hr Hi) as [-> Hd].
  apply ge_add_digit_ok; assumption.
Qed.

Lemma adds_base v r :
  slide_digits v r -> adds (fun i t => d ← r !! i; ge_madd_digit d t) (fun i => gmul (nth i r 0) base_point).
Proof.
  intros Hr i Q t Hi Ht. destruct (slide_digits_lookup v r i Hr Hi) as [-> Hd].
  apply ge_madd_digit_ok; assumption.
Qed.

Lemma adds_seq f g D E :
  adds f D -> adds g E -> adds (fun i t => t ← f i t; g i t) (fun i => D i + E i)%G.
Proof.
  intros Hf Hg i Q t Hi Ht. eapply returns_bind; [apply (Hf i Q); assumption | intros t' Ht'].
  rewrite gadd_assoc. apply Hg; assumption.
Qed.

Lemma adds_ext f g D : (forall i t, g i t = f i t) -> adds f D -> adds g D.
Proof. intros E H i Q t Hi Ht. rewrite E. apply H; assumption. Qed.

(** Re-associate the rounds of the code. *)
Ltac adds_term :=
  lazymatch goal with
  | |- adds _ (fun i => _ + _)%G => eapply adds_seq; adds_term
  | |- adds _ (fun i => gmul _ base_point) => first [eapply adds_base; eassumption | eapply adds_table; eassumption]
  | |- adds _ _ => eapply adds_table; eassumption
  end.

Ltac adds_tac :=
  eapply adds_ext; [| adds_term];
  intros i t; cbv beta; repeat match goal with
    | |- context [?r !! i] => destruct (r !! i) as [?d|]; cbn [mbind option_bind]; [|reflexivity]
    | |- context [ge_add_digit ?A ?d ?t ≫= _] =>
        destruct (ge_add_digit A d t); cbn [mbind option_bind]; [|reflexivity]
    | |- context [ge_madd_digit ?d ?t ≫= _] =>
        destruct (ge_madd_digit d t); cbn [mbind option_bind]; [|reflexivity]
    end; reflexivity.

Definition scalar (a : list Z) : Prop := bytes_of 32 a /\ le_val a < 2 ^ 255.

#[export] Instance scalar_dec a : Decision (scalar a).
Proof. unfold scalar. apply _. Defined.

Lemma scalar_slide a : scalar a -> exists r, slide a = Some r /\ slide_digits (le_val a) r.
Proof. intros [Ha Hv]. exact (slide_ok a Ha Hv). Qed.

Lemma vartime_from_zero digits D n :
  adds digits D -> (n <= 256)%nat -> returns (vartime_loop digits n ge_p2_0) (p2_rep (wsum D n)).
Proof.
  intros HD Hn. eapply returns_mono; [apply (vartime_loop_ok _ D n gzero); [exact HD | exact Hn | exact ge_p2_0_ok]|].
  intros g. rewrite gmul_gzero, gadd_0_l. auto.
Qed.

Lemma ge_double_scalarmult_base_vartime_ok a A b P :
  scalar a -> scalar b -> p3_rep P A ->
  returns (ge_double_scalarmult_base_vartime a A b)
    (p2_rep (gmul (le_val a) P + gmul (le_val b) base_point)%G).
Proof.
  intros Ha Hb HA. destruct (scalar_slide a Ha) as (ra & Ea & Hra), (scalar_slide b Hb) as (rb & Eb & Hrb).
  unfold ge_double_scalarmult_base_vartime. rewrite Ea, Eb. cbn [mbind option_bind].
  eapply returns_bind; [apply ge_dsm_precomp_ok, HA | intros Ai HAi].
  rewrite <- (wsum_top [ra; rb] ra _ P) by (first [eassumption | cbn; auto]).
  rewrite <- (wsum_top [ra; rb] rb _ base_point) by (first [eassumption | cbn; auto]).
  rewrite <- wsum_add. apply vartime_from_zero; [adds_tac | apply slide_top_le].
Qed.

Lemma ge_double_scalarmult_precomp_vartime2_ok a Ai b Bi P Q :
  scalar a -> scalar b -> odds 7 1 P Ai -> odds 7 1 Q Bi ->
  returns (ge_double_scalarmult_precomp_vartime2 a Ai b Bi)
    (p2_rep (gmul (le_val a) P + gmul (le_val b) Q)%G).
Proof.
  intros Ha Hb HA HB. destruct (scalar_slide a Ha) as (ra & Ea & Hra), (scalar_slide b Hb) as (rb & Eb & Hrb).
  unfold ge_double_scalarmult_precomp_vartime2. rewrite Ea, Eb. cbn [mbind option_bind].
  rewrite <- (wsum_top [ra; rb] ra _ P) by (first [eassumption | cbn; auto]).
  rewrite <- (wsum_top [ra; rb] rb _ Q) by (first [eassumption | cbn; auto]).
  rewrite <- wsum_add. apply vartime_from_zero; [adds_tac | apply slide_top_le].
Qed.

Lemma ge_double_scalarmult_precomp_vartime_ok a A b Bi P Q :
  scalar a -> scalar b -> p3_rep P A -> odds 7 1 Q Bi ->
  returns (ge_double_scalarmult_precomp_vartime a A b Bi)
    (p2_rep (gmul (le_val a) P + gmul (le_val b) Q)%G).
Proof.
  intros Ha Hb HA HB. unfold ge_double_scalarmult_precomp_vartime.
  eapply returns_bind; [apply ge_dsm_precomp_ok, HA | intros Ai HAi].
  apply ge_double_scalarmult_precomp_vartime2_ok; assumption.
Qed.

Lemma ge_triple_scalarmult_base_vartime_ok a b Bi c Ci P Q :
  scalar a -> scalar b -> scalar c -> odds 7 1 P Bi -> odds 7 1 Q Ci ->
  returns (ge_triple_scalarmult_base_vartime a b Bi c Ci)
    (p2_rep (gmul (le_val a) base_point + gmul (le_val b) P + gmul (le_val c) Q)%G).
Proof.
  intros Ha Hb Hc HB HC.
  destruct (scalar_slide a Ha) as (ra & Ea & Hra), (scalar_slide b Hb) as (rb & Eb & Hrb),
    (scalar_slide c Hc) as (rc & Ec & Hrc).
  unfold ge_triple_scalarmult_base_vartime. rewrite Ea, Eb, Ec. cbn [mbind option_bind].
  rewrite <- (wsum_top [ra; rb; rc] ra _ base_point) by (first [eassumption | cbn; auto]).
  rewrite <- (wsum_top [ra; rb; rc] rb _ P) by (first [eassumption | cbn; auto]).
  rewrite <- (wsum_top [ra; rb; rc] rc _ Q) by (first [eassumption | cbn; auto]).
  rewrite <- !wsum_add. apply vartime_from_zero; [adds_tac | apply slide_top_le].
Qed.

Lemma ge_triple_scalarmult_precomp_vartime_ok a Ai b Bi c Ci P Q R :
  scalar a -> scalar b -> scalar c -> odds 7 1 P Ai -> odds 7 1 Q Bi -> odds 7 1 R Ci ->
  returns (ge_triple_scalarmult_precomp_vartime a Ai b Bi c Ci)
    (p2_rep (gmul (le_val a) P + gmul (le_val b) Q + gmul (le_val c) R)%G).
Proof.
  intros Ha Hb Hc HA HB HC.
  destruct (scalar_slide a Ha) as (ra & Ea & Hra), (scalar_slide b Hb) as (rb & Eb & Hrb),
    (scalar_slide c Hc) as (rc & Ec & Hrc).
  unfold ge_triple_scalarmult_precomp_vartime. rewrite Ea, Eb, Ec. cbn [mbind option_bind].
  rewrite <- (wsum_top [ra; rb; rc] ra _ P) by (first [eassumption | cbn; auto]).
  rewrite <- (wsum_top [ra; rb; rc] rb _ Q) by (first [eassumption | cbn; auto]).
  rewrite <- (wsum_top [ra; rb; rc] rc _ R) by (first [eassumption | cbn; auto]).
  rewrite <- !wsum_add. apply vartime_from_zero; [adds_tac | apply slide_top_le].
Qed.

(** ** Extended results *)

Lemma slide_top_pos slides r v :
  In r slides -> slide_digits v r -> v <> 0 -> exists n, slide_top slides 256 = S n /\ (S n <= 256)%nat.
Proof.
  intros Hin (Hl & Hv & _) Hnz. pose proof (slide_top_le slides 256) as Hle.
  destruct (slide_top slides 256) as [|n] eqn:E; [|exists n; auto]. exfalso. apply Hnz.
  pose proof (slide_top_zero slides 256 r Hin ltac:(lia)) as H. rewrite E, take_0 in H.
  rewrite (take_ge r) in H by lia. rewrite <- Hv, <- H. reflexivity.
Qed.

Lemma vartime_p3_from_zero digits D n r3 :
  adds digits D -> (S n <= 256)%nat -> returns (vartime_loop_p3 digits (S n) ge_p2_0 r3) (p3_rep (wsum D (S n))).
Proof.
  intros HD Hn.
  eapply returns_mono; [apply (vartime_loop_p3_ok _ D n gzero); [exact HD | exact Hn | exact ge_p2_0_ok]|].
  intros g. rewrite gmul_gzero, gadd_0_l. auto.
Qed.

Lemma ge_double_scalarmult_base_vartime_p3_ok r3 a A b P :
  scalar a -> scalar b -> p3_rep P A -> le_val a <> 0 \/ le_val b <> 0 ->
  returns (ge_double_scalarmult_base_vartime_p3 r3 a A b)
    (p3_rep (gmul (le_val a) P + gmul (le_val b) base_point)%G).
Proof.
  intros Ha Hb HA Hnz. destruct (scalar_slide a Ha) as (ra & Ea & Hra), (scalar_slide b Hb) as (rb & Eb & Hrb).
  unfold ge_double_scalarmult_base_vartime_p3. rewrite Ea, Eb. cbn [mbind option_bind].
  eapply returns_bind; [apply ge_dsm_precomp_ok, HA | intros Ai HAi].
  rewrite <- (wsum_top [ra; rb] ra _ P) by (first [eassumption | cbn; auto]).
  rewrite <- (wsum_top [ra; rb] rb _ base_point) by (first [eassumption | cbn; auto]).
  assert (Hn : exists n, slide_top [ra; rb] 256 = S n /\ (S n <= 256)%nat).
  { destruct Hnz; [eapply (slide_top_pos _ ra) | eapply (slide_top_pos _ rb)];
      try eassumption; cbn; auto. }
  destruct Hn as (n & -> & Hn). rewrite <- wsum_add. apply vartime_p3_from_zero; [adds_tac | exact Hn].
Qed.

Lemma ge_double_scalarmult_precomp_vartime2_p3_ok r3 a Ai b Bi P Q :
  scalar a -> scalar b -> odds 7 1 P Ai -> odds 7 1 Q Bi -> le_val a <> 0 \/ le_val b <> 0 ->
  returns (ge_double_scalarmult_precomp_vartime2_p3 r3 a Ai b Bi)
    (p3_rep (gmul (le_val a) P + gmul (le_val b) Q)%G).
Proof.
  intros Ha Hb HA HB Hnz. destruct (scalar_slide a Ha) as (ra & Ea & Hra), (scalar_slide b Hb) as (rb & Eb & Hrb).
  unfold ge_double_scalarmult_precomp_vartime2_p3. rewrite Ea, Eb. cbn [mbind option_bind].
  rewrite <- (wsum_top [ra; rb] ra _ P) by (first [eassumption | cbn; auto]).
  rewrite <- (wsum_top [ra; rb] rb _ Q) by (first [eassumption | cbn; auto]).
  assert (Hn : exists n, slide_top [ra; rb] 256 = S n /\ (S n <= 256)%nat).
  { destruct Hnz; [eapply (slide_top_pos _ ra) | eapply (slide_top_pos _ rb)];
      try eassumption; cbn; auto. }
  destruct Hn as (n & -> & Hn). rewrite <- wsum_add. apply vartime_p3_from_zero; [adds_tac | exact Hn].
Qed.

(** With both scalars zero the loops of the [_p3] variants never run: the
    output keeps the content it had. *)
Lemma slide_zero : slide (repeat 0 32) = Some (repeat 0 256).
Proof. eval_closed. Qed.

Lemma slide_top_zeros : slide_top [repeat 0 256; repeat 0 256] 256 = 0%nat.
Proof. eval_closed. Qed.

Lemma zero_bytes a : bytes_of 32 a -> le_val a = 0 -> a = repeat 0 32.
Proof.
  intros [Ha Hl] Hv. rewrite <- (le_bytes_le_val a Ha), Hl, Hv. reflexivity.
Qed.

Lemma ge_double_scalarmult_precomp_vartime2_p3_zero r3 a Ai b Bi :
  bytes_of 32 a -> bytes_of 32 b -> le_val a = 0 -> le_val b = 0 ->
  ge_double_scalarmult_precomp_vartime2_p3 r3 a Ai b Bi = Some r3.
Proof.
  intros Ha Hb Ea Eb. rewrite (zero_bytes a Ha Ea), (zero_bytes b Hb Eb).
  unfold ge_double_scalarmult_precomp_vartime2_p3. rewrite slide_zero. cbn [mbind option_bind].
  rewrite slide_top_zeros. reflexivity.
Qed.
