(* ===== verification/Order.v ===== *)
(** * The order of the base point

    The base point is annihilated by [l], the order the scalar arithmetic of
    [sc_*] reduces by, so a scalar may be reduced before it multiplies the
    base point.  The multiple is computed by [ge_scalarmult_base] itself. *)

From S2P Require Import Prelude.
From S2P Require Import CInt.
From S2P Require Import Bytes.
From S2P Require Import Limbs.
From S2P Require Import Fe.
From S2P Require Import FeMul.
From S2P Require Import FeBytes.
From S2P Require Import FePow.
From S2P Require Import Prime25519.
From S2P Require Import Scalar.
From S2P Require Import Group.
From S2P Require Import Curve.
From S2P Require Import FeField.
From S2P Require Import Ge.
From S2P Require Import Decode.
From S2P Require Import GeData.
From S2P Require Import ScalarMult.
From S2P Require Import ScalarMultOk.
From S2P Require Import Tables.
From S2P Require Import Vartime.
From Stdlib Require Import Zmod Ring.

Definition identity_check (g : option ge_p3) : bool :=
  match g with
  | Some h => (fe_val (p3_X h) mod p =? 0) && (fe_val (p3_Y h) mod p =? fe_val (p3_Z h) mod p)
  | None => false
  end.

Lemma identity_check_ok P g : returns g (p3_rep P) -> identity_check g = true -> P = gzero.
Proof.
  intros (h & -> & HP) Hc. cbn [identity_check] in Hc. apply andb_true_iff in Hc as [H1 H2].
  apply Z.eqb_eq in H1, H2. destruct HP as (z & Hz & [_ HX] & [_ HY] & [_ HZ] & _). unfold fF in *.
  assert (EX : ofZ (fe_val (p3_X h)) = ofZ 0) by (apply ofZ_eq; unfold eqmod; rewrite H1; reflexivity).
  assert (EY : ofZ (fe_val (p3_Y h)) = ofZ (fe_val (p3_Z h))) by (apply ofZ_eq; exact H2).
  rewrite HX in EX. rewrite HY, HZ in EY.
  apply point_eq; [rewrite px_0 | rewrite py_0]; apply (F_cancel _ _ z Hz).
  - rewrite EX. change (ofZ 0) with (0%F : F). ring.
  - rewrite EY. ring.
Qed.

Lemma l_bytes : bytes_of 32 (le_bytes 32 l) /\ le_val (le_bytes 32 l) = l.
Proof.
  split; [split; [apply le_bytes_bytes | apply le_bytes_length]|]. rewrite le_bytes_val. eval_closed.
Qed.

Lemma base_order_checked : identity_check (ge_scalarmult_base (le_bytes 32 l)) = true.
Proof. eval_closed. Qed.

Lemma base_order : gmul l base_point = gzero.
Proof.
  destruct l_bytes as [Hb Hv]. rewrite <- Hv at 1.
  apply (identity_check_ok _ _ (ge_scalarmult_base_ok _ Hb ltac:(rewrite Hv; eval_closed))).
  exact base_order_checked.
Qed.

(** Scalars that multiply the base point may be reduced modulo [l]. *)
Lemma gmul_base_mod k : gmul (k mod l) base_point = gmul k base_point.
Proof.
  rewrite (Z.div_mod k l) at 2 by discriminate.
  rewrite gmul_add, (Z.mul_comm l), gmul_mul, base_order, gmul_gzero, gadd_0_l. reflexivity.
Qed.
