(* ===== verification/FieldSpec.v ===== *)
(** * What the field arithmetic promises

    The properties of the [fe_*] routines seen from their callers: exactness
    modulo p, equality of the dedicated squaring with the general product,
    inversion, and the canonical form of the bytes written. *)

From S2P Require Import Prelude.
From S2P Require Import CInt.
From S2P Require Import Bytes.
From S2P Require Import Limbs.
From S2P Require Import Fe.
From S2P Require Import FeMul.
From S2P Require Import FeBytes.
From S2P Require Import FePow.
From S2P Require Import Prime25519.

(** ** Lemmas *)

Lemma limbs_agree cs ds xs ys Is Js :
  limbs_ok cs xs Is -> limbs_ok ds ys Js -> xs = ys -> limbs cs = limbs ds.
Proof.
  intros H1 H2 ->. apply limbs_ok_eval in H1 as [-> _], H2 as [-> _]. reflexivity.
Qed.

(** The limbs of the square are the limbs of the product. *)
Lemma fe_sq_products_eq f : fe_within 330 f -> fe_sq_products f = fe_mul_products f f.
Proof.
  intros Hf. fe_open Hf. unfold fe_sq_products, fe_mul_products.
  zin_to_ev; cbn [lookup list_lookup]; cbv zeta.
  eapply limbs_agree; [limbs_tac | limbs_tac |].
  repeat (apply (f_equal2 cons); [ring|]). reflexivity.
Qed.

Lemma pow_inverse z : ~ z ≡[p] 0 -> z ^ (p - 2) * z ≡[p] 1.
Proof.
  intros Hz. rewrite Z.mul_comm, <- Z.pow_succ_r by (unfold p; lia).
  replace (Z.succ (p - 2)) with (p - 1) by lia. apply fermat, Hz.
Qed.

(** Decide a closed bound on a field element. *)
Ltac fe_decide := apply (bool_decide_eq_true_1 _); eval_closed.

Definition sample : fe := [33554431; -16777215; 5; -6; 7; 8; -9; 10; -11; 12].

Lemma sample_within : fe_within 101 sample.
Proof. fe_decide. Qed.

(** ** Properties *)

(** On limbs within 3.3 times the nominal bounds, [fe_mul] overflows
    neither its 32-bit nor its 64-bit intermediates, returns limbs within 1.01
    times the nominal bounds, and their value is the product modulo p. *)
Theorem fe_mul_correct f g :
  fe_within 330 f -> fe_within 330 g ->
  exists h, fe_mul f g = Some h /\ fe_within 101 h /\ fe_val h ≡[p] fe_val f * fe_val g.
Proof. apply fe_mul_ok. Qed.

Lemma fe_mul_correct_witness :
  exists h, fe_mul sample sample = Some h /\ fe_within 101 h /\
    fe_val h ≡[p] fe_val sample * fe_val sample.
Proof. apply (fe_mul_correct sample sample); fe_decide. Defined.

(** The dedicated squaring [fe_sq] and the general product [fe_mul] return
    the same limbs, although they arrange the 55 and the 100 products of limbs
    differently. *)
Theorem fe_sq_is_fe_mul f : fe_within 330 f -> fe_sq f = fe_mul f f.
Proof. intros Hf. unfold fe_sq, fe_mul. rewrite fe_sq_products_eq by exact Hf. reflexivity. Qed.

Lemma fe_sq_is_fe_mul_witness : fe_sq sample = fe_mul sample sample.
Proof. apply (fe_sq_is_fe_mul sample). fe_decide. Defined.

(** [fe_invert] returns the inverse modulo p of every element that is not
    0 modulo p, and 0 of the others. *)
Theorem fe_invert_correct z :
  fe_within 330 z ->
  exists h, fe_invert z = Some h /\ fe_within 101 h /\
    fe_val h * fe_val z ≡[p] (if fe_val z mod p =? 0 then 0 else 1).
Proof.
  intros Hz. destruct (fe_invert_ok z Hz) as (h & E & Hw & Hv). exists h.
  split; [exact E|]. split; [exact Hw|]. rewrite Hv.
  destruct (Z.eqb_spec (fe_val z mod p) 0) as [H0|H0].
  - assert (H1 : fe_val z ≡[p] 0) by (rewrite <- (eqmod_mod p (fe_val z)), H0; reflexivity).
    setoid_rewrite H1 at 2. rewrite Z.mul_0_r. reflexivity.
  - apply pow_inverse. unfold eqmod. rewrite (Z.mod_0_l p) by discriminate. exact H0.
Qed.

Lemma fe_invert_correct_witness :
  exists h, fe_invert sample = Some h /\ fe_within 101 h /\
    fe_val h * fe_val sample ≡[p] (if fe_val sample mod p =? 0 then 0 else 1).
Proof. apply (fe_invert_correct sample). fe_decide. Defined.

(** [fe_tobytes] writes the little-endian bytes of the representative in
    [0, p) of the element, so equal elements give equal bytes whatever their
    limbs. *)
Theorem fe_tobytes_canonical f :
  fe_within 320 f ->
  fe_tobytes f = Some (le_bytes 32 (fe_val f mod p)) /\ 0 <= fe_val f mod p < p.
Proof. intros Hf. split; [apply fe_tobytes_ok, Hf | apply Z.mod_pos_bound; reflexivity]. Qed.

Lemma fe_tobytes_canonical_witness :
  fe_tobytes sample = Some (le_bytes 32 (fe_val sample mod p)) /\ 0 <= fe_val sample mod p < p.
Proof. apply (fe_tobytes_canonical sample). fe_decide. Defined.

