(* ===== verification/ScalarSpec.v ===== *)
(** * What the scalar arithmetic promises

    The [sc_*] routines as arithmetic in Z / l, on 32-byte little-endian
    operands that need not be reduced. *)

From S2P Require Import Prelude.
From S2P Require Import CInt.
From S2P Require Import Bytes.
From S2P Require Import Limbs.
From S2P Require Import FeBytes.
From S2P Require Import Scalar.
From S2P Require Import ScalarOps.

(** ** Lemmas *)

(** A 32-byte string that is the encoding of a residue. *)
Definition reduced (s : list Z) : Prop := bytes_of 32 s /\ le_val s < l.

Lemma reduced_residue v : reduced (le_bytes 32 (v mod l)) /\ le_val (le_bytes 32 (v mod l)) = v mod l.
Proof.
  assert (0 <= v mod l < l) by (apply Z.mod_pos_bound; reflexivity).
  assert (E : le_val (le_bytes 32 (v mod l)) = v mod l).
  { rewrite le_bytes_val. apply Z.mod_small. assert (l < 2 ^ (8 * Z.of_nat 32)) by reflexivity. lia. }
  split; [|exact E]. split; [|rewrite E; lia].
  split; [apply le_bytes_bytes | apply le_bytes_length].
Qed.

Lemma reduced_eq s v : s = le_bytes 32 (v mod l) -> reduced s /\ le_val s = v mod l.
Proof. intros ->. apply reduced_residue. Qed.

Ltac bytes_decide := split; [repeat constructor; unfold is_byte; lia | reflexivity].

(** Operands for the witnesses: all bits set, the largest there are. *)
Definition ones (n : nat) : list Z := repeat 255 n.

Lemma ones_bytes n : bytes_of n (ones n).
Proof.
  split; [induction n; constructor; [unfold is_byte; lia | assumption]|].
  apply repeat_length.
Qed.

(** ** Properties *)

(** [sc_reduce] replaces any 64 bytes by the canonical 32 bytes of their
    value modulo l, [sc_reduce32] any 32 bytes, without an overflow; a reduced
    scalar is left as it is. *)
Theorem sc_reduce_correct s :
  (bytes_of 64 s -> exists r, sc_reduce s = Some r /\ reduced r /\ le_val r = le_val s mod l) /\
  (bytes_of 32 s -> exists r, sc_reduce32 s = Some r /\ reduced r /\ le_val r = le_val s mod l) /\
  (reduced s -> sc_reduce32 s = Some s).
Proof.
  split; [|split].
  - intros [Hb Hl]. eexists. split; [apply sc_reduce_ok; assumption | apply reduced_residue].
  - intros [Hb Hl]. eexists. split; [apply sc_reduce32_ok; assumption | apply reduced_residue].
  - intros [[Hb Hl] Hlt]. rewrite (sc_reduce32_ok s Hb Hl).
    pose proof (le_val_range s Hb). rewrite Z.mod_small by lia.
    rewrite <- Hl, le_bytes_le_val by exact Hb. reflexivity.
Qed.

Lemma sc_reduce_correct_witness :
  (exists r, sc_reduce (ones 64) = Some r /\ reduced r /\ le_val r = le_val (ones 64) mod l) /\
  (exists r, sc_reduce32 (ones 32) = Some r /\ reduced r /\ le_val r = le_val (ones 32) mod l) /\
  sc_reduce32 sc_0 = Some sc_0.
Proof.
  split; [apply (sc_reduce_correct (ones 64)), ones_bytes|].
  split; [apply (sc_reduce_correct (ones 32)), ones_bytes|].
  apply (sc_reduce_correct sc_0). split; [bytes_decide | reflexivity].
Defined.

(** [sc_add] and [sc_sub] are the sum and the difference modulo l. *)
Theorem sc_add_sub_correct a b :
  bytes_of 32 a -> bytes_of 32 b ->
  (exists r, sc_add a b = Some r /\ reduced r /\ le_val r = (le_val a + le_val b) mod l) /\
  (exists r, sc_sub a b = Some r /\ reduced r /\ le_val r = (le_val a - le_val b) mod l).
Proof.
  intros Ha Hb. rewrite sc_add_ok, sc_sub_ok by assumption.
  split; (eexists; split; [reflexivity | apply reduced_residue]).
Qed.

Lemma sc_add_sub_correct_witness :
  (exists r, sc_add sc_0 (ones 32) = Some r /\ reduced r /\
     le_val r = (le_val sc_0 + le_val (ones 32)) mod l) /\
  (exists r, sc_sub sc_0 (ones 32) = Some r /\ reduced r /\
     le_val r = (le_val sc_0 - le_val (ones 32)) mod l).
Proof. apply (sc_add_sub_correct sc_0 (ones 32)); [bytes_decide | apply ones_bytes]. Defined.

(** C40: [sc_mul], [sc_muladd] and [sc_mulsub] are a b, c + a b and c - a b
    modulo l for arbitrary 256-bit operands: the twenty-three 64-bit sums of
    products never overflow. *)
Theorem sc_products_correct a b c :
  bytes_of 32 a -> bytes_of 32 b -> bytes_of 32 c ->
  (exists r, sc_mul a b = Some r /\ reduced r /\ le_val r = le_val a * le_val b mod l) /\
  (exists r, sc_muladd a b c = Some r /\ reduced r /\ le_val r = (le_val c + le_val a * le_val b) mod l) /\
  (exists r, sc_mulsub a b c = Some r /\ reduced r /\ le_val r = (le_val c - le_val a * le_val b) mod l).
Proof.
  intros Ha Hb Hc. rewrite sc_mul_ok, sc_muladd_ok, sc_mulsub_ok by assumption.
  split; [|split]; (eexists; split; [reflexivity | apply reduced_residue]).
Qed.

Lemma sc_products_correct_witness :
  (exists r, sc_mul (ones 32) (ones 32) = Some r /\ reduced r /\
     le_val r = le_val (ones 32) * le_val (ones 32) mod l) /\
  (exists r, sc_muladd (ones 32) (ones 32) sc_0 = Some r /\ reduced r /\
     le_val r = (le_val sc_0 + le_val (ones 32) * le_val (ones 32)) mod l) /\
  (exists r, sc_mulsub (ones 32) (ones 32) sc_0 = Some r /\ reduced r /\
     le_val r = (le_val sc_0 - le_val (ones 32) * le_val (ones 32)) mod l).
Proof.
  apply (sc_products_correct (ones 32) (ones 32) sc_0); [apply ones_bytes | apply ones_bytes | bytes_decide].
Defined.

(** [sc_check] returns 0 exactly on the 32-byte strings whose value is
    below l, -1 on the others, and [sc_isnonzero] is 0 exactly on the zero
    string. *)
Theorem sc_check_correct s :
  bytes_of 32 s ->
  (sc_check s = Some 0 <-> le_val s < l) /\ (sc_check s = Some (-1) <-> l <= le_val s) /\
  (sc_isnonzero s = 0 <-> le_val s = 0).
Proof.
  intros Hs. rewrite sc_check_ok by exact Hs. unfold sc_isnonzero. rewrite bytes_isnonzero_ok by apply Hs.
  destruct (Z.ltb_spec (le_val s) l), (Z.eqb_spec (le_val s) 0); repeat split;
    solve [congruence | lia | intros E; first [discriminate E | reflexivity]].
Qed.

Lemma sc_check_correct_witness :
  (sc_check (ones 32) = Some 0 <-> le_val (ones 32) < l) /\
  (sc_check (ones 32) = Some (-1) <-> l <= le_val (ones 32)) /\
  (sc_isnonzero (ones 32) = 0 <-> le_val (ones 32) = 0).
Proof. apply (sc_check_correct (ones 32) (ones_bytes 32)). Defined.
