(* ===== verification/CurveSpec.v ===== *)
(** * What the curve operations promise

    The group operations, the encoding and the scalar multiplications, with
    the group of Curve.v as the abstract specification: each record of field
    elements stands for a point ([p2_rep], [p3_rep], [p1p1_rep], [cached_rep],
    [precomp_rep]), and each C function computes on the records what the group
    does on the points. *)

From S2P Require Import Prelude.
From S2P Require Import CInt.
From S2P Require Import Bytes.
From S2P Require Import Limbs.
From S2P Require Import Fe.
From S2P Require Import FeMul.
From S2P Require Import FeBytes.
From S2P Require Import FePow.
From S2P Require Import Prime25519.
From S2P Require Import Group.
From S2P Require Import Curve.
From S2P Require Import FeField.
From S2P Require Import Ge.
From S2P Require Import Decode.
From S2P Require Import Recode.
From S2P Require Import GeData.
From S2P Require Import ScalarMult.
From S2P Require Import ScalarMultOk.
From S2P Require Import Tables.
From S2P Require Import Vartime.
From Stdlib Require Import Zmod Ring.

(** ** Lemmas *)

Definition small_scalar (k : Z) : list Z := le_bytes 32 k.

Lemma small_scalar_ok k : 0 <= k < 2 ^ 255 -> scalar (small_scalar k) /\ le_val (small_scalar k) = k.
Proof.
  intros Hk. assert (E : le_val (small_scalar k) = k).
  { unfold small_scalar. rewrite le_bytes_val. apply Z.mod_small.
    assert (2 ^ 255 < 2 ^ (8 * Z.of_nat 32)) by reflexivity. lia. }
  split; [|exact E]. split; [split; [apply le_bytes_bytes | apply le_bytes_length] | rewrite E; lia].
Qed.

Lemma small_scalar_scalar k : 0 <= k < 2 ^ 255 -> scalar (small_scalar k).
Proof. intros Hk. apply small_scalar_ok, Hk. Qed.

(** The cached form and the windows of the base point, as the code computes them. *)
Definition base_cached : ge_cached := default ge_cached_0 (ge_p3_to_cached base_p3).
Definition base_odds : list ge_cached := default [] (ge_dsm_precomp base_p3).

Lemma default_ok {A} (d : A) c Q : returns c Q -> Q (default d c).
Proof. intros (a & -> & Ha). exact Ha. Qed.

Lemma base_cached_ok : cached_rep base_point base_cached.
Proof. unfold base_cached. apply (default_ok ge_cached_0), ge_p3_to_cached_ok, base_p3_ok. Qed.

Lemma base_odds_ok : odds 7 1 base_point base_odds.
Proof. unfold base_odds. apply (default_ok []), ge_dsm_precomp_ok, base_p3_ok. Qed.

Lemma encode_bytes P : bytes_of 32 (encode P).
Proof. split; [apply le_bytes_bytes | apply le_bytes_length]. Qed.

(** Both byte encoders after an operation. *)
Lemma tobytes_p2 c P : returns c (p2_rep P) -> (r ← c; ge_tobytes r) = Some (encode P).
Proof. intros (r & -> & H). apply ge_tobytes_ok, H. Qed.

Lemma tobytes_p3 c P : returns c (p3_rep P) -> (r ← c; ge_p3_tobytes r) = Some (encode P).
Proof. intros (r & -> & H). apply ge_p3_tobytes_ok, H. Qed.

Lemma p1p1_to_p2_bytes c P :
  returns c (p1p1_rep P) -> (t ← c; r ← ge_p1p1_to_p2 t; ge_tobytes r) = Some (encode P).
Proof.
  intros (t & -> & Ht). cbn [mbind option_bind]. apply tobytes_p2, ge_p1p1_to_p2_ok, Ht.
Qed.

Ltac scalar_decide := apply small_scalar_scalar; split; [discriminate | reflexivity].

(** ** The group operations *)

(** The four additions, of a cached or a precomputed point with either
    sign, compute the group operation for every pair of points, with no
    exceptional case; [ge_mul8] multiplies by the cofactor. *)
Theorem ge_additions_refine P Q R p q r g :
  p3_rep P p -> cached_rep Q q -> precomp_rep R r -> p2_rep P g ->
  returns (ge_add p q) (p1p1_rep (P + Q)%G) /\ returns (ge_sub p q) (p1p1_rep (P + - Q)%G) /\
  returns (ge_madd p r) (p1p1_rep (P + R)%G) /\ returns (ge_msub p r) (p1p1_rep (P + - R)%G) /\
  (t ← ge_mul8 g; r ← ge_p1p1_to_p2 t; ge_tobytes r) = Some (encode (gmul 8 P)).
Proof.
  intros Hp Hq Hr Hg. split; [apply ge_add_ok; assumption|]. split; [apply ge_sub_ok; assumption|].
  split; [apply ge_madd_ok; assumption|]. split; [apply ge_msub_ok; assumption|].
  apply p1p1_to_p2_bytes, ge_mul8_ok, Hg.
Qed.

Lemma ge_additions_refine_witness :
  returns (ge_add ge_p3_0 base_cached) (p1p1_rep (gzero + base_point)%G) /\
  returns (ge_sub ge_p3_0 base_cached) (p1p1_rep (gzero + - base_point)%G) /\
  returns (ge_madd ge_p3_0 ge_precomp_0) (p1p1_rep (gzero + gzero)%G) /\
  returns (ge_msub ge_p3_0 ge_precomp_0) (p1p1_rep (gzero + - gzero)%G) /\
  (t ← ge_mul8 ge_p2_0; r ← ge_p1p1_to_p2 t; ge_tobytes r) = Some (encode (gmul 8 gzero)).
Proof.
  apply (ge_additions_refine gzero base_point gzero);
    [apply ge_p3_0_ok | apply base_cached_ok | apply ge_precomp_0_ok | apply ge_p2_0_ok].
Defined.

(** The doubling formula [ge_p2_dbl], which is not the addition formula,
    agrees with the addition of a point to itself as [ge_add] computes it: both
    give the same encoding. *)
Theorem ge_dbl_agrees_with_add P p q g :
  p3_rep P p -> cached_rep P q -> p2_rep P g ->
  (t ← ge_p2_dbl g; r ← ge_p1p1_to_p2 t; ge_tobytes r) =
  (t ← ge_add p q; r ← ge_p1p1_to_p2 t; ge_tobytes r).
Proof.
  intros Hp Hq Hg. rewrite !(p1p1_to_p2_bytes _ (P + P)%G); [reflexivity | |].
  - apply ge_add_ok; assumption.
  - apply ge_p2_dbl_ok, Hg.
Qed.

Lemma ge_dbl_agrees_with_add_witness :
  (t ← ge_p2_dbl ge_p2_0; r ← ge_p1p1_to_p2 t; ge_tobytes r) =
  (t ← ge_add ge_p3_0 ge_cached_0; r ← ge_p1p1_to_p2 t; ge_tobytes r).
Proof.
  apply (ge_dbl_agrees_with_add gzero); [apply ge_p3_0_ok | apply ge_cached_0_ok | apply ge_p2_0_ok].
Defined.

(** ** Encoding and decoding *)

(** C32: [ge_frombytes_vartime] accepts exactly the 32-byte strings that encode
    a point of the curve (non-canonical y, a y without a root, and the sign bit
    set on x = 0 are all refused), and what it returns stands for that point. *)
Theorem ge_frombytes_accepts_encodings s :
  bytes_of 32 s ->
  exists r, ge_frombytes_vartime s = Some r /\
    match r with
    | Some g => exists P, p3_rep P g /\ encode P = s
    | None => forall P, encode P <> s
    end.
Proof. apply ge_frombytes_vartime_ok. Qed.

Lemma ge_frombytes_accepts_encodings_witness :
  exists r, ge_frombytes_vartime (small_scalar 2) = Some r /\
    match r with
    | Some g => exists P, p3_rep P g /\ encode P = small_scalar 2
    | None => forall P, encode P <> small_scalar 2
    end.
Proof.
  apply (ge_frombytes_accepts_encodings (small_scalar 2)).
  split; [apply le_bytes_bytes | apply le_bytes_length].
Defined.

(** Decoding the encoding of a point succeeds and encoding the result gives
    the same bytes back. *)
Theorem ge_encode_decode_roundtrip P p s :
  p3_rep P p -> ge_p3_tobytes p = Some s ->
  exists g, ge_frombytes_vartime s = Some (Some g) /\ p3_rep P g /\ ge_p3_tobytes g = Some s.
Proof.
  intros Hp Hs. rewrite (ge_p3_tobytes_ok P p Hp) in Hs. injection Hs as <-.
  destruct (ge_frombytes_vartime_ok (encode P) (encode_bytes P)) as ([g|] & E & H).
  - destruct H as (Q & HQ & EQ). apply encode_inj in EQ as ->. exists g.
    split; [exact E|]. split; [exact HQ | apply ge_p3_tobytes_ok, HQ].
  - exfalso. exact (H P eq_refl).
Qed.

Lemma ge_encode_decode_roundtrip_witness :
  exists g, ge_frombytes_vartime (small_scalar 1) = Some (Some g) /\ p3_rep gzero g /\
    ge_p3_tobytes g = Some (small_scalar 1).
Proof. apply (ge_encode_decode_roundtrip gzero ge_p3_0); [apply ge_p3_0_ok | vm_compute; reflexivity]. Defined.

(** Two representations are written to the same bytes exactly when they
    stand for the same point, whichever of the two encoders is used. *)
Theorem ge_tobytes_injective P Q p q :
  p3_rep P p -> p2_rep Q q -> ge_p3_tobytes p = ge_tobytes q <-> P = Q.
Proof.
  intros Hp Hq. rewrite (ge_p3_tobytes_ok P p Hp), (ge_tobytes_ok Q q Hq). split.
  - intros E. apply encode_inj. congruence.
  - intros ->. reflexivity.
Qed.

Lemma ge_tobytes_injective_witness : ge_p3_tobytes ge_p3_0 = ge_tobytes ge_p2_0 <-> gzero = (gzero : point).
Proof. apply (ge_tobytes_injective gzero gzero); [apply ge_p3_0_ok | apply ge_p2_0_ok]. Defined.
