(* ===== verification/HashToPoint.v ===== *)
(** * Hashing to a point

    [ge_fromfe_frombytes_vartime] of crypto-ops.c maps any 32 bytes to a point
    of the curve: the map of Elligator on the Montgomery form
    v^2 = u^3 + 486662 u^2 + u.  The assertions of the function are options:
    [None] where one fails. *)

From S2P Require Import Prelude.
From S2P Require Import CInt.
From S2P Require Import Bytes.
From S2P Require Import Limbs.
From S2P Require Import Fe.
From S2P Require Import FeMul.
From S2P Require Import FeBytes.
From S2P Require Import FePow.
From S2P Require Import Prime25519.
From S2P Require Import Group.
From S2P Require Import Curve.
From S2P Require Import FeField.
From S2P Require Import Ge.
From S2P Require Import Decode.
From Stdlib Require Import Zmod Ring Zpow_facts.

(** ** Operation *)

(** [assert(fe_isnonzero(f))] and [assert(!fe_isnonzero(f))]. *)
Definition assert_nonzero (f : fe) : option unit := n ← fe_isnonzero f; if n =? 0 then None else Some tt.
Definition assert_zero (f : fe) : option unit := n ← fe_isnonzero f; if n =? 0 then Some tt else None.

(** The end of the branch that multiplies by [u]. *)
Definition fromfe_nonnegative (hX u v z : fe) : option (fe * fe * Z) :=
  hX ← fe_mul hX u;
  z ← fe_mul z v;
  Some (hX, z, 0).

(** The label [negative]. *)
Definition fromfe_negative (hX w x z : fe) : option (fe * fe * Z) :=
  x ← fe_mul x fe_sqrtm1;
  y ← fe_sub w x;
  n ← fe_isnonzero y;
  hX ← (if n =? 0 then fe_mul hX fe_fffb4
        else (y ← fe_add w x; _ ← assert_zero y; fe_mul hX fe_fffb3));
  Some (hX, z, 1).

Definition fromfe_branch (hX u v w x z : fe) : option (fe * fe * Z) :=
  y ← fe_sub w x;
  n ← fe_isnonzero y;
  if n =? 0 then (hX ← fe_mul hX fe_fffb2; fromfe_nonnegative hX u v z)
  else
    y ← fe_add w x;
    n ← fe_isnonzero y;
    if n =? 0 then (hX ← fe_mul hX fe_fffb1; fromfe_nonnegative hX u v z)
    else fromfe_negative hX w x z.

(** The label [setsign]. *)
Definition fromfe_sign (hX : fe) (sign : Z) : option fe :=
  neg ← fe_isnegative hX;
  if neg =? sign then Some hX else (_ ← assert_nonzero hX; fe_neg hX).

(** The check of the result that builds with assertions make. *)
Definition fromfe_check (hX hY hZ : fe) : option unit :=
  check_iz ← fe_invert hZ;
  check_x ← fe_mul hX check_iz;
  check_y ← fe_mul hY check_iz;
  check_x ← fe_sq check_x;
  check_y ← fe_sq check_y;
  check_v ← fe_mul check_x check_y;
  check_v ← fe_mul fe_d check_v;
  check_v ← fe_add check_v check_x;
  check_v ← fe_sub check_v check_y;
  let check_x := fe_1 in
  check_v ← fe_add check_v check_x;
  assert_zero check_v.

Definition ge_fromfe_frombytes_vartime (s : list Z) : option ge_p2 :=
  h ← frombytes_limbs s (frombytes_h9 s);
  h ← run frombytes_carry h;
  let u := fe_store h in
  v ← fe_sq2 u;
  let w := fe_1 in
  w ← fe_add v w;
  x ← fe_sq w;
  y ← fe_mul fe_ma2 v;
  x ← fe_add x y;
  hX ← fe_divpowm1 w x;
  y ← fe_sq hX;
  x ← fe_mul y x;
  z ← fe_copy fe_ma;
  '(hX, z, sign) ← fromfe_branch hX u v w x z;
  hX ← fromfe_sign hX sign;
  hZ ← fe_add z w;
  hY ← fe_sub z w;
  hX ← fe_mul hX hZ;
  _ ← fromfe_check hX hY hZ;
  Some (P2 hX hY hZ).

(** ** Squares *)

Definition mont_A : F := ofZ 486662.
Definition is_square (a : F) : Prop := exists q : F, (q * q = a)%F.

Lemma F_nonsquare a : (a ^ ((p - 1) / 2)) mod p = p - 1 -> a mod p <> 0 -> ~ is_square (ofZ a).
Proof.
  intros He Hnz (q & Hq). apply (nonsquare_euler a ((p - 1) / 2) (Zmod.to_Z q)).
  - vm_compute. discriminate.
  - eval_closed.
  - unfold eqmod. rewrite He. eval_closed.
  - intros E. apply Hnz. rewrite E. reflexivity.
  - apply ofZ_eq. rewrite Zmod.of_Z_mul, !Zmod.of_Z_to_Z. exact Hq.
Qed.

Lemma two_nonsquare : ~ is_square (1 + 1)%F.
Proof.
  assert (E : (1 + 1)%F = ofZ 2) by (apply Zmod.to_Z_inj; eval_closed). rewrite E.
  apply F_nonsquare; [rewrite <- Zpow_mod_correct by discriminate; eval_closed | discriminate].
Qed.

Lemma i_nonsquare : ~ is_square curve_i /\ ~ is_square (0 - curve_i)%F.
Proof.
  assert (H : ~ is_square curve_i).
  { apply F_nonsquare; [rewrite <- Zpow_mod_correct by discriminate; eval_closed | discriminate]. }
  split; [exact H|]. intros (q & Hq). apply H. exists (curve_i * q)%F.
  transitivity (curve_i * curve_i * (q * q))%F; [ring|]. rewrite Hq, curve_i_sq. ring.
Qed.

(** A square divided by a square that is not zero. *)
Lemma square_div a b q : (q * q = a)%F -> q <> 0%F -> is_square (a * b)%F -> is_square b.
Proof.
  intros Hq Hnz (r & Hr). destruct (F_inverse q Hnz) as (w & Hw). exists (r * w)%F.
  transitivity ((r * r) * (w * w))%F; [ring|]. rewrite Hr, <- Hq.
  transitivity ((q * w) * (q * w) * b)%F; [ring|]. rewrite Hw. ring.
Qed.

(** ** The root *)

(** The power that the root leaves is a fourth root of one. *)
Lemma root_unit_fourth u v : ~ u ≡[p] 0 -> ~ v ≡[p] 0 ->
  let c := ofZ (root_unit u v) in c = 1%F \/ c = (0 - 1)%F \/ c = curve_i \/ c = (0 - curve_i)%F.
Proof.
  intros Hu Hv c. set (k := root_unit u v) in *.
  assert (Hk : k * k * (k * k) ≡[p] 1).
  { unfold k, root_unit. rewrite <- !Z.pow_add_r by (vm_compute; discriminate).
    change ((p - 1) / 4 + (p - 1) / 4 + ((p - 1) / 4 + (p - 1) / 4)) with (p - 1). apply fermat. intros E.
    destruct (eqmod_p_integral _ _ E) as [E1|E1]; [contradiction|]. apply Hv.
    assert (Hpow : forall n, v ^ Z.of_nat n ≡[p] 0 -> v ≡[p] 0).
    { induction n as [|n IH]; [intros H; discriminate H|]. rewrite Nat2Z.inj_succ, Z.pow_succ_r by lia.
      intros H. destruct (eqmod_p_integral _ _ H) as [|H']; [assumption | apply IH, H']. }
    apply (Hpow 7%nat E1). }
  assert (Hc : (c * c * (c * c) = 1)%F).
  { unfold c. rewrite <- !Zmod.of_Z_mul. transitivity (ofZ 1); [apply ofZ_eq, Hk | apply Zmod.to_Z_inj; eval_closed]. }
  clearbody c. clear Hk k. pose proof curve_i_sq as Hi.
  assert (E : ((c - 1) * ((c + 1) * ((c - curve_i) * (c + curve_i))) = 0)%F).
  { transitivity (c * c * (c * c) - c * c * (curve_i * curve_i) - c * c + curve_i * curve_i)%F; [ring|]. rewrite Hc, Hi. ring. }
  destruct (integral F_field _ _ E) as [E1|E1]; [left; apply F_sub_0, E1|].
  destruct (integral F_field _ _ E1) as [E2|E2]; [right; left; apply F_sub_0; transitivity (c + 1)%F; [ring | exact E2]|].
  destruct (integral F_field _ _ E2) as [E3|E3]; [right; right; left; apply F_sub_0, E3 | right; right; right].
  apply F_sub_0. transitivity (c + curve_i)%F; [ring | exact E3].
Qed.

Lemma fv_root a b u v f g :
  a <= 330 -> b <= 330 -> fv a u f -> fv b v g -> u <> 0%F -> v <> 0%F ->
  returns (fe_divpowm1 f g)
    (fun h => exists x c, fv 101 x h /\ (x * x * v = u * c)%F /\
       (c = 1%F \/ c = (0 - 1)%F \/ c = curve_i \/ c = (0 - curve_i)%F)).
Proof.
  intros Ha Hb Hf Hg Hu Hv. apply (fv_mono a 330 _ _ Ha) in Hf as [Hf <-]. apply (fv_mono b 330 _ _ Hb) in Hg as [Hg <-].
  destruct (fe_divpowm1_ok f g Hf Hg) as (h & E & Hw & Hval).
  exists h. split; [exact E|]. exists (fF h), (ofZ (root_unit (fe_val f) (fe_val g))).
  split; [split; [exact Hw | reflexivity]|]. unfold fF in *. rewrite <- !Zmod.of_Z_mul. split.
  - apply ofZ_eq. rewrite Hval. apply eqmod_eq, root_candidate_sq.
  - apply root_unit_fourth; intros H; [apply Hu | apply Hv]; apply ofZ_eq, H.
Qed.

(** ** Constants *)

Lemma mont_d : ((mont_A + (1 + 1)) * curve_d = 0 - (mont_A - (1 + 1)))%F.
Proof. apply Zmod.to_Z_inj. eval_closed. Qed.

(** The constants of the table: the square roots that the branches need. *)
Definition mont_B : F := (mont_A * (mont_A + (1 + 1)))%F.

Lemma fv_constant f : bool_decide (fe_within 101 f) = true -> fv 101 (fF f) f.
Proof. intros H. split; [apply (bool_decide_eq_true_1 _ H) | reflexivity]. Qed.

Lemma fv_ma : fv 101 (0 - mont_A)%F fe_ma.
Proof. split; [apply (bool_decide_eq_true_1 (fe_within 101 fe_ma)); eval_closed | apply Zmod.to_Z_inj; eval_closed]. Qed.

Lemma fv_ma2 : fv 101 (0 - mont_A * mont_A)%F fe_ma2.
Proof. split; [apply (bool_decide_eq_true_1 (fe_within 101 fe_ma2)); eval_closed | apply Zmod.to_Z_inj; eval_closed]. Qed.

Lemma fffb_roots :
  (fF fe_fffb1 * fF fe_fffb1 = 0 - (1 + 1) * mont_B)%F /\ (fF fe_fffb2 * fF fe_fffb2 = (1 + 1) * mont_B)%F /\
  (fF fe_fffb3 * fF fe_fffb3 = 0 - curve_i * mont_B)%F /\ (fF fe_fffb4 * fF fe_fffb4 = curve_i * mont_B)%F.
Proof. repeat split; apply Zmod.to_Z_inj; eval_closed. Qed.

(** A + 2 is a square, and -A is not. *)
Definition mont_root : F := ofZ 48802004052532134862652268456126542835229456083994414501085850622543968879637.

Lemma mont_A_nonsquare : ~ is_square (0 - mont_A)%F.
Proof.
  assert (E : (0 - mont_A)%F = ofZ (p - 486662)) by (apply Zmod.to_Z_inj; eval_closed). rewrite E.
  apply F_nonsquare; [rewrite <- Zpow_mod_correct by discriminate; eval_closed | discriminate].
Qed.

Lemma F_cancel_l (a x y : F) : a <> 0%F -> (a * x = a * y)%F -> x = y.
Proof.
  intros Ha E. apply F_sub_0. destruct (integral F_field a (x - y)%F) as [H|H]; [|contradiction | exact H].
  transitivity (a * x - a * y)%F; [ring|]. rewrite E. ring.
Qed.

Lemma F_nonzero (x : F) : Zmod.to_Z x <> 0 -> x <> 0%F.
Proof. intros H ->. apply H. reflexivity. Qed.

(** ** From the Montgomery form to the curve *)

(** The quotient z/w is the coordinate of a point of the Montgomery form, whose
    other coordinate is a multiple of the quotient of z/w by [X]. *)
Definition mont_point (X z w : F) : Prop :=
  (0 - (mont_A + (1 + 1)) * z * w = X * X * (z * z + mont_A * z * w + w * w))%F.

Lemma mont_no_pole X z w : w <> 0%F -> mont_point X z w -> (z + w <> 0)%F.
Proof.
  intros Hw H E. assert (Ez : z = (0 - w)%F) by (transitivity (z + w - w)%F; [ring | rewrite E; ring]). subst z. unfold mont_point in H.
  assert (H1 : (mont_A + (1 + 1) = X * X * ((1 + 1) - mont_A))%F).
  { apply (F_cancel_l (w * w)); [apply F_mul_nz; exact Hw|].
    transitivity (0 - (mont_A + (1 + 1)) * (0 - w) * w)%F; [ring|]. rewrite H. ring. }
  assert (Ha : (mont_A + (1 + 1) <> 0)%F) by (apply F_nonzero; discriminate).
  assert (H2 : (X * X * curve_d = 1)%F).
  { apply (F_cancel_l (mont_A + (1 + 1))); [exact Ha|].
    transitivity (X * X * ((mont_A + (1 + 1)) * curve_d))%F; [ring|]. rewrite mont_d.
    transitivity (X * X * ((1 + 1) - mont_A))%F; [ring|]. rewrite <- H1. ring. }
  assert (HX : X <> 0%F) by (intros ->; apply F_one_nz; rewrite <- H2; ring).
  destruct (square_div (X * X) curve_d X) as (q & Hq); [reflexivity | exact HX | exists 1%F; rewrite H2; ring|].
  apply (curve_d_nonsquare q), Hq.
Qed.

Lemma mont_on_curve X z w y : (z + w <> 0)%F -> mont_point X z w -> (y * (z + w) = z - w)%F -> on_curve (X, y).
Proof.
  intros Hz H Hy. unfold on_curve. cbn [fst snd]. apply F_sub_0.
  apply (F_cancel_l ((mont_A + (1 + 1)) * ((z + w) * (z + w)))%F); [repeat apply F_mul_nz; try exact Hz; apply F_nonzero; discriminate|].
  transitivity ((mont_A + (1 + 1)) * ((y * (z + w)) * (y * (z + w)) - X * X * ((z + w) * (z + w)) - (z + w) * (z + w))
    - (X * X) * ((y * (z + w)) * (y * (z + w))) * ((mont_A + (1 + 1)) * curve_d))%F; [ring|].
  rewrite Hy, mont_d.
  transitivity ((1 + 1) * (1 + 1) * ((0 - (mont_A + (1 + 1)) * z * w) - X * X * (z * z + mont_A * z * w + w * w)))%F; [ring|].
  rewrite H. ring.
Qed.

(** ** The map *)

Definition map_t (u : F) : F := ((1 + 1) * (u * u))%F.
Definition map_w (u : F) : F := (map_t u + 1)%F.
Definition map_x (u : F) : F := (map_w u * map_w u - mont_A * mont_A * map_t u)%F.

Lemma map_w_nz u : map_w u <> 0%F.
Proof.
  intros E. assert (Hu : u <> 0%F) by (intros ->; apply F_one_nz; rewrite <- E; unfold map_w, map_t; ring).
  apply two_nonsquare. apply (square_div (u * u) _ u); [reflexivity | exact Hu|]. exists curve_i. rewrite curve_i_sq.
  transitivity (map_w u - 1)%F; [rewrite E; reflexivity | unfold map_w, map_t; ring].
Qed.

Lemma map_x_nz u : map_x u <> 0%F.
Proof.
  intros E. assert (Hu : u <> 0%F) by (intros ->; apply F_one_nz; rewrite <- E; unfold map_x, map_w, map_t; ring).
  apply two_nonsquare. apply (square_div ((mont_A * u) * (mont_A * u)) _ (mont_A * u)%F); [reflexivity | |].
  - apply F_mul_nz; [apply F_nonzero; discriminate | exact Hu].
  - exists (map_w u). apply F_sub_0. rewrite <- E. unfold map_x, map_t. ring.
Qed.

Lemma mont_root_sq : (mont_root * mont_root = mont_A + (1 + 1))%F.
Proof. apply Zmod.to_Z_inj. eval_closed. Qed.

(** The two sides the branches tell apart, and what they leave: the root, the
    numerator of the Montgomery coordinate, and the sign. *)
Definition branched (u r X z : F) (sign : Z) : Prop :=
  (is_square (map_w u * map_x u) /\ sign = 0 /\ z = (0 - mont_A * map_t u)%F /\ (X * X * map_x u = mont_B * map_w u * map_t u)%F) \/
  (~ is_square (map_w u * map_x u) /\ sign = 1 /\ z = (0 - mont_A)%F /\ (X * X * map_x u = mont_B * map_w u)%F).

Lemma root_square u r c : (r * r * map_x u = map_w u * c)%F -> c = 1%F \/ c = (0 - 1)%F -> is_square (map_w u * map_x u).
Proof.
  intros E [-> | ->].
  - exists (r * map_x u)%F. transitivity (r * r * map_x u * map_x u)%F; [ring|]. rewrite E. ring.
  - exists (curve_i * (r * map_x u))%F. transitivity (curve_i * curve_i * (r * r * map_x u * map_x u))%F; [ring|].
    rewrite E, curve_i_sq. ring.
Qed.

Lemma root_nonsquare u r c : (r * r * map_x u = map_w u * c)%F -> c = curve_i \/ c = (0 - curve_i)%F -> ~ is_square (map_w u * map_x u).
Proof.
  intros E Hc (q & Hq).
  assert (Hn : q <> 0%F).
  { intros ->. apply (F_mul_nz _ _ (map_w_nz u) (map_x_nz u)). rewrite <- Hq. ring. }
  assert (Hs : is_square c).
  { apply (square_div _ _ q Hq Hn). exists (r * map_x u)%F. transitivity (r * r * map_x u * map_x u)%F; [ring|]. rewrite E. ring. }
  destruct i_nonsquare as [H1 H2]. destruct Hc; subst c; contradiction.
Qed.

Ltac zero_test D := nonzero_step; destruct (decide _) as [D|D]; cbn [Z.eqb mbind option_bind].

Lemma assert_zero_ok a x f : a <= 320 -> fv a x f -> x = 0%F -> assert_zero f = Some tt.
Proof. intros Ha Hf Hx. unfold assert_zero. rewrite (fv_isnonzero a x f Ha Hf), decide_True by exact Hx. reflexivity. Qed.

Lemma assert_nonzero_ok a x f : a <= 320 -> fv a x f -> x <> 0%F -> assert_nonzero f = Some tt.
Proof. intros Ha Hf Hx. unfold assert_nonzero. rewrite (fv_isnonzero a x f Ha Hf), decide_False by exact Hx. reflexivity. Qed.

Lemma fromfe_nonnegative_ok u r b hX fu ft fz :
  (is_square (map_w u * map_x u)) -> fv 101 u fu -> fv 101 (map_t u) ft -> fv 101 (0 - mont_A)%F fz -> fv 101 (r * b)%F hX ->
  (r * b * (r * b) * map_x u = (1 + 1) * mont_B * map_w u)%F ->
  returns (fromfe_nonnegative hX fu ft fz)
    (fun '(hX, hz, sign) => exists X z, fv 101 X hX /\ fv 101 z hz /\ branched u r X z sign).
Proof.
  intros Hs Hu Ht Hz HX E. unfold fromfe_nonnegative. fe_steps. eexists _, _. split; [eassumption|]. split; [eassumption|].
  left. split; [exact Hs|]. split; [reflexivity|]. split; [ring|].
  transitivity (r * b * (r * b) * map_x u * (u * u))%F; [ring|]. rewrite E. unfold map_t. ring.
Qed.

Lemma i_facts : (1 - curve_i <> 0)%F /\ (1 + curve_i <> 0)%F.
Proof.
  assert (Ht : (1 + 1 <> 0)%F) by (apply F_nonzero; discriminate).
  assert (E : ((1 - curve_i) * (1 + curve_i) = 1 + 1)%F)
    by (transitivity (1 - curve_i * curve_i)%F; [ring | rewrite curve_i_sq; ring]).
  split; intros H; apply Ht; rewrite <- E, H; ring.
Qed.

Lemma fromfe_negative_ok u r c hX fw fx fz :
  (r * r * map_x u = map_w u * c)%F -> c = curve_i \/ c = (0 - curve_i)%F ->
  fv 101 r hX -> fv 102 (map_w u) fw -> fv 101 (map_w u * c)%F fx -> fv 101 (0 - mont_A)%F fz ->
  returns (fromfe_negative hX fw fx fz)
    (fun '(hX, hz, sign) => exists X z, fv 101 X hX /\ fv 101 z hz /\ branched u r X z sign).
Proof.
  intros E Hc HX Hw Hx Hz. pose proof (root_nonsquare u r c E Hc) as Hs. destruct fffb_roots as (_ & _ & E3 & E4).
  pose proof fv_sqrtm1. unfold fromfe_negative. fe_step. fe_step. zero_test D.
  - assert (Ec : c = (0 - curve_i)%F).
    { destruct Hc as [Hc|Hc]; [|exact Hc]. exfalso. apply (F_two_mul_nz _ (map_w_nz u)). rewrite <- D, Hc.
      transitivity (map_w u - map_w u * (curve_i * curve_i))%F; [rewrite curve_i_sq; ring | ring]. }
    pose proof (fv_constant fe_fffb4 ltac:(eval_closed)). fe_step. apply returns_Some. eexists _, _. split; [eassumption|]. split; [eassumption|].
    right. split; [exact Hs|]. split; [reflexivity|]. split; [reflexivity|].
    transitivity (r * r * map_x u * (fF fe_fffb4 * fF fe_fffb4))%F; [ring|]. rewrite E, E4, Ec.
    transitivity (0 - map_w u * mont_B * (curve_i * curve_i))%F; [ring|]. rewrite curve_i_sq. ring.
  - assert (Ec : c = curve_i).
    { destruct Hc as [Hc|Hc]; [exact Hc|]. exfalso. apply D. rewrite Hc.
      transitivity (map_w u + map_w u * (curve_i * curve_i))%F; [ring | rewrite curve_i_sq; ring]. }
    pose proof (fv_constant fe_fffb3 ltac:(eval_closed)). eapply (returns_bind _ _ (fv 101 (r * fF fe_fffb3)%F)).
    { fe_step. erewrite assert_zero_ok; [cbn [mbind option_bind]; fe_op | | eassumption |]; [lia|].
      rewrite Ec. transitivity (map_w u + map_w u * (curve_i * curve_i))%F; [ring | rewrite curve_i_sq; ring]. }
    intros ? ?. cbv beta. apply returns_Some. eexists _, _. split; [eassumption|]. split; [eassumption|].
    right. split; [exact Hs|]. split; [reflexivity|]. split; [reflexivity|].
    transitivity (r * r * map_x u * (fF fe_fffb3 * fF fe_fffb3))%F; [ring|]. rewrite E, E3, Ec.
    transitivity (0 - map_w u * mont_B * (curve_i * curve_i))%F; [ring|]. rewrite curve_i_sq. ring.
Qed.

Lemma fromfe_branch_ok u r c hX fu ft fw fx fz :
  (r * r * map_x u = map_w u * c)%F -> c = 1%F \/ c = (0 - 1)%F \/ c = curve_i \/ c = (0 - curve_i)%F ->
  fv 101 r hX -> fv 101 u fu -> fv 101 (map_t u) ft -> fv 102 (map_w u) fw -> fv 101 (map_w u * c)%F fx -> fv 101 (0 - mont_A)%F fz ->
  returns (fromfe_branch hX fu ft fw fx fz)
    (fun '(hX, hz, sign) => exists X z, fv 101 X hX /\ fv 101 z hz /\ branched u r X z sign).
Proof.
  intros E Hc HX Hu Ht Hw Hx Hz. destruct fffb_roots as (E1 & E2 & _ & _). destruct i_facts as [Hi1 Hi2].
  pose proof (map_w_nz u) as Hn. unfold fromfe_branch. fe_step. zero_test D.
  - assert (Ec : c = 1%F).
    { apply (F_cancel_l (map_w u)); [exact Hn|]. transitivity (map_w u)%F; [symmetry; apply F_sub_0, D | ring]. }
    pose proof (fv_constant fe_fffb2 ltac:(eval_closed)). fe_step. eapply fromfe_nonnegative_ok; try eassumption.
    + apply (root_square u r c); auto.
    + transitivity (r * r * map_x u * (fF fe_fffb2 * fF fe_fffb2))%F; [ring|]. rewrite E, E2, Ec. ring.
  - fe_step. zero_test D'.
    + assert (Ec : c = (0 - 1)%F).
      { apply (F_cancel_l (map_w u)); [exact Hn|]. transitivity (map_w u + map_w u * c - map_w u)%F; [ring|]. rewrite D'. ring. }
      pose proof (fv_constant fe_fffb1 ltac:(eval_closed)). fe_step. eapply fromfe_nonnegative_ok; try eassumption.
      * apply (root_square u r c); auto.
      * transitivity (r * r * map_x u * (fF fe_fffb1 * fF fe_fffb1))%F; [ring|]. rewrite E, E1, Ec. ring.
    + eapply fromfe_negative_ok; try eassumption. destruct Hc as [Hc|[Hc|Hc]]; [| |exact Hc]; exfalso.
      * apply D. rewrite Hc. ring.
      * apply D'. rewrite Hc. ring.
Qed.

(** The sign of the root. *)
Lemma fromfe_sign_ok X hX sign : fv 101 X hX -> sign = 0 \/ sign = 1 -> (sign = 1 -> X <> 0%F) ->
  returns (fromfe_sign hX sign) (fun h => exists X', fv 101 X' h /\ (X' * X' = X * X)%F /\ Zmod.to_Z X' mod 2 = sign).
Proof.
  intros HX Hs Hnz. unfold fromfe_sign. rewrite (fv_isnegative X hX HX). cbn [mbind option_bind].
  pose proof (Z.mod_pos_bound (Zmod.to_Z X) 2 ltac:(lia)) as Hm. destruct (Z.eqb_spec (Zmod.to_Z X mod 2) sign) as [E|E].
  - apply returns_Some. exists X. auto.
  - assert (Hx : X <> 0%F).
    { destruct Hs as [->| ->]; [|apply Hnz; reflexivity]. intros ->. apply E. reflexivity. }
    rewrite (assert_nonzero_ok 101 X) by (lia || assumption). cbn [mbind option_bind].
    eapply returns_mono; [apply fv_neg; [|exact HX]; lia|]. intros h Hh. exists (0 - X)%F. split; [exact Hh|].
    split; [ring|]. rewrite F_neg_parity by exact Hx. lia.
Qed.

(** The result is checked without complaint when it is on the curve. *)
Lemma fromfe_check_ok x y Z hX hY hZ : Z <> 0%F -> on_curve (x, y) ->
  fv 101 (x * Z)%F hX -> fv 203 (y * Z)%F hY -> fv 203 Z hZ -> fromfe_check hX hY hZ = Some tt.
Proof.
  intros Hz HC HX HY HZ. unfold on_curve in HC. cbn [fst snd] in HC.
  assert (H : returns (fromfe_check hX hY hZ) (fun _ => True)); [|destruct H as ([] & -> & _); reflexivity].
  unfold fromfe_check. eapply returns_bind; [eapply (fv_invert 203); [lia | exact Hz | exact HZ]|].
  intros iz (i & Hi & Ei). assert (E : forall a : F, (a * Z * i = a)%F).
  { intros a. transitivity (a * (Z * i))%F; [ring|]. rewrite Ei. ring. }
  pose proof fv_d. pose proof fv_1. do 9 fe_step.
  erewrite assert_zero_ok; [apply returns_Some; exact I | | eassumption |]; [lia|].
  rewrite !E. transitivity (1 + curve_d * (x * x) * (y * y) - (y * y - x * x))%F; [ring|]. rewrite HC. ring.
Qed.

(** ** The function *)

(** The map of Elligator on the Montgomery form: of the two candidates for the
    coordinate, the first when it belongs to a point of the curve. *)
Definition mont (m : F) : F := (m * m * m + mont_A * m * m + m)%F.
Definition elligator (u m : F) (sign : Z) : Prop :=
  exists m1, (m1 * (1 + (1 + 1) * (u * u)) = 0 - mont_A)%F /\
    (is_square (mont m1) /\ m = m1 /\ sign = 1 \/ ~ is_square (mont m1) /\ m = (0 - m1 - mont_A)%F /\ sign = 0).

(** The point with Montgomery coordinate [m] and a first coordinate of parity [sign]. *)
Definition has_coordinate (P : point) (m : F) (sign : Z) : Prop :=
  (m + 1 <> 0)%F /\ (py P * (m + 1) = m - 1)%F /\ Zmod.to_Z (px P) mod 2 = sign.

Lemma mont_first u m1 : (m1 * map_w u = 0 - mont_A)%F ->
  (map_w u * map_w u * (map_w u * map_w u) * mont m1 = (0 - mont_A) * (map_w u * map_x u))%F.
Proof.
  intros E. unfold mont.
  transitivity (map_w u * ((m1 * map_w u) * (m1 * map_w u) * (m1 * map_w u) + mont_A * (m1 * map_w u) * (m1 * map_w u) * map_w u
    + (m1 * map_w u) * map_w u * map_w u))%F; [ring|]. rewrite E. unfold map_x. unfold map_w. ring.
Qed.

Lemma branched_elligator u r X z sign : branched u r X z sign ->
  exists m, (m * map_w u = z)%F /\ elligator u m sign /\ mont_point X z (map_w u) /\ (sign = 0 \/ sign = 1) /\ (sign = 1 -> X <> 0%F).
Proof.
  intros Hb. pose proof (map_w_nz u) as Hw. pose proof (map_x_nz u) as Hx. destruct (F_inverse _ Hw) as (i & Hi).
  set (m1 := ((0 - mont_A) * i)%F).
  assert (E1 : (m1 * map_w u = 0 - mont_A)%F) by (unfold m1; transitivity ((0 - mont_A) * (map_w u * i))%F; [ring|]; rewrite Hi; ring).
  assert (E1' : (m1 * (1 + (1 + 1) * (u * u)) = 0 - mont_A)%F) by (rewrite <- E1; unfold map_w, map_t; ring).
  pose proof (mont_first u m1 E1) as Hm. 
  assert (Hw2 : (map_w u * map_w u <> 0)%F) by (apply F_mul_nz; exact Hw).
  destruct Hb as [([q Hq] & -> & -> & HX)|(Hns & -> & -> & HX)].
  - exists (0 - m1 - mont_A)%F. split; [|split; [|split; [|split; [auto | discriminate]]]].
    + transitivity (0 - m1 * map_w u - mont_A * map_w u)%F; [ring|]. rewrite E1. unfold map_w. ring.
    + exists m1. split; [exact E1'|]. right. split; [|auto]. intros (s & Hs). apply mont_A_nonsquare.
      apply (square_div (map_w u * map_x u) _ q); [exact Hq | intros ->; apply (F_mul_nz _ _ Hw Hx); rewrite <- Hq; ring|].
      exists (map_w u * map_w u * s)%F. transitivity (map_w u * map_w u * (map_w u * map_w u) * (s * s))%F; [ring|].
      rewrite Hs, Hm. ring.
    + unfold mont_point. transitivity (mont_B * map_w u * map_t u)%F; [unfold mont_B; ring|]. rewrite <- HX.
      unfold map_x, map_w. ring.
  - exists m1. split; [exact E1|]. split; [|split; [|split; [auto|]]].
    + exists m1. split; [exact E1'|]. left. split; [|auto].
      apply (square_div (map_w u * map_w u * (map_w u * map_w u)) _ (map_w u * map_w u)%F); [ring | exact Hw2|].
      rewrite Hm. assert (Hr : mont_root <> 0%F) by (apply F_nonzero; discriminate). destruct (F_inverse _ Hr) as (j & Hj).
      exists (curve_i * X * map_x u * j)%F.
      transitivity ((curve_i * curve_i) * (X * X * map_x u) * map_x u * (j * j))%F; [ring|]. rewrite HX, curve_i_sq. unfold mont_B.
      rewrite <- mont_root_sq. transitivity ((0 - mont_A) * (map_w u * map_x u) * ((mont_root * j) * (mont_root * j)))%F; [ring|].
      rewrite Hj. ring.
    + unfold mont_point. transitivity (mont_B * map_w u)%F; [unfold mont_B; ring|]. rewrite <- HX. unfold map_x, map_w. ring.
    + intros _ ->. apply (F_mul_nz _ _ (F_nonzero mont_B ltac:(discriminate)) Hw). rewrite <- HX. ring.
Qed.

Ltac fe_step_as f H := eapply returns_bind; [solve [fe_op] | intros f H; cbv beta].

(** C33: hashing to a point.  [ge_fromfe_frombytes_vartime] returns on every
    string of 32 bytes: none of its assertions can fail and no limb overflows.
    The record it fills encodes to a point of the curve, and this point is the
    one Elligator's map assigns to the field element of the string: its Montgomery
    coordinate is -A/(1 + 2u^2) where that belongs to the curve and the other
    candidate, -A minus it, where it does not, and its first coordinate is odd
    in the first case and even in the second. *)
Theorem ge_fromfe_is_elligator s : bytes_of 32 s ->
  exists P m sign, (r ← ge_fromfe_frombytes_vartime s; ge_tobytes r) = Some (encode P) /\
    elligator (ofZ (le_val s)) m sign /\ has_coordinate P m sign.
Proof.
  intros [Hs Hl]. set (u := ofZ (le_val s)).
  enough (H : returns (ge_fromfe_frombytes_vartime s) (fun r => exists P m sign, ge_tobytes r = Some (encode P) /\ elligator u m sign /\ has_coordinate P m sign))
    by (destruct H as (r & -> & H); exact H).
  unfold ge_fromfe_frombytes_vartime. rewrite (frombytes_unmasked_ok s Hs Hl). cbn [mbind option_bind].
  pose proof (le_val_range s Hs) as Hv. rewrite Hl in Hv. destruct (frombytes_reduce_ok (le_val s)) as (h & -> & Hst & Hw & Hval).
  { exact Hv. }
  cbn [mbind option_bind]. rewrite Hst. cbv zeta.
  assert (HU : fv 101 u h) by (split; [exact Hw | apply ofZ_eq, Hval]).
  pose proof fv_1. pose proof fv_ma2. pose proof fv_ma. 
  fe_step_as ft Ht. fe_step_as fw Hfw. do 2 fe_step. fe_step_as fx Hfx.
  change (fv 101 (map_t u) ft) in Ht. change (fv 102 (map_w u) fw) in Hfw. apply (fv_eq _ _ (map_x u)) in Hfx; [|unfold map_x, map_w, map_t; ring].
  eapply returns_bind; [eapply (fv_root 102 202 (map_w u) (map_x u)); [lia | lia | eassumption | eassumption | apply map_w_nz | apply map_x_nz]|].
  intros hX (r & c & Hr & Er & Hc). do 3 fe_step.
  eapply returns_bind.
  { eapply (fromfe_branch_ok u r c); try eassumption. eapply fv_eq; [eassumption | exact Er]. }
  intros [[hX' hz] sign] (X & z & HX & Hz & Hb). destruct (branched_elligator u r X z sign Hb) as (m & Em & Hm & Hp & Hsg & Hnz).
  eapply returns_bind; [apply (fromfe_sign_ok X); assumption|]. intros hX2 (X' & HX' & EX & Hpar).
  assert (Hp' : mont_point X' z (map_w u)) by (unfold mont_point; rewrite EX; exact Hp). clear Hp.
  do 3 fe_step.
  pose proof (mont_no_pole X' z (map_w u) (map_w_nz u) Hp') as HZ. destruct (F_inverse _ HZ) as (i & Hi).
  set (y := ((z - map_w u) * i)%F).
  assert (Ey : (y * (z + map_w u) = z - map_w u)%F) by (unfold y; transitivity ((z - map_w u) * ((z + map_w u) * i))%F; [ring|]; rewrite Hi; ring).
  pose proof (mont_on_curve X' z (map_w u) y HZ Hp' Ey) as HC.
  set (P := (dexist (X', y) HC : point)). assert (HX1 : px P = X') by reflexivity. assert (Hy1 : py P = y) by reflexivity.
  erewrite (fromfe_check_ok X' y (z + map_w u)%F); [|exact HZ | exact HC | eassumption | rewrite Ey; eassumption | eassumption].
  cbn [mbind option_bind]. apply returns_Some. exists P, m, sign. split; [|split; [exact Hm|]].
  - apply (ge_encode_ok P (z + map_w u)%F); rewrite ?HX1, ?Hy1, ?Ey; [exact HZ | eapply fv_mono; [|eassumption]; lia..].
  - assert (Hm1 : ((m + 1) * map_w u = z + map_w u)%F) by (rewrite <- Em; ring).
    split; [|split].
    + intros E. apply HZ. rewrite <- Hm1, E. ring.
    + apply (F_cancel_l (map_w u)); [apply map_w_nz|]. rewrite Hy1.
      transitivity (y * ((m + 1) * map_w u))%F; [ring|]. rewrite Hm1, Ey, <- Em. ring.
    + rewrite HX1. exact Hpar.
Qed.

Lemma ge_fromfe_is_elligator_witness :
  exists P m sign, (r ← ge_fromfe_frombytes_vartime (le_bytes 32 7); ge_tobytes r) = Some (encode P) /\
    elligator (ofZ 7) m sign /\ has_coordinate P m sign.
Proof. apply (ge_fromfe_is_elligator (le_bytes 32 7)). apply (bool_decide_unpack _). vm_compute. exact I. Defined.
