(* ===== verification/MultSpec.v ===== *)
(** * What the scalar multiplications promise

    Each of the ten scalar multiplications of crypto-ops.c against the group
    of Curve.v, the agreement of the variants, the recodings they rest on, the
    tables they read and the case in which two of them leave their output
    unwritten. *)

From S2P Require Import Prelude.
From S2P Require Import CInt.
From S2P Require Import Bytes.
From S2P Require Import Limbs.
From S2P Require Import Fe.
From S2P Require Import FeMul.
From S2P Require Import FeBytes.
From S2P Require Import FePow.
From S2P Require Import Prime25519.
From S2P Require Import Scalar.
From S2P Require Import Group.
From S2P Require Import Curve.
From S2P Require Import FeField.
From S2P Require Import Ge.
From S2P Require Import Decode.
From S2P Require Import Recode.
From S2P Require Import GeData.
From S2P Require Import ScalarMult.
From S2P Require Import ScalarMultOk.
From S2P Require Import Tables.
From S2P Require Import Vartime.
From S2P Require Import Order.
From S2P Require Import CurveSpec.
From Stdlib Require Import Zmod Ring.

(** ** Recodings *)

(** For a scalar below 2^255, [slide] stays within its 256-digit array and
    its signed chars, and leaves 256 digits that are 0 or odd within
    [-15, 15] and whose binary combination is the scalar. *)
Theorem slide_correct a :
  bytes_of 32 a -> le_val a < 2 ^ 255 ->
  exists r, slide a = Some r /\ length r = 256%nat /\ bval r = le_val a /\
    Forall (fun d => d = 0 \/ (Z.odd d = true /\ -15 <= d <= 15)) r.
Proof. apply slide_ok. Qed.

Lemma slide_correct_witness :
  exists r, slide (small_scalar 1000003) = Some r /\ length r = 256%nat /\
    bval r = le_val (small_scalar 1000003) /\
    Forall (fun d => d = 0 \/ (Z.odd d = true /\ -15 <= d <= 15)) r.
Proof.
  apply (slide_correct (small_scalar 1000003)).
  - split; [apply le_bytes_bytes | apply le_bytes_length].
  - reflexivity.
Defined.

(** The two radix-16 recodings, of [ge_scalarmult] and of
    [ge_scalarmult_base], both give 64 digits within [-8, 8] that add up to
    the scalar. *)
Theorem radix16_recodings_correct a :
  bytes_of 32 a -> le_val a < 2 ^ 255 ->
  (hval (radix16 a 0) = le_val a /\ length (radix16 a 0) = 64%nat /\
     Forall (fun d => -8 <= d <= 8) (radix16 a 0)) /\
  (hval (radix16_base a) = le_val a /\ length (radix16_base a) = 64%nat /\
     Forall (fun d => -8 <= d <= 8) (radix16_base a)).
Proof.
  intros Ha Hv. destruct (radix16_scalar a Ha Hv) as (E & Hd & Hl).
  destruct (radix16_base_ok a Ha Hv) as [[E' Hd'] Hl']. repeat split; assumption.
Qed.

Lemma radix16_recodings_correct_witness :
  let a := small_scalar (2 ^ 255 - 1) in
  (hval (radix16 a 0) = le_val a /\ length (radix16 a 0) = 64%nat /\
     Forall (fun d => -8 <= d <= 8) (radix16 a 0)) /\
  (hval (radix16_base a) = le_val a /\ length (radix16_base a) = 64%nat /\
     Forall (fun d => -8 <= d <= 8) (radix16_base a)).
Proof.
  apply (radix16_recodings_correct (small_scalar (2 ^ 255 - 1))).
  - split; [apply le_bytes_bytes | apply le_bytes_length].
  - reflexivity.
Defined.

(** ** Tables *)

(** Every entry of the table of crypto-ops-data.c is right:
    [ge_base[i][j]] stands for (j + 1) 256^i B, and [ge_Bi[j]] for
    (2 j + 1) B, with B the base point of Ed25519. *)
Theorem ge_base_table_correct :
  (forall i row, ge_base !! i = Some row -> forall j, (j < 8)%nat ->
     exists e, row !! j = Some e /\
       precomp_rep (gmul ((Z.of_nat j + 1) * 256 ^ Z.of_nat i) base_point) e) /\
  length ge_base = 32%nat /\
  (forall j, (j < 8)%nat -> exists e, ge_Bi !! j = Some e /\
     precomp_rep (gmul (2 * Z.of_nat j + 1) base_point) e).
Proof.
  split; [|split; [reflexivity|]].
  - intros i row Hrow j Hj. destruct (ge_base_ok i row Hrow j Hj) as (e & He & Hrep).
    exists e. split; [exact He|]. rewrite gmul_mul. exact Hrep.
  - intros j Hj. destruct (ge_Bi_ok j Hj) as (e & He & Hrep). exists e. split; [exact He|].
    rewrite Z.add_comm. exact Hrep.
Qed.

(** ** Scalar multiplications *)

(** C5: [ge_scalarmult] multiplies any point by any scalar below 2^255: its
    result is written to the encoding of the multiple.  In particular neither
    the scalar nor the point needs to be reduced or of prime order. *)
Theorem ge_scalarmult_correct a P A :
  scalar a -> p3_rep P A ->
  (r ← ge_scalarmult a A; ge_tobytes r) = Some (encode (gmul (le_val a) P)).
Proof. intros [Ha Hv] HA. apply tobytes_p2, ge_scalarmult_ok; assumption. Qed.

Lemma ge_scalarmult_correct_witness :
  (r ← ge_scalarmult (small_scalar 9) base_p3; ge_tobytes r) =
  Some (encode (gmul (le_val (small_scalar 9)) base_point)).
Proof. apply (ge_scalarmult_correct (small_scalar 9) base_point); [scalar_decide | apply base_p3_ok]. Defined.

(** [ge_scalarmult_p3] gives, in extended coordinates, the same point as
    [ge_scalarmult], whatever its output held before. *)
Theorem ge_scalarmult_p3_agrees r3 a P A :
  scalar a -> p3_rep P A ->
  (r ← ge_scalarmult_p3 r3 a A; ge_p3_tobytes r) = (r ← ge_scalarmult a A; ge_tobytes r) /\
  returns (ge_scalarmult_p3 r3 a A) (p3_rep (gmul (le_val a) P)).
Proof.
  intros [Ha Hv] HA. pose proof (ge_scalarmult_p3_ok r3 a P A Ha Hv HA) as H3. split; [|exact H3].
  rewrite (tobytes_p3 _ _ H3). symmetry. apply tobytes_p2, ge_scalarmult_ok; assumption.
Qed.

Lemma ge_scalarmult_p3_agrees_witness :
  (r ← ge_scalarmult_p3 ge_p3_0 (small_scalar 9) base_p3; ge_p3_tobytes r) =
    (r ← ge_scalarmult (small_scalar 9) base_p3; ge_tobytes r) /\
  returns (ge_scalarmult_p3 ge_p3_0 (small_scalar 9) base_p3)
    (p3_rep (gmul (le_val (small_scalar 9)) base_point)).
Proof. apply (ge_scalarmult_p3_agrees ge_p3_0 _ base_point); [scalar_decide | apply base_p3_ok]. Defined.

(** C10: [ge_scalarmult_base], with its table and its split of the digits into
    odd and even ones, gives the multiple of the base point, the one the
    general [ge_scalarmult] computes; and since the base point has order
    dividing l, scalars congruent modulo l give the same bytes. *)
Theorem ge_scalarmult_base_agrees a :
  scalar a ->
  (r ← ge_scalarmult_base a; ge_p3_tobytes r) = (r ← ge_scalarmult a base_p3; ge_tobytes r) /\
  (r ← ge_scalarmult_base a; ge_p3_tobytes r) = Some (encode (gmul (le_val a) base_point)) /\
  (forall b, scalar b -> le_val a ≡[l] le_val b ->
     (r ← ge_scalarmult_base b; ge_p3_tobytes r) = (r ← ge_scalarmult_base a; ge_p3_tobytes r)).
Proof.
  intros [Ha Hv]. rewrite (tobytes_p3 _ _ (ge_scalarmult_base_ok a Ha Hv)). split; [|split; [reflexivity|]].
  - symmetry. apply tobytes_p2, ge_scalarmult_ok; [assumption | assumption | apply base_p3_ok].
  - intros b [Hb Hvb] E. rewrite (tobytes_p3 _ _ (ge_scalarmult_base_ok b Hb Hvb)).
    rewrite <- (gmul_base_mod (le_val a)), E, gmul_base_mod. reflexivity.
Qed.

Lemma ge_scalarmult_base_agrees_witness :
  let a := small_scalar (2 ^ 255 - 1) in
  (r ← ge_scalarmult_base a; ge_p3_tobytes r) = (r ← ge_scalarmult a base_p3; ge_tobytes r) /\
  (r ← ge_scalarmult_base a; ge_p3_tobytes r) = Some (encode (gmul (le_val a) base_point)) /\
  (forall b, scalar b -> le_val a ≡[l] le_val b ->
     (r ← ge_scalarmult_base b; ge_p3_tobytes r) = (r ← ge_scalarmult_base a; ge_p3_tobytes r)).
Proof. apply (ge_scalarmult_base_agrees (small_scalar (2 ^ 255 - 1))). scalar_decide. Defined.

(** C4: the sliding-window functions of two scalars compute a A + b B, with B
    the base point ([ge_double_scalarmult_base_vartime], the one that verifies
    signatures) or any point given by its window ([_precomp_vartime] and
    [_precomp_vartime2]); those of three scalars compute the sum of three
    multiples. *)
Theorem ge_scalarmult_vartime_correct a b c P Q R A Ai Bi Ci :
  scalar a -> scalar b -> scalar c -> p3_rep P A -> odds 7 1 P Ai -> odds 7 1 Q Bi -> odds 7 1 R Ci ->
  (r ← ge_double_scalarmult_base_vartime a A b; ge_tobytes r) =
    Some (encode (gmul (le_val a) P + gmul (le_val b) base_point)%G) /\
  (r ← ge_double_scalarmult_precomp_vartime a A b Bi; ge_tobytes r) =
    Some (encode (gmul (le_val a) P + gmul (le_val b) Q)%G) /\
  (r ← ge_double_scalarmult_precomp_vartime2 a Ai b Bi; ge_tobytes r) =
    Some (encode (gmul (le_val a) P + gmul (le_val b) Q)%G) /\
  (r ← ge_triple_scalarmult_base_vartime a b Ai c Bi; ge_tobytes r) =
    Some (encode (gmul (le_val a) base_point + gmul (le_val b) P + gmul (le_val c) Q)%G) /\
  (r ← ge_triple_scalarmult_precomp_vartime a Ai b Bi c Ci; ge_tobytes r) =
    Some (encode (gmul (le_val a) P + gmul (le_val b) Q + gmul (le_val c) R)%G).
Proof.
  intros Ha Hb Hc HA HAi HB HC. split; [|split; [|split; [|split]]]; apply tobytes_p2.
  - apply ge_double_scalarmult_base_vartime_ok; assumption.
  - apply ge_double_scalarmult_precomp_vartime_ok; assumption.
  - apply ge_double_scalarmult_precomp_vartime2_ok; assumption.
  - apply ge_triple_scalarmult_base_vartime_ok; assumption.
  - apply ge_triple_scalarmult_precomp_vartime_ok; assumption.
Qed.

Lemma ge_scalarmult_vartime_correct_witness :
  let a := small_scalar 5 in let b := small_scalar 7 in let c := small_scalar 11 in
  (r ← ge_double_scalarmult_base_vartime a base_p3 b; ge_tobytes r) =
    Some (encode (gmul (le_val a) base_point + gmul (le_val b) base_point)%G) /\
  (r ← ge_double_scalarmult_precomp_vartime a base_p3 b base_odds; ge_tobytes r) =
    Some (encode (gmul (le_val a) base_point + gmul (le_val b) base_point)%G) /\
  (r ← ge_double_scalarmult_precomp_vartime2 a base_odds b base_odds; ge_tobytes r) =
    Some (encode (gmul (le_val a) base_point + gmul (le_val b) base_point)%G) /\
  (r ← ge_triple_scalarmult_base_vartime a b base_odds c base_odds; ge_tobytes r) =
    Some (encode (gmul (le_val a) base_point + gmul (le_val b) base_point + gmul (le_val c) base_point)%G) /\
  (r ← ge_triple_scalarmult_precomp_vartime a base_odds b base_odds c base_odds; ge_tobytes r) =
    Some (encode (gmul (le_val a) base_point + gmul (le_val b) base_point + gmul (le_val c) base_point)%G).
Proof.
  apply (ge_scalarmult_vartime_correct (small_scalar 5) (small_scalar 7) (small_scalar 11) base_point base_point base_point);
    [scalar_decide | scalar_decide | scalar_decide | apply base_p3_ok | apply base_odds_ok | apply base_odds_ok | apply base_odds_ok].
Defined.

(** The variants with an extended result compute a A + b B as soon as one
    of the scalars is not zero. *)
Theorem ge_double_scalarmult_vartime_p3_correct r3 a b P A Bi :
  scalar a -> scalar b -> p3_rep P A -> odds 7 1 P Bi -> le_val a <> 0 \/ le_val b <> 0 ->
  returns (ge_double_scalarmult_base_vartime_p3 r3 a A b)
    (p3_rep (gmul (le_val a) P + gmul (le_val b) base_point)%G) /\
  returns (ge_double_scalarmult_precomp_vartime2_p3 r3 a Bi b Bi)
    (p3_rep (gmul (le_val a) P + gmul (le_val b) P)%G).
Proof.
  intros Ha Hb HA HB Hnz. split.
  - apply ge_double_scalarmult_base_vartime_p3_ok; assumption.
  - apply ge_double_scalarmult_precomp_vartime2_p3_ok; assumption.
Qed.

Lemma ge_double_scalarmult_vartime_p3_correct_witness :
  let a := small_scalar 0 in let b := small_scalar 7 in
  returns (ge_double_scalarmult_base_vartime_p3 ge_p3_0 a base_p3 b)
    (p3_rep (gmul (le_val a) base_point + gmul (le_val b) base_point)%G) /\
  returns (ge_double_scalarmult_precomp_vartime2_p3 ge_p3_0 a base_odds b base_odds)
    (p3_rep (gmul (le_val a) base_point + gmul (le_val b) base_point)%G).
Proof.
  apply (ge_double_scalarmult_vartime_p3_correct ge_p3_0 (small_scalar 0) (small_scalar 7));
    [scalar_decide | scalar_decide | apply base_p3_ok | apply base_odds_ok | right; discriminate].
Defined.

(** When both scalars are zero the same functions never write their
    output: the caller gets back what the memory held, not the neutral
    element. *)
Theorem vartime_p3_zero_unwritten r3 A Ai Bi a b :
  bytes_of 32 a -> bytes_of 32 b -> le_val a = 0 -> le_val b = 0 -> returns (ge_dsm_precomp A) (fun _ => True) ->
  ge_double_scalarmult_precomp_vartime2_p3 r3 a Ai b Bi = Some r3 /\
  ge_double_scalarmult_base_vartime_p3 r3 a A b = Some r3.
Proof.
  intros Ha Hb Ea Eb (Di & HD & _). split; [apply ge_double_scalarmult_precomp_vartime2_p3_zero; assumption|].
  rewrite (zero_bytes a Ha Ea), (zero_bytes b Hb Eb).
  unfold ge_double_scalarmult_base_vartime_p3. rewrite slide_zero, HD. cbn [mbind option_bind].
  rewrite slide_top_zeros. reflexivity.
Qed.

Lemma vartime_p3_zero_unwritten_witness :
  ge_double_scalarmult_precomp_vartime2_p3 base_p3 (small_scalar 0) base_odds (small_scalar 0) base_odds =
    Some base_p3 /\
  ge_double_scalarmult_base_vartime_p3 base_p3 (small_scalar 0) base_p3 (small_scalar 0) = Some base_p3.
Proof.
  apply (vartime_p3_zero_unwritten base_p3 base_p3 base_odds base_odds (small_scalar 0) (small_scalar 0)).
  1,2: split; [apply le_bytes_bytes | apply le_bytes_length].
  1,2: reflexivity.
  exists base_odds. split; [vm_compute; reflexivity | exact I].
Defined.
