(* ===== verification/Keccak.v ===== *)
(** * The Keccak-f[1600] permutation

    [keccakf] of base/crypto/keccak.cpp: twenty-five 64-bit lanes, the five
    steps of a round written out in place.  The abstract specification is the
    one of FIPS 202, bit by bit; the refinement theorem is in KeccakSpec.v. *)

From S2P Require Import Prelude.
From S2P Require Import CInt.
From S2P Require Import Bytes.

(** ** Lanes *)

(** [ROTL64(x, y)] for 0 < y < 64. *)
Definition ROTL64 (x y : Z) : Z := Z.lor (to_u64 (Z.shiftl x y)) (Z.shiftr x (64 - y)).

(** [~x] on [uint64_t]. *)
Definition lnot64 (x : Z) : Z := to_u64 (Z.lnot x).

Definition keccakf_rndc : list Z :=
  [0x0000000000000001; 0x0000000000008082; 0x800000000000808a;
   0x8000000080008000; 0x000000000000808b; 0x0000000080000001;
   0x8000000080008081; 0x8000000000008009; 0x000000000000008a;
   0x0000000000000088; 0x0000000080008009; 0x000000008000000a;
   0x000000008000808b; 0x800000000000008b; 0x8000000000008089;
   0x8000000000008003; 0x8000000000008002; 0x8000000000000080;
   0x000000000000800a; 0x800000008000000a; 0x8000000080008081;
   0x8000000000008080; 0x0000000080000001; 0x8000000080008008].

(** ** The steps *)

Definition keccak_bc (st : list Z) (i : nat) : Z :=
  Z.lxor (Z.lxor (Z.lxor (Z.lxor (st !!! i) (st !!! (i + 5)%nat)) (st !!! (i + 10)%nat)) (st !!! (i + 15)%nat))
    (st !!! (i + 20)%nat).

(** [st[i] ^= t]. *)
Definition xor_at (t : Z) (st : list Z) (i : nat) : list Z := <[i := Z.lxor (st !!! i) t]> st.

(** The macro [X(i)]. *)
Definition keccak_X (bc : list Z) (st : list Z) (i : nat) : list Z :=
  let t := Z.lxor (bc !!! ((i + 4) mod 5)%nat) (ROTL64 (bc !!! ((i + 1) mod 5)%nat) 1) in
  foldl (xor_at t) st [i; i + 5; i + 10; i + 15; i + 20]%nat.

Definition keccak_theta (st : list Z) : list Z :=
  let bc := map (keccak_bc st) [0; 1; 2; 3; 4]%nat in
  foldl (keccak_X bc) st [0; 1; 2; 3; 4]%nat.

(** [st[dst] = ROTL64(st[src], n)], in the order of the code. *)
Definition keccak_moves : list (nat * nat * Z) :=
  [(1, 6, 44%Z); (6, 9, 20%Z); (9, 22, 61%Z); (22, 14, 39%Z); (14, 20, 18%Z); (20, 2, 62%Z);
   (2, 12, 43%Z); (12, 13, 25%Z); (13, 19, 8%Z); (19, 23, 56%Z); (23, 15, 41%Z); (15, 4, 27%Z);
   (4, 24, 14%Z); (24, 21, 2%Z); (21, 8, 55%Z); (8, 16, 45%Z); (16, 5, 36%Z); (5, 3, 28%Z);
   (3, 18, 21%Z); (18, 17, 15%Z); (17, 11, 10%Z); (11, 7, 6%Z); (7, 10, 3%Z)]%nat.

Definition keccak_move (st : list Z) (m : nat * nat * Z) : list Z :=
  let '(dst, src, n) := m in <[dst := ROTL64 (st !!! src) n]> st.

Definition keccak_rho_pi (st : list Z) : list Z :=
  let t := st !!! 1%nat in
  let st := foldl keccak_move st keccak_moves in
  <[10%nat := ROTL64 t 1]> st.

(** The unrolled rows: each assignment reads what the ones before it wrote,
    apart from the two lanes saved in [bc]. *)
Definition keccak_chi_row (st : list Z) (j : nat) : list Z :=
  let bc0 := st !!! j in
  let bc1 := st !!! (j + 1)%nat in
  let st := xor_at (Z.land (lnot64 (st !!! (j + 1)%nat)) (st !!! (j + 2)%nat)) st j in
  let st := xor_at (Z.land (lnot64 (st !!! (j + 2)%nat)) (st !!! (j + 3)%nat)) st (j + 1)%nat in
  let st := xor_at (Z.land (lnot64 (st !!! (j + 3)%nat)) (st !!! (j + 4)%nat)) st (j + 2)%nat in
  let st := xor_at (Z.land (lnot64 (st !!! (j + 4)%nat)) bc0) st (j + 3)%nat in
  xor_at (Z.land (lnot64 bc0) bc1) st (j + 4)%nat.

(** The last row saves all five lanes. *)
Definition keccak_chi_last (st : list Z) (j : nat) : list Z :=
  let bc0 := st !!! j in
  let bc1 := st !!! (j + 1)%nat in
  let bc2 := st !!! (j + 2)%nat in
  let bc3 := st !!! (j + 3)%nat in
  let bc4 := st !!! (j + 4)%nat in
  let st := xor_at (Z.land (lnot64 bc1) bc2) st j in
  let st := xor_at (Z.land (lnot64 bc2) bc3) st (j + 1)%nat in
  let st := xor_at (Z.land (lnot64 bc3) bc4) st (j + 2)%nat in
  let st := xor_at (Z.land (lnot64 bc4) bc0) st (j + 3)%nat in
  xor_at (Z.land (lnot64 bc0) bc1) st (j + 4)%nat.

Definition keccak_chi (st : list Z) : list Z :=
  keccak_chi_last (foldl keccak_chi_row st [0; 5; 10; 15]%nat) 20.

Definition keccak_iota (rc : Z) (st : list Z) : list Z := xor_at rc st 0.

(** One turn of the loop; the round constants are read within their array. *)
Definition keccak_round (st : list Z) (round : nat) : option (list Z) :=
  let st := keccak_chi (keccak_rho_pi (keccak_theta st)) in
  rc ← keccakf_rndc !! round;
  Some (keccak_iota rc st).

Fixpoint keccak_rounds (rounds : list nat) (st : list Z) : option (list Z) :=
  match rounds with
  | [] => Some st
  | round :: rounds => st ← keccak_round st round; keccak_rounds rounds st
  end.

Definition keccakf (st : list Z) (rounds : nat) : option (list Z) := keccak_rounds (seq 0 rounds) st.

(** ** The specification: FIPS 202 on bits *)

(** A state array: a bit for every column x, row y (both modulo 5) and depth z
    (modulo 64). *)
Definition bits_state := nat -> nat -> Z -> bool.

Definition spec_theta (A : bits_state) : bits_state := fun x y z =>
  let C x z := foldl xorb false (map (fun y => A x y z) [0; 1; 2; 3; 4]%nat) in
  xorb (A x y z) (xorb (C ((x + 4) mod 5)%nat z) (C ((x + 1) mod 5)%nat ((z - 1) mod 64))).

(** The offsets of rho: (t + 1) (t + 2) / 2 at the t-th position of the walk
    (x, y) -> (y, 2 x + 3 y) from (1, 0), and 0 at (0, 0). *)
Fixpoint rho_walk (n t : nat) (x y : nat) (x0 y0 : nat) : Z :=
  match n with
  | O => 0
  | S n =>
      if ((x =? x0) && (y =? y0))%nat then (Z.of_nat t + 1) * (Z.of_nat t + 2) / 2
      else rho_walk n (S t) y ((2 * x + 3 * y) mod 5) x0 y0
  end.
Definition rho_offset (x y : nat) : Z := rho_walk 24 0 1 0 x y.

Definition spec_rho (A : bits_state) : bits_state := fun x y z => A x y ((z - rho_offset x y) mod 64).

Definition spec_pi (A : bits_state) : bits_state := fun x y z => A ((x + 3 * y) mod 5)%nat x z.

Definition spec_chi (A : bits_state) : bits_state := fun x y z =>
  xorb (A x y z) (negb (A ((x + 1) mod 5)%nat y z) && A ((x + 2) mod 5)%nat y z).

(** The bit rc(t) of the linear feedback shift register. *)
Definition lfsr_step (r : Z) : Z :=
  let r := 2 * r in if Z.testbit r 8 then Z.lxor r 0x171 else r.
Definition spec_rc (t : nat) : bool := Z.testbit (Nat.iter (t mod 255) lfsr_step 1) 0.

(** RC has bit rc(j + 7 i) at position 2^j - 1, for j from 0 to 6. *)
Definition spec_RC (i : nat) (z : Z) : bool :=
  existsb (fun j => (z =? 2 ^ Z.of_nat j - 1) && spec_rc (j + 7 * i)%nat) [0; 1; 2; 3; 4; 5; 6]%nat.

Definition spec_iota (i : nat) (A : bits_state) : bits_state := fun x y z =>
  if ((x =? 0) && (y =? 0))%nat then xorb (A x y z) (spec_RC i z) else A x y z.

Definition spec_round (A : bits_state) (i : nat) : bits_state :=
  spec_iota i (spec_chi (spec_pi (spec_rho (spec_theta A)))).

Definition spec_keccak_f (A : bits_state) (rounds : nat) : bits_state := foldl spec_round A (seq 0 rounds).

(** * Keccak-f[1600]: the lanes refine the bits

    Each in-place step of [keccakf] on twenty-five lanes computes the step of
    FIPS 202 of the same name on their bits. *)

(** ** Lanes *)

Definition lane (v : Z) : Prop := 0 <= v < 2 ^ 64.

#[export] Instance lane_dec v : Decision (lane v).
Proof. unfold lane. apply _. Defined.

Create HintDb lanes discriminated.

Lemma lane_bits v : 0 <= v -> lane v <-> Z.shiftr v 64 = 0.
Proof.
  intros Hv. rewrite Z.shiftr_div_pow2 by lia. unfold lane. split.
  - intros H. apply Z.div_small. exact H.
  - intros H. apply Z.div_small_iff in H; [|discriminate]. lia.
Qed.

Lemma lane_lxor a b : lane a -> lane b -> lane (Z.lxor a b).
Proof.
  intros Ha Hb. apply lane_bits; [apply Z.lxor_nonneg; unfold lane in *; lia|].
  rewrite Z.shiftr_lxor. apply lane_bits in Ha as ->; [|apply Ha]. apply lane_bits in Hb as ->; [reflexivity | apply Hb].
Qed.

Lemma lane_lor a b : lane a -> lane b -> lane (Z.lor a b).
Proof.
  intros Ha Hb. apply lane_bits; [apply Z.lor_nonneg; unfold lane in *; lia|].
  rewrite Z.shiftr_lor. apply lane_bits in Ha as ->; [|apply Ha]. apply lane_bits in Hb as ->; [reflexivity | apply Hb].
Qed.

Lemma lane_land a b : lane a -> lane b -> lane (Z.land a b).
Proof.
  intros Ha Hb. apply lane_bits; [apply Z.land_nonneg; unfold lane in *; lia|].
  rewrite Z.shiftr_land. apply lane_bits in Ha as ->; [reflexivity | apply Ha].
Qed.

Lemma lane_to_u64 z : lane (to_u64 z).
Proof. unfold lane, to_u64. apply (Z.mod_pos_bound z (2 ^ 64)). reflexivity. Qed.

Lemma lane_lnot64 z : lane (lnot64 z).
Proof. apply lane_to_u64. Qed.

Lemma lane_shiftr v n : lane v -> 0 <= n -> lane (Z.shiftr v n).
Proof.
  intros [H1 H2] Hn. rewrite Z.shiftr_div_pow2 by exact Hn. split; [apply Z.div_pos; lia|].
  apply Z.div_lt_upper_bound; [lia|]. pose proof (Z.pow_pos_nonneg 2 n). nia.
Qed.

Lemma lane_ROTL64 v n : lane v -> 0 <= n <= 64 -> lane (ROTL64 v n).
Proof. intros Hv Hn. apply lane_lor; [apply lane_to_u64 | apply lane_shiftr; [exact Hv | lia]]. Qed.

#[export] Hint Resolve lane_lxor lane_lor lane_land lane_lnot64 lane_to_u64 : lanes.
#[export] Hint Extern 2 (lane (ROTL64 _ _)) => apply lane_ROTL64; [|split; discriminate] : lanes.

Lemma testbit_to_u64 x z : 0 <= z < 64 -> Z.testbit (to_u64 x) z = Z.testbit x z.
Proof. intros Hz. unfold to_u64. change 18446744073709551616 with (2 ^ 64). apply Z.mod_pow2_bits_low. lia. Qed.

Lemma testbit_lane_high v z : lane v -> 64 <= z -> Z.testbit v z = false.
Proof.
  intros Hv Hz. rewrite <- (Z.mod_small v (2 ^ 64)) by exact Hv. apply Z.mod_pow2_bits_high. lia.
Qed.

Lemma testbit_lnot64 x z : 0 <= z < 64 -> Z.testbit (lnot64 x) z = negb (Z.testbit x z).
Proof. intros Hz. unfold lnot64. rewrite testbit_to_u64 by exact Hz. apply Z.lnot_spec. lia. Qed.

(** A rotation by [n] moves bit z from z - k, for any k equal to [n] modulo 64. *)
Lemma testbit_ROTL64 v n k z :
  lane v -> 0 < n < 64 -> k mod 64 = n -> 0 <= z < 64 ->
  Z.testbit (ROTL64 v n) z = Z.testbit v ((z - k) mod 64).
Proof.
  intros Hv Hn Hk Hz. rewrite <- Zminus_mod_idemp_r, Hk. unfold ROTL64.
  rewrite Z.lor_spec, testbit_to_u64, Z.shiftl_spec, Z.shiftr_spec by lia.
  destruct (Z.ltb_spec z n).
  - rewrite Z.testbit_neg_r by lia. cbn [orb]. f_equal.
    rewrite <- (Z.mod_add (z - n) 1) by lia. rewrite Z.mod_small by lia. lia.
  - rewrite (testbit_lane_high v (z + (64 - n)) Hv) by lia. rewrite orb_false_r, Z.mod_small by lia. reflexivity.
Qed.

(** ** States *)

(** The lane of column x and row y is [st[x + 5 y]]. *)
Definition agrees (st : list Z) (A : bits_state) : Prop :=
  (length st = 25%nat /\ Forall lane st) /\
  forall x, (x < 5)%nat -> forall y, (y < 5)%nat -> forall z, 0 <= z < 64 ->
    Z.testbit (st !!! (x + 5 * y)%nat) z = A x y z.

Definition bits_of_lanes (st : list Z) : bits_state := fun x y z => Z.testbit (st !!! (x + 5 * y)%nat) z.

Lemma agrees_bits st : length st = 25%nat -> Forall lane st -> agrees st (bits_of_lanes st).
Proof. intros Hl Hf. split; [split; assumption | reflexivity]. Qed.

(** A statement about the columns or rows is one about five of them. *)
Lemma below_5 (Q : nat -> Prop) :
  Q 0%nat -> Q 1%nat -> Q 2%nat -> Q 3%nat -> Q 4%nat -> forall x, (x < 5)%nat -> Q x.
Proof. intros H0 H1 H2 H3 H4 [|[|[|[|[|x]]]]] Hx; try assumption. lia. Qed.

(** The lanes by name. *)
Ltac open_lanes H :=
  let Hl := fresh "Hl" in let Hf := fresh "Hf" in let Hb := fresh "Hb" in
  destruct H as [[Hl Hf] Hb];
  match type of Hl with length ?st = _ =>
    do 25 (let a := fresh "a" in destruct st as [|a st]; [discriminate Hl|]);
    destruct st; [clear Hl | discriminate Hl] end;
  repeat match goal with
    | H : Forall lane (_ :: _) |- _ => apply Forall_cons in H as [? H]
    end; clear Hf.

(** Every lane of the state built. *)
Ltac lanes_tac := repeat (apply Forall_cons; split; [auto 20 with lanes|]); apply Forall_nil_2.

Ltac depth := first [assumption | lia | apply Z.mod_pos_bound; lia].

(** The bits read from the specification's state, as bits of lanes. *)
Ltac bits_to_lanes A :=
  repeat match goal with
    | Hb : forall x, _ -> forall y, _ -> forall z, _ -> _ = A x y z |- context [A ?x ?y ?z] =>
        rewrite <- (Hb x ltac:(lia) y ltac:(lia) z) by depth
    end.

(** One goal per lane. *)
Ltac each_five :=
  match goal with |- forall x, (x < 5)%nat -> @?Q x => apply (below_5 Q); cbv beta end.
Ltac each_lane := each_five; each_five; intros z Hz.

(** Evaluate a lane of the result of the step [f]. *)
Ltac eval_lane f :=
  match goal with |- Z.testbit (f ?l !!! ?i) _ = _ =>
    let v := eval cbv -[Z.lxor Z.land lnot64 ROTL64] in (f l !!! i) in change (f l !!! i) with v end.

(** Push the bit test to the lanes. *)
Ltac push_bits :=
  repeat first
    [ rewrite Z.lxor_spec | rewrite Z.land_spec | rewrite testbit_lnot64 by depth
    | match goal with |- context [Z.testbit (ROTL64 ?v ?n) ?z] =>
        match goal with |- context [(z - ?k) mod 64] =>
          rewrite (testbit_ROTL64 v n k z) by first [solve [auto 20 with lanes] | lia | reflexivity] end end ].

(** ** The steps *)

Lemma theta_ok st A : agrees st A -> agrees (keccak_theta st) (spec_theta A).
Proof.
  intros H. open_lanes H. split; [split; [reflexivity|]|].
  - cbv -[Z.lxor ROTL64 lane]. lanes_tac.
  - each_lane; eval_lane keccak_theta;
      cbv [spec_theta foldl map Nat.modulo Nat.divmod Nat.sub Nat.add fst snd]; cbn [xorb];
      bits_to_lanes A; cbn [Nat.add Nat.mul lookup_total list_lookup_total];
      push_bits; reflexivity.
Qed.

Lemma rho_pi_ok st A : agrees st A -> agrees (keccak_rho_pi st) (spec_pi (spec_rho A)).
Proof.
  intros H. open_lanes H. split; [split; [reflexivity|]|].
  - cbv -[ROTL64 lane]. lanes_tac.
  - each_lane; eval_lane keccak_rho_pi; cbv [spec_pi spec_rho];
      match goal with |- context [rho_offset ?x ?y] =>
        let v := eval vm_compute in (rho_offset x y) in change (rho_offset x y) with v end;
      match goal with |- context [((?x + 3 * ?y) mod 5)%nat] =>
        let v := eval vm_compute in ((x + 3 * y) mod 5)%nat in change ((x + 3 * y) mod 5)%nat with v end;
      bits_to_lanes A; cbn [Nat.add Nat.mul lookup_total list_lookup_total].
    1: rewrite Z.sub_0_r, Z.mod_small by exact Hz; reflexivity.
    all: push_bits; reflexivity.
Qed.

Lemma chi_ok st A : agrees st A -> agrees (keccak_chi st) (spec_chi A).
Proof.
  intros H. open_lanes H. split; [split; [reflexivity|]|].
  - cbv -[Z.lxor Z.land lnot64 lane]. lanes_tac.
  - each_lane; eval_lane keccak_chi; cbv [spec_chi Nat.modulo Nat.divmod Nat.sub Nat.add fst snd];
      bits_to_lanes A; cbn [Nat.add Nat.mul lookup_total list_lookup_total];
      push_bits; reflexivity.
Qed.

(** The table of round constants is the output of the shift register. *)
Lemma rndc_bits i rc z :
  keccakf_rndc !! i = Some rc -> 0 <= z < 64 -> Z.testbit rc z = spec_RC i z.
Proof.
  intros Hi Hz.
  assert (Hall : forallb (fun i => forallb (fun z => Bool.eqb (Z.testbit (nth i keccakf_rndc 0) (Z.of_nat z))
    (spec_RC i (Z.of_nat z))) (seq 0 64)) (seq 0 24) = true) by eval_closed.
  assert (Hi24 : (i < 24)%nat) by (apply lookup_lt_Some in Hi; exact Hi).
  apply (forallb_seq_spec _ _ ) with (i := i) in Hall; [|exact Hi24].
  apply (forallb_seq_spec _ _ ) with (i := Z.to_nat z) in Hall; [|lia].
  apply Bool.eqb_prop in Hall. rewrite Z2Nat.id in Hall by lia.
  rewrite (nth_lookup_Some _ _ _ _ Hi) in Hall. exact Hall.
Qed.

Lemma rndc_lane i rc : keccakf_rndc !! i = Some rc -> lane rc.
Proof.
  apply Forall_lookup_1 with (P := lane).
  apply (bool_decide_eq_true_1 (Forall lane keccakf_rndc)). eval_closed.
Qed.

Lemma iota_ok i rc st A :
  keccakf_rndc !! i = Some rc -> agrees st A -> agrees (keccak_iota rc st) (spec_iota i A).
Proof.
  intros Hrc H. open_lanes H. pose proof (rndc_lane i rc Hrc). split; [split; [reflexivity|]|].
  - cbv -[Z.lxor lane]. lanes_tac.
  - each_lane; eval_lane (keccak_iota rc); cbv [spec_iota Nat.eqb andb];
      bits_to_lanes A; cbn [Nat.add Nat.mul lookup_total list_lookup_total].
    1: rewrite Z.lxor_spec, (rndc_bits i rc z Hrc Hz); reflexivity.
    all: reflexivity.
Qed.

Lemma round_ok st A i :
  (i < 24)%nat -> agrees st A -> returns (keccak_round st i) (fun st' => agrees st' (spec_round A i)).
Proof.
  intros Hi H. unfold keccak_round. destruct (lookup_lt_is_Some_2 keccakf_rndc i Hi) as [rc Hrc].
  rewrite Hrc. apply returns_Some. apply iota_ok; [exact Hrc|]. apply chi_ok, rho_pi_ok, theta_ok, H.
Qed.

Lemma rounds_ok js st A :
  Forall (fun i => (i < 24)%nat) js -> agrees st A ->
  returns (keccak_rounds js st) (fun st' => agrees st' (foldl spec_round A js)).
Proof.
  intros Hjs. revert st A. induction Hjs as [|i js Hi _ IH]; intros st A H; cbn [keccak_rounds foldl].
  - apply returns_Some, H.
  - eapply returns_bind; [apply round_ok; eassumption | intros st' H']. apply IH, H'.
Qed.

Lemma keccakf_ok st A rounds :
  (rounds <= 24)%nat -> agrees st A ->
  returns (keccakf st rounds) (fun st' => agrees st' (spec_keccak_f A rounds)).
Proof.
  intros Hr H. apply rounds_ok; [|exact H]. apply Forall_forall. intros i Hi.
  apply elem_of_seq in Hi. lia.
Qed.
