(* ===== verification/Sponge.v ===== *)
(** * The one-shot hash of keccak.cpp

    [keccak] of base/crypto/keccak.cpp: absorb whole blocks, pad the last one
    in a buffer of 144 bytes, copy the first bytes of the state out.  Its
    specification is the byte-wise sponge with the padding 1 0...0 1 of the
    original Keccak. *)

From S2P Require Import Prelude.
From S2P Require Import CInt.
From S2P Require Import Bytes.
From S2P Require Import Keccak.

(** ** Operation *)

Definition HASH_DATA_AREA : Z := 136.

(** The i-th [uint64_t] of the bytes [s], little-endian, inside the buffer. *)
Definition load_64 (s : list Z) (i : nat) : option Z :=
  if (8 * i + 8 <=? length s)%nat then Some (le_val (take 8 (drop (8 * i) s))) else None.

(** The loop on [i] that xors the words of [s] into [st]. *)
Fixpoint keccak_xor_words (ns : list nat) (s : list Z) (st : list Z) : option (list Z) :=
  match ns with
  | [] => Some st
  | i :: ns => w ← load_64 s i; keccak_xor_words ns s (xor_at w st i)
  end.

(** [for ( ; inlen >= rsiz; inlen -= rsiz, in += rsiz)]: the bytes left and the
    state.  It does not terminate unless [rsiz] is positive. *)
Fixpoint keccak_absorb (fuel : nat) (rsiz : Z) (s st : list Z) : option (list Z * list Z) :=
  match fuel with
  | O => None
  | S fuel =>
      if Z.of_nat (length s) <? rsiz then Some (s, st)
      else
        st ← keccak_xor_words (seq 0 (Z.to_nat (rsiz / 8))) s st;
        st ← keccakf st 24;
        keccak_absorb fuel rsiz (drop (Z.to_nat rsiz) s) st
  end.

(** The buffer [temp] of 144 bytes, up to [rsiz]. *)
Definition keccak_temp (rsiz : Z) (s : list Z) : option (list Z) :=
  if rsiz <=? 144 then
    let temp := s ++ [1] ++ repeat 0 (Z.to_nat (rsiz - (Z.of_nat (length s) + 1))) in
    b ← temp !! Z.to_nat (rsiz - 1);
    Some (<[Z.to_nat (rsiz - 1) := Z.lor b 128]> temp)
  else None.

(** The bytes of the state. *)
Definition state_bytes (st : list Z) : list Z := concat (map (le_bytes 8) st).

Definition keccak (s : list Z) (mdlen : Z) : option (list Z) :=
  let rsiz := if 200 =? mdlen then HASH_DATA_AREA else 200 - 2 * mdlen in
  p ← keccak_absorb (S (length s)) rsiz s (repeat 0 25%nat);
  let '(s, st) := p in
  temp ← keccak_temp rsiz s;
  st ← keccak_xor_words (seq 0 (Z.to_nat (rsiz / 8))) temp st;
  st ← keccakf st 24;
  if mdlen <=? 200 then Some (take (Z.to_nat mdlen) (state_bytes st)) else None.

(** ** Specification: the sponge, a byte at a time *)

Definition perm (st : list Z) : list Z := default st (keccakf st 24).

(** Absorb one byte at position [pos] of a rate of [rw] lanes. *)
Definition absorb_byte (rw : nat) (p : list Z * nat) (b : Z) : list Z * nat :=
  let '(st, pos) := p in
  let st := xor_at (Z.shiftl b (8 * Z.of_nat (pos mod 8))) st (pos / 8) in
  if (S pos =? 8 * rw)%nat then (perm st, 0%nat) else (st, S pos).

Definition absorb (rw : nat) (s : list Z) (p : list Z * nat) : list Z * nat := foldl (absorb_byte rw) p s.

(** Pad with the byte [d] at the position reached and the bit 0x80 at the end
    of the block. *)
Definition sponge_pad (rw : nat) (d : Z) (p : list Z * nat) : list Z :=
  let '(st, pos) := p in
  xor_at (Z.shiftl 128 56) (xor_at (Z.shiftl d (8 * Z.of_nat (pos mod 8))) st (pos / 8)) (rw - 1).

Definition sponge (rw : nat) (d : Z) (s : list Z) (n : nat) : list Z :=
  take n (state_bytes (perm (sponge_pad rw d (absorb rw s (repeat 0 25%nat, 0%nat))))).

(** * The one-shot hash is the sponge *)

(** ** Permutation *)

Lemma rounds_total js st : Forall (fun i => (i < 24)%nat) js -> is_Some (keccak_rounds js st).
Proof.
  intros Hjs. revert st. induction Hjs as [|i js Hi _ IH]; intros st; cbn [keccak_rounds]; [eauto|].
  unfold keccak_round. destruct (lookup_lt_is_Some_2 keccakf_rndc i Hi) as [rc ->]. apply IH.
Qed.

Lemma keccakf_perm st : keccakf st 24 = Some (perm st).
Proof.
  unfold perm, keccakf. destruct (rounds_total (seq 0 24) st) as [st' ->]; [|reflexivity].
  apply Forall_forall. intros i Hi. apply elem_of_seq in Hi. lia.
Qed.

(** ** Exclusive or into a lane *)

Lemma xor_at_length t st i : length (xor_at t st i) = length st.
Proof. apply length_insert. Qed.

Lemma xor_at_0 st i : xor_at 0 st i = st.
Proof.
  unfold xor_at. rewrite Z.lxor_0_r. destruct (st !! i) as [v|] eqn:E.
  - rewrite (list_lookup_total_correct _ _ _ E). apply list_insert_id, E.
  - apply list_insert_ge, lookup_ge_None_1, E.
Qed.

Lemma xor_at_twice a b st i : xor_at a (xor_at b st i) i = xor_at (Z.lxor b a) st i.
Proof.
  unfold xor_at. destruct (decide (i < length st)%nat) as [Hi|Hi].
  - rewrite list_lookup_total_insert_eq by exact Hi. rewrite list_insert_insert_eq, Z.lxor_assoc. reflexivity.
  - rewrite !(list_insert_ge st) by lia. reflexivity.
Qed.

(** ** Bytes into lanes *)

(** Exclusive or of the bytes [s] into the state from byte [pos] on. *)
Fixpoint xor_bytes (pos : nat) (s : list Z) (st : list Z) : list Z :=
  match s with
  | [] => st
  | b :: s => xor_bytes (S pos) s (xor_at (Z.shiftl b (8 * Z.of_nat (pos mod 8))) st (pos / 8))
  end.

Lemma xor_bytes_app pos a b st : xor_bytes pos (a ++ b) st = xor_bytes (pos + length a) b (xor_bytes pos a st).
Proof.
  revert pos st. induction a as [|x a IH]; intros pos st; cbn [xor_bytes app length].
  - rewrite Nat.add_0_r. reflexivity.
  - rewrite IH, Nat.add_succ_r. reflexivity.
Qed.

Lemma xor_bytes_zeros pos n st : xor_bytes pos (repeat 0 n) st = st.
Proof.
  revert pos. induction n as [|n IH]; intros pos; cbn [repeat xor_bytes]; [reflexivity|].
  rewrite Z.shiftl_0_l, xor_at_0. apply IH.
Qed.

Lemma le_val_app s t : le_val (s ++ t) = le_val s + 2 ^ (8 * Z.of_nat (length s)) * le_val t.
Proof.
  induction s as [|b s IH]; cbn [app le_val length]; [rewrite Z.mul_1_l; reflexivity|].
  rewrite IH, Nat2Z.inj_succ. replace (8 * Z.succ (Z.of_nat (length s))) with (8 + 8 * Z.of_nat (length s)) by lia.
  rewrite Z.pow_add_r by lia. ring.
Qed.

Lemma le_val_snoc s b :
  is_bytes s -> is_byte b -> le_val (s ++ [b]) = Z.lxor (le_val s) (Z.shiftl b (8 * Z.of_nat (length s))).
Proof.
  intros Hs Hb. rewrite le_val_app. pose proof (le_val_range s Hs) as Hr.
  rewrite <- Z.add_nocarry_lxor.
  - rewrite Z.shiftl_mul_pow2 by lia. cbn [le_val]. ring.
  - apply Z.bits_inj'. intros i Hi. rewrite Z.land_spec, Z.bits_0.
    destruct (Z.ltb_spec i (8 * Z.of_nat (length s))).
    + rewrite Z.shiftl_spec_low by lia. apply andb_false_r.
    + rewrite <- (Z.mod_small (le_val s) (2 ^ (8 * Z.of_nat (length s)))) by exact Hr.
      rewrite Z.mod_pow2_bits_high by lia. reflexivity.
Qed.

(** Up to eight bytes from the start of lane [i]. *)
Lemma xor_bytes_word i bs st :
  is_bytes bs -> (length bs <= 8)%nat -> xor_bytes (8 * i) bs st = xor_at (le_val bs) st i.
Proof.
  induction bs as [|b bs IH] using rev_ind; intros Hb Hl.
  - symmetry. apply xor_at_0.
  - apply Forall_app in Hb as [Hbs Hb]. apply Forall_cons in Hb as [Hb _]. rewrite length_app in Hl. cbn [length] in Hl.
    rewrite xor_bytes_app, IH by (assumption || lia). cbn [xor_bytes].
    rewrite le_val_snoc by assumption. rewrite (Nat.mul_comm 8), Nat.add_comm.
    rewrite Nat.Div0.mod_add, Nat.div_add, Nat.div_small, Nat.mod_small by lia.
    apply xor_at_twice.
Qed.

Lemma absorb_app rw a b p : absorb rw (a ++ b) p = absorb rw b (absorb rw a p).
Proof. apply foldl_app. Qed.

(** Inside a block absorbing is exclusive or; at its end the state is permuted. *)
Lemma absorb_inside rw s st pos :
  (pos + length s < 8 * rw)%nat -> absorb rw s (st, pos) = (xor_bytes pos s st, pos + length s)%nat.
Proof.
  revert st pos. induction s as [|b s IH]; intros st pos Hl; cbn [xor_bytes length].
  - rewrite Nat.add_0_r. reflexivity.
  - cbn [length] in Hl. change (absorb rw (b :: s) (st, pos)) with (absorb rw s (absorb_byte rw (st, pos) b)).
    unfold absorb_byte. destruct (Nat.eqb_spec (S pos) (8 * rw)); [lia|].
    rewrite IH by lia. f_equal. lia.
Qed.

Lemma absorb_start rw s st :
  (length s < 8 * rw)%nat -> absorb rw s (st, 0%nat) = (xor_bytes 0 s st, length s).
Proof. intros Hl. rewrite absorb_inside by lia. reflexivity. Qed.

Lemma absorb_block rw s st pos :
  (pos < 8 * rw)%nat -> (pos + length s = 8 * rw)%nat -> absorb rw s (st, pos) = (perm (xor_bytes pos s st), 0%nat).
Proof.
  destruct s as [|b s] using rev_ind; intros Hp Hl; [cbn in Hl; lia|]. clear IHs.
  rewrite length_app in Hl. cbn [length] in Hl.
  rewrite absorb_app, absorb_inside, xor_bytes_app by lia. cbn [xor_bytes].
  cbn [absorb foldl absorb_byte].
  destruct (Nat.eqb_spec (S (pos + length s)) (8 * rw)); [reflexivity | lia].
Qed.

(** ** Words *)

Lemma take_drop_app (s : list Z) a b : take a s ++ take b (drop a s) = take (a + b) s.
Proof. rewrite take_take_drop. reflexivity. Qed.

(** The loop over the words of a buffer is exclusive or of its bytes. *)
Lemma keccak_xor_words_ok s st k n :
  is_bytes s -> (8 * (k + n) <= length s)%nat ->
  keccak_xor_words (seq k n) s st = Some (xor_bytes (8 * k) (take (8 * n) (drop (8 * k) s)) st).
Proof.
  intros Hs. revert k st. induction n as [|n IH]; intros k st Hl; cbn [seq keccak_xor_words].
  - rewrite Nat.mul_0_r, take_0. reflexivity.
  - unfold load_64. destruct (Nat.leb_spec (8 * k + 8) (length s)); [|lia]. cbn [mbind option_bind].
    rewrite IH by lia. f_equal.
    assert (Hb : is_bytes (take 8 (drop (8 * k) s))) by (apply Forall_take, Forall_drop, Hs).
    rewrite <- (xor_bytes_word k _ st Hb) by (rewrite length_take; lia).
    replace (8 * S k)%nat with (8 * k + length (take 8 (drop (8 * k) s)))%nat
      by (rewrite length_take, length_drop; lia).
    rewrite <- xor_bytes_app. f_equal. rewrite length_take, length_drop, Nat.min_l by lia.
    rewrite <- (drop_drop s). rewrite take_drop_app. f_equal. lia.
Qed.

Lemma keccak_xor_words_all s st n :
  is_bytes s -> (8 * n <= length s)%nat ->
  keccak_xor_words (seq 0 n) s st = Some (xor_bytes 0 (take (8 * n) s) st).
Proof. intros Hs Hl. rewrite keccak_xor_words_ok, Nat.mul_0_r, drop_0 by (assumption || lia). reflexivity. Qed.

(** ** The blocks *)

Lemma absorb_cons_block rw s st :
  (0 < rw)%nat -> (8 * rw <= length s)%nat ->
  absorb rw s (st, 0%nat) = absorb rw (drop (8 * rw) s) (perm (xor_bytes 0 (take (8 * rw) s) st), 0%nat).
Proof.
  intros Hrw Hl. rewrite <- (take_drop (8 * rw) s) at 1. rewrite absorb_app.
  rewrite absorb_block by (rewrite ?length_take; lia). reflexivity.
Qed.

Lemma keccak_absorb_block rw fuel s st :
  is_bytes s -> (8 * rw <= length s)%nat ->
  keccak_absorb (S fuel) (8 * Z.of_nat rw) s st =
    keccak_absorb fuel (8 * Z.of_nat rw) (drop (8 * rw) s) (perm (xor_bytes 0 (take (8 * rw) s) st)).
Proof.
  intros Hs Hl. cbn [keccak_absorb].
  destruct (Z.ltb_spec (Z.of_nat (length s)) (8 * Z.of_nat rw)) as [Hlt|Hge]; [lia|].
  assert (E1 : Z.to_nat (8 * Z.of_nat rw / 8) = rw) by (rewrite Z.mul_comm, Z.div_mul by lia; apply Nat2Z.id).
  assert (E2 : Z.to_nat (8 * Z.of_nat rw) = (8 * rw)%nat) by lia.
  rewrite E1, E2, (bind_Some_eq _ _ _ (keccak_xor_words_all s st rw Hs Hl)).
  exact (bind_Some_eq _ _ _ (keccakf_perm _)).
Qed.

Lemma keccak_absorb_ok rw fuel s st :
  (0 < rw)%nat -> is_bytes s -> (length s < fuel)%nat ->
  returns (keccak_absorb fuel (8 * Z.of_nat rw) s st) (fun '(s', st') =>
    (length s' < 8 * rw)%nat /\ is_bytes s' /\ absorb rw s (st, 0%nat) = absorb rw s' (st', 0%nat)).
Proof.
  intros Hrw. revert s st. induction fuel as [|fuel IH]; intros s st Hs Hf; [lia|].
  destruct (Nat.ltb_spec (length s) (8 * rw)) as [Hlt|Hge].
  - cbn [keccak_absorb]. destruct (Z.ltb_spec (Z.of_nat (length s)) (8 * Z.of_nat rw)); [|lia].
    apply returns_Some. split; [exact Hlt|]. split; [exact Hs | reflexivity].
  - rewrite keccak_absorb_block by assumption.
    eapply returns_mono; [apply IH; [apply Forall_drop, Hs | rewrite length_drop; lia]|].
    intros [s' st'] (Hl & Hs' & E). split; [exact Hl|]. split; [exact Hs'|].
    rewrite <- E. apply absorb_cons_block; lia.
Qed.

(** ** The padding *)

Lemma insert_last (s : list Z) b c : <[length s := c]> (s ++ [b]) = s ++ [c].
Proof. rewrite insert_app_r_alt, Nat.sub_diag by lia. reflexivity. Qed.

Lemma lookup_last (s : list Z) b : (s ++ [b]) !! length s = Some b.
Proof. rewrite lookup_app_r, Nat.sub_diag by lia. reflexivity. Qed.

(** The buffer: one byte 0x81, or 0x01, zeros and 0x80. *)
Lemma keccak_temp_ok rw s :
  (0 < rw <= 18)%nat -> (length s < 8 * rw)%nat ->
  keccak_temp (8 * Z.of_nat rw) s = Some (s ++
    if (length s =? 8 * rw - 1)%nat then [129] else 1 :: repeat 0 (8 * rw - 2 - length s) ++ [128]).
Proof.
  intros Hrw Hl. unfold keccak_temp. destruct (Z.leb_spec (8 * Z.of_nat rw) 144); [|lia].
  replace (Z.to_nat (8 * Z.of_nat rw - 1)) with (8 * rw - 1)%nat by lia.
  replace (Z.to_nat (8 * Z.of_nat rw - (Z.of_nat (length s) + 1))) with (8 * rw - 1 - length s)%nat by lia.
  destruct (Nat.eqb_spec (length s) (8 * rw - 1)) as [E|E].
  - rewrite <- E, Nat.sub_diag. cbn [repeat app]. rewrite lookup_last. cbn [mbind option_bind].
    rewrite insert_last. reflexivity.
  - replace (8 * rw - 1 - length s)%nat with (8 * rw - 2 - length s + 1)%nat by lia.
    rewrite repeat_app. cbn [repeat]. set (pre := s ++ 1 :: repeat 0 (8 * rw - 2 - length s)).
    assert (Epre : length pre = (8 * rw - 1)%nat).
    { unfold pre. rewrite length_app. cbn [length]. rewrite repeat_length. lia. }
    assert (Et : s ++ [1] ++ repeat 0 (8 * rw - 2 - length s) ++ [0] = pre ++ [0])
      by (unfold pre; rewrite <- app_assoc; reflexivity).
    rewrite Et, <- Epre, lookup_last. cbn [mbind option_bind]. rewrite insert_last.
    unfold pre. rewrite <- app_assoc. reflexivity.
Qed.

Lemma div_mod_last rw : (0 < rw)%nat -> ((8 * rw - 1) / 8 = rw - 1 /\ (8 * rw - 1) mod 8 = 7)%nat.
Proof.
  intros Hrw. replace (8 * rw - 1)%nat with (7 + (rw - 1) * 8)%nat by lia.
  rewrite Nat.div_add, Nat.Div0.mod_add by lia. split; [|reflexivity]. change (7 / 8)%nat with 0%nat. lia.
Qed.

(** Padding in a buffer is padding in the state. *)
Lemma xor_bytes_pad rw s st :
  (0 < rw)%nat -> (length s < 8 * rw)%nat ->
  xor_bytes 0 (s ++ if (length s =? 8 * rw - 1)%nat then [129]
                    else 1 :: repeat 0 (8 * rw - 2 - length s) ++ [128]) st =
  sponge_pad rw 1 (xor_bytes 0 s st, length s).
Proof.
  intros Hrw Hl. destruct (div_mod_last rw Hrw) as [Ed Em].
  rewrite xor_bytes_app. cbn [sponge_pad]. change (0 + length s)%nat with (length s).
  destruct (Nat.eqb_spec (length s) (8 * rw - 1)) as [E|E]; cbn [xor_bytes].
  - rewrite E, Ed, Em, xor_at_twice. reflexivity.
  - rewrite xor_bytes_app, xor_bytes_zeros. cbn [xor_bytes]. rewrite repeat_length.
    replace (S (length s) + (8 * rw - 2 - length s))%nat with (8 * rw - 1)%nat by lia.
    rewrite Ed, Em. reflexivity.
Qed.

Lemma temp_bytes (s pad : list Z) : is_bytes s -> pad = [129] \/ (exists n, pad = 1 :: repeat 0 n ++ [128]) ->
  is_bytes (s ++ pad).
Proof.
  intros Hs Hp. apply Forall_app. split; [exact Hs|].
  destruct Hp as [->|[n ->]]; repeat (apply Forall_cons; split; [unfold is_byte; lia|]); [apply Forall_nil_2|].
  apply Forall_app. split; [|repeat (apply Forall_cons; split; [unfold is_byte; lia|]); apply Forall_nil_2].
  induction n; cbn; [apply Forall_nil_2 | apply Forall_cons; split; [unfold is_byte; lia | assumption]].
Qed.

(** ** The hash *)

(** [keccak] with a rate of [rw] lanes, once the length of the digest says so. *)
Lemma keccak_ok s mdlen rw :
  is_bytes s -> (0 < rw <= 18)%nat -> mdlen <= 200 ->
  (if 200 =? mdlen then HASH_DATA_AREA else 200 - 2 * mdlen) = 8 * Z.of_nat rw ->
  keccak s mdlen = Some (sponge rw 1 s (Z.to_nat mdlen)).
Proof.
  intros Hs Hrw Hmd Er. unfold keccak. rewrite Er.
  destruct (keccak_absorb_ok rw (S (length s)) s (repeat 0 25%nat)) as ([s' st'] & E & Hl & Hs' & Ea); [lia | exact Hs | lia|].
  assert (E1 : Z.to_nat (8 * Z.of_nat rw / 8) = rw) by (rewrite Z.mul_comm, Z.div_mul by lia; apply Nat2Z.id).
  rewrite (bind_Some_eq _ _ _ E), E1, (bind_Some_eq _ _ _ (keccak_temp_ok rw s' Hrw Hl)).
  unfold sponge. rewrite Ea, absorb_start, <- (xor_bytes_pad rw s') by lia.
  set (temp := s' ++ _).
  assert (Hlen : length temp = (8 * rw)%nat).
  { unfold temp. rewrite length_app. destruct (Nat.eqb_spec (length s') (8 * rw - 1)); cbn [length]; [lia|].
    rewrite length_app, repeat_length. cbn [length]. lia. }
  assert (Hb : is_bytes temp) by (apply temp_bytes; [exact Hs' | destruct (_ =? _)%nat; eauto]).
  rewrite (bind_Some_eq _ _ _ (keccak_xor_words_all temp st' rw Hb ltac:(lia))), (take_ge temp) by lia.
  rewrite (bind_Some_eq _ _ _ (keccakf_perm _)).
  destruct (Z.leb_spec mdlen 200); [reflexivity | lia].
Qed.
