(* ===== verification/Sha3.v ===== *)
(** * The incremental hash of sha3.cpp

    [sha3_Init], [sha3_SetFlags], [sha3_Update], [sha3_Finalize] and
    [sha3_HashBuffer] of base/crypto/sha3.cpp: a context that collects bytes
    into words and words into blocks. *)

From S2P Require Import Prelude.
From S2P Require Import Keccak.
From S2P Require Import Sponge.
From S2P Require Import CInt.
From S2P Require Import Bytes.

(** ** State *)

(** [sha3_context]; the union of words and bytes is kept as words. *)
Record sha3_context := Ctx {
  saved : Z;
  ctx_s : list Z;
  byteIndex : nat;
  wordIndex : nat;
  capacityWords : Z
}.

Inductive sha3_return_t := SHA3_RETURN_OK | SHA3_RETURN_BAD_PARAMS.

Definition SHA3_FLAGS_NONE : Z := 0.
Definition SHA3_FLAGS_KECCAK : Z := 1.
Definition SHA3_USE_KECCAK_FLAG : Z := 0x80000000.
Definition SHA3_KECCAK_SPONGE_WORDS : Z := 25.

(** The macro [SHA3_CW]. *)
Definition SHA3_CW (x : Z) : Z := Z.land x (to_u32 (Z.lnot SHA3_USE_KECCAK_FLAG)).

(** ** Operations *)

Definition sha3_Init (bitSize : Z) : option sha3_context :=
  if negb (bitSize =? 256) && negb (bitSize =? 384) && negb (bitSize =? 512) then None
  else Some (Ctx 0 (repeat 0 25) 0 0 (2 * bitSize / (8 * 8))).

Definition sha3_SetFlags (ctx : sha3_context) (flags : Z) : sha3_context * Z :=
  let flags := Z.land flags SHA3_FLAGS_KECCAK in
  let cw := Z.lor (capacityWords ctx) (if flags =? SHA3_FLAGS_KECCAK then SHA3_USE_KECCAK_FLAG else 0) in
  (Ctx (saved ctx) (ctx_s ctx) (byteIndex ctx) (wordIndex ctx) cw, flags).

(** [ctx->saved |= (uint64_t) b << ((ctx->byteIndex++) * 8)]. *)
Definition sha3_store (ctx : sha3_context) (b : Z) : sha3_context :=
  Ctx (Z.lor (saved ctx) (to_u64 (Z.shiftl b (Z.of_nat (byteIndex ctx) * 8)))) (ctx_s ctx)
    (S (byteIndex ctx)) (wordIndex ctx) (capacityWords ctx).

(** [ctx->s[ctx->wordIndex] ^= t], and the permutation at the end of a block. *)
Definition sha3_word (ctx : sha3_context) (t : Z) : option sha3_context :=
  let s := xor_at t (ctx_s ctx) (wordIndex ctx) in
  let w := S (wordIndex ctx) in
  if Z.of_nat w =? SHA3_KECCAK_SPONGE_WORDS - SHA3_CW (capacityWords ctx) then
    s ← keccakf s 24;
    Some (Ctx (saved ctx) s (byteIndex ctx) 0 (capacityWords ctx))
  else Some (Ctx (saved ctx) s (byteIndex ctx) w (capacityWords ctx)).

(** [ctx->byteIndex = 0; ctx->saved = 0]. *)
Definition sha3_clear (ctx : sha3_context) : sha3_context :=
  Ctx 0 (ctx_s ctx) 0 (wordIndex ctx) (capacityWords ctx).

(** The word [t] of the loop, out of eight bytes. *)
Definition sha3_load (buf : list Z) : option Z :=
  b0 ← buf !! 0%nat; b1 ← buf !! 1%nat; b2 ← buf !! 2%nat; b3 ← buf !! 3%nat;
  b4 ← buf !! 4%nat; b5 ← buf !! 5%nat; b6 ← buf !! 6%nat; b7 ← buf !! 7%nat;
  Some (Z.lor (Z.lor (Z.lor (Z.lor (Z.lor (Z.lor (Z.lor b0 (Z.shiftl b1 8)) (Z.shiftl b2 16)) (Z.shiftl b3 24))
    (Z.shiftl b4 32)) (Z.shiftl b5 40)) (Z.shiftl b6 48)) (Z.shiftl b7 56)).

(** [for (i = 0; i < words; i++, buf += 8)]: the context and the bytes left. *)
Fixpoint sha3_words (words : nat) (buf : list Z) (ctx : sha3_context) : option (list Z * sha3_context) :=
  match words with
  | O => Some (buf, ctx)
  | S words => t ← sha3_load buf; ctx ← sha3_word ctx t; sha3_words words (drop 8 buf) ctx
  end.

Definition sha3_Update (ctx : sha3_context) (buf : list Z) : option sha3_context :=
  let old_tail := Z.to_nat (Z.land (8 - Z.of_nat (byteIndex ctx)) 7) in
  let len := length buf in
  if (len <? old_tail)%nat then Some (foldl sha3_store ctx buf)
  else
    p ← (if (old_tail =? 0)%nat then Some (buf, ctx)
         else
           let ctx := foldl sha3_store ctx (take old_tail buf) in
           ctx ← sha3_word ctx (saved ctx);
           Some (drop old_tail buf, sha3_clear ctx));
    let '(buf, ctx) := p in
    p ← sha3_words (length buf / 8) buf ctx;
    let '(buf, ctx) := p in
    Some (foldl sha3_store ctx buf).

(** The bytes of a lane, through two [unsigned] halves. *)
Definition sha3_lane_bytes (v : Z) : list Z :=
  let t1 := to_u32 v in
  let t2 := to_u32 (Z.shiftr (Z.shiftr v 16) 16) in
  [to_u8 t1; to_u8 (Z.shiftr t1 8); to_u8 (Z.shiftr t1 16); to_u8 (Z.shiftr t1 24);
   to_u8 t2; to_u8 (Z.shiftr t2 8); to_u8 (Z.shiftr t2 16); to_u8 (Z.shiftr t2 24)].

Definition sha3_Finalize (ctx : sha3_context) : option (list Z) :=
  let t :=
    if negb (Z.land (capacityWords ctx) SHA3_USE_KECCAK_FLAG =? 0)
    then to_u64 (Z.shiftl 1 (Z.of_nat (byteIndex ctx) * 8))
    else to_u64 (Z.shiftl (Z.lor 2 (Z.shiftl 1 2)) (Z.of_nat (byteIndex ctx) * 8)) in
  let s := xor_at (Z.lxor (saved ctx) t) (ctx_s ctx) (wordIndex ctx) in
  let s := xor_at 0x8000000000000000 s
             (Z.to_nat (SHA3_KECCAK_SPONGE_WORDS - SHA3_CW (capacityWords ctx) - 1)) in
  s ← keccakf s 24;
  Some (concat (map sha3_lane_bytes s)).

(** The return code and what is written to [out]. *)
Definition sha3_HashBuffer (bitSize flags : Z) (buf : list Z) (outBytes : Z) :
    option (sha3_return_t * list Z) :=
  match sha3_Init bitSize with
  | None => Some (SHA3_RETURN_BAD_PARAMS, [])
  | Some c =>
      let '(c, f) := sha3_SetFlags c flags in
      if negb (f =? flags) then Some (SHA3_RETURN_BAD_PARAMS, [])
      else
        c ← sha3_Update c buf;
        h ← sha3_Finalize c;
        let outBytes := if bitSize / 8 <? outBytes then bitSize / 8 else outBytes in
        Some (SHA3_RETURN_OK, take (Z.to_nat outBytes) h)
  end.

(** * The incremental hash is the sponge

    The context after any sequence of [sha3_Update] calls stands for the
    sponge that absorbed their bytes one at a time, so how the input is cut
    into calls does not matter. *)

(** ** What a context stands for *)

(** [fed rw c bs s wi ctx]: capacity word [c], [bs] stored in [saved]. *)
Record fed (rw : nat) (c : Z) (bs s : list Z) (wi : nat) (ctx : sha3_context) : Prop := Fed {
  fed_bytes : is_bytes bs;
  fed_saved : saved ctx = le_val bs;
  fed_index : byteIndex ctx = length bs;
  fed_s : ctx_s ctx = s;
  fed_word : wordIndex ctx = wi;
  fed_cap : capacityWords ctx = c
}.

(** The context stands for the sponge [p] of rate [rw]. *)
Definition stands (rw : nat) (c : Z) (p : list Z * nat) (ctx : sha3_context) : Prop :=
  exists bs s wi, fed rw c bs s wi ctx /\ (length bs < 8)%nat /\ (wi < rw)%nat /\
    p = absorb rw bs (s, 8 * wi)%nat.

(** The rate that goes with a capacity word. *)
Definition rate_of (c : Z) (rw : nat) : Prop := (0 < rw <= 24)%nat /\ SHA3_KECCAK_SPONGE_WORDS - SHA3_CW c = Z.of_nat rw.

(** ** Words *)

(** Eight bytes complete lane [wi]. *)
Lemma absorb_word rw bs s wi :
  is_bytes bs -> length bs = 8%nat -> (wi < rw)%nat ->
  absorb rw bs (s, 8 * wi)%nat =
    if (S wi =? rw)%nat then (perm (xor_at (le_val bs) s wi), 0%nat)
    else (xor_at (le_val bs) s wi, 8 * S wi)%nat.
Proof.
  intros Hb Hl Hw. destruct (Nat.eqb_spec (S wi) rw).
  - rewrite absorb_block, xor_bytes_word by (assumption || lia). reflexivity.
  - rewrite absorb_inside, xor_bytes_word by (assumption || lia). f_equal. lia.
Qed.

Lemma sha3_word_ok rw c ctx bs s wi t :
  rate_of c rw -> capacityWords ctx = c -> ctx_s ctx = s -> wordIndex ctx = wi -> (wi < rw)%nat ->
  is_bytes bs -> length bs = 8%nat -> t = le_val bs ->
  exists s' wi', sha3_word ctx t = Some (Ctx (saved ctx) s' (byteIndex ctx) wi' c) /\ (wi' < rw)%nat /\
    absorb rw bs (s, 8 * wi)%nat = (s', 8 * wi')%nat.
Proof.
  intros [Hrw Hr] Hc Hs Hwi Hlt Hb Hl Ht. unfold sha3_word. rewrite Hc, Hs, Hwi, Hr, Ht.
  rewrite absorb_word by assumption.
  destruct (Z.eqb_spec (Z.of_nat (S wi)) (Z.of_nat rw)) as [E|E], (Nat.eqb_spec (S wi) rw) as [E'|E']; try lia.
  - rewrite (bind_Some_eq _ _ _ (keccakf_perm _)). do 2 eexists. split; [reflexivity|]. split; [lia | reflexivity].
  - do 2 eexists. split; [reflexivity|]. split; [lia | reflexivity].
Qed.

(** Storing bytes appends to the word being collected. *)
Lemma sha3_store_ok rw c bs s wi ctx b :
  fed rw c bs s wi ctx -> is_byte b -> (length bs < 8)%nat -> fed rw c (bs ++ [b]) s wi (sha3_store ctx b).
Proof.
  intros [Hb Hsv Hi Hs Hw Hc] Hbyte Hl. split; cbn [sha3_store saved byteIndex ctx_s wordIndex capacityWords]; try assumption.
  - apply Forall_app. split; [exact Hb | apply Forall_cons; split; [exact Hbyte | apply Forall_nil_2]].
  - rewrite Hsv, Hi, le_val_app, (Z.mul_comm (Z.of_nat _)).
    pose proof (le_val_range bs Hb) as Hr. set (k := 8 * Z.of_nat (length bs)) in *.
    assert (Hk : 0 <= k <= 56) by (unfold k; lia).
    assert (Hu : to_u64 (Z.shiftl b k) = Z.shiftl b k).
    { apply Z.mod_small. rewrite Z.shiftl_mul_pow2 by lia. unfold is_byte in Hbyte.
      assert (2 ^ k <= 2 ^ 56) by (apply Z.pow_le_mono_r; lia).
      change 18446744073709551616 with (256 * 2 ^ 56). nia. }
    rewrite Hu, lor_shiftl_add by lia. cbn [le_val]. ring.
  - rewrite Hi, length_app. cbn [length]. lia.
Qed.

Lemma sha3_stores_ok rw c l bs s wi ctx :
  fed rw c bs s wi ctx -> is_bytes l -> (length bs + length l <= 8)%nat ->
  fed rw c (bs ++ l) s wi (foldl sha3_store ctx l).
Proof.
  intros H Hl. revert bs ctx H. induction Hl as [|b l Hb _ IH]; intros bs ctx H Hlen; cbn [foldl].
  - rewrite app_nil_r. exact H.
  - cbn [length] in Hlen. change (b :: l) with ([b] ++ l). rewrite app_assoc. apply IH.
    + apply sha3_store_ok; [exact H | exact Hb | lia].
    + rewrite length_app. cbn [length]. lia.
Qed.

Lemma sha3_load_ok buf :
  is_bytes buf -> (8 <= length buf)%nat -> sha3_load buf = Some (le_val (take 8 buf)).
Proof.
  intros Hb Hl. unfold sha3_load.
  do 8 (let b := fresh "b" in destruct buf as [|b buf]; [cbn in Hl; lia|]; apply Forall_cons in Hb as [? Hb]).
  cbn [lookup list_lookup mbind option_bind]. f_equal. unfold is_byte in *.
  rewrite (lor_shiftl_add b b0 8), (lor_shiftl_add _ b1 16), (lor_shiftl_add _ b2 24), (lor_shiftl_add _ b3 32),
    (lor_shiftl_add _ b4 40), (lor_shiftl_add _ b5 48), (lor_shiftl_add _ b6 56) by lia.
  rewrite !firstn_cons, firstn_O. cbn [le_val]. ring.
Qed.

Lemma sha3_words_ok rw c n buf s wi ctx :
  rate_of c rw -> fed rw c [] s wi ctx -> (wi < rw)%nat -> is_bytes buf -> (8 * n <= length buf)%nat ->
  returns (sha3_words n buf ctx) (fun '(buf', ctx') => buf' = drop (8 * n) buf /\
    exists s' wi', fed rw c [] s' wi' ctx' /\ (wi' < rw)%nat /\
      absorb rw (take (8 * n) buf) (s, 8 * wi)%nat = (s', 8 * wi')%nat).
Proof.
  intros Hr. revert buf s wi ctx. induction n as [|n IH]; intros buf s wi ctx Hfed Hwi Hb Hl; cbn [sha3_words].
  - apply returns_Some. split; [reflexivity|]. exists s, wi. auto.
  - rewrite (bind_Some_eq _ _ _ (sha3_load_ok buf Hb ltac:(lia))).
    destruct Hfed as [Hbs Hsv Hi Hs Hw Hc].
    destruct (sha3_word_ok rw c ctx (take 8 buf) s wi (le_val (take 8 buf)) Hr Hc Hs Hw Hwi) as (s' & wi' & E & Hwi' & Ea);
      [apply Forall_take, Hb | rewrite length_take; lia | reflexivity|].
    rewrite (bind_Some_eq _ _ _ E).
    eapply returns_mono; [apply (IH (drop 8 buf) s' wi')|].
    + split; try assumption; reflexivity.
    + exact Hwi'.
    + apply Forall_drop, Hb.
    + rewrite length_drop. lia.
    + intros [buf' ctx'] [-> (s2 & wi2 & Hfed2 & Hwi2 & Ea2)].
      rewrite drop_drop. split; [f_equal; lia|]. exists s2, wi2. split; [exact Hfed2|]. split; [exact Hwi2|].
      replace (8 * S n)%nat with (8 + 8 * n)%nat by lia.
      rewrite <- take_drop_app, absorb_app, Ea. exact Ea2.
Qed.

(** ** Operations *)

Lemma length_mod8 (s : list Z) : (length (drop (8 * (length s / 8)) s) = length s mod 8)%nat.
Proof. rewrite length_drop. pose proof (Nat.div_mod_eq (length s) 8). lia. Qed.

(** Whole words and a tail, from a word boundary. *)
Lemma sha3_aligned_ok rw c buf s wi ctx :
  rate_of c rw -> fed rw c [] s wi ctx -> (wi < rw)%nat -> is_bytes buf ->
  returns (p ← sha3_words (length buf / 8) buf ctx; let '(buf, ctx) := p in Some (foldl sha3_store ctx buf))
    (stands rw c (absorb rw buf (s, 8 * wi)%nat)).
Proof.
  intros Hr Hfed Hwi Hb. pose proof (Nat.div_mod_eq (length buf) 8) as Hdm.
  eapply returns_bind; [apply (sha3_words_ok rw c _ buf s wi ctx Hr Hfed Hwi Hb); lia|].
  intros [buf' ctx'] [-> (s' & wi' & Hfed' & Hwi' & Ea)]. apply returns_Some.
  assert (Hlt : (length (drop (8 * (length buf / 8)) buf) < 8)%nat).
  { rewrite length_mod8. apply Nat.mod_upper_bound. lia. }
  exists (drop (8 * (length buf / 8)) buf), s', wi'. split; [|split; [exact Hlt | split; [exact Hwi'|]]].
  - apply (sha3_stores_ok rw c _ []); [exact Hfed' | apply Forall_drop, Hb | exact (Nat.lt_le_incl _ _ Hlt)].
  - rewrite <- Ea, <- absorb_app, take_drop. reflexivity.
Qed.

Lemma old_tail_ok n : (n < 8)%nat -> Z.to_nat (Z.land (8 - Z.of_nat n) 7) = if (n =? 0)%nat then 0%nat else (8 - n)%nat.
Proof.
  intros Hn. do 8 (destruct n as [|n]; [reflexivity|]). lia.
Qed.

Lemma sha3_Update_ok rw c buf p ctx :
  rate_of c rw -> stands rw c p ctx -> is_bytes buf ->
  returns (sha3_Update ctx buf) (stands rw c (absorb rw buf p)).
Proof.
  intros Hr (bs & s & wi & Hfed & Hl & Hwi & ->) Hb. unfold sha3_Update. rewrite (fed_index _ _ _ _ _ _ Hfed).
  rewrite old_tail_ok by exact Hl. rewrite <- absorb_app.
  destruct (Nat.eqb_spec (length bs) 0) as [E0|E0].
  - destruct bs as [|]; [|discriminate E0]. cbn [app]. change (length buf <? 0)%nat with false.
    apply sha3_aligned_ok; assumption.
  - destruct (Nat.ltb_spec (length buf) (8 - length bs)) as [Hlt|Hge].
    + apply returns_Some. exists (bs ++ buf), s, wi. rewrite length_app. split; [|split; [lia | auto]].
      apply sha3_stores_ok; [exact Hfed | exact Hb | lia].
    + destruct (Nat.eqb_spec (8 - length bs) 0); [lia|].
      set (k := (8 - length bs)%nat) in *. set (head := take k buf).
      assert (Hhead : is_bytes head) by (apply Forall_take, Hb).
      assert (Hlen : length head = k) by (unfold head; rewrite length_take; lia).
      pose proof (sha3_stores_ok rw c head bs s wi ctx Hfed Hhead ltac:(lia)) as [Hbs Hsv Hi Hs Hw Hc].
      destruct (sha3_word_ok rw c _ (bs ++ head) s wi _ Hr Hc Hs Hw Hwi Hbs ltac:(rewrite length_app; lia) Hsv)
        as (s' & wi' & E & Hwi' & Ea).
      rewrite (bind_Some_eq _ _ _ E). cbn [mbind option_bind].
      replace (bs ++ buf) with ((bs ++ head) ++ drop k buf) by (unfold head; rewrite <- app_assoc, take_drop; reflexivity).
      rewrite absorb_app, Ea.
      apply sha3_aligned_ok; [exact Hr | split; try reflexivity; apply Forall_nil_2 | exact Hwi' | apply Forall_drop, Hb].
Qed.

(** A byte of a 32-bit half is a byte of the lane. *)
Lemma half_byte v a c :
  0 <= a -> 0 <= c -> c + 8 <= 32 -> to_u8 (Z.shiftr (to_u32 (v / 2 ^ a)) c) = v / 2 ^ (a + c) mod 256.
Proof.
  intros Ha Hc Hn. unfold to_u8, to_u32. rewrite Z.shiftr_div_pow2 by lia.
  apply (mod_div_mod v a 32 c 8); lia.
Qed.

Lemma lane_bytes v : sha3_lane_bytes v = le_bytes 8 v.
Proof.
  rewrite le_bytes_at. unfold sha3_lane_bytes. cbn [seq map].
  rewrite Z.shiftr_shiftr by lia. change (16 + 16) with 32. rewrite (Z.shiftr_div_pow2 v 32) by lia.
  replace (to_u32 v) with (to_u32 (v / 2 ^ 0)) by (rewrite Z.div_1_r; reflexivity).
  rewrite <- (Z.shiftr_0_r (to_u32 (v / 2 ^ 0))) at 1. rewrite <- (Z.shiftr_0_r (to_u32 (v / 2 ^ 32))) at 1.
  rewrite !half_byte by lia. reflexivity.
Qed.

Lemma sha3_bytes st : concat (map sha3_lane_bytes st) = state_bytes st.
Proof. unfold state_bytes. f_equal. apply map_ext. exact lane_bytes. Qed.

(** The padding byte: 1 for Keccak, 6 for SHA-3. *)
Definition pad_byte (c : Z) : Z := if negb (Z.land c SHA3_USE_KECCAK_FLAG =? 0) then 1 else 6.

Lemma to_u64_shifted d k : 0 <= d < 256 -> 0 <= k <= 56 -> to_u64 (Z.shiftl d k) = Z.shiftl d k.
Proof.
  intros Hd Hk. apply Z.mod_small. rewrite Z.shiftl_mul_pow2 by lia.
  assert (2 ^ k <= 2 ^ 56) by (apply Z.pow_le_mono_r; lia).
  change 18446744073709551616 with (256 * 2 ^ 56). nia.
Qed.

Lemma sha3_Finalize_ok rw c p ctx :
  rate_of c rw -> stands rw c p ctx ->
  sha3_Finalize ctx = Some (state_bytes (perm (sponge_pad rw (pad_byte c) p))).
Proof.
  intros [Hrw Hr] (bs & s & wi & [Hb Hsv Hi Hs Hw Hc] & Hl & Hwi & ->). unfold sha3_Finalize.
  rewrite Hc, Hi, Hs, Hw, Hsv, Hr, (Z.mul_comm (Z.of_nat _)), absorb_inside, xor_bytes_word by (assumption || lia).
  set (k := 8 * Z.of_nat (length bs)).
  assert (Et : (if negb (Z.land c SHA3_USE_KECCAK_FLAG =? 0) then to_u64 (Z.shiftl 1 k)
                else to_u64 (Z.shiftl (Z.lor 2 (Z.shiftl 1 2)) k)) = Z.shiftl (pad_byte c) k).
  { unfold pad_byte. destruct (negb _); apply to_u64_shifted; unfold k; split; lia || (vm_compute; congruence). }
  rewrite Et, (bind_Some_eq _ _ _ (keccakf_perm _)), sha3_bytes. unfold sponge_pad.
  assert (Ed : ((8 * wi + length bs) / 8 = wi /\ (8 * wi + length bs) mod 8 = length bs)%nat).
  { rewrite (Nat.mul_comm 8), Nat.add_comm, Nat.div_add, Nat.Div0.mod_add, Nat.div_small, Nat.mod_small by lia. lia. }
  destruct Ed as [-> ->]. rewrite xor_at_twice. fold k.
  replace (Z.to_nat (Z.of_nat rw - 1)) with (rw - 1)%nat by lia. reflexivity.
Qed.

Lemma sha3_new_ok rw c : rate_of c rw -> stands rw c (repeat 0 25%nat, 0%nat) (Ctx 0 (repeat 0 25%nat) 0 0 c).
Proof.
  intros [Hrw _]. exists [], (repeat 0 25%nat), 0%nat.
  split; [split; try reflexivity; apply Forall_nil_2|]. split; [cbn; lia|]. split; [lia | reflexivity].
Qed.
