(* ===== verification/KeccakSpec.v ===== *)
(** * What the hash functions promise

    Keccak-f against FIPS 202 bit by bit, the one-shot and the incremental
    hash against the byte-wise sponge and against each other, and the
    parameters they refuse. *)

From S2P Require Import Prelude.
From S2P Require Import CInt.
From S2P Require Import Bytes.
From S2P Require Import Keccak.
From S2P Require Import Sponge.
From S2P Require Import Sha3.

(** ** Lemmas *)

(** The lanes of a block, by the size of the digest in bits. *)
Definition rate_words (bitSize : Z) : nat := Z.to_nat (25 - bitSize / 32).

Lemma sha3_setup bitSize flags ctx :
  sha3_Init bitSize = Some ctx -> flags = 0 \/ flags = 1 ->
  exists c, sha3_SetFlags ctx flags = (Ctx 0 (repeat 0 25%nat) 0 0 c, flags) /\ rate_of c (rate_words bitSize) /\
    pad_byte c = (if flags =? 1 then 1 else 6).
Proof.
  intros H Hf. assert (Hb : bitSize = 256 \/ bitSize = 384 \/ bitSize = 512).
  { unfold sha3_Init in H. destruct (Z.eqb_spec bitSize 256); [auto|].
    destruct (Z.eqb_spec bitSize 384); [auto|]. destruct (Z.eqb_spec bitSize 512); [auto | discriminate H]. }
  destruct Hb as [->|[->| ->]]; injection H as <-; destruct Hf as [->| ->];
    (eexists; split; [reflexivity|]; split; [|reflexivity]); unfold rate_of;
    (split; [|reflexivity]); split; apply Nat.leb_le; reflexivity.
Qed.

(** Several calls of [sha3_Update]. *)
Fixpoint sha3_feed (chunks : list (list Z)) (ctx : sha3_context) : option sha3_context :=
  match chunks with
  | [] => Some ctx
  | buf :: chunks => ctx ← sha3_Update ctx buf; sha3_feed chunks ctx
  end.

Lemma sha3_feed_ok rw c chunks p ctx :
  rate_of c rw -> stands rw c p ctx -> Forall is_bytes chunks ->
  returns (sha3_feed chunks ctx) (stands rw c (absorb rw (concat chunks) p)).
Proof.
  intros Hr Hs Hc. revert p ctx Hs. induction Hc as [|buf chunks Hb _ IH]; intros p ctx Hs; cbn [sha3_feed concat].
  - apply returns_Some, Hs.
  - eapply returns_bind; [apply (sha3_Update_ok rw c buf p ctx Hr Hs Hb)|]. intros ctx' Hs'.
    rewrite absorb_app. apply IH, Hs'.
Qed.

Lemma sha3_hash_ok rw c s :
  rate_of c rw -> is_bytes s ->
  (ctx ← sha3_Update (Ctx 0 (repeat 0 25%nat) 0 0 c) s; sha3_Finalize ctx) =
    Some (state_bytes (perm (sponge_pad rw (pad_byte c) (absorb rw s (repeat 0 25%nat, 0%nat))))).
Proof.
  intros Hr Hs. destruct (sha3_Update_ok rw c s _ _ Hr (sha3_new_ok rw c Hr) Hs) as (ctx & -> & H).
  apply sha3_Finalize_ok; assumption.
Qed.

Lemma take_length_le {A} n (s : list A) : (length (take n s) <= n)%nat.
Proof. rewrite length_take. lia. Qed.

Lemma absorb_never rsiz fuel s st : rsiz <= 0 -> keccak_absorb fuel rsiz s st = None.
Proof.
  intros Hr. revert s st. induction fuel as [|fuel IH]; intros s st; cbn [keccak_absorb]; [reflexivity|].
  destruct (Z.ltb_spec (Z.of_nat (length s)) rsiz); [lia|].
  replace (Z.to_nat (rsiz / 8)) with 0%nat.
  - cbn [seq keccak_xor_words]. rewrite (bind_Some_eq (Some st) _ st eq_refl), (bind_Some_eq _ _ _ (keccakf_perm st)). apply IH.
  - destruct (Z.eq_dec rsiz 0) as [->|]; [reflexivity|].
    assert (rsiz / 8 < 0) by (apply Z.div_lt_upper_bound; lia). lia.
Qed.

(** ** Properties *)

(** C6: on a state of twenty-five 64-bit lanes, [keccakf] with at most 24
    rounds computes the rounds of FIPS 202 on the 1600 bits: the in-place
    theta, rho, pi, chi and iota are the five step mappings, and the table of
    round constants is the output of the specified shift register. *)
Theorem keccakf_refines_fips202 st rounds :
  length st = 25%nat -> Forall lane st -> (rounds <= 24)%nat ->
  exists st', keccakf st rounds = Some st' /\ length st' = 25%nat /\ Forall lane st' /\
    forall x, (x < 5)%nat -> forall y, (y < 5)%nat -> forall z, 0 <= z < 64 ->
      Z.testbit (st' !!! (x + 5 * y)%nat) z = spec_keccak_f (bits_of_lanes st) rounds x y z.
Proof.
  intros Hl Hf Hr. destruct (keccakf_ok st _ rounds Hr (agrees_bits st Hl Hf)) as (st' & E & [Hl' Hf'] & Hb).
  exists st'. auto.
Qed.

Lemma keccakf_refines_fips202_witness :
  let st := repeat 0 25%nat in
  exists st', keccakf st 24 = Some st' /\ length st' = 25%nat /\ Forall lane st' /\
    forall x, (x < 5)%nat -> forall y, (y < 5)%nat -> forall z, 0 <= z < 64 ->
      Z.testbit (st' !!! (x + 5 * y)%nat) z = spec_keccak_f (bits_of_lanes st) 24 x y z.
Proof.
  apply (keccakf_refines_fips202 (repeat 0 25%nat) 24); [reflexivity | | lia].
  apply (bool_decide_eq_true_1 _). eval_closed.
Defined.

(** C37: [keccak] with a digest of 28 to 96 bytes in steps of 4, or of 200, is
    the sponge with the padding 1 0...0 1: for any input it terminates, stays
    within its buffers and returns the first bytes of the permuted state. *)
Theorem keccak_is_sponge s mdlen :
  is_bytes s -> mdlen = 200 \/ (28 <= mdlen < 100 /\ mdlen mod 4 = 0) ->
  keccak s mdlen = Some (sponge (if mdlen =? 200 then 17 else Z.to_nat ((100 - mdlen) / 4)) 1 s (Z.to_nat mdlen)).
Proof.
  intros Hs Hmd. apply keccak_ok.
  - exact Hs.
  - destruct (Z.eqb_spec mdlen 200); [lia|]. destruct Hmd as [|[Hr Hm]]; [lia|].
    apply Z.mod_divide in Hm as [k ->]; [|lia]. replace (100 - k * 4) with ((25 - k) * 4) by ring.
    rewrite Z.div_mul by lia. lia.
  - lia.
  - rewrite (Z.eqb_sym 200). destruct (Z.eqb_spec mdlen 200); [reflexivity|]. destruct Hmd as [|[Hr Hm]]; [lia|].
    apply Z.mod_divide in Hm as [k ->]; [|lia]. replace (100 - k * 4) with ((25 - k) * 4) by ring.
    rewrite Z.div_mul by lia. lia.
Qed.

Lemma keccak_is_sponge_witness : keccak [1; 2; 3] 32 = Some (sponge 17 1 [1; 2; 3] 32).
Proof.
  apply (keccak_is_sponge [1; 2; 3] 32); [repeat (constructor; [unfold is_byte; lia|]); constructor | right; split; [lia | reflexivity]].
Defined.

(** The other digest lengths are outside what [keccak] can serve: below 28
    bytes the padded block overruns the buffer of 144 bytes, and from 100 to
    199 bytes the rate is not positive and the absorbing loop never ends. *)
Theorem keccak_unsupported_lengths s mdlen :
  is_bytes s -> (0 <= mdlen < 28 /\ mdlen mod 4 = 0) \/ 100 <= mdlen < 200 -> keccak s mdlen = None.
Proof.
  intros Hs Hmd. unfold keccak. destruct (Z.eqb_spec 200 mdlen); [lia|]. destruct Hmd as [[Hr Hm]|Hmd].
  - apply Z.mod_divide in Hm as [k ->]; [|lia].
    assert (E : 200 - 2 * (k * 4) = 8 * Z.of_nat (Z.to_nat (25 - k))) by lia. rewrite E.
    destruct (keccak_absorb_ok (Z.to_nat (25 - k)) (S (length s)) s (repeat 0 25%nat)) as ([s' st'] & Ea & _);
      [lia | exact Hs | lia|].
    rewrite (bind_Some_eq _ _ _ Ea). unfold keccak_temp.
    destruct (Z.leb_spec (8 * Z.of_nat (Z.to_nat (25 - k))) 144); [lia | reflexivity].
  - rewrite absorb_never by lia. reflexivity.
Qed.

Lemma keccak_unsupported_lengths_witness : keccak [7] 100 = None.
Proof.
  apply (keccak_unsupported_lengths [7] 100); [repeat (constructor; [unfold is_byte; lia|]); constructor | right; lia].
Defined.

(** C36: feeding the input in pieces gives the digest of the whole, wherever it
    is cut: the context between two [sha3_Update] calls loses nothing. *)
Theorem sha3_incremental bitSize flags chunks ctx :
  sha3_Init bitSize = Some ctx -> flags = 0 \/ flags = 1 -> Forall is_bytes chunks ->
  let ctx := fst (sha3_SetFlags ctx flags) in
  exists digest,
    (ctx ← sha3_feed chunks ctx; sha3_Finalize ctx) = Some digest /\
    (ctx ← sha3_Update ctx (concat chunks); sha3_Finalize ctx) = Some digest.
Proof.
  intros Hi Hf Hc. destruct (sha3_setup bitSize flags ctx Hi Hf) as (c & E & Hr & _). cbv zeta. rewrite E. cbn [fst].
  eexists. split.
  - destruct (sha3_feed_ok _ c chunks _ _ Hr (sha3_new_ok _ c Hr) Hc) as (ctx' & -> & H).
    exact (sha3_Finalize_ok _ c _ ctx' Hr H).
  - apply sha3_hash_ok; [exact Hr | apply concat_bytes, Hc].
Qed.

Lemma sha3_incremental_witness :
  let ctx := fst (sha3_SetFlags (Ctx 0 (repeat 0 25%nat) 0 0 8) 0) in
  exists digest,
    (ctx ← sha3_feed [[1]; []; [2; 3; 4; 5; 6; 7; 8; 9; 10]] ctx; sha3_Finalize ctx) = Some digest /\
    (ctx ← sha3_Update ctx (concat [[1]; []; [2; 3; 4; 5; 6; 7; 8; 9; 10]]); sha3_Finalize ctx) = Some digest.
Proof.
  apply (sha3_incremental 256 0 [[1]; []; [2; 3; 4; 5; 6; 7; 8; 9; 10]]); [reflexivity | left; reflexivity|].
  repeat (constructor; [repeat (constructor; [unfold is_byte; lia|]); constructor|]). constructor.
Defined.

(** [sha3_HashBuffer] is the sponge of rate 1600 - 2 bitSize, with the
    padding of SHA-3 or, under [SHA3_FLAGS_KECCAK], of Keccak, cut to at most
    bitSize / 8 bytes; with a 256-bit digest and that flag it is the [keccak]
    of keccak.cpp, the other implementation in the program. *)
Theorem sha3_HashBuffer_correct bitSize flags s n :
  bitSize = 256 \/ bitSize = 384 \/ bitSize = 512 -> flags = 0 \/ flags = 1 -> is_bytes s ->
  sha3_HashBuffer bitSize flags s n =
    Some (SHA3_RETURN_OK, sponge (rate_words bitSize) (if flags =? 1 then 1 else 6) s (Z.to_nat (Z.min n (bitSize / 8)))) /\
  sha3_HashBuffer 256 SHA3_FLAGS_KECCAK s 32 = (d ← keccak s 32; Some (SHA3_RETURN_OK, d)).
Proof.
  assert (H : forall bitSize flags n, bitSize = 256 \/ bitSize = 384 \/ bitSize = 512 -> flags = 0 \/ flags = 1 -> is_bytes s ->
    sha3_HashBuffer bitSize flags s n = Some (SHA3_RETURN_OK,
      sponge (rate_words bitSize) (if flags =? 1 then 1 else 6) s (Z.to_nat (Z.min n (bitSize / 8))))).
  { clear. intros bitSize flags n Hb Hf Hs. unfold sha3_HashBuffer.
    destruct (sha3_Init bitSize) as [ctx|] eqn:Ei; [|destruct Hb as [->|[->| ->]]; discriminate Ei].
    destruct (sha3_setup bitSize flags ctx Ei Hf) as (c & -> & Hr & <-). rewrite Z.eqb_refl. cbn [negb].
    destruct (sha3_Update_ok _ c s _ _ Hr (sha3_new_ok _ c Hr) Hs) as (ctx' & -> & Hst).
    rewrite (bind_Some_eq _ _ _ eq_refl), (bind_Some_eq _ _ _ (sha3_Finalize_ok _ c _ ctx' Hr Hst)).
    unfold sponge. do 4 f_equal. destruct (Z.ltb_spec (bitSize / 8) n); lia. }
  intros Hb Hf Hs. split; [apply H; assumption|].
  rewrite H, (keccak_ok s 32 17) by (auto || lia). reflexivity.
Qed.

Lemma sha3_HashBuffer_correct_witness :
  sha3_HashBuffer 512 0 [1; 2] 64 = Some (SHA3_RETURN_OK, sponge 9 6 [1; 2] 64) /\
  sha3_HashBuffer 256 SHA3_FLAGS_KECCAK [1; 2] 32 = (d ← keccak [1; 2] 32; Some (SHA3_RETURN_OK, d)).
Proof.
  apply (sha3_HashBuffer_correct 512 0 [1; 2] 64); [auto | auto |].
  repeat (constructor; [unfold is_byte; lia|]); constructor.
Defined.
