(* ===== verification/Signatures.v ===== *)
(** * Signatures and one-time keys

    base/tools/cryptonote/Signatures.cpp: Schnorr signatures over the group of
    the curve and the derivation of one-time keys.  The file calls two other
    parts of the program: the hash, taken here through the interface
    [Digest32] that Keccak implements (KeccakDigest.v), and the random bytes
    of Cvt.cpp, here the list of the draws the calls return in turn. *)

From S2P Require Import Prelude.
From S2P Require Import CInt.
From S2P Require Import Bytes.
From S2P Require Import Limbs.
From S2P Require Import Fe.
From S2P Require Import FeBytes.
From S2P Require Import Scalar.
From S2P Require Import ScalarOps.
From S2P Require Import Ge.
From S2P Require Import Decode.
From S2P Require Import Recode.
From S2P Require Import ScalarMult.

(** What the signatures ask of the hash: 32 bytes for any bytes. *)
Class Digest32 := {
  digest : list Z -> option (list Z);
  digest_bytes : forall s, is_bytes s -> returns (digest s) (bytes_of 32)
}.

Section Signatures.
Context `{Digest32}.

(** ** Scalars *)

Definition random_scalar (draw : list Z) : option (list Z) := sc_reduce32 draw.

Definition hash_to_scalar (data : list Z) : option (list Z) := d ← digest data; sc_reduce32 d.

(** The bytes of [output_index], seven bits at a time, in the ten bytes the
    buffer has room for. *)
Fixpoint index_bytes (room : nat) (k : Z) : option (list Z) :=
  match room with
  | O => None
  | S room =>
      if 0x80 <=? k then
        rest ← index_bytes room (Z.shiftr k 7);
        Some (Z.lor (Z.land (to_u8 k) 0x7F) 0x80 :: rest)
      else Some [to_u8 k]
  end.

Definition index_room : nat := Z.to_nat ((8 * 8 + 6) / 7).

Definition derivation_to_scalar (derivation : list Z) (output_index : Z) : option (list Z) :=
  ix ← index_bytes index_room output_index;
  hash_to_scalar (derivation ++ ix).

(** ** Signatures *)

Record signature := Sig { sig_c : list Z; sig_r : list Z }.

(** The do-while loop; [sig] is what the output holds.  The [continue] on a
    zero challenge goes to the condition, which reads [sig.r]. *)
Fixpoint generate_signature (draws : list (list Z)) (prefix_hash pub sec : list Z) (sig : signature) :
    option signature :=
  match draws with
  | [] => None
  | draw :: draws =>
      k ← random_scalar draw;
      tmp3 ← ge_scalarmult_base k;
      comm ← ge_p3_tobytes tmp3;
      c ← hash_to_scalar (prefix_hash ++ pub ++ comm);
      sig ← (if sc_isnonzero c =? 0 then Some (Sig c (sig_r sig))
             else r ← sc_mulsub c sec k; Some (Sig c r));
      if sc_isnonzero (sig_r sig) =? 0 then generate_signature draws prefix_hash pub sec sig
      else Some sig
  end.

Definition infinity : list Z := 1 :: repeat 0 31.

Definition check_signature (prefix_hash pub : list Z) (sig : signature) : option bool :=
  p ← ge_frombytes_vartime pub;
  match p with
  | None => Some false
  | Some tmp3 =>
      vc ← sc_check (sig_c sig);
      vr ← sc_check (sig_r sig);
      if negb (vc =? 0) || negb (vr =? 0) || (sc_isnonzero (sig_c sig) =? 0) then Some false
      else
        tmp2 ← ge_double_scalarmult_base_vartime (sig_c sig) tmp3 (sig_r sig);
        comm ← ge_tobytes tmp2;
        if bool_decide (comm = infinity) then Some false
        else
          c ← hash_to_scalar (prefix_hash ++ pub ++ comm);
          c ← sc_sub c (sig_c sig);
          Some (sc_isnonzero c =? 0)
  end.

(** ** Derived keys *)

Definition view_tag_salt : list Z := [118; 105; 101; 119; 95; 116; 97; 103].

(** [None]: the function returns false; else the derivation, and the view tag
    when it is asked for. *)
Definition generate_key_derivation (key1 key2 : list Z) (view_tag : bool) :
    option (option (list Z * option Z)) :=
  p ← ge_frombytes_vartime key1;
  match p with
  | None => Some None
  | Some point =>
      point2 ← ge_scalarmult key2 point;
      point3 ← ge_mul8 point2;
      point2 ← ge_p1p1_to_p2 point3;
      derivation ← ge_tobytes point2;
      if view_tag then
        view_tag_full ← digest (view_tag_salt ++ derivation ++ [0]);
        tag ← view_tag_full !! 0%nat;
        Some (Some (derivation, Some tag))
      else Some (Some (derivation, None))
  end.

Definition derive_secret_key (derivation : list Z) (output_index : Z) (base : list Z) : option (list Z) :=
  scalar ← derivation_to_scalar derivation output_index;
  sc_add base scalar.

Definition derive_public_key (derivation : list Z) (output_index : Z) (base : list Z) :
    option (option (list Z)) :=
  p ← ge_frombytes_vartime base;
  match p with
  | None => Some None
  | Some point1 =>
      scalar ← derivation_to_scalar derivation output_index;
      point2 ← ge_scalarmult_base scalar;
      point3 ← ge_p3_to_cached point2;
      point4 ← ge_add point1 point3;
      point5 ← ge_p1p1_to_p2 point4;
      derived_key ← ge_tobytes point5;
      Some (Some derived_key)
  end.

Definition derive_view_secret_key (spend_secret_key : list Z) : option (list Z) :=
  view_secret_key ← digest spend_secret_key; sc_reduce32 view_secret_key.

(** ** Keys *)

(** The public and the secret key. *)
Definition generate_keys (draw : list Z) : option (list Z * list Z) :=
  sec ← random_scalar draw;
  point ← ge_scalarmult_base sec;
  pub ← ge_p3_tobytes point;
  Some (pub, sec).

Definition secret_key_to_public_key (sec : list Z) : option (option (list Z)) :=
  v ← sc_check sec;
  if negb (v =? 0) then Some None
  else
    point ← ge_scalarmult_base sec;
    pub ← ge_p3_tobytes point;
    Some (Some pub).

End Signatures.
