(* ===== verification/SignaturesOk.v ===== *)
(** * Signatures and derived keys: lemmas

    For every implementation of [Digest32]. *)

From S2P Require Import Prelude.
From S2P Require Import CInt.
From S2P Require Import Bytes.
From S2P Require Import Limbs.
From S2P Require Import Fe.
From S2P Require Import FeBytes.
From S2P Require Import Prime25519.
From S2P Require Import Scalar.
From S2P Require Import ScalarOps.
From S2P Require Import Group.
From S2P Require Import Curve.
From S2P Require Import FeField.
From S2P Require Import Ge.
From S2P Require Import Decode.
From S2P Require Import Recode.
From S2P Require Import ScalarMult.
From S2P Require Import ScalarMultOk.
From S2P Require Import Tables.
From S2P Require Import Vartime.
From S2P Require Import Order.
From S2P Require Import ScalarSpec.
From S2P Require Import CurveSpec.
From S2P Require Import Signatures.
From Stdlib Require Import Zmod.

(** ** Scalars and keys *)

Lemma reduced_scalar s : reduced s -> scalar s.
Proof. intros [Hb Hl]. split; [exact Hb|]. assert (l < 2 ^ 255) by reflexivity. lia. Qed.

Lemma reduced_inj s t : reduced s -> reduced t -> le_val s = le_val t -> s = t.
Proof.
  intros [[Hs Hls] _] [[Ht Hlt] _] E. rewrite <- (le_bytes_le_val s Hs), <- (le_bytes_le_val t Ht), Hls, Hlt, E.
  reflexivity.
Qed.

Lemma sc_isnonzero_eqb s : bytes_of 32 s -> (sc_isnonzero s =? 0) = (le_val s =? 0).
Proof.
  intros [Hs _]. unfold sc_isnonzero. rewrite bytes_isnonzero_ok by exact Hs. destruct (le_val s =? 0); reflexivity.
Qed.

Lemma sc_check_eqb s : bytes_of 32 s -> exists v, sc_check s = Some v /\ (v =? 0) = (le_val s <? l).
Proof. intros Hs. rewrite sc_check_ok by exact Hs. eexists. split; [reflexivity|]. destruct (_ <? _); reflexivity. Qed.

(** The public key of a secret. *)
Definition public (k : Z) : list Z := encode (gmul k base_point).

Lemma public_bytes k : bytes_of 32 (public k).
Proof. apply encode_bytes. Qed.

Lemma base_public s : scalar s -> (p ← ge_scalarmult_base s; ge_p3_tobytes p) = Some (public (le_val s)).
Proof. intros [Hs Hv]. apply tobytes_p3, ge_scalarmult_base_ok; assumption. Qed.

Lemma encode_infinity P : encode P = infinity <-> P = gzero.
Proof.
  assert (E : encode gzero = infinity).
  { unfold encode. rewrite px_0, py_0. eval_closed. }
  rewrite <- E. split; [apply encode_inj | intros ->; reflexivity].
Qed.

(** Decoding a given encoding. *)
Lemma decode_encoding P : exists g, ge_frombytes_vartime (encode P) = Some (Some g) /\ p3_rep P g.
Proof.
  destruct (ge_frombytes_vartime_ok (encode P) (encode_bytes P)) as ([g|] & E & H).
  - destruct H as (Q & HQ & EQ). apply encode_inj in EQ as ->. eauto.
  - exfalso. exact (H P eq_refl).
Qed.

Lemma bind_assoc {A B C} (x : option A) (f : A -> option B) (g : B -> option C) :
  (y ← (a ← x; f a); g y) = (a ← x; y ← f a; g y).
Proof. destruct x; reflexivity. Qed.

Section Signatures.
Context `{Digest32}.

Lemma hash_to_scalar_ok s : is_bytes s -> returns (hash_to_scalar s) reduced.
Proof.
  intros Hs. eapply returns_bind; [apply digest_bytes, Hs|]. intros d [Hd Hl].
  rewrite (sc_reduce32_ok d Hd Hl). apply returns_Some, reduced_residue.
Qed.

(** The scalar the bytes are hashed to. *)
Definition challenge (s : list Z) : list Z := default [] (hash_to_scalar s).

Lemma challenge_ok s : is_bytes s -> hash_to_scalar s = Some (challenge s) /\ reduced (challenge s).
Proof.
  intros Hs. destruct (hash_to_scalar_ok s Hs) as (c & E & Hc). unfold challenge. rewrite E. auto.
Qed.

Lemma random_scalar_ok d : bytes_of 32 d -> random_scalar d = Some (le_bytes 32 (le_val d mod l)).
Proof. intros [Hd Hl]. apply sc_reduce32_ok; assumption. Qed.

(** ** Verification *)

(** The equation a signature has to satisfy. *)
Definition commitment (P : point) (c r : list Z) : point := (gmul (le_val c) P + gmul (le_val r) base_point)%G.

Definition accepted (prefix_hash pub c r : list Z) (P : point) : Prop :=
  le_val c < l /\ le_val r < l /\ le_val c <> 0 /\ commitment P c r <> gzero /\
  challenge (prefix_hash ++ pub ++ encode (commitment P c r)) = c.

Lemma commit_bytes prefix_hash pub P : is_bytes prefix_hash -> bytes_of 32 pub -> is_bytes (prefix_hash ++ pub ++ encode P).
Proof.
  intros Hp [Hb _]. apply Forall_app. split; [exact Hp|]. apply Forall_app. split; [exact Hb | apply encode_bytes].
Qed.

(** The comparison of scalars by subtraction. *)
Lemma sub_compare c' c : reduced c' -> reduced c ->
  exists d, sc_sub c' c = Some d /\ ((sc_isnonzero d =? 0) = true <-> c' = c).
Proof.
  intros Hc' Hc. pose proof Hc' as [Hb' Hl']. pose proof Hc as [Hb Hl].
  rewrite sc_sub_ok by assumption. eexists. split; [reflexivity|].
  destruct (reduced_residue (le_val c' - le_val c)) as [[Hd _] Ed].
  rewrite sc_isnonzero_eqb, Z.eqb_eq, Ed by exact Hd.
  pose proof (le_val_range _ (proj1 Hb)). pose proof (le_val_range _ (proj1 Hb')). split.
  - intros E. apply reduced_inj; [exact Hc' | exact Hc|].
    apply Z.mod_divide in E as [q Eq]; [|discriminate]. assert (l > 0) by reflexivity.
    assert (q = 0) as -> by nia. lia.
  - intros ->. rewrite Z.sub_diag. reflexivity.
Qed.

Lemma check_signature_point prefix_hash pub c r g P :
  is_bytes prefix_hash -> bytes_of 32 pub -> bytes_of 32 c -> bytes_of 32 r ->
  ge_frombytes_vartime pub = Some (Some g) -> p3_rep P g ->
  returns (check_signature prefix_hash pub (Sig c r)) (fun b => b = true <-> accepted prefix_hash pub c r P).
Proof.
  intros Hp Hpub Hc Hr Hdec Hg. unfold check_signature. rewrite Hdec. cbn [mbind option_bind sig_c sig_r].
  destruct (sc_check_eqb c Hc) as (vc & -> & Evc), (sc_check_eqb r Hr) as (vr & -> & Evr). cbn [mbind option_bind].
  rewrite Evc, Evr, sc_isnonzero_eqb by exact Hc. unfold accepted.
  destruct (Z.ltb_spec (le_val c) l) as [Hcl|Hcl]; cbn [negb orb];
    [|apply returns_Some; split; [discriminate | intros (H1 & _); lia]].
  destruct (Z.ltb_spec (le_val r) l) as [Hrl|Hrl]; cbn [negb orb];
    [|apply returns_Some; split; [discriminate | intros (_ & H1 & _); lia]].
  destruct (Z.eqb_spec (le_val c) 0) as [Hz|Hz];
    [apply returns_Some; split; [discriminate | intros (_ & _ & H1 & _); contradiction]|].
  pose proof (ge_double_scalarmult_base_vartime_ok c g r P (reduced_scalar c (conj Hc Hcl)) (reduced_scalar r (conj Hr Hrl)) Hg)
    as Hm. destruct Hm as (t & -> & Ht). cbn [mbind option_bind]. rewrite (ge_tobytes_ok _ t Ht). cbn [mbind option_bind].
  fold (commitment P c r). set (Q := commitment P c r).
  destruct (bool_decide_reflect (encode Q = infinity)) as [Ei|Ei].
  { apply returns_Some. split; [discriminate|]. intros (_ & _ & _ & H1 & _). apply encode_infinity in Ei. contradiction. }
  destruct (challenge_ok _ (commit_bytes prefix_hash pub Q Hp Hpub)) as [-> Hch]. cbn [mbind option_bind].
  destruct (sub_compare _ c Hch (conj Hc Hcl)) as (d & -> & Hd). cbn [mbind option_bind]. apply returns_Some.
  rewrite Hd. split; [|tauto]. intros Ech. repeat split; try assumption.
  intros E0. apply Ei, encode_infinity, E0.
Qed.

Lemma check_signature_ok prefix_hash pub c r :
  is_bytes prefix_hash -> bytes_of 32 pub -> bytes_of 32 c -> bytes_of 32 r ->
  returns (check_signature prefix_hash pub (Sig c r))
    (fun b => b = true <-> exists P, encode P = pub /\ accepted prefix_hash pub c r P).
Proof.
  intros Hp Hpub Hc Hr. destruct (ge_frombytes_vartime_ok pub Hpub) as ([g|] & E & Hd); cbn [decodes] in Hd.
  - destruct Hd as (P & Hg & HP). eapply returns_mono; [apply (check_signature_point _ _ _ _ g P); assumption|].
    intros b Hb. rewrite Hb. split; [eauto|]. intros (P' & EP & Ha).
    assert (P' = P) as -> by (apply encode_inj; congruence). exact Ha.
  - unfold check_signature. rewrite E. apply returns_Some. split; [discriminate|].
    intros (P & EP & _). exfalso. exact (Hd P EP).
Qed.

(** ** Generation *)

(** One turn of the loop of [generate_signature]. *)
Definition turn (prefix_hash pub sec draw : list Z) (sig : signature) : signature :=
  let k := le_val draw mod l in
  let c := challenge (prefix_hash ++ pub ++ public k) in
  Sig c (if le_val c =? 0 then sig_r sig else le_bytes 32 ((k - le_val c * le_val sec) mod l)).

Lemma generate_turn draw draws prefix_hash pub sec sig :
  is_bytes prefix_hash -> bytes_of 32 pub -> bytes_of 32 sec -> bytes_of 32 draw -> bytes_of 32 (sig_r sig) ->
  let sig' := turn prefix_hash pub sec draw sig in
  bytes_of 32 (sig_r sig') /\
  generate_signature (draw :: draws) prefix_hash pub sec sig =
    if le_val (sig_r sig') =? 0 then generate_signature draws prefix_hash pub sec sig' else Some sig'.
Proof.
  intros Hp Hpub Hsec Hd Hr. cbv zeta. cbn [generate_signature].
  rewrite (bind_Some_eq _ _ _ (random_scalar_ok draw Hd)).
  destruct (reduced_residue (le_val draw)) as [Hk Ek]. set (k := le_bytes 32 (le_val draw mod l)) in *.
  pose proof (base_public k (reduced_scalar k Hk)) as Hb. apply bind_inv in Hb as (tmp3 & E1 & E2).
  rewrite Ek in E2. rewrite (bind_Some_eq _ _ _ E1), (bind_Some_eq _ _ _ E2).
  destruct (challenge_ok _ (commit_bytes prefix_hash pub (gmul (le_val draw mod l) base_point) Hp Hpub)) as [Ec Hc].
  fold (public (le_val draw mod l)) in Ec, Hc.
  rewrite (bind_Some_eq _ _ _ Ec), sc_isnonzero_eqb by apply Hc. unfold turn.
  set (c := challenge _) in *. cbn [sig_r]. destruct (Z.eqb_spec (le_val c) 0) as [E0|E0]; cbn [mbind option_bind sig_r].
  - rewrite sc_isnonzero_eqb by exact Hr. auto.
  - rewrite sc_mulsub_ok by (assumption || apply Hc || apply Hk). cbn [mbind option_bind sig_r]. rewrite Ek.
    destruct (reduced_residue (le_val draw mod l - le_val c * le_val sec)) as [[Hr' _] _].
    rewrite sc_isnonzero_eqb by exact Hr'. auto.
Qed.

(** A draw that leads to a usable signature. *)
Definition good_draw (prefix_hash pub draw : list Z) : Prop :=
  bytes_of 32 draw /\ gmul (le_val draw mod l) base_point <> gzero /\
  le_val (challenge (prefix_hash ++ pub ++ public (le_val draw mod l))) <> 0.

(** The response to its challenge. *)
Definition response (prefix_hash sec draw : list Z) : Z :=
  let k := le_val draw mod l in
  (k - le_val (challenge (prefix_hash ++ public (le_val sec) ++ public k)) * le_val sec) mod l.

Lemma turn_response prefix_hash sec draw sig :
  good_draw prefix_hash (public (le_val sec)) draw ->
  le_val (sig_r (turn prefix_hash (public (le_val sec)) sec draw sig)) = response prefix_hash sec draw.
Proof.
  intros (_ & _ & Hc). unfold turn. rewrite (proj2 (Z.eqb_neq _ _) Hc). cbn [sig_r]. apply reduced_residue.
Qed.

(** The response makes the commitment the random multiple again. *)
Lemma commitment_response c k x :
  reduced c ->
  commitment (gmul x base_point) c (le_bytes 32 ((k - le_val c * x) mod l)) = gmul k base_point.
Proof.
  intros Hc. unfold commitment. destruct (reduced_residue (k - le_val c * x)) as [_ ->].
  rewrite <- gmul_mul, gmul_base_mod, <- gmul_add. f_equal. ring.
Qed.

Lemma turn_accepted prefix_hash sec draw sig :
  is_bytes prefix_hash -> bytes_of 32 sec -> good_draw prefix_hash (public (le_val sec)) draw ->
  let sig' := turn prefix_hash (public (le_val sec)) sec draw sig in
  returns (check_signature prefix_hash (public (le_val sec)) sig') (fun b => b = true).
Proof.
  intros Hp Hsec (Hd & Hk & Hc0). cbv zeta. unfold turn. rewrite (proj2 (Z.eqb_neq _ _) Hc0).
  set (k := le_val draw mod l) in *. set (pub := public (le_val sec)) in *.
  destruct (challenge_ok _ (commit_bytes prefix_hash pub (gmul k base_point) Hp (public_bytes _))) as [_ Hc].
  fold (public k) in Hc.
  set (c := challenge _) in *. set (r := le_bytes 32 _).
  assert (Hr : reduced r) by apply reduced_residue.
  eapply returns_mono; [apply (check_signature_ok prefix_hash pub c r Hp (public_bytes _) (proj1 Hc) (proj1 Hr))|].
  intros b Hb. apply Hb. exists (gmul (le_val sec) base_point). split; [reflexivity|].
  pose proof (commitment_response c k (le_val sec) Hc) as Ecom. fold r in Ecom.
  unfold accepted. rewrite Ecom. repeat split; try assumption; [apply Hc | apply Hr].
Qed.

Lemma turn_bytes prefix_hash pub sec draw sig :
  is_bytes prefix_hash -> bytes_of 32 pub -> bytes_of 32 (sig_r sig) ->
  bytes_of 32 (sig_c (turn prefix_hash pub sec draw sig)) /\ bytes_of 32 (sig_r (turn prefix_hash pub sec draw sig)).
Proof.
  intros Hp Hpub Hr. unfold turn. cbn [sig_c sig_r].
  split; [apply (challenge_ok _ (commit_bytes prefix_hash pub (gmul (le_val draw mod l) base_point) Hp Hpub))|].
  destruct (_ =? 0); [exact Hr | apply reduced_residue].
Qed.

(** With usable draws the loop ends with a signature that is accepted. *)
Definition usable (prefix_hash sec : list Z) (draws : list (list Z)) : Prop :=
  Forall (good_draw prefix_hash (public (le_val sec))) draws /\
  Exists (fun draw => response prefix_hash sec draw <> 0) draws.

Lemma generate_accepted draws prefix_hash sec sig :
  is_bytes prefix_hash -> bytes_of 32 sec -> bytes_of 32 (sig_r sig) -> usable prefix_hash sec draws ->
  exists sig', generate_signature draws prefix_hash (public (le_val sec)) sec sig = Some sig' /\
    check_signature prefix_hash (public (le_val sec)) sig' = Some true /\ bytes_of 32 (sig_c sig') /\ bytes_of 32 (sig_r sig').
Proof.
  intros Hp Hsec Hr [Hgood Hex]. revert sig Hr Hex. induction Hgood as [|draw draws Hd _ IH]; intros sig Hr Hex.
  { apply Exists_nil in Hex as []. }
  destruct (generate_turn draw draws prefix_hash _ sec sig Hp (public_bytes (le_val sec)) Hsec (proj1 Hd) Hr) as [Hr' E].
  destruct (turn_accepted prefix_hash sec draw sig Hp Hsec Hd) as (b & Eb & ->).
  cbv zeta in E. rewrite E, (turn_response prefix_hash sec draw sig Hd).
  destruct (Z.eqb_spec (response prefix_hash sec draw) 0) as [E0|E0].
  - apply Exists_cons in Hex as [Hex|Hex]; [contradiction|]. apply IH; assumption.
  - eexists. split; [reflexivity|]. split; [exact Eb|]. apply turn_bytes; [exact Hp | apply public_bytes | exact Hr].
Qed.

(** ** Derived keys *)

(** The number a sequence of seven-bit groups stands for. *)
Fixpoint index_val (s : list Z) : Z :=
  match s with [] => 0 | b :: s => b mod 128 + 128 * index_val s end.

Lemma index_byte k : Z.lor (Z.land (to_u8 k) 0x7F) 0x80 = k mod 128 + 128.
Proof.
  change 0x7F with (Z.ones 7). rewrite Z.land_ones by lia. change 0x80 with (Z.shiftl 1 7).
  assert (E : to_u8 k mod 2 ^ 7 = k mod 128).
  { unfold to_u8. change 256 with (128 * 2). change (2 ^ 7) with 128. rewrite Z.rem_mul_r by lia.
    rewrite Z.mul_comm, Z.mod_add, Zmod_mod by lia. reflexivity. }
  rewrite E, lor_shiftl_add by (try apply Z.mod_pos_bound; lia). reflexivity.
Qed.

Lemma index_bytes_ok n k :
  0 <= k < 2 ^ (7 * Z.of_nat n) -> (0 < n)%nat ->
  returns (index_bytes n k) (fun s => is_bytes s /\ (length s <= n)%nat /\ index_val s = k).
Proof.
  revert k. induction n as [|n IH]; intros k Hk Hn; [lia|]. cbn [index_bytes].
  destruct (Z.leb_spec 0x80 k) as [Hge|Hlt].
  - rewrite Z.shiftr_div_pow2 by lia. change (2 ^ 7) with 128. eapply returns_bind; [apply IH|].
    + rewrite Nat2Z.inj_succ in Hk. replace (7 * Z.succ (Z.of_nat n)) with (7 * Z.of_nat n + 7) in Hk by lia.
      rewrite Z.pow_add_r in Hk by lia. split; [apply Z.div_pos; lia | apply Z.div_lt_upper_bound; lia].
    + destruct n; [cbn in Hk; lia | lia].
    + intros s (Hs & Hl & Hv). apply returns_Some. rewrite index_byte.
      pose proof (Z.mod_pos_bound k 128). split; [|split].
      * apply Forall_cons. split; [unfold is_byte; lia | exact Hs].
      * cbn [length]. lia.
      * cbn [index_val]. rewrite Hv, <- Z.add_mod_idemp_r, Z_mod_same_full, Z.add_0_r, Zmod_mod by lia.
        pose proof (Z.div_mod k 128). lia.
  - apply returns_Some. unfold to_u8. rewrite Z.mod_small by lia. split; [|split].
    + repeat constructor; lia.
    + cbn [length]. lia.
    + cbn [index_val]. rewrite Z.mod_small; lia.
Qed.

Lemma derivation_to_scalar_ok derivation ix :
  bytes_of 32 derivation -> 0 <= ix < 2 ^ 64 -> returns (derivation_to_scalar derivation ix) reduced.
Proof.
  intros [Hd _] Hix. unfold derivation_to_scalar.
  eapply returns_bind; [apply index_bytes_ok; [split; [lia|] | apply Nat.ltb_lt; reflexivity]|].
  - assert (2 ^ 64 < 2 ^ (7 * Z.of_nat index_room)) by reflexivity. lia.
  - intros s (Hs & _). apply hash_to_scalar_ok, Forall_app. auto.
Qed.

Lemma derive_public_key_ok derivation ix P s :
  derivation_to_scalar derivation ix = Some s -> reduced s ->
  derive_public_key derivation ix (encode P) = Some (Some (encode (P + gmul (le_val s) base_point)%G)).
Proof.
  intros Es Hs. unfold derive_public_key. destruct (decode_encoding P) as (g & -> & Hg). cbn [mbind option_bind].
  rewrite Es. cbn [mbind option_bind]. pose proof (reduced_scalar s Hs) as [Hb Hv].
  destruct (ge_scalarmult_base_ok s Hb Hv) as (p2 & -> & H2). cbn [mbind option_bind].
  destruct (ge_p3_to_cached_ok _ _ H2) as (p3 & -> & H3). cbn [mbind option_bind].
  destruct (ge_add_ok _ _ _ _ Hg H3) as (p4 & -> & H4). cbn [mbind option_bind].
  destruct (ge_p1p1_to_p2_ok _ _ H4) as (p5 & -> & H5). cbn [mbind option_bind].
  rewrite (ge_tobytes_ok _ _ H5). reflexivity.
Qed.

(** The derivation is the encoding of 8 k P; the tag is a byte of its hash. *)
Lemma generate_key_derivation_eq P key2 (view_tag : bool) :
  scalar key2 ->
  generate_key_derivation (encode P) key2 view_tag =
    let derivation := encode (gmul (8 * le_val key2) P) in
    if view_tag then
      view_tag_full ← digest (view_tag_salt ++ derivation ++ [0]);
      tag ← view_tag_full !! 0%nat; Some (Some (derivation, Some tag))
    else Some (Some (derivation, None)).
Proof.
  intros [Hb Hv]. unfold generate_key_derivation. destruct (decode_encoding P) as (g & -> & Hg). cbn [mbind option_bind].
  destruct (ge_scalarmult_ok key2 P g Hb Hv Hg) as (p2 & -> & H2). cbn [mbind option_bind].
  destruct (ge_mul8_ok _ _ H2) as (p3 & -> & H3). cbn [mbind option_bind].
  destruct (ge_p1p1_to_p2_ok _ _ H3) as (p4 & -> & H4). cbn [mbind option_bind].
  rewrite (ge_tobytes_ok _ _ H4), <- gmul_mul. reflexivity.
Qed.
End Signatures.
