(* ===== verification/KeccakDigest.v ===== *)
(** * Keccak as the hash of the signatures

    The 32-byte [keccak] implements the interface [Digest32]. *)

From S2P Require Import Prelude.
From S2P Require Import CInt.
From S2P Require Import Bytes.
From S2P Require Import Keccak.
From S2P Require Import Sponge.
From S2P Require Import Signatures.

(** ** Lengths *)

Lemma foldl_length {A} (f : list Z -> A -> list Z) xs st :
  (forall st x, length (f st x) = length st) -> length (foldl f st xs) = length st.
Proof.
  intros Hf. revert st. induction xs as [|x xs IH]; intros st; cbn [foldl]; [reflexivity|].
  rewrite IH. apply Hf.
Qed.

Lemma theta_length st : length (keccak_theta st) = length st.
Proof. apply foldl_length. intros. apply foldl_length. intros. apply xor_at_length. Qed.

Lemma rho_pi_length st : length (keccak_rho_pi st) = length st.
Proof. unfold keccak_rho_pi. rewrite length_insert. apply foldl_length. intros ? [[? ?] ?]. apply length_insert. Qed.

Lemma chi_length st : length (keccak_chi st) = length st.
Proof.
  unfold keccak_chi, keccak_chi_last. rewrite !xor_at_length. apply foldl_length.
  intros. unfold keccak_chi_row. rewrite !xor_at_length. reflexivity.
Qed.

Lemma rounds_length js st st' : keccak_rounds js st = Some st' -> length st' = length st.
Proof.
  revert st. induction js as [|j js IH]; intros st; cbn [keccak_rounds].
  - intros [= ->]. reflexivity.
  - intros H. apply bind_inv in H as (st1 & H1 & H). rewrite (IH _ H). unfold keccak_round in H1.
    apply bind_inv in H1 as (rc & _ & H1). injection H1 as <-.
    unfold keccak_iota. rewrite xor_at_length, chi_length, rho_pi_length, theta_length. reflexivity.
Qed.

Lemma perm_length st : length (perm st) = length st.
Proof. pose proof (keccakf_perm st) as E. exact (rounds_length _ _ _ E). Qed.

Lemma absorb_length rw s st pos : length (fst (absorb rw s (st, pos))) = length st.
Proof.
  revert st pos. induction s as [|b s IH]; intros st pos; [reflexivity|].
  change (absorb rw (b :: s) (st, pos)) with (absorb rw s (absorb_byte rw (st, pos) b)). unfold absorb_byte.
  destruct (_ =? _)%nat; rewrite IH, ?perm_length, xor_at_length; reflexivity.
Qed.

Lemma state_bytes_bytes st : is_bytes (state_bytes st) /\ length (state_bytes st) = (8 * length st)%nat.
Proof.
  unfold state_bytes. induction st as [|v st [IH1 IH2]]; cbn [map concat]; [split; [apply Forall_nil_2 | reflexivity]|].
  split; [apply Forall_app; split; [apply le_bytes_bytes | exact IH1]|].
  rewrite length_app, le_bytes_length, IH2. cbn [length]. lia.
Qed.

Lemma sponge_bytes rw d s n : (n <= 200)%nat -> bytes_of n (sponge rw d s n).
Proof.
  intros Hn. unfold sponge. pose proof (absorb_length rw s (repeat 0 25%nat) 0) as Ha.
  destruct (absorb _ _ _) as [st pos]. cbn [fst] in Ha. rewrite repeat_length in Ha.
  destruct (state_bytes_bytes (perm (sponge_pad rw d (st, pos)))) as [Hb Hl]. split.
  - apply Forall_take, Hb.
  - rewrite length_take, Hl, perm_length. unfold sponge_pad. rewrite !xor_at_length, Ha. lia.
Qed.

(** ** The instance *)

Lemma keccak_32 s : is_bytes s -> keccak s 32 = Some (sponge 17 1 s 32).
Proof. intros Hs. apply (keccak_ok s 32 17); [exact Hs | lia | lia | reflexivity]. Qed.

#[export, refine] Instance keccak_digest : Digest32 := { digest s := keccak s 32 }.
Proof.
  intros s Hs. rewrite keccak_32 by exact Hs. apply returns_Some, sponge_bytes. lia.
Defined.
