(* ===== verification/SignaturesSpec.v ===== *)
(** * What the signatures and derived keys promise

    Stated for every hash that implements [Digest32], Keccak (KeccakDigest.v)
    among them.  The witnesses that need a particular digest use a constant
    hash. *)

From S2P Require Import Prelude.
From S2P Require Import CInt.
From S2P Require Import Bytes.
From S2P Require Import Limbs.
From S2P Require Import Fe.
From S2P Require Import Scalar.
From S2P Require Import ScalarOps.
From S2P Require Import Group.
From S2P Require Import Curve.
From S2P Require Import Ge.
From S2P Require Import Decode.
From S2P Require Import ScalarMult.
From S2P Require Import Tables.
From S2P Require Import Vartime.
From S2P Require Import Order.
From S2P Require Import ScalarSpec.
From S2P Require Import CurveSpec.
From S2P Require Import Signatures.
From S2P Require Import SignaturesOk.
From S2P Require Import KeccakDigest.

(** ** Lemmas *)

(** The hash with one value. *)
Lemma constant_bytes v (s : list Z) : is_bytes s -> returns (Some (le_bytes 32 v)) (bytes_of 32).
Proof. intros _. apply returns_Some. split; [apply le_bytes_bytes | apply le_bytes_length]. Qed.

Definition constant_digest (v : Z) : Digest32 := {| digest _ := Some (le_bytes 32 v); digest_bytes := constant_bytes v |}.

Lemma constant_challenge v s : 0 <= v < l -> le_val (@challenge (constant_digest v) s) = v.
Proof.
  intros Hv. unfold challenge, hash_to_scalar. cbn [digest constant_digest mbind option_bind].
  rewrite sc_reduce32_ok by (apply le_bytes_bytes || apply le_bytes_length). cbn [default from_option id].
  destruct (reduced_residue (le_val (le_bytes 32 v))) as [_ ->]. rewrite le_bytes_val.
  assert (l < 2 ^ (8 * Z.of_nat 32)) by reflexivity. rewrite (Z.mod_small v (2 ^ _)) by lia. apply Z.mod_small, Hv.
Qed.

Lemma base_point_nonzero : base_point <> gzero.
Proof.
  intros E. assert (H : encode base_point = encode gzero) by congruence. revert H.
  assert (E2 : encode gzero = infinity) by (apply encode_infinity; reflexivity). rewrite E2.
  vm_compute. discriminate.
Qed.

(** ** Properties *)

(** C1: [check_signature] always returns, and it accepts exactly when the
    public key encodes a point P of the curve, c and r are reduced scalars, c
    is not 0, c P + r B is not the neutral element, and hashing the prefix, the
    key and the encoding of that point gives c back. *)
Theorem check_signature_correct `{Digest32} prefix_hash pub c r :
  is_bytes prefix_hash -> bytes_of 32 pub -> bytes_of 32 c -> bytes_of 32 r ->
  exists b, check_signature prefix_hash pub (Sig c r) = Some b /\
    (b = true <-> exists P, encode P = pub /\ le_val c < l /\ le_val r < l /\ le_val c <> 0 /\
       (gmul (le_val c) P + gmul (le_val r) base_point <> gzero)%G /\
       hash_to_scalar (prefix_hash ++ pub ++ encode (gmul (le_val c) P + gmul (le_val r) base_point)%G) = Some c).
Proof.
  intros Hp Hpub Hc Hr. destruct (check_signature_ok prefix_hash pub c r Hp Hpub Hc Hr) as (b & E & Hb).
  exists b. split; [exact E|]. rewrite Hb. unfold accepted, commitment.
  split; intros (P & EP & H1 & H2 & H3 & H4 & H5); exists P; repeat (split; [assumption|]).
  - destruct (challenge_ok _ (commit_bytes prefix_hash pub (gmul (le_val c) P + gmul (le_val r) base_point)%G Hp Hpub))
      as [-> _]. rewrite H5. reflexivity.
  - unfold challenge. rewrite H5. reflexivity.
Qed.

Lemma check_signature_correct_witness :
  exists b, check_signature (ones 32) (ones 32) (Sig sc_0 sc_0) = Some b /\
    (b = true <-> exists P, encode P = ones 32 /\ le_val sc_0 < l /\ le_val sc_0 < l /\ le_val sc_0 <> 0 /\
       (gmul (le_val sc_0) P + gmul (le_val sc_0) base_point <> gzero)%G /\
       hash_to_scalar (ones 32 ++ ones 32 ++ encode (gmul (le_val sc_0) P + gmul (le_val sc_0) base_point)%G) = Some sc_0).
Proof.
  apply (check_signature_correct (ones 32) (ones 32) sc_0 sc_0); [apply ones_bytes | apply ones_bytes | |]; bytes_decide.
Defined.

(** C2: a signature made by [generate_signature] with a secret key is accepted
    by [check_signature] with its public key, whatever the draws of the random
    generator, as long as none leads to a zero challenge or to the neutral
    element and one leads to a non-zero response. *)
Theorem generated_signature_accepted `{Digest32} draws prefix_hash sec sig :
  is_bytes prefix_hash -> bytes_of 32 sec -> bytes_of 32 (sig_r sig) ->
  Forall (good_draw prefix_hash (public (le_val sec))) draws ->
  Exists (fun draw => response prefix_hash sec draw <> 0) draws ->
  exists sig', generate_signature draws prefix_hash (public (le_val sec)) sec sig = Some sig' /\
    check_signature prefix_hash (public (le_val sec)) sig' = Some true.
Proof.
  intros Hp Hsec Hr Hgood Hex.
  destruct (generate_accepted draws prefix_hash sec sig Hp Hsec Hr (conj Hgood Hex)) as (sig' & E1 & E2 & _). eauto.
Qed.

Lemma generated_signature_accepted_witness :
  let H := constant_digest 7 in let sec := small_scalar 3 in
  exists sig', generate_signature [small_scalar 1] [] (public (le_val sec)) sec (Sig sc_0 sc_0) = Some sig' /\
    check_signature [] (public (le_val sec)) sig' = Some true.
Proof.
  assert (E1 : le_val (small_scalar 1) mod l = 1) by reflexivity.
  assert (Hc : forall s, le_val (@challenge (constant_digest 7) s) = 7) by (intros s; apply constant_challenge; split; [lia | reflexivity]).
  apply (@generated_signature_accepted (constant_digest 7) [small_scalar 1] [] (small_scalar 3) (Sig sc_0 sc_0)).
  - constructor.
  - apply small_scalar_scalar. split; [discriminate | reflexivity].
  - bytes_decide.
  - constructor; [|constructor]. split; [apply small_scalar_scalar; split; [discriminate | reflexivity]|]. split.
    + rewrite E1, gmul_1. apply base_point_nonzero.
    + rewrite Hc. discriminate.
  - constructor. unfold response. rewrite Hc, E1. discriminate.
Defined.

(** When the challenge of the first draw is zero, the [continue] of
    [generate_signature] reaches the loop condition with the response the
    caller's memory held: if that is not zero, the function returns a signature
    made of the zero challenge and the stale bytes, which [check_signature]
    refuses. *)
Theorem zero_challenge_returns_stale_response `{Digest32} draw draws prefix_hash pub sec sig :
  is_bytes prefix_hash -> bytes_of 32 pub -> bytes_of 32 sec -> bytes_of 32 draw -> bytes_of 32 (sig_r sig) ->
  le_val (challenge (prefix_hash ++ pub ++ public (le_val draw mod l))) = 0 -> le_val (sig_r sig) <> 0 ->
  exists c, generate_signature (draw :: draws) prefix_hash pub sec sig = Some (Sig c (sig_r sig)) /\
    check_signature prefix_hash pub (Sig c (sig_r sig)) = Some false.
Proof.
  intros Hp Hpub Hsec Hd Hr Hc Hnz.
  destruct (generate_turn draw draws prefix_hash pub sec sig Hp Hpub Hsec Hd Hr) as [_ E]. cbv zeta in E.
  unfold turn in E. rewrite Hc in E. cbn [sig_r Z.eqb] in E. rewrite (proj2 (Z.eqb_neq _ _) Hnz) in E.
  eexists. split; [exact E|].
  destruct (challenge_ok _ (commit_bytes prefix_hash pub (gmul (le_val draw mod l) base_point) Hp Hpub)) as [_ [Hcb _]].
  fold (public (le_val draw mod l)) in Hcb. set (c := challenge _) in *.
  destruct (check_signature_ok prefix_hash pub c (sig_r sig) Hp Hpub Hcb Hr) as ([|] & Eb & Hb); [|exact Eb].
  exfalso. destruct (proj1 Hb eq_refl) as (P & _ & _ & _ & Hz & _). contradiction.
Qed.

Lemma zero_challenge_returns_stale_response_witness :
  let H := constant_digest 0 in
  exists c, generate_signature [small_scalar 1] [] (ones 32) (small_scalar 3) (Sig sc_0 (ones 32)) = Some (Sig c (ones 32)) /\
    check_signature [] (ones 32) (Sig c (ones 32)) = Some false.
Proof.
  apply (@zero_challenge_returns_stale_response (constant_digest 0) (small_scalar 1) [] [] (ones 32) (small_scalar 3) (Sig sc_0 (ones 32))).
  - constructor.
  - apply ones_bytes.
  - apply small_scalar_scalar. split; [discriminate | reflexivity].
  - apply small_scalar_scalar. split; [discriminate | reflexivity].
  - apply ones_bytes.
  - apply constant_challenge. split; [lia | reflexivity].
  - discriminate.
Defined.

(** The key derivation is the Diffie-Hellman value 8 a b B: the sender,
    with the secret [a] and the public key of [b], and the receiver, with the
    secret [b] and the public key of [a], get the same bytes, and the same view
    tag. *)
Theorem key_derivation_agrees `{Digest32} a b view_tag :
  scalar a -> scalar b ->
  generate_key_derivation (public (le_val b)) a view_tag = generate_key_derivation (public (le_val a)) b view_tag /\
  generate_key_derivation (public (le_val b)) a false =
    Some (Some (encode (gmul (8 * (le_val a * le_val b)) base_point), None)).
Proof.
  intros Ha Hb.
  assert (E : forall s k, gmul (8 * s) (gmul k base_point) = gmul (8 * (s * k)) base_point).
  { intros s k. rewrite <- gmul_mul. f_equal. ring. }
  unfold public. rewrite !generate_key_derivation_eq, !E by assumption.
  split; [rewrite (Z.mul_comm (le_val a)); reflexivity | reflexivity].
Qed.

Lemma key_derivation_agrees_witness :
  let H := keccak_digest in let a := small_scalar 5 in let b := small_scalar 9 in
  generate_key_derivation (public (le_val b)) a true = generate_key_derivation (public (le_val a)) b true /\
  generate_key_derivation (public (le_val b)) a false =
    Some (Some (encode (gmul (8 * (le_val a * le_val b)) base_point), None)).
Proof. apply (@key_derivation_agrees keccak_digest (small_scalar 5) (small_scalar 9) true); scalar_decide. Defined.

(** C7: a one-time key pair fits together: the public key [derive_public_key]
    computes from a public key is the public key of the secret
    [derive_secret_key] computes from its secret, for every derivation and
    every 64-bit output index. *)
Theorem derived_keys_match `{Digest32} derivation ix base :
  bytes_of 32 derivation -> 0 <= ix < 2 ^ 64 -> bytes_of 32 base ->
  exists sec, derive_secret_key derivation ix base = Some sec /\ reduced sec /\
    derive_public_key derivation ix (public (le_val base)) = Some (Some (public (le_val sec))).
Proof.
  intros Hd Hix Hb. destruct (derivation_to_scalar_ok derivation ix Hd Hix) as (s & Es & Hs).
  unfold derive_secret_key. rewrite Es. cbn [mbind option_bind]. rewrite sc_add_ok by (exact Hb || apply Hs).
  destruct (reduced_residue (le_val base + le_val s)) as [Hr Er].
  eexists. split; [reflexivity|]. split; [exact Hr|].
  unfold public at 1. rewrite (derive_public_key_ok derivation ix _ s Es Hs). do 2 f_equal.
  unfold public. rewrite Er, gmul_base_mod, gmul_add. reflexivity.
Qed.

Lemma derived_keys_match_witness :
  let H := keccak_digest in
  exists sec, derive_secret_key (ones 32) 1000 (small_scalar 3) = Some sec /\ reduced sec /\
    derive_public_key (ones 32) 1000 (public (le_val (small_scalar 3))) = Some (Some (public (le_val sec))).
Proof.
  apply (@derived_keys_match keccak_digest (ones 32) 1000 (small_scalar 3)); [apply ones_bytes | split; [lia | reflexivity]|].
  apply small_scalar_scalar. split; [discriminate | reflexivity].
Defined.

(** [secret_key_to_public_key] refuses exactly the secrets that are not
    reduced, and the pair [generate_keys] makes is one it confirms. *)
Theorem secret_key_to_public_key_correct sec :
  bytes_of 32 sec ->
  secret_key_to_public_key sec = Some (if le_val sec <? l then Some (public (le_val sec)) else None) /\
  exists pub sec', generate_keys sec = Some (pub, sec') /\ le_val sec' = le_val sec mod l /\
    secret_key_to_public_key sec' = Some (Some pub).
Proof.
  assert (Hpk : forall s, bytes_of 32 s ->
    secret_key_to_public_key s = Some (if le_val s <? l then Some (public (le_val s)) else None)).
  { intros s Hs. unfold secret_key_to_public_key. destruct (sc_check_eqb s Hs) as (v & Ev & E).
    rewrite (bind_Some_eq _ _ _ Ev), E.
    destruct (Z.ltb_spec (le_val s) l) as [Hl|Hl]; cbn [negb]; [|reflexivity].
    pose proof (base_public s (reduced_scalar s (conj Hs Hl))) as Hb. apply bind_inv in Hb as (p & E1 & E2).
    rewrite (bind_Some_eq _ _ _ E1), (bind_Some_eq _ _ _ E2). reflexivity. }
  intros Hs. split; [apply Hpk, Hs|]. unfold generate_keys. rewrite (bind_Some_eq _ _ _ (random_scalar_ok sec Hs)).
  destruct (reduced_residue (le_val sec)) as [Hr Er]. set (k := le_bytes 32 (le_val sec mod l)) in *.
  pose proof (base_public k (reduced_scalar k Hr)) as Hb. apply bind_inv in Hb as (p & E1 & E2).
  rewrite (bind_Some_eq _ _ _ E1), (bind_Some_eq _ _ _ E2).
  do 2 eexists. split; [reflexivity|]. split; [exact Er|]. rewrite (Hpk k (proj1 Hr)).
  rewrite (proj2 (Z.ltb_lt _ _) (proj2 Hr)). reflexivity.
Qed.

Lemma secret_key_to_public_key_correct_witness :
  secret_key_to_public_key (ones 32) = Some (if le_val (ones 32) <? l then Some (public (le_val (ones 32))) else None) /\
  exists pub sec', generate_keys (ones 32) = Some (pub, sec') /\ le_val sec' = le_val (ones 32) mod l /\
    secret_key_to_public_key sec' = Some (Some pub).
Proof. apply (secret_key_to_public_key_correct (ones 32) (ones_bytes 32)). Defined.

(** [derivation_to_scalar] writes every 64-bit index within the ten bytes
    of its buffer, and the bytes determine the index. *)
Theorem index_bytes_roundtrip k :
  0 <= k < 2 ^ 64 ->
  exists s, index_bytes index_room k = Some s /\ is_bytes s /\ (length s <= 10)%nat /\ index_val s = k.
Proof.
  intros Hk. destruct (index_bytes_ok index_room k) as (s & E & Hs & Hl & Hv).
  - assert (2 ^ 64 < 2 ^ (7 * Z.of_nat index_room)) by reflexivity. lia.
  - apply Nat.ltb_lt. reflexivity.
  - exists s. auto.
Qed.

Lemma index_bytes_roundtrip_witness :
  exists s, index_bytes index_room (2 ^ 64 - 1) = Some s /\ is_bytes s /\ (length s <= 10)%nat /\ index_val s = 2 ^ 64 - 1.
Proof. apply (index_bytes_roundtrip (2 ^ 64 - 1)). split; [discriminate | reflexivity]. Defined.
