(* ===== verification/Cvt.v ===== *)
(** * Hexadecimal conversions

    [cvt_bin2hex], [cvt_hex2bin] and the [fromHex] functions over them, of
    base/tools/Cvt.cpp: the branch-free classification of a character in
    [unsigned char] arithmetic, the two-phase loop that packs two digits into a
    byte, and the conditions under which a string is refused. *)

From S2P Require Import Prelude.
From S2P Require Import CInt.
From S2P Require Import Bytes.

(** ** Encoding *)

(** [(unsigned char) (87U + c + (((c - 10U) >> 8) & ~38U))] for a digit [c]. *)
Definition hex_char (c : Z) : Z :=
  to_u8 (to_u32 (87 + c + Z.land (Z.shiftr (to_u32 (c - 10)) 8) (to_u32 (Z.lnot 38)))).

(** The two characters of a byte: [x] holds the first in its low byte. *)
Definition hex_pair (byte : Z) : list Z :=
  let c := Z.land byte 0xf in
  let b := Z.shiftr byte 4 in
  let x := Z.lor (Z.shiftl (hex_char c) 8) (hex_char b) in
  [to_u8 x; to_u8 (Z.shiftr x 8)].

Definition SIZE_MAX : Z := 2 ^ 64 - 1.

(** What is written to [hex]: the characters, and a final 0 if there is room;
    [None] for the null pointer. *)
Definition cvt_bin2hex (hex_maxlen : Z) (bin : list Z) : option (list Z) :=
  let bin_len := Z.of_nat (length bin) in
  if (SIZE_MAX / 2 <=? bin_len) || (hex_maxlen <? bin_len * 2) then None
  else
    let hex := concat (map hex_pair bin) in
    Some (if bin_len * 2 <? hex_maxlen then hex ++ [0] else hex).

(** ** Decoding *)

Definition hex_num (c : Z) : Z := to_u8 (Z.lxor c 48).
Definition hex_num0 (c : Z) : Z := to_u8 (Z.shiftr (to_u32 (hex_num c - 10)) 8).
Definition hex_alpha (c : Z) : Z := to_u8 (to_u32 (Z.land c (to_u32 (Z.lnot 32)) - 55)).
Definition hex_alpha0 (c : Z) : Z :=
  to_u8 (Z.shiftr (Z.lxor (to_u32 (hex_alpha c - 10)) (to_u32 (hex_alpha c - 16))) 8).

(** [c_val], unless both masks are zero. *)
Definition hex_val (c : Z) : option Z :=
  if Z.lor (hex_num0 c) (hex_alpha0 c) =? 0 then None
  else Some (to_u8 (Z.lor (Z.land (hex_num0 c) (hex_num c)) (Z.land (hex_alpha0 c) (hex_alpha c)))).

(** The state of the loop; [bin] holds the bytes written, so [bin_pos] is its
    length. *)
Record hex_loop := HexLoop { bin : list Z; hex_pos : nat; c_acc : Z; state : Z; ret : Z }.

(** [while (hex_pos < hex_len)], with [ignore] null. *)
Fixpoint hex2bin_loop (hex : list Z) (bin_maxlen : nat) (l : hex_loop) : hex_loop :=
  match hex with
  | [] => l
  | c :: hex =>
      match hex_val c with
      | None => l
      | Some c_val =>
          if (bin_maxlen <=? length (bin l))%nat then HexLoop (bin l) (hex_pos l) (c_acc l) (state l) (-1)
          else
            let l' :=
              if state l =? 0
              then HexLoop (bin l) (S (hex_pos l)) (to_u8 (c_val * 16)) (to_u8 (Z.lnot (state l))) (ret l)
              else HexLoop (bin l ++ [to_u8 (Z.lor (c_acc l) c_val)]) (S (hex_pos l)) (c_acc l)
                     (to_u8 (Z.lnot (state l))) (ret l) in
            hex2bin_loop hex bin_maxlen l'
      end
  end.

(** The return value, and the bytes written to [bin] whatever it is;
    [bin_len] and [hex_end] are null. *)
Definition cvt_hex2bin (bin_maxlen : nat) (hex : list Z) : Z * list Z :=
  let l := hex2bin_loop hex bin_maxlen (HexLoop [] 0 0 0 0) in
  let '(pos, ret) := if negb (state l =? 0) then (pred (hex_pos l), -1) else (hex_pos l, ret l) in
  let ret := if negb (pos =? length hex)%nat then -1 else ret in
  (ret, bin l).

(** [fromHex(uint8_t *bin, size_t bin_maxlen, const char *hex, size_t hex_len)]:
    the buffer after the call and the result. *)
Definition fromHex_into (buf : list Z) (hex : list Z) : list Z * bool :=
  if (length hex =? 0)%nat then (buf, false)
  else
    let '(ret, bin) := cvt_hex2bin (length buf) hex in
    (bin ++ drop (length bin) buf, ret =? 0).

(** [Buffer fromHex(const char *in, size_t size)]: the empty buffer for a
    refused string. *)
Definition fromHex (hex : list Z) : list Z :=
  let '(buf, ok) := fromHex_into (repeat 0 (length hex / 2)) hex in
  if ok then buf else [].

(** ** Specification *)

(** The digit a character stands for. *)
Definition hex_digit (c : Z) : option Z :=
  if (48 <=? c) && (c <=? 57) then Some (c - 48)
  else if (65 <=? c) && (c <=? 70) then Some (c - 55)
  else if (97 <=? c) && (c <=? 102) then Some (c - 87)
  else None.

(** The bytes a string of digits stands for, two digits to the byte. *)
Fixpoint hex_bytes (s : list Z) : option (list Z) :=
  match s with
  | [] => Some []
  | a :: b :: s => x ← hex_digit a; y ← hex_digit b; r ← hex_bytes s; Some (16 * x + y :: r)
  | _ :: [] => None
  end.

(** ** The classification of characters *)

Lemma hex_val_digit c : is_byte c -> hex_val c = hex_digit c.
Proof.
  intros Hc.
  assert (H : forallb (fun n => bool_decide (hex_val (Z.of_nat n) = hex_digit (Z.of_nat n))) (seq 0 256) = true)
    by eval_closed.
  pose proof (forallb_seq_spec _ _ H (Z.to_nat c)) as Hd. unfold is_byte in Hc.
  cbv beta in Hd. rewrite Z2Nat.id in Hd by lia. apply bool_decide_eq_true in Hd; [exact Hd | lia].
Qed.

Lemma hex_digit_range c x : hex_digit c = Some x -> 0 <= x < 16.
Proof.
  unfold hex_digit. repeat (case_match; try discriminate); intros [= <-]; lia.
Qed.

Lemma hex_pair_digits byte :
  is_byte byte -> exists a b, hex_pair byte = [a; b] /\ is_byte a /\ is_byte b /\
    hex_digit a = Some (byte / 16) /\ hex_digit b = Some (byte mod 16).
Proof.
  intros Hb.
  assert (H : forallb (fun n => let byte := Z.of_nat n in
      bool_decide (is_bytes (hex_pair byte)) &&
      bool_decide (map hex_digit (hex_pair byte) = [Some (byte / 16); Some (byte mod 16)])) (seq 0 256) = true)
    by eval_closed.
  pose proof (forallb_seq_spec _ _ H (Z.to_nat byte)) as Hd. unfold is_byte in Hb.
  cbv beta zeta in Hd. rewrite Z2Nat.id in Hd by lia.
  destruct (andb_prop _ _ (Hd ltac:(lia))) as [H1 H2]. apply bool_decide_eq_true in H1, H2.
  unfold hex_pair in *. cbv zeta in *. eexists _, _. split; [reflexivity|].
  inversion_clear H1 as [|? ? Ha H3]. inversion_clear H3. cbn [map] in H2. injection H2 as E1 E2. auto.
Qed.

(** ** The loop *)

Lemma hex_byte x y : 0 <= x < 16 -> 0 <= y < 16 -> to_u8 (Z.lor (to_u8 (x * 16)) y) = 16 * x + y.
Proof.
  intros Hx Hy. unfold to_u8. rewrite (Z.mod_small (x * 16)) by lia.
  change 16 with (2 ^ 4) at 1.
  rewrite Z.lor_comm, <- (Z.shiftl_mul_pow2 x 4), (lor_shiftl_add y x 4) by lia.
  change (2 ^ 4) with 16. rewrite Z.mod_small; lia.
Qed.

Lemma hex2bin_break c hex max l : hex_val c = None -> hex2bin_loop (c :: hex) max l = l.
Proof. intros E. cbn [hex2bin_loop]. rewrite E. reflexivity. Qed.

(** Two digits are consumed together, when there is room for the byte. *)
Lemma hex2bin_two a b x y hex max bs pos acc r :
  hex_val a = Some x -> hex_val b = Some y -> 0 <= x < 16 -> 0 <= y < 16 -> (length bs < max)%nat ->
  hex2bin_loop (a :: b :: hex) max (HexLoop bs pos acc 0 r) =
  hex2bin_loop hex max (HexLoop (bs ++ [16 * x + y]) (S (S pos)) (to_u8 (x * 16)) 0 r).
Proof.
  intros Ea Eb Hx Hy Hl. cbn [hex2bin_loop]. rewrite Ea, Eb. cbn [bin state hex_pos c_acc ret].
  destruct (Nat.leb_spec max (length bs)); [lia|]. cbn [Z.eqb bin].
  destruct (Nat.leb_spec max (length bs)); [lia|]. cbn [state hex_pos c_acc ret].
  rewrite (hex_byte x y) by assumption. reflexivity.
Qed.

(** The outcome on a string: either it is a string of digits that fits, or the
    loop ends before the string, or in the middle of a byte. *)
Lemma hex2bin_loop_ok hex max bs pos acc :
  is_bytes hex -> (length bs <= max)%nat ->
  let l := hex2bin_loop hex max (HexLoop bs pos acc 0 0) in
  match hex_bytes hex with
  | Some v =>
      if (length bs + length v <=? max)%nat
      then bin l = bs ++ v /\ hex_pos l = (pos + length hex)%nat /\ state l = 0 /\ ret l = 0
      else hex_pos l <> (pos + length hex)%nat /\ state l = 0
  | None => state l <> 0 \/ hex_pos l <> (pos + length hex)%nat
  end.
Proof.
  remember (length hex) as n eqn:En. revert hex bs pos acc En.
  induction n as [n IH] using lt_wf_ind. intros hex bs pos acc En Hb Hl. subst n.
  destruct hex as [|a [|b hex]].
  - cbn. destruct (Nat.leb_spec (length bs + 0) max); [|lia]. rewrite app_nil_r. auto.
  - inversion_clear Hb as [|? ? Ha _]. cbn [hex_bytes]. cbv zeta.
    destruct (hex_val a) as [x|] eqn:Ea; [|rewrite hex2bin_break by exact Ea; right; cbn; lia].
    cbn [hex2bin_loop]. rewrite Ea. cbn [bin]. destruct (max <=? length bs)%nat; cbn; [right; lia | left; discriminate].
  - inversion_clear Hb as [|? ? Ha Hb']. inversion_clear Hb' as [|? ? Hb Hb''].
    cbn [hex_bytes]. rewrite <- (hex_val_digit a Ha), <- (hex_val_digit b Hb). cbv zeta.
    destruct (hex_val a) as [x|] eqn:Ea; cbn [mbind option_bind];
      [|rewrite hex2bin_break by exact Ea; right; cbn; lia].
    destruct (Nat.leb_spec max (length bs)) as [Hm|Hm].
    { cbn [hex2bin_loop]. rewrite Ea. cbn [bin]. destruct (Nat.leb_spec max (length bs)); [|lia].
      destruct (hex_val b); cbn [mbind option_bind]; [|right; cbn; lia].
      destruct (hex_bytes hex) as [v|]; cbn [mbind option_bind]; [|right; cbn; lia].
      cbn [length]. destruct (Nat.leb_spec (length bs + S (length v)) max); [lia|]. cbn. lia. }
    destruct (hex_val b) as [y|] eqn:Eb; cbn [mbind option_bind].
    2:{ cbn [hex2bin_loop]. rewrite Ea, Eb. cbn [bin]. destruct (Nat.leb_spec max (length bs)); [lia|].
        left. discriminate. }
    assert (Hx : 0 <= x < 16) by (apply (hex_digit_range a); rewrite <- hex_val_digit; assumption).
    assert (Hy : 0 <= y < 16) by (apply (hex_digit_range b); rewrite <- hex_val_digit; assumption).
    rewrite (hex2bin_two a b x y) by assumption.
    specialize (IH (length hex) ltac:(cbn; lia) hex (bs ++ [16 * x + y]) (S (S pos)) (to_u8 (x * 16)) eq_refl
      Hb'' ltac:(rewrite length_app; cbn; lia)). cbv zeta in IH.
    rewrite length_app in IH. cbn [length] in *.
    destruct (hex_bytes hex) as [v|]; cbn [mbind option_bind length].
    + replace (length bs + S (length v))%nat with (length bs + 1 + length v)%nat by lia.
      destruct (length bs + 1 + length v <=? max)%nat.
      * rewrite <- app_assoc in IH. cbn [app] in IH. destruct IH as (-> & -> & -> & ->). repeat split; lia.
      * destruct IH as [H1 ->]. split; [lia | reflexivity].
    + destruct IH as [H|H]; [left; exact H | right; lia].
Qed.

(** ** What the conversions do *)

Lemma hex_bytes_length s v : hex_bytes s = Some v -> length s = (2 * length v)%nat.
Proof.
  remember (length s) as n eqn:En. revert s v En.
  induction n as [n IH] using lt_wf_ind. intros s v -> H.
  destruct s as [|a [|b s]]; [injection H as <-; reflexivity | discriminate|].
  cbn [hex_bytes] in H. apply bind_inv in H as (x & _ & H). apply bind_inv in H as (y & _ & H).
  apply bind_inv in H as (r & Hr & [= <-]). cbn [length].
  rewrite (IH (length s) ltac:(cbn; lia) s r eq_refl Hr). lia.
Qed.

(** [cvt_hex2bin] accepts exactly the strings of digit pairs that fit. *)
Lemma cvt_hex2bin_ok max hex :
  is_bytes hex ->
  match hex_bytes hex with
  | Some v => if (length v <=? max)%nat then cvt_hex2bin max hex = (0, v) else fst (cvt_hex2bin max hex) = -1
  | None => fst (cvt_hex2bin max hex) = -1
  end.
Proof.
  intros Hb. pose proof (hex2bin_loop_ok hex max [] 0 0 Hb ltac:(cbn; lia)) as H. cbv zeta in H.
  unfold cvt_hex2bin. destruct (hex2bin_loop hex max (HexLoop [] 0 0 0 0)) as [bs pos acc st r].
  cbn [bin hex_pos state ret length Nat.add] in *.
  destruct (hex_bytes hex) as [v|]; cbn [app] in H.
  - destruct (length v <=? max)%nat.
    + destruct H as (-> & -> & -> & ->). cbn. rewrite Nat.eqb_refl. reflexivity.
    + destruct H as [H ->]. cbn. destruct (Nat.eqb_spec pos (length hex)); [contradiction | reflexivity].
  - destruct (Z.eqb_spec st 0); cbn [negb].
    + destruct H as [H|H]; [contradiction|]. destruct (Nat.eqb_spec pos (length hex)); [contradiction | reflexivity].
    + destruct (pred pos =? length hex)%nat; reflexivity.
Qed.

(** The encoding of bytes decodes to them. *)
Lemma hex_bytes_pairs bs : is_bytes bs -> hex_bytes (concat (map hex_pair bs)) = Some bs.
Proof.
  induction 1 as [|b bs Hb _ IH]; [reflexivity|].
  destruct (hex_pair_digits b Hb) as (x & y & E & _ & _ & Hx & Hy).
  cbn [map concat]. rewrite E. cbn [app hex_bytes]. rewrite Hx, Hy, IH. cbn [mbind option_bind].
  do 2 f_equal. symmetry. apply Z.div_mod. lia.
Qed.

Lemma hex_pairs_bytes bs : is_bytes bs -> is_bytes (concat (map hex_pair bs)).
Proof.
  induction 1 as [|b bs Hb _ IH]; [constructor|].
  destruct (hex_pair_digits b Hb) as (x & y & E & Hx & Hy & _).
  cbn [map concat]. rewrite E. constructor; [exact Hx|]. constructor; [exact Hy | exact IH].
Qed.

Lemma hex_pairs_length bs : length (concat (map hex_pair bs)) = (2 * length bs)%nat.
Proof. induction bs as [|b bs IH]; [reflexivity|]. cbn [map concat]. rewrite length_app, IH. cbn. lia. Qed.

Lemma fromHex_into_ok buf hex v :
  is_bytes hex -> hex <> [] -> hex_bytes hex = Some v -> (length v <= length buf)%nat ->
  fromHex_into buf hex = (v ++ drop (length v) buf, true).
Proof.
  intros Hb Hne Hv Hl. pose proof (cvt_hex2bin_ok (length buf) hex Hb) as H. rewrite Hv in H.
  destruct (Nat.leb_spec (length v) (length buf)); [|lia]. unfold fromHex_into. rewrite H.
  destruct hex; [contradiction|]. reflexivity.
Qed.

Lemma fromHex_ok hex v : is_bytes hex -> hex <> [] -> hex_bytes hex = Some v -> fromHex hex = v.
Proof.
  intros Hb Hne Hv. unfold fromHex. pose proof (hex_bytes_length hex v Hv) as Hl.
  rewrite (fromHex_into_ok _ hex v) by (try assumption; rewrite repeat_length, Hl, Nat.mul_comm, Nat.div_mul; lia).
  rewrite drop_ge, app_nil_r; [reflexivity|]. rewrite repeat_length, Hl, Nat.mul_comm, Nat.div_mul; lia.
Qed.

Lemma fromHex_refuses hex : is_bytes hex -> hex_bytes hex = None -> fromHex hex = [].
Proof.
  intros Hb Hv. pose proof (cvt_hex2bin_ok (length hex / 2) hex Hb) as H. rewrite Hv in H.
  unfold fromHex, fromHex_into. rewrite repeat_length.
  destruct (length hex =? 0)%nat; [reflexivity|].
  destruct (cvt_hex2bin (length hex / 2) hex) as [r bs]. cbn [fst] in H. subst r. reflexivity.
Qed.
