(* ===== verification/Job.v ===== *)
(** * Jobs

    base/net/stratum/Job.h and Job.cpp: the blob to hash with its nonce, the
    target, the comparison of jobs, and the parsing of what a pool sends.
    Algorithm identifiers and families are those of base/crypto/Algorithm.h. *)

From S2P Require Import Prelude.
From S2P Require Import CInt.
From S2P Require Import Bytes.
From S2P Require Import Cvt.

(** ** Algorithms *)

Definition CN_0 : Z := 0x63150000.
Definition GHOSTRIDER_RTM : Z := 0x6c150000.
Definition RX_0 : Z := 0x72151200.
Definition RX_WOW : Z := 0x72141177.
Definition RX_YADA : Z := 0x72151279.
Definition KAWPOW_RVN : Z := 0x6b0f0000.

Definition CN_ANY : Z := 0x63000000.
Definition RANDOM_X : Z := 0x72000000.
Definition KAWPOW : Z := 0x6b000000.
Definition GHOSTRIDER : Z := 0x6c000000.

Definition isCN (id : Z) : bool := Z.land id 0xff000000 =? CN_ANY.
Definition family (id : Z) : Z := Z.land id (if isCN id then 0xffff0000 else 0xff000000).

(** ** Data *)

(** A [String] that may be null. *)
Notation string_t := (option (list Z)).

Definition kMaxBlobSize : nat := 408.
Definition kMaxSeedSize : nat := 32.

Record Job := MkJob {
  m_algorithm : Z;
  m_nicehash : bool;
  m_seed : list Z;
  m_size : nat;
  m_clientId : string_t;
  m_extraNonce : string_t;
  m_id : string_t;
  m_diff : Z;
  m_target : Z;
  m_blob : list Z;
  m_index : nat
}.

Definition with_blob (job : Job) (nicehash : bool) (size : nat) (blob : list Z) : Job :=
  MkJob (m_algorithm job) nicehash (m_seed job) size (m_clientId job) (m_extraNonce job) (m_id job)
    (m_diff job) (m_target job) blob (m_index job).

Definition with_target (job : Job) (diff target : Z) : Job :=
  MkJob (m_algorithm job) (m_nicehash job) (m_seed job) (m_size job) (m_clientId job) (m_extraNonce job)
    (m_id job) diff target (m_blob job) (m_index job).

#[export] Instance Job_inhabited : Inhabited Job :=
  populate (MkJob 0 false [] 0 None None None 0 0 [] 0).

(** A constructed job: the blob holds zeros. *)
Definition new_job (nicehash : bool) (algorithm : Z) (clientId : string_t) : Job :=
  MkJob algorithm nicehash [] 0 clientId None None 0 0 (repeat 0 kMaxBlobSize) 0.

(** ** The nonce *)

Definition nonceOffset (job : Job) : nat :=
  if family (m_algorithm job) =? KAWPOW then 32
  else if family (m_algorithm job) =? GHOSTRIDER then 76
  else if m_algorithm job =? RX_YADA then 147
  else 39.

Definition nonceSize (job : Job) : nat := if family (m_algorithm job) =? KAWPOW then 8 else 4.

Definition string_size (s : string_t) : Z := match s with None => 0 | Some s => Z.of_nat (length s) end.

(** Undefined when the shift is not below the width. *)
Definition nonceMask (job : Job) : option Z :=
  if m_nicehash job then Some 0xFFFFFF
  else if (nonceSize job =? 8)%nat then
    let n := string_size (m_extraNonce job) * 4 in
    if n <? 64 then Some (Z.shiftr 0xFFFFFFFFFFFFFFFF n) else None
  else Some 0xFFFFFFFF.

(** [memcpy(dst + off, src, n)] for the [n] bytes [src]. *)
Definition memcpy (dst : list Z) (off : nat) (src : list Z) : list Z :=
  take off dst ++ src ++ drop (off + length src) dst.

(** [readUnaligned] and [writeUnaligned] of a [uint32_t] at an offset. *)
Definition readUnaligned (blob : list Z) (off : nat) : Z := le_val (take 4 (drop off blob)).
Definition writeUnaligned (blob : list Z) (off : nat) (v : Z) : list Z := memcpy blob off (le_bytes 4 v).

(** ** Comparison *)

Definition isEqualBlob (job other : Job) : bool :=
  (m_size job =? m_size other)%nat &&
  bool_decide (take (m_size job) (m_blob job) = take (m_size job) (m_blob other)).

Definition isEqual (job other : Job) : bool :=
  bool_decide (m_id job = m_id other) && bool_decide (m_clientId job = m_clientId other) &&
  isEqualBlob job other && (m_target job =? m_target other).

(** ** Parsing what the pool sends *)

(** The string argument, [None] for a null pointer.  A refused string may
    still have changed the blob. *)
Definition setBlob (job : Job) (blob : option (list Z)) : Job * bool :=
  match blob with
  | None => (job, false)
  | Some blob =>
      let size := length blob in
      if negb (size mod 2 =? 0)%nat then (job, false)
      else
        let size := (size / 2)%nat in
        let minSize := (nonceOffset job + nonceSize job)%nat in
        if ((size <? minSize) || (length (m_blob job) <=? size))%nat then (job, false)
        else
          let '(buf, ok) := fromHex_into (m_blob job) blob in
          let job := with_blob job (m_nicehash job) (m_size job) buf in
          if negb ok then (job, false)
          else
            let nicehash := m_nicehash job || negb (readUnaligned (m_blob job) (nonceOffset job) =? 0) in
            (with_blob job nicehash size buf, true)
  end.

Definition toDiff (target : Z) : Z := if target =? 0 then 0 else 0xFFFFFFFFFFFFFFFF / target.

(** [None]: a division by zero. *)
Definition target_of_raw (raw : list Z) : option Z :=
  if (length raw =? 4)%nat then
    let t := le_val raw in
    if t =? 0 then None
    else if 0xFFFFFFFF / t =? 0 then None
    else Some (0xFFFFFFFFFFFFFFFF / (0xFFFFFFFF / t))
  else if (length raw =? 8)%nat then Some (le_val raw)
  else Some 0.

Section Target.

(** [strtoull(s, nullptr, 16)] of the C library, used for RX_YADA. *)
Variable strtoull16 : list Z -> Z.

Definition parse_target (algorithm : Z) (target : list Z) : option Z :=
  if algorithm =? RX_YADA then Some (strtoull16 target) else target_of_raw (fromHex target).

(** A string shorter than four characters is refused before it is parsed; the
    target is stored before it is compared with zero. *)
Definition setTarget (job : Job) (target : option (list Z)) : option (Job * bool) :=
  match target with
  | None => Some (job, false)
  | Some s =>
      if (length s <? 4)%nat then Some (job, false)
      else
        t ← parse_target (m_algorithm job) s;
        if t =? 0 then Some (with_target job (m_diff job) t, false)
        else Some (with_target job (toDiff t) t, true)
  end.

End Target.

Definition setDiff (job : Job) (diff : Z) : Job := with_target job diff (toDiff diff).

Definition setSeedHash (job : Job) (hash : option (list Z)) : Job * bool :=
  match hash with
  | None => (job, false)
  | Some s =>
      if negb (length s =? kMaxSeedSize * 2)%nat then (job, false)
      else
        let seed := fromHex s in
        (MkJob (m_algorithm job) (m_nicehash job) seed (m_size job) (m_clientId job) (m_extraNonce job)
           (m_id job) (m_diff job) (m_target job) (m_blob job) (m_index job),
         negb (length seed =? 0)%nat)
  end.

(** The varint at the end of the blob: at most four bytes, seven bits each. *)
Fixpoint tx_varint (bytes : list Z) (k : Z) (num : Z) : Z :=
  match bytes with
  | [] => num
  | b :: bytes =>
      let num := Z.lor num (to_u32 (Z.shiftl (Z.land b 0x7F) k)) in
      if Z.land b 0x80 =? 0 then num else tx_varint bytes (k + 7) num
  end.

Definition getNumTransactions (job : Job) : Z :=
  if negb (isCN (m_algorithm job) || (family (m_algorithm job) =? RANDOM_X)) then 0
  else
    let expected_tx_offset := if m_algorithm job =? RX_WOW then 141%nat else 75%nat in
    if ((expected_tx_offset <? m_size job) && (m_size job <=? expected_tx_offset + 4))%nat
    then tx_varint (drop expected_tx_offset (take (m_size job) (m_blob job))) 0 0
    else 0.
