(* ===== verification/Nonce.v ===== *)
(** * The shared nonce counters

    crypto/common/Nonce.h and Nonce.cpp: two counters from which the threads
    reserve ranges of nonces with an atomic addition, the sequence numbers that
    tell a thread its job is outdated, and the pause flag.  [next_check] is what
    a thread does between two atomic additions; the loop of [next] alternates
    the two. *)

From S2P Require Import Prelude.
From S2P Require Import CInt.
From S2P Require Import Bytes.
From S2P Require Import Job.

(** ** State *)

Inductive Backend := CPU | OPENCL | CUDA.

Definition backend_index (b : Backend) : nat := match b with CPU => 0 | OPENCL => 1 | CUDA => 2 end.

Record nonce_state := Nonces { m_paused : bool; m_sequence : list Z; m_nonces : list Z }.

Definition nonce_init : nonce_state := Nonces true [1; 1; 1] [0; 0].

(** ** Operations on the atomics *)

Definition pause (paused : bool) (n : nonce_state) : nonce_state := Nonces paused (m_sequence n) (m_nonces n).

Definition reset (index : nat) (n : nonce_state) : nonce_state :=
  Nonces (m_paused n) (m_sequence n) (<[index := 0]> (m_nonces n)).

Definition stop_backend (b : Backend) (n : nonce_state) : nonce_state :=
  Nonces (m_paused n) (<[backend_index b := 0]> (m_sequence n)) (m_nonces n).

Definition touch_backend (b : Backend) (n : nonce_state) : nonce_state :=
  Nonces (m_paused n) (alter (fun s => to_u64 (s + 1)) (backend_index b) (m_sequence n)) (m_nonces n).

Definition sequence (b : Backend) (n : nonce_state) : Z := m_sequence n !!! backend_index b.

Definition isOutdated (b : Backend) (seq : Z) (n : nonce_state) : bool := negb (sequence b n =? seq).

Definition stop (n : nonce_state) : nonce_state :=
  let n := pause false n in
  Nonces (m_paused n) (map (fun _ => 0) (m_sequence n)) (m_nonces n).

Definition touch (n : nonce_state) : nonce_state :=
  Nonces (m_paused n) (map (fun s => to_u64 (s + 1)) (m_sequence n)) (m_nonces n).

(** [m_nonces[index].fetch_add(reserveCount)]: the value before. *)
Definition fetch_add (index : nat) (reserveCount : Z) (n : nonce_state) : Z * nonce_state :=
  let counter := m_nonces n !!! index in
  (counter, Nonces (m_paused n) (m_sequence n) (<[index := to_u64 (counter + reserveCount)]> (m_nonces n))).

(** ** [next] *)

Definition next_mask (mask : Z) : Z := Z.land mask 0x7FFFFFFFFFFFFFFF.

(** The test that refuses a call before it touches the counter; [mask] is
    already the masked one. *)
Definition next_refuses (reserveCount mask : Z) : bool :=
  (reserveCount =? 0) || (mask <? to_u32 (reserveCount - 1)).

Inductive verdict := Refuse | Again | Grant.

(** The body of the loop for the value [counter] the addition returned: whether
    it sets the pause flag, and how it goes on. *)
Definition next_check (counter reserveCount mask : Z) : bool * verdict :=
  if mask <? counter then (false, Refuse)
  else if to_u64 (mask - counter) <=? to_u32 (reserveCount - 1) then
    (true, if to_u64 (mask - counter) <? to_u32 (reserveCount - 1) then Refuse else Grant)
  else if to_u64 (0xFFFFFFFF - to_u32 counter) <? to_u32 (reserveCount - 1) then (false, Again)
  else (false, Grant).

(** [~mask] on [uint64_t]. *)
Definition not64 (mask : Z) : Z := to_u64 (Z.lnot mask).

(** The two stores through [nonce], which points at [off] in [blob]. *)
Definition write_nonce (counter mask : Z) (blob : list Z) (off : nat) : list Z :=
  let blob := writeUnaligned blob off
                (to_u32 (Z.lor (Z.land (readUnaligned blob off) (not64 mask)) counter)) in
  if 0xFFFFFFFF <? mask then
    writeUnaligned blob (off + 4)
      (to_u32 (Z.lor (Z.land (readUnaligned blob (off + 4)) (Z.shiftr (not64 mask) 32)) (Z.shiftr counter 32)))
  else blob.

(** [pause(true)] when the check asks for it. *)
Definition pause_if (b : bool) (n : nonce_state) : nonce_state := if b then pause true n else n.

(** A call that no other thread interrupts; [fuel] bounds the additions. *)
Fixpoint next_loop (fuel : nat) (index : nat) (reserveCount mask : Z) (blob : list Z) (off : nat)
    (n : nonce_state) : option (bool * list Z * nonce_state) :=
  match fuel with
  | O => None
  | S fuel =>
      let '(counter, n) := fetch_add index reserveCount n in
      let '(p, v) := next_check counter reserveCount mask in
      let n := pause_if p n in
      match v with
      | Refuse => Some (false, blob, n)
      | Again => next_loop fuel index reserveCount mask blob off n
      | Grant => Some (true, write_nonce counter mask blob off, n)
      end
  end.

Definition next (fuel : nat) (index : nat) (reserveCount mask : Z) (blob : list Z) (off : nat)
    (n : nonce_state) : option (bool * list Z * nonce_state) :=
  let mask := next_mask mask in
  if next_refuses reserveCount mask then Some (false, blob, n)
  else next_loop fuel index reserveCount mask blob off n.

(** * What the shared counters guarantee

    Bytes written and read through the nonce pointer; the arithmetic of
    [next_check] and [write_nonce] for a mask of k ones; the termination of
    [next]. *)

(** ** Memory *)

Lemma memcpy_lookup dst p src i :
  (p + length src <= length dst)%nat ->
  memcpy dst p src !! i = if decide (p <= i < p + length src)%nat then src !! (i - p)%nat else dst !! i.
Proof.
  intros Hl. unfold memcpy. destruct (decide (i < p)%nat).
  - rewrite lookup_app_l by (rewrite length_take; lia). rewrite lookup_take_lt by lia.
    rewrite decide_False by lia. reflexivity.
  - rewrite lookup_app_r by (rewrite length_take; lia). rewrite length_take, Nat.min_l by lia.
    destruct (decide (p <= i < p + length src)%nat).
    + rewrite lookup_app_l by lia. reflexivity.
    + rewrite lookup_app_r, lookup_drop by lia. f_equal. lia.
Qed.

Lemma memcpy_length dst p src : (p + length src <= length dst)%nat -> length (memcpy dst p src) = length dst.
Proof. intros H. unfold memcpy. rewrite !length_app, length_take, length_drop. lia. Qed.

Lemma memcpy_bytes dst p src : is_bytes dst -> is_bytes src -> is_bytes (memcpy dst p src).
Proof.
  intros Hd Hs. unfold memcpy. repeat (apply Forall_app; split);
    [apply Forall_take, Hd | exact Hs | apply Forall_drop, Hd].
Qed.

(** Reading [n] bytes away from what was written, and inside it. *)
Lemma memcpy_away dst p src o n :
  (p + length src <= length dst)%nat -> (o + n <= p \/ p + length src <= o)%nat ->
  take n (drop o (memcpy dst p src)) = take n (drop o dst).
Proof.
  intros Hl Ho. apply list_eq. intros i. rewrite !lookup_take. destruct (decide (i < n)%nat); [|reflexivity].
  rewrite !lookup_drop, memcpy_lookup, decide_False by lia. reflexivity.
Qed.

Lemma memcpy_inside dst p src q n :
  (p + length src <= length dst)%nat -> (q + n <= length src)%nat ->
  take n (drop (p + q) (memcpy dst p src)) = take n (drop q src).
Proof.
  intros Hl Ho. apply list_eq. intros i. rewrite !lookup_take. destruct (decide (i < n)%nat); [|reflexivity].
  rewrite !lookup_drop, memcpy_lookup, decide_True by lia. f_equal. lia.
Qed.

Lemma read_range b o : is_bytes b -> 0 <= readUnaligned b o < 2 ^ 32.
Proof.
  intros Hb. unfold readUnaligned. pose proof (le_val_range (take 4 (drop o b))) as H.
  assert (is_bytes (take 4 (drop o b))) by (apply Forall_take, Forall_drop, Hb).
  specialize (H ltac:(assumption)). rewrite length_take in H. split; [lia|].
  eapply Z.lt_le_trans; [apply H|]. apply Z.pow_le_mono_r; lia.
Qed.

Lemma read_write b o v : (o + 4 <= length b)%nat -> 0 <= v < 2 ^ 32 -> readUnaligned (writeUnaligned b o v) o = v.
Proof.
  intros Hl Hv. unfold readUnaligned, writeUnaligned. replace o with (o + 0)%nat at 1 by lia.
  rewrite memcpy_inside by (rewrite le_bytes_length; lia).
  rewrite drop_0, firstn_all2, le_bytes_val by (rewrite le_bytes_length; lia). apply Z.mod_small. exact Hv.
Qed.

Lemma read_write_away b o v o' :
  (o + 4 <= length b)%nat -> (o' + 4 <= o \/ o + 4 <= o')%nat ->
  readUnaligned (writeUnaligned b o v) o' = readUnaligned b o'.
Proof.
  intros Hl Ho. unfold readUnaligned, writeUnaligned. rewrite memcpy_away; [reflexivity|..]; rewrite le_bytes_length; lia.
Qed.

Lemma write_away b o v o' n :
  (o + 4 <= length b)%nat -> (o' + n <= o \/ o + 4 <= o')%nat ->
  take n (drop o' (writeUnaligned b o v)) = take n (drop o' b).
Proof. intros Hl Ho. apply memcpy_away; rewrite le_bytes_length; lia. Qed.

Lemma write_length b o v : (o + 4 <= length b)%nat -> length (writeUnaligned b o v) = length b.
Proof. intros H. apply memcpy_length. rewrite le_bytes_length. exact H. Qed.

Lemma write_bytes b o v : is_bytes b -> is_bytes (writeUnaligned b o v).
Proof. intros H. apply memcpy_bytes; [exact H | apply le_bytes_bytes]. Qed.

(** ** Reservations *)

(** [r] nonces from [c] fit under a mask of [k] ones, without crossing a
    multiple of 2^32. *)
Definition block (k r c : Z) : Prop := 0 <= c /\ c + r <= 2 ^ k /\ c mod 2 ^ 32 + r <= 2 ^ 32.

Lemma pow2_le a b : 0 <= a <= b -> 2 ^ a <= 2 ^ b.
Proof. intros H. apply Z.pow_le_mono_r; lia. Qed.

(** The low 32 bits of a mask of at least 32 ones. *)
Lemma ones_mod32 k : 32 <= k -> (2 ^ k - 1) mod 2 ^ 32 = 2 ^ 32 - 1.
Proof.
  intros Hk. replace (2 ^ k - 1) with (2 ^ 32 - 1 + (2 ^ (k - 32) - 1) * 2 ^ 32).
  - rewrite Z.mod_add by lia. reflexivity.
  - replace (2 ^ k) with (2 ^ (k - 32) * 2 ^ 32) by (rewrite <- Z.pow_add_r by lia; f_equal; lia). lia.
Qed.

Lemma next_check_ok k r c :
  0 <= k <= 63 -> 1 <= r < 2 ^ 32 -> 0 <= c < 2 ^ 64 ->
  match snd (next_check c r (2 ^ k - 1)) with
  | Grant => block k r c
  | Refuse => 2 ^ k < c + r
  | Again => c + r < 2 ^ k /\ 2 ^ 32 < c mod 2 ^ 32 + r
  end.
Proof.
  intros Hk Hr Hc. pose proof (pow2_le k 63 ltac:(lia)) as Hkm. pose proof (Z.pow_pos_nonneg 2 k) as Hkp.
  pose proof (Z.mod_pos_bound c (2 ^ 32) ltac:(lia)) as Hm.
  unfold next_check, block, to_u32, to_u64.
  change 4294967296 with (2 ^ 32). change 18446744073709551616 with (2 ^ 64).
  rewrite (Z.mod_small (r - 1)) by lia.
  destruct (Z.ltb_spec (2 ^ k - 1) c); cbn [snd]; [lia|].
  rewrite (Z.mod_small (2 ^ k - 1 - c)) by lia.
  rewrite (Z.mod_small (0xFFFFFFFF - c mod 2 ^ 32)) by lia.
  destruct (Z.leb_spec (2 ^ k - 1 - c) (r - 1)); cbn [snd].
  - destruct (Z.ltb_spec (2 ^ k - 1 - c) (r - 1)); cbn [snd]; [lia|].
    split; [lia|]. split; [lia|].
    destruct (Z_lt_ge_dec k 32) as [H32|H32].
    + pose proof (pow2_le k 32 ltac:(lia)). rewrite Z.mod_small by lia. lia.
    + pose proof (ones_mod32 k ltac:(lia)) as Ho.
      assert (c mod 2 ^ 32 = 2 ^ 32 - r); [|lia].
      replace c with (2 ^ k - 1 - (r - 1)) by lia.
      rewrite Zminus_mod, Ho, (Z.mod_small (r - 1)) by lia. rewrite Z.mod_small; lia.
  - destruct (Z.ltb_spec (0xFFFFFFFF - c mod 2 ^ 32) (r - 1)); cbn [snd]; lia.
Qed.

(** The pause flag is set exactly when the range reaches the end of the mask. *)
Lemma next_check_pause k r c :
  0 <= k <= 63 -> 1 <= r < 2 ^ 32 -> 0 <= c < 2 ^ 64 ->
  fst (next_check c r (2 ^ k - 1)) = true <-> c < 2 ^ k <= c + r.
Proof.
  intros Hk Hr Hc. pose proof (pow2_le k 63 ltac:(lia)) as Hkm. pose proof (Z.pow_pos_nonneg 2 k) as Hkp.
  unfold next_check, to_u32, to_u64.
  change 4294967296 with (2 ^ 32). change 18446744073709551616 with (2 ^ 64).
  rewrite (Z.mod_small (r - 1)) by lia.
  destruct (Z.ltb_spec (2 ^ k - 1) c); cbn [fst]; [split; [discriminate | lia]|].
  rewrite (Z.mod_small (2 ^ k - 1 - c)) by lia.
  destruct (Z.leb_spec (2 ^ k - 1 - c) (r - 1)); cbn [fst]; [split; [lia | reflexivity]|].
  destruct (_ <? _); cbn [fst]; (split; [discriminate | lia]).
Qed.

(** ** Writing the nonce *)

(** The part of a word above the mask. *)
Lemma land_not64 w k d :
  0 <= d <= k -> k <= 64 -> 0 <= w < 2 ^ (64 - d) ->
  Z.land w (Z.shiftr (not64 (2 ^ k - 1)) d) = w / 2 ^ (k - d) * 2 ^ (k - d).
Proof.
  intros Hd Hk Hw. replace (2 ^ k - 1) with (Z.ones k) by (rewrite Z.ones_equiv; lia).
  rewrite <- Z.shiftr_div_pow2, <- Z.shiftl_mul_pow2, <- Z.ldiff_ones_r by lia.
  apply Z.bits_inj'. intros i Hi. rewrite Z.land_spec, Z.ldiff_spec, Z.shiftr_spec by lia.
  unfold not64, to_u64. change 18446744073709551616 with (2 ^ 64).
  destruct (Z_lt_ge_dec (i + d) 64).
  - rewrite Z.mod_pow2_bits_low, Z.lnot_spec, !Z.testbit_ones_nonneg by lia.
    destruct (Z.testbit w i); [|reflexivity]. cbn. f_equal.
    destruct (Z.ltb_spec (i + d) k), (Z.ltb_spec i (k - d)); lia.
  - rewrite <- (Z.mod_small w (2 ^ (64 - d))) by exact Hw. rewrite Z.mod_pow2_bits_high by lia. reflexivity.
Qed.

Lemma keep_above w k c : 0 <= k -> 0 <= w -> 0 <= c < 2 ^ k -> Z.lor (w / 2 ^ k * 2 ^ k) c = c + w / 2 ^ k * 2 ^ k.
Proof.
  intros Hk Hw Hc. rewrite Z.lor_comm. rewrite <- (Z.shiftl_mul_pow2 (w / 2 ^ k) k) at 1 by lia.
  apply lor_shiftl_add; lia.
Qed.

(** The nonce as an integer, of the words the mask covers. *)
Definition nonce_value (k : Z) (b : list Z) (o : nat) : Z :=
  if 32 <? k then readUnaligned b o + 2 ^ 32 * readUnaligned b (o + 4) else readUnaligned b o.

Lemma mask_wide k : 0 <= k -> (0xFFFFFFFF <? 2 ^ k - 1) = (32 <? k).
Proof.
  intros Hk. destruct (Z.ltb_spec 32 k).
  - pose proof (Z.pow_lt_mono_r 2 32 k ltac:(lia) ltac:(lia) ltac:(lia)). apply Z.ltb_lt. lia.
  - pose proof (pow2_le k 32 ltac:(lia)). apply Z.ltb_ge. lia.
Qed.

(** The bytes the words cover. *)
Definition nonce_width (k : Z) : nat := if 32 <? k then 8 else 4.

(** [write_nonce] puts the counter under the mask and keeps the rest. *)
Lemma write_nonce_value k c b o :
  0 <= k <= 63 -> is_bytes b -> (o + nonce_width k <= length b)%nat -> 0 <= c < 2 ^ k ->
  nonce_value k (write_nonce c (2 ^ k - 1) b o) o = c + nonce_value k b o / 2 ^ k * 2 ^ k.
Proof.
  intros Hk Hb Hl Hc. pose proof (read_range b o Hb) as H0. pose proof (read_range b (o + 4) Hb) as H1.
  unfold write_nonce, nonce_value, nonce_width in *. rewrite mask_wide by lia.
  set (w0 := readUnaligned b o) in *. set (w1 := readUnaligned b (o + 4)) in *. unfold to_u32. change 4294967296 with (2 ^ 32).
  rewrite <- (Z.shiftr_0_r (not64 (2 ^ k - 1))). rewrite (land_not64 w0 k 0) by (change (2 ^ (64 - 0)) with (2 ^ 64); lia).
  rewrite Z.sub_0_r, keep_above by lia. revert Hl. destruct (Z.ltb_spec 32 k); intros Hl.
  - rewrite (read_write_away b o _ (o + 4)) by lia. fold w1.
    rewrite read_write by (rewrite ?write_length; (lia || apply Z.mod_pos_bound; lia)).
    rewrite read_write_away, read_write by (rewrite ?write_length; (lia || apply Z.mod_pos_bound; lia)).
    rewrite Z.shiftr_0_r, (land_not64 w1 k 32) by (change (2 ^ (64 - 32)) with (2 ^ 32); lia).
    rewrite (Z.div_small w0 (2 ^ k)) by (pose proof (pow2_le 32 k ltac:(lia)); lia).
    rewrite Z.shiftr_div_pow2 by lia.
    assert (Hs : 2 ^ k = 2 ^ (k - 32) * 2 ^ 32) by (rewrite <- Z.pow_add_r by lia; f_equal; lia).
    assert (Hp : 0 < 2 ^ (k - 32)) by (apply Z.pow_pos_nonneg; lia).
    assert (Hch : 0 <= c / 2 ^ 32 < 2 ^ (k - 32)).
    { split; [apply Z.div_pos; lia | apply Z.div_lt_upper_bound; lia]. }
    rewrite keep_above by lia.
    replace ((w0 + 2 ^ 32 * w1) / 2 ^ k) with (w1 / 2 ^ (k - 32)).
    2:{ rewrite Hs, (Z.mul_comm (2 ^ (k - 32)) (2 ^ 32)), <- Z.div_div by lia. f_equal. apply Z.div_unique with w0; lia. }
    assert (Hw : 0 <= c / 2 ^ 32 + w1 / 2 ^ (k - 32) * 2 ^ (k - 32) < 2 ^ 32).
    { assert (Hq : 2 ^ 32 = 2 ^ (64 - k) * 2 ^ (k - 32)) by (rewrite <- Z.pow_add_r by lia; f_equal; lia).
      pose proof (Z.div_lt_upper_bound w1 (2 ^ (k - 32)) (2 ^ (64 - k)) Hp ltac:(lia)).
      pose proof (Z.div_pos w1 (2 ^ (k - 32)) ltac:(lia) Hp). nia. }
    rewrite (Z.mod_small _ (2 ^ 32) Hw), Z.add_0_r. pose proof (Z.div_mod c (2 ^ 32) ltac:(lia)). rewrite Hs. nia.
  - rewrite read_write by (lia || apply Z.mod_pos_bound; lia). apply Z.mod_small.
    assert (Hq : 2 ^ 32 = 2 ^ (32 - k) * 2 ^ k) by (rewrite <- Z.pow_add_r by lia; f_equal; lia).
    assert (Hp : 0 < 2 ^ k) by (apply Z.pow_pos_nonneg; lia).
    pose proof (Z.div_lt_upper_bound w0 (2 ^ k) (2 ^ (32 - k)) Hp ltac:(lia)).
    pose proof (Z.div_pos w0 (2 ^ k) ltac:(lia) Hp). nia.
Qed.

(** [write_nonce] writes nothing outside the words of the nonce. *)
Lemma write_nonce_frame k c b o :
  0 <= k -> is_bytes b -> (o + nonce_width k <= length b)%nat ->
  let b' := write_nonce c (2 ^ k - 1) b o in
  is_bytes b' /\ length b' = length b /\
  forall o' n, (o' + n <= o \/ o + nonce_width k <= o')%nat -> take n (drop o' b') = take n (drop o' b).
Proof.
  intros Hk Hb. unfold write_nonce, nonce_width. rewrite mask_wide by lia.
  destruct (32 <? k); intros Hl; cbv zeta; (split; [|split]).
  - apply write_bytes, write_bytes, Hb.
  - rewrite !write_length by (rewrite ?write_length; lia). reflexivity.
  - intros o' n Ho. rewrite !write_away by (rewrite ?write_length; lia). reflexivity.
  - apply write_bytes, Hb.
  - apply write_length. lia.
  - intros o' n Ho. apply write_away; lia.
Qed.

Lemma nonce_value_frame k b b' o o' :
  take (nonce_width k) (drop o' b') = take (nonce_width k) (drop o b) -> nonce_value k b' o' = nonce_value k b o.
Proof.
  unfold nonce_value, nonce_width, readUnaligned. destruct (32 <? k); [|intros ->; reflexivity].
  intros H. pose proof (f_equal (take 4) H) as H0. pose proof (f_equal (drop 4) H) as H1.
  rewrite !take_take in H0. rewrite !skipn_firstn_comm, !drop_drop in H1. cbn [Nat.min Nat.sub] in H0, H1.
  rewrite H0, H1. reflexivity.
Qed.

Lemma nonce_value_range k b o : 0 <= k -> is_bytes b -> 0 <= nonce_value k b o.
Proof.
  intros Hk Hb. pose proof (read_range b o Hb). pose proof (read_range b (o + 4) Hb).
  unfold nonce_value. destruct (32 <? k); lia.
Qed.

(** ** An uninterrupted call *)

Lemma fetch_add_eq index r n c : m_nonces n !! index = Some c -> 0 <= r -> 0 <= c -> c + r < 2 ^ 64 ->
  exists n', fetch_add index r n = (c, n') /\ m_nonces n' !! index = Some (c + r) /\ m_paused n' = m_paused n.
Proof.
  intros Hn Hr Hc Hb. unfold fetch_add. rewrite (list_lookup_total_correct _ _ _ Hn).
  eexists. split; [reflexivity|]. cbn [m_nonces m_paused]. split; [|reflexivity].
  rewrite list_lookup_insert_eq by (apply lookup_lt_Some in Hn; exact Hn).
  unfold to_u64. rewrite Z.mod_small; [reflexivity | change 18446744073709551616 with (2 ^ 64); lia].
Qed.

Section Next.

Variables (k r msk : Z) (index off : nat).
Hypothesis Hk : 0 <= k <= 63.
Hypothesis Hr : 1 <= r <= 2 ^ 31.
Hypothesis Hmsk : next_mask msk = 2 ^ k - 1.

(** What a call that returned [ok] leaves, from a counter [c0]. *)
Definition next_post (c0 : Z) (b : list Z) (n : nonce_state) (res : bool * list Z * nonce_state) : Prop :=
  let '(ok, b', n') := res in
  if ok then
    exists c, c0 <= c <= c0 + r /\ block k r c /\ m_nonces n' !!! index = c + r /\
      nonce_value k b' off = c + nonce_value k b off / 2 ^ k * 2 ^ k /\
      m_paused n' = m_paused n || (c + r =? 2 ^ k)
  else b' = b /\ 2 ^ k < c0 + 2 * r /\ (m_paused n' = true \/ 2 ^ k <= c0 + r).

(** Twice is enough: after an addition that crosses a multiple of 2^32 the
    counter is just above it. *)
Lemma again_once c : c mod 2 ^ 32 + r > 2 ^ 32 -> (c + r) mod 2 ^ 32 + r <= 2 ^ 32.
Proof.
  intros H. pose proof (Z.mod_pos_bound c (2 ^ 32) ltac:(lia)).
  replace ((c + r) mod 2 ^ 32) with (c mod 2 ^ 32 + r - 2 ^ 32); [lia|].
  apply Z.mod_unique with (c / 2 ^ 32 + 1); [lia|]. pose proof (Z.div_mod c (2 ^ 32) ltac:(lia)). lia.
Qed.

(** One turn of the loop that does not go on. *)
Lemma check_decides c b n fuel :
  m_nonces n !! index = Some c -> 0 <= c -> c + r < 2 ^ 64 -> is_bytes b -> (off + nonce_width k <= length b)%nat ->
  (exists n', next_loop (S fuel) index r (2 ^ k - 1) b off n = next_loop fuel index r (2 ^ k - 1) b off n' /\
     c + r < 2 ^ k /\ 2 ^ 32 < c mod 2 ^ 32 + r /\ m_nonces n' !! index = Some (c + r) /\ m_paused n' = m_paused n) \/
  (exists n', next_loop (S fuel) index r (2 ^ k - 1) b off n = Some (false, b, n') /\ 2 ^ k < c + r /\
     (m_paused n' = true \/ 2 ^ k <= c)) \/
  (exists b' n', next_loop (S fuel) index r (2 ^ k - 1) b off n = Some (true, b', n') /\ block k r c /\
     m_nonces n' !! index = Some (c + r) /\ nonce_value k b' off = c + nonce_value k b off / 2 ^ k * 2 ^ k /\
     m_paused n' = m_paused n || (c + r =? 2 ^ k)).
Proof.
  intros Hn Hc Hw Hb Hl. destruct (fetch_add_eq index r n c Hn ltac:(lia) Hc Hw) as (n' & Ef & Hn' & Hp).
  cbn [next_loop]. rewrite Ef.
  pose proof (next_check_ok k r c Hk ltac:(lia) ltac:(lia)) as Hv.
  pose proof (next_check_pause k r c Hk ltac:(lia) ltac:(lia)) as Hpause.
  destruct (next_check c r (2 ^ k - 1)) as [p v]. cbn [fst snd] in Hv, Hpause. destruct v.
  - right. left. eexists. split; [reflexivity|]. split; [exact Hv|].
    destruct p; [left; reflexivity|]. right. destruct (Z_lt_ge_dec c (2 ^ k)); [|lia].
    destruct Hpause as [_ H]. specialize (H ltac:(lia)). discriminate.
  - left. destruct Hv as [Hv1 Hv2]. exists (pause_if p n'). split; [reflexivity|]. split; [exact Hv1|]. split; [exact Hv2|].
    destruct p; [destruct Hpause as [H _]; specialize (H eq_refl); lia|]. split; [exact Hn' | exact Hp].
  - right. right. eexists _, _. split; [reflexivity|]. split; [exact Hv|]. split; [destruct p; exact Hn'|].
    destruct Hv as (Hv0 & Hv1 & Hv2).
    split; [apply write_nonce_value; (assumption || lia)|].
    destruct p; cbn [pause_if pause m_paused].
    + destruct Hpause as [H _]. specialize (H eq_refl). destruct (Z.eqb_spec (c + r) (2 ^ k)); [|lia].
      symmetry. apply orb_true_r.
    + destruct (Z.eqb_spec (c + r) (2 ^ k)); [|rewrite orb_false_r; exact Hp].
      destruct Hpause as [_ H]. specialize (H ltac:(lia)). discriminate.
Qed.

Lemma next_ok c0 b n :
  m_nonces n !! index = Some c0 -> 0 <= c0 -> c0 + 2 * r < 2 ^ 64 -> is_bytes b ->
  (off + nonce_width k <= length b)%nat ->
  exists res, next 2 index r msk b off n = Some res /\ next_post c0 b n res.
Proof.
  intros Hn Hc Hw Hb Hl. unfold next. rewrite Hmsk. unfold next_refuses.
  destruct (Z.eqb_spec r 0); [lia|]. cbn [orb].
  destruct (Z.ltb_spec (2 ^ k - 1) (to_u32 (r - 1))) as [Hs|_].
  { unfold to_u32 in Hs. rewrite Z.mod_small in Hs by lia. eexists. split; [reflexivity|]. cbn.
    split; [reflexivity|]. split; [lia | right; lia]. }
  destruct (check_decides c0 b n 1 Hn Hc ltac:(lia) Hb Hl)
    as [(n' & -> & H1 & H2 & Hn' & Hp)|[(n' & -> & H1 & H2)|(b' & n' & -> & H1 & Hn' & H2 & Hp)]].
  - destruct (check_decides (c0 + r) b n' 0 Hn' ltac:(lia) ltac:(lia) Hb Hl)
      as [(n2 & _ & _ & H & _)|[(n2 & -> & H3 & H4)|(b' & n2 & -> & H3 & Hn2 & H4 & Hp2)]].
    + pose proof (again_once c0 ltac:(lia)). lia.
    + eexists. split; [reflexivity|]. split; [reflexivity|]. split; [lia | exact H4].
    + eexists. split; [reflexivity|]. exists (c0 + r). rewrite <- Hp. split; [lia|]. split; [exact H3|].
      split; [apply list_lookup_total_correct, Hn2|]. split; [exact H4 | exact Hp2].
  - eexists. split; [reflexivity|]. split; [reflexivity|]. split; [lia|]. destruct H2; [left; assumption | right; lia].
  - eexists. split; [reflexivity|]. exists c0. split; [lia|]. split; [exact H1|].
    split; [apply list_lookup_total_correct, Hn'|]. split; [exact H2 | exact Hp].
Qed.

End Next.
