(* ===== verification/WorkerJob.v ===== *)
(** * The job of a worker thread

    backend/common/WorkerJob.h, the template [WorkerJob<N>]: two slots (the
    user's job and the donation job) of a blob with N lanes, each lane a copy of
    the job with its own nonce.  The operations call [Nonce::next], in which
    threads meet at an atomic addition, so a thread is a state machine: its
    phases are the points before and after each addition.  The worker loop of
    backend/cpu/CpuWorker.cpp (and the ones of the GPU backends) hashes the
    nonces of the blob and calls [nextRound]. *)

From S2P Require Import Prelude.
From S2P Require Import Nonce.
From S2P Require Import CInt.
From S2P Require Import Bytes.
From S2P Require Import Job.

(** ** State *)

Record worker_job := WJ {
  wj_blobs : list (list Z);
  wj_jobs : list Job;
  wj_rounds : list Z;
  wj_nonce_mask : list Z;
  wj_sequence : Z;
  wj_index : nat
}.

(** Where a thread is in [Nonce::next] for the lane [lane], called from [save]
    or from [nextRound] with the lanes [rest] to follow. *)
Inductive phase :=
  | Idle
  | Fetch (lane : nat) (rest : list nat) (saving : bool) (reserve : Z)
  | Checking (lane : nat) (rest : list nat) (saving : bool) (reserve : Z) (counter : Z)
  | Failed.

(** [starved] records that the thread went on after a refused reservation:
    [save] ignores the result of [Nonce::next], and the worker loops go on with
    the same blob when they are not paused ([after_refusal]). *)
Record thread := Thread { t_job : worker_job; t_phase : phase; starved : bool }.

Section Lanes.

(** The template parameter. *)
Variable N : nat.

(** ** Accessors *)

Definition currentJob (w : worker_job) : Job := wj_jobs w !!! wj_index w.
Definition blob (w : worker_job) : list Z := wj_blobs w !!! wj_index w.
Definition mask (w : worker_job) : Z := wj_nonce_mask w !!! wj_index w.
Definition rounds_of (w : worker_job) : Z := wj_rounds w !!! wj_index w.

(** The offset of [nonce(i)] in the blob. *)
Definition nonce_at (w : worker_job) (i : nat) : nat :=
  (i * m_size (currentJob w) + nonceOffset (currentJob w))%nat.

Definition set_wj_blob (w : worker_job) (b : list Z) : worker_job :=
  WJ (<[wj_index w := b]> (wj_blobs w)) (wj_jobs w) (wj_rounds w) (wj_nonce_mask w) (wj_sequence w) (wj_index w).

Definition set_wj_job (w : worker_job) (job : Job) : worker_job :=
  WJ (wj_blobs w) (<[wj_index w := job]> (wj_jobs w)) (wj_rounds w) (wj_nonce_mask w) (wj_sequence w) (wj_index w).

Definition set_wj_rounds (w : worker_job) (r : Z) : worker_job :=
  WJ (wj_blobs w) (wj_jobs w) (<[wj_index w := r]> (wj_rounds w)) (wj_nonce_mask w) (wj_sequence w) (wj_index w).

Definition set_wj_sequence (w : worker_job) (s : Z) : worker_job :=
  WJ (wj_blobs w) (wj_jobs w) (wj_rounds w) (wj_nonce_mask w) s (wj_index w).

Definition set_wj_index (w : worker_job) (i : nat) : worker_job :=
  WJ (wj_blobs w) (wj_jobs w) (wj_rounds w) (wj_nonce_mask w) (wj_sequence w) i.

(** ** Reserving nonces for the lanes *)

(** [memcpy(m_blobs[index()] + (i * size), job.blob(), size)]; the job was
    already copied to the slot. *)
Definition copy_lane (w : worker_job) (i : nat) : worker_job :=
  let size := m_size (currentJob w) in
  set_wj_blob w (memcpy (blob w) (i * size) (take size (m_blob (currentJob w)))).

(** The end of [nextRound]: the specialisation for one lane copies the high
    word of a 64-bit nonce back to the job. *)
Definition finish_lanes (saving : bool) (w : worker_job) : worker_job :=
  if negb saving && (N =? 1)%nat && (nonceSize (currentJob w) =? 8)%nat then
    let job := currentJob w in
    let off := (nonceOffset job + 4)%nat in
    set_wj_job w (with_blob job (m_nicehash job) (m_size job)
                    (writeUnaligned (m_blob job) off (readUnaligned (blob w) (nonce_at w 0 + 4))))
  else w.

(** The lanes [todo] up to the next atomic addition. *)
Fixpoint enter_lanes (todo : list nat) (saving : bool) (reserve : Z) (w : worker_job) (st : bool) : thread :=
  match todo with
  | [] => Thread (finish_lanes saving w) Idle st
  | lane :: rest =>
      let w := if saving then copy_lane w lane else w in
      if next_refuses reserve (next_mask (mask w)) then
        if saving then enter_lanes rest saving reserve w true else Thread w Failed st
      else Thread w (Fetch lane rest saving reserve) st
  end.

(** One step of a thread inside [Nonce::next]. *)
Definition next_step (n : nonce_state) (t : thread) : nonce_state * thread :=
  let w := t_job t in
  match t_phase t with
  | Fetch lane rest saving reserve =>
      let '(counter, n) := fetch_add (wj_index w) reserve n in
      (n, Thread w (Checking lane rest saving reserve counter) (starved t))
  | Checking lane rest saving reserve counter =>
      let m := next_mask (mask w) in
      let '(p, v) := next_check counter reserve m in
      (pause_if p n,
       match v with
       | Again => Thread w (Fetch lane rest saving reserve) (starved t)
       | Grant => enter_lanes rest saving reserve
                    (set_wj_blob w (write_nonce counter m (blob w) (nonce_at w lane))) (starved t)
       | Refuse => if saving then enter_lanes rest saving reserve w true else Thread w Failed (starved t)
       end)
  | Idle | Failed => (n, t)
  end.

(** ** Operations *)

(** The fields [save] sets. *)
Definition set_slot (job : Job) (msk : Z) (w : worker_job) : worker_job :=
  let i := m_index job in
  WJ (wj_blobs w) (<[i := job]> (wj_jobs w)) (<[i := 0]> (wj_rounds w)) (<[i := msk]> (wj_nonce_mask w))
    (wj_sequence w) i.

Definition save (job : Job) (reserveCount : Z) (w : worker_job) : option thread :=
  msk ← nonceMask job;
  Some (enter_lanes (seq 0 N) true reserveCount (set_slot job msk w) false).

Definition add (job : Job) (reserveCount : Z) (b : Backend) (n : nonce_state) (w : worker_job) : option thread :=
  let w := set_wj_sequence w (sequence b n) in
  if isEqual (currentJob w) job then Some (Thread w Idle false)
  else if (wj_index w =? 1)%nat && (m_index job =? 0)%nat && isEqual job (wj_jobs w !!! 0%nat) then
    Some (Thread (set_wj_index w 0) Idle false)
  else save job reserveCount w.

(** The other rounds add to the low word of every lane. *)
Definition advance_lane (roundSize : Z) (w : worker_job) (i : nat) : worker_job :=
  set_wj_blob w (writeUnaligned (blob w) (nonce_at w i)
                   (to_u32 (readUnaligned (blob w) (nonce_at w i) + roundSize))).

Definition nextRound (rounds roundSize : Z) (t : thread) : thread :=
  let w := t_job t in
  let r := to_u32 (rounds_of w + 1) in
  let w := set_wj_rounds w r in
  if Z.land r (to_u32 (rounds - 1)) =? 0
  then enter_lanes (seq 0 N) false (to_u32 (rounds * roundSize)) w (starved t)
  else Thread (foldl (advance_lane roundSize) w (seq 0 N)) Idle (starved t).

(** ** What is hashed *)

(** The words of the nonce of lane [i] that the mask covers. *)
Definition lane_nonce (w : worker_job) (i : nat) : Z :=
  let n0 := readUnaligned (blob w) (nonce_at w i) in
  if 0xFFFFFFFF <? next_mask (mask w) then n0 + 2 ^ 32 * readUnaligned (blob w) (nonce_at w i + 4) else n0.

Definition lane_nonces (w : worker_job) : list Z := map (lane_nonce w) (seq 0 N).

End Lanes.

(** ** Threads together *)

(** A worker: its backend, the lanes of its template, the arguments of its
    [nextRound], and its state. *)
Record worker := Worker {
  w_backend : Backend; w_lanes : nat; w_rounds : Z; w_roundSize : Z; w_thread : thread
}.

(** The log holds the first nonce and the number of nonces of every hash
    computed; [reserved] is the sum of the additions to the counter of the job
    the workers are on. *)
Record system := System { shared : nonce_state; workers : list worker; hashed : list (Z * Z); reserved : Z }.

Definition set_thread (w : worker) (t : thread) : worker := Worker (w_backend w) (w_lanes w) (w_rounds w) (w_roundSize w) t.

(** The addition a thread makes in its next step. *)
Definition pending_add (t : thread) : Z := match t_phase t with Fetch _ _ _ reserve => reserve | _ => 0 end.

(** What a worker does after a refused [nextRound].  On the CPU the loop is
    left: the worker sleeps while the miner is paused, then consumes the
    miner's job, which [add] takes for the one it has unless the copy in the
    slot was changed.  On the GPUs the loop goes on with the same blob, paused
    or not. *)
Definition after_refusal (job : Job) (w : worker) (n : nonce_state) : option thread :=
  let t := w_thread w in
  match w_backend w with
  | CPU =>
      if m_paused n then None
      else t' ← add (w_lanes w) job (w_rounds w * w_roundSize w) CPU n (t_job t);
           Some (Thread (t_job t') (t_phase t') true)
  | OPENCL | CUDA => Some (Thread (t_job t) Idle true)
  end.

(** A step of the worker [tid] while the miner's job is [job]: when it is idle
    it hashes the nonces of its blob and starts the next round, after a refused
    round it resumes, else it goes on inside [Nonce::next]. *)
Definition sys_step (job : Job) (s : system) (tid : nat) : system :=
  match workers s !! tid with
  | None => s
  | Some w =>
      let t := w_thread w in
      match t_phase t with
      | Failed =>
          match after_refusal job w (shared s) with
          | None => s
          | Some t' => System (shared s) (<[tid := set_thread w t']> (workers s)) (hashed s) (reserved s)
          end
      | Idle =>
          let t' := nextRound (w_lanes w) (w_rounds w) (w_roundSize w) t in
          System (shared s) (<[tid := set_thread w t']> (workers s))
            (map (fun v => (v, w_roundSize w)) (lane_nonces (w_lanes w) (t_job t)) ++ hashed s) (reserved s)
      | _ =>
          let '(n, t') := next_step (w_lanes w) (shared s) t in
          System n (<[tid := set_thread w t']> (workers s)) (hashed s) (reserved s + pending_add t)
      end
  end.

(** A schedule is the sequence of the workers that take the steps. *)
Definition run_system (job : Job) (s : system) (schedule : list nat) : system := foldl (sys_step job) s schedule.

(** ** Job changes *)

(** [handleJobChange] of core/Miner.cpp, on the shared counters; the backends
    are notified in between. *)
Definition handleJobChange (enabled active rst : bool) (index : nat) (n : nonce_state) : nonce_state :=
  let n := if negb enabled then pause true n else n in
  let n := if rst then reset index n else n in
  let n := touch n in
  if active && enabled then pause false n else n.

(** * Workers never hash a nonce twice

    The invariant of the threads that take the nonces of one job from the
    shared counter: the ranges they own and the ranges already hashed are
    disjoint, and all lie below the counter.  Disjointness is stated by
    counting: every integer is in at most one of the ranges. *)

(** ** Counting ranges *)

(** Whether [x] is in the range [fst iv, snd iv). *)
Definition inside (x : Z) (iv : Z * Z) : Z := if (fst iv <=? x) && (x <? snd iv) then 1 else 0.

#[local] Arguments inside : simpl never.

Fixpoint cnt (x : Z) (ivs : list (Z * Z)) : Z :=
  match ivs with [] => 0 | iv :: ivs => inside x iv + cnt x ivs end.

Lemma inside_range x iv : 0 <= inside x iv <= 1.
Proof. unfold inside. destruct (_ && _); lia. Qed.

Lemma cnt_nonneg x ivs : 0 <= cnt x ivs.
Proof. induction ivs as [|iv ivs IH]; cbn; [lia|]. pose proof (inside_range x iv). lia. Qed.

Lemma cnt_app x a b : cnt x (a ++ b) = cnt x a + cnt x b.
Proof. induction a as [|iv a IH]; cbn; [lia|]. rewrite IH. lia. Qed.

Lemma inside_split x a b c : a <= b -> b <= c -> inside x (a, c) = inside x (a, b) + inside x (b, c).
Proof.
  intros H1 H2. unfold inside. cbn [fst snd].
  destruct (Z.leb_spec a x), (Z.ltb_spec x c), (Z.ltb_spec x b), (Z.leb_spec b x); cbn; lia.
Qed.

Lemma inside_true x a b : a <= x < b -> inside x (a, b) = 1.
Proof. intros H. unfold inside. cbn. destruct (Z.leb_spec a x), (Z.ltb_spec x b); cbn; lia. Qed.

Lemma inside_false x a b : ~ (a <= x < b) -> inside x (a, b) = 0.
Proof. intros H. unfold inside. cbn. destruct (Z.leb_spec a x), (Z.ltb_spec x b); cbn; lia. Qed.

(** Splitting every range of a list. *)
Lemma cnt_map_split x (a b c : Z -> Z) ivs :
  (forall v, a v <= b v /\ b v <= c v) ->
  cnt x (map (fun v => (a v, c v)) ivs) = cnt x (map (fun v => (a v, b v)) ivs) + cnt x (map (fun v => (b v, c v)) ivs).
Proof.
  intros H. induction ivs as [|v ivs IH]; cbn; [reflexivity|].
  rewrite IH, (inside_split x (a v) (b v) (c v)) by apply H. lia.
Qed.

Lemma cnt_map_empty x (a b : Z -> Z) ivs : (forall v, b v <= a v) -> cnt x (map (fun v => (a v, b v)) ivs) = 0.
Proof.
  intros H. induction ivs as [|v ivs IH]; cbn; [reflexivity|].
  rewrite IH, inside_false; [lia|]. specialize (H v). lia.
Qed.

Lemma cnt_concat_insert x (l : list (list (Z * Z))) i a b :
  l !! i = Some a -> cnt x (concat (<[i := b]> l)) + cnt x a = cnt x (concat l) + cnt x b.
Proof.
  revert i. induction l as [|c l IH]; intros [|i] H; [discriminate..| |].
  - injection H as ->. cbn. rewrite !cnt_app. lia.
  - change (<[S i := b]> (c :: l)) with (c :: <[i := b]> l). cbn [concat]. rewrite !cnt_app.
    specialize (IH i H). lia.
Qed.

Lemma cnt_elem x ivs iv i : ivs !! i = Some iv -> inside x iv <= cnt x ivs.
Proof.
  revert i. induction ivs as [|b ivs IH]; intros [|i] H; [discriminate..| |]; cbn in *.
  - injection H as ->. pose proof (cnt_nonneg x ivs). lia.
  - specialize (IH i H). pose proof (inside_range x b). lia.
Qed.

Lemma cnt_two x ivs i j a b :
  (i < j)%nat -> ivs !! i = Some a -> ivs !! j = Some b -> inside x a + inside x b <= cnt x ivs.
Proof.
  revert i j. induction ivs as [|c ivs IH]; intros [|i] [|j] Hij Ha Hb; try discriminate; try lia; cbn in *.
  - injection Ha as ->. pose proof (cnt_elem x ivs b j Hb). lia.
  - specialize (IH i j ltac:(lia) Ha Hb). pose proof (inside_range x c). lia.
Qed.

(** Two non-empty ranges of a list that covers no point twice are disjoint. *)
Lemma cnt_disjoint ivs i j a b c d :
  (forall x, cnt x ivs <= 1) -> i <> j -> ivs !! i = Some (a, b) -> ivs !! j = Some (c, d) ->
  a < b -> c < d -> b <= c \/ d <= a.
Proof.
  intros H Hij Hi Hj Hab Hcd.
  destruct (Z_le_gt_dec b c); [left; assumption|]. destruct (Z_le_gt_dec d a); [right; assumption|].
  exfalso. specialize (H (Z.max a c)).
  pose proof (inside_true (Z.max a c) a b ltac:(lia)). pose proof (inside_true (Z.max a c) c d ltac:(lia)).
  destruct (Nat.lt_gt_cases i j) as [Hc _]. destruct (Hc Hij) as [Hlt|Hlt].
  - pose proof (cnt_two (Z.max a c) ivs i j _ _ Hlt Hi Hj). lia.
  - pose proof (cnt_two (Z.max a c) ivs j i _ _ Hlt Hj Hi). lia.
Qed.

(** ** The lanes of one worker *)

Section Lanes.

(** The number of lanes; the job: its slot, size, nonce offset and the mask of
    [k] ones. *)
Variables (N : nat) (job : Job) (k : Z) (msk : Z).
Notation idx := (m_index job).
Notation size := (m_size job).
Notation off := (nonceOffset job).

Hypothesis Hk : 0 <= k <= 63.
Hypothesis Hmsk : next_mask msk = 2 ^ k - 1.
Hypothesis Hoff : (off + nonce_width k <= size)%nat.
Hypothesis Hjob : is_bytes (m_blob job) /\ (size <= length (m_blob job))%nat.

(** The worker is on the job: its slot holds a job that differs at most in the
    bytes of its blob. *)
Definition on_job (w : worker_job) : Prop :=
  wj_index w = idx /\
  (exists j, wj_jobs w !! idx = Some j /\ m_size j = size /\ m_algorithm j = m_algorithm job) /\
  (exists b, wj_blobs w !! idx = Some b /\ is_bytes b /\ (N * size <= length b)%nat) /\
  (exists r, wj_rounds w !! idx = Some r) /\
  wj_nonce_mask w !! idx = Some msk.

Definition lane_at (i : nat) : nat := (i * size + off)%nat.

(** The nonce of lane [i]. *)
Definition lane_val (w : worker_job) (i : nat) : Z := nonce_value k (blob w) (lane_at i).

Lemma on_job_at w i : on_job w -> nonce_at w i = lane_at i.
Proof.
  intros (Hi & (j & Hj & Hs & Ha) & _). unfold nonce_at, lane_at, currentJob. rewrite Hi.
  rewrite (list_lookup_total_correct _ _ _ Hj), Hs. unfold nonceOffset. rewrite Ha. reflexivity.
Qed.

Lemma on_job_size w : on_job w -> m_size (currentJob w) = size.
Proof.
  intros (Hi & (j & Hj & Hs & _) & _). unfold currentJob. rewrite Hi, (list_lookup_total_correct _ _ _ Hj). exact Hs.
Qed.

Lemma on_job_mask w : on_job w -> next_mask (mask w) = 2 ^ k - 1.
Proof.
  intros (Hi & _ & _ & _ & Hm). unfold mask. rewrite Hi, (list_lookup_total_correct _ _ _ Hm). exact Hmsk.
Qed.

Lemma on_job_blob w : on_job w -> is_bytes (blob w) /\ (N * size <= length (blob w))%nat.
Proof.
  intros (Hi & _ & (b & Hb & H) & _). unfold blob. rewrite Hi, (list_lookup_total_correct _ _ _ Hb). exact H.
Qed.

Lemma lane_nonce_val w i : on_job w -> lane_nonce w i = lane_val w i.
Proof.
  intros H. unfold lane_nonce, lane_val, nonce_value. rewrite on_job_at, on_job_mask, mask_wide by (assumption || lia).
  reflexivity.
Qed.

(** A lane lies inside the blob, away from the other lanes. *)
Lemma lane_fits i : (i < N)%nat -> (i * size + size <= N * size)%nat.
Proof. intros H. nia. Qed.

Lemma lanes_apart i j : i <> j -> (i * size + size <= j * size \/ j * size + size <= i * size)%nat.
Proof. intros H. nia. Qed.

Lemma blob_set w b : on_job w -> blob (set_wj_blob w b) = b.
Proof.
  intros (Hi & _ & (b' & Hb & _) & _). unfold blob, set_wj_blob. cbn [wj_blobs wj_index]. rewrite Hi.
  apply list_lookup_total_insert_eq. apply lookup_lt_Some in Hb. exact Hb.
Qed.

Lemma on_job_set w b :
  on_job w -> is_bytes b -> length b = length (blob w) -> on_job (set_wj_blob w b).
Proof.
  intros Hw Hb Hl. pose proof (on_job_blob w Hw) as [_ Hlen].
  destruct Hw as (Hi & Hj & (b' & Hb' & _) & Hr & Hm). unfold on_job, set_wj_blob.
  cbn [wj_blobs wj_index wj_jobs wj_rounds wj_nonce_mask]. split; [exact Hi|]. split; [exact Hj|].
  split; [|split; assumption]. exists b. rewrite Hi. split; [|split; [exact Hb | rewrite Hl; exact Hlen]].
  apply list_lookup_insert_eq. apply lookup_lt_Some in Hb'. exact Hb'.
Qed.

(** What a change of the blob inside lane [i] does to the nonces. *)
Definition lane_change (w w' : worker_job) (i : nat) (v : Z) : Prop :=
  on_job w' /\ rounds_of w' = rounds_of w /\ wj_jobs w' = wj_jobs w /\
  lane_val w' i = v /\ forall j, j <> i -> lane_val w' j = lane_val w j.

Lemma set_lane_change w i b v :
  on_job w -> (i < N)%nat -> is_bytes b -> length b = length (blob w) ->
  nonce_value k b (lane_at i) = v ->
  (forall o n, (o + n <= i * size \/ i * size + size <= o)%nat -> take n (drop o b) = take n (drop o (blob w))) ->
  lane_change w (set_wj_blob w b) i v.
Proof.
  intros Hw Hi Hb Hl Hv Hf. split; [apply on_job_set; assumption|]. split; [reflexivity|]. split; [reflexivity|].
  unfold lane_val. rewrite blob_set by assumption. split; [exact Hv|].
  intros j Hj. apply nonce_value_frame, Hf. unfold lane_at. pose proof (lanes_apart i j ltac:(congruence)). lia.
Qed.

Lemma write_lane w i c :
  on_job w -> (i < N)%nat -> 0 <= c < 2 ^ k ->
  lane_change w (set_wj_blob w (write_nonce c (2 ^ k - 1) (blob w) (nonce_at w i))) i
    (c + lane_val w i / 2 ^ k * 2 ^ k).
Proof.
  intros Hw Hi Hc. pose proof (on_job_blob w Hw) as [Hb Hl]. pose proof (lane_fits i Hi) as Hfit.
  rewrite (on_job_at w i Hw).
  assert (Ho : (lane_at i + nonce_width k <= length (blob w))%nat) by (unfold lane_at; lia).
  destruct (write_nonce_frame k c (blob w) (lane_at i) ltac:(lia) Hb Ho) as (Hb' & Hl' & Hf).
  apply set_lane_change; try assumption.
  - apply write_nonce_value; assumption.
  - intros o n Hon. apply Hf. unfold lane_at. lia.
Qed.

Lemma copy_lane_change w i :
  on_job w -> wj_jobs w !! idx = Some job -> (i < N)%nat ->
  lane_change w (copy_lane w i) i (nonce_value k (m_blob job) off).
Proof.
  intros Hw Hj Hi. pose proof (on_job_blob w Hw) as [Hb Hl]. pose proof (lane_fits i Hi) as Hfit.
  destruct Hjob as [Hjb Hjl].
  assert (Ecur : currentJob w = job).
  { destruct Hw as [Hix _]. unfold currentJob. rewrite Hix. apply list_lookup_total_correct, Hj. }
  unfold copy_lane. rewrite Ecur.
  assert (Hlen : length (take size (m_blob job)) = size) by (rewrite length_take; lia).
  apply set_lane_change; try assumption.
  - apply memcpy_bytes; [exact Hb | apply Forall_take, Hjb].
  - apply memcpy_length. lia.
  - apply nonce_value_frame. unfold lane_at. rewrite memcpy_inside by lia.
    rewrite skipn_firstn_comm, take_take. f_equal. lia.
  - intros o n Hon. apply memcpy_away; lia.
Qed.

(** ** Advancing the lanes *)

Lemma lane_val_low w i : on_job w -> readUnaligned (blob w) (lane_at i) = lane_val w i mod 2 ^ 32.
Proof.
  intros Hw. pose proof (on_job_blob w Hw) as [Hb _]. pose proof (read_range (blob w) (lane_at i) Hb).
  unfold lane_val, nonce_value. destruct (32 <? k).
  - rewrite Z.mul_comm, Z.mod_add, Z.mod_small by lia. reflexivity.
  - rewrite Z.mod_small by lia. reflexivity.
Qed.

Lemma advance_lane_change w i s :
  on_job w -> (i < N)%nat -> 0 <= s -> lane_val w i mod 2 ^ 32 + s < 2 ^ 32 ->
  lane_change w (advance_lane s w i) i (lane_val w i + s).
Proof.
  intros Hw Hi Hs Hroom. pose proof (on_job_blob w Hw) as [Hb Hl]. pose proof (lane_fits i Hi) as Hfit.
  unfold advance_lane. rewrite (on_job_at w i Hw).
  assert (H4 : (lane_at i + 4 <= length (blob w))%nat /\ (off + 4 <= size)%nat).
  { unfold lane_at. unfold nonce_width in Hoff. destruct (32 <? k); lia. }
  rewrite (lane_val_low w i Hw).
  pose proof (Z.mod_pos_bound (lane_val w i) (2 ^ 32) ltac:(lia)) as Hm.
  unfold to_u32. change 4294967296 with (2 ^ 32). rewrite Z.mod_small by lia.
  apply set_lane_change; try assumption.
  - apply write_bytes, Hb.
  - apply write_length. lia.
  - unfold nonce_value. rewrite read_write by lia. pose proof (lane_val_low w i Hw) as Hlow.
    rewrite <- Hlow. unfold lane_val, nonce_value. destruct (32 <? k) eqn:E; [|lia].
    unfold nonce_width in Hoff. rewrite E in Hoff. rewrite read_write_away by lia. lia.
  - intros o n Hon. apply write_away; unfold lane_at; lia.
Qed.

Lemma advance_lanes s ls w :
  on_job w -> 0 <= s -> NoDup ls -> (forall i, i ∈ ls -> (i < N)%nat /\ lane_val w i mod 2 ^ 32 + s < 2 ^ 32) ->
  let w' := foldl (advance_lane s) w ls in
  on_job w' /\ rounds_of w' = rounds_of w /\
  forall i, lane_val w' i = lane_val w i + (if decide (i ∈ ls) then s else 0).
Proof.
  revert w. induction ls as [|a ls IH]; intros w Hw Hs Hnd Hin; cbn [foldl].
  - split; [exact Hw|]. split; [reflexivity|]. intros i. rewrite decide_False by apply not_elem_of_nil. lia.
  - inversion_clear Hnd as [|? ? Ha Hnd']. destruct (Hin a) as [HaN Hroom]; [left|].
    destruct (advance_lane_change w a s Hw HaN Hs Hroom) as (Hw1 & Hr1 & _ & Hv & Ho).
    destruct (IH (advance_lane s w a) Hw1 Hs Hnd') as (Hw2 & Hr2 & Hv2).
    { intros i Hi. rewrite Ho by (intros ->; contradiction). apply Hin. right. exact Hi. }
    split; [exact Hw2|]. split; [congruence|]. intros i. rewrite Hv2.
    destruct (decide (i = a)) as [->|Hne].
    + rewrite Hv, decide_False, decide_True by (assumption || left). lia.
    + rewrite Ho by exact Hne.
      destruct (decide (i ∈ ls)), (decide (i ∈ a :: ls)) as [H|H]; try reflexivity.
      * destruct H. right. assumption.
      * apply elem_of_cons in H as [H|H]; contradiction.
Qed.

(** ** The ranges a thread owns *)

Variables (q R s : Z) (p : Z).
Hypothesis HR : 0 <= p <= 31 /\ R = 2 ^ p.
Hypothesis Hs : 1 <= s.
Hypothesis HRs : R * s < 2 ^ 32.
Hypothesis Hq : nonce_value k (m_blob job) off / 2 ^ k = q.

Notation base := (q * 2 ^ k).

(** The rest of the reservations [cs] after [j] rounds. *)
Definition owned (j : Z) (cs : list Z) : list (Z * Z) :=
  map (fun c => (base + (c + j * s), base + (c + R * s))) cs.

Definition lanes_hold (w : worker_job) (j : Z) (cs : list Z) : Prop :=
  forall i c, cs !! i = Some c -> lane_val w i = base + (c + j * s).

Definition blocks (cs : list Z) : Prop := Forall (block k (R * s)) cs.

(** While the lanes are refilled: the ones done have the reservations [cs]. *)
Definition refill (saving : bool) (w : worker_job) (cs : list Z) : Prop :=
  rounds_of w mod R = 0 /\ blocks cs /\ lanes_hold w 0 cs /\
  if saving then wj_jobs w !! idx = Some job
  else forall i, (length cs <= i < N)%nat -> lane_val w i / 2 ^ k = q.

(** In the middle of the call for [lane]. *)
Definition in_call (lane : nat) (rest : list nat) (saving : bool) (reserve : Z) (w : worker_job) (cs : list Z) : Prop :=
  refill saving w cs /\ lane = length cs /\ (lane < N)%nat /\ rest = seq (S lane) (N - S lane) /\
  reserve = R * s /\ lane_val w lane / 2 ^ k = q.

Definition phase_inv (w : worker_job) (ph : phase) (ivs : list (Z * Z)) : Prop :=
  match ph with
  | Idle => exists cs, length cs = N /\ blocks cs /\ lanes_hold w (rounds_of w mod R) cs /\
                       ivs = owned (rounds_of w mod R) cs
  | Fetch lane rest saving reserve => exists cs, in_call lane rest saving reserve w cs /\ ivs = owned 0 cs
  | Checking lane rest saving reserve c =>
      exists cs, in_call lane rest saving reserve w cs /\ 0 <= c < 2 ^ 64 /\ ivs = owned 0 [c] ++ owned 0 cs
  | Failed => ivs = []
  end.

Definition thread_inv (t : thread) (ivs : list (Z * Z)) : Prop :=
  on_job (t_job t) /\ 0 <= rounds_of (t_job t) /\ phase_inv (t_job t) (t_phase t) ivs.

(** A thread gives up some of what it owned. *)
Definition gives (t : thread) (ivs : list (Z * Z)) : Prop :=
  exists ivs', thread_inv t ivs' /\ forall x, cnt x ivs' <= cnt x ivs.

Lemma starved_enter todo saving reserve w : starved (enter_lanes N todo saving reserve w true) = true.
Proof.
  revert w. induction todo as [|a todo IH]; intros w; cbn [enter_lanes]; [reflexivity|].
  destruct (next_refuses _ _); [|reflexivity]. destruct saving; [apply IH | reflexivity].
Qed.

Lemma finish_lanes_inv saving w :
  on_job w -> let w' := finish_lanes N saving w in
  on_job w' /\ rounds_of w' = rounds_of w /\ forall i, lane_val w' i = lane_val w i.
Proof.
  intros Hw. unfold finish_lanes. cbv zeta. destruct (_ && _); [|split; [exact Hw | split; reflexivity]].
  split; [|split; reflexivity].
  pose proof (on_job_size w Hw) as Hsz. destruct Hw as (Hi & (j & Hj & Hs' & Ha) & Hrest).
  split; [exact Hi|]. split; [|exact Hrest]. eexists. unfold set_wj_job. cbn [wj_jobs]. rewrite Hi.
  split; [apply list_lookup_insert_eq; apply lookup_lt_Some in Hj; exact Hj|].
  cbn [with_blob m_size m_algorithm]. split; [exact Hsz|].
  unfold currentJob. rewrite Hi, (list_lookup_total_correct _ _ _ Hj). exact Ha.
Qed.

Lemma enter_inv saving w cs :
  on_job w -> 0 <= rounds_of w -> (length cs <= N)%nat -> refill saving w cs ->
  let t := enter_lanes N (seq (length cs) (N - length cs)) saving (R * s) w false in
  starved t = false -> gives t (owned 0 cs).
Proof.
  intros Hw Hr0 Hl (Hr & Hbl & Hh & Hsv). destruct (N - length cs)%nat as [|m] eqn:Em; cbn [seq enter_lanes].
  - intros _. destruct (finish_lanes_inv saving w Hw) as (Hw' & Hr' & Hv').
    exists (owned 0 cs). split; [|lia]. split; [exact Hw'|]. cbn [t_job t_phase]. rewrite Hr'. split; [exact Hr0|].
    exists cs. rewrite Hr', Hr. split; [lia|]. split; [exact Hbl|]. split; [|reflexivity].
    intros i c Hc. rewrite Hv'. apply Hh, Hc.
  - set (w1 := if saving then copy_lane w (length cs) else w).
    assert (H1 : on_job w1 /\ rounds_of w1 = rounds_of w /\ refill saving w1 cs /\ lane_val w1 (length cs) / 2 ^ k = q).
    { unfold w1. destruct saving.
      - destruct (copy_lane_change w (length cs) Hw Hsv ltac:(lia)) as (Hw1 & Hr1 & Hj1 & Hv1 & Ho1).
        split; [exact Hw1|]. split; [exact Hr1|]. split; [|rewrite Hv1; exact Hq].
        split; [rewrite Hr1; exact Hr|]. split; [exact Hbl|]. split; [|rewrite Hj1; exact Hsv].
        intros i c Hc. rewrite Ho1; [apply Hh, Hc|]. apply lookup_lt_Some in Hc. lia.
      - split; [exact Hw|]. split; [reflexivity|]. split; [repeat split; assumption | apply Hsv; lia]. }
    destruct H1 as (Hw1 & Hr1 & Href & Hlane). cbv zeta. rewrite (on_job_mask w1 Hw1).
    destruct (next_refuses (R * s) (2 ^ k - 1)).
    + destruct saving; [rewrite starved_enter; discriminate|]. intros _. exists []. split; [|intros x; apply cnt_nonneg].
      split; [exact Hw1|]. cbn [t_job t_phase phase_inv]. split; [rewrite Hr1; exact Hr0 | reflexivity].
    + intros _. exists (owned 0 cs). split; [|lia]. split; [exact Hw1|]. cbn [t_job t_phase phase_inv].
      split; [rewrite Hr1; exact Hr0|]. exists cs. split; [|reflexivity].
      split; [exact Href|]. split; [reflexivity|]. split; [lia|]. split; [f_equal; lia|]. split; [reflexivity | exact Hlane].
Qed.

Lemma owned_full x c cs : cnt x (owned 0 (cs ++ [c])) = cnt x (owned 0 [c] ++ owned 0 cs).
Proof. unfold owned. rewrite map_app, !cnt_app. lia. Qed.

(** *** Inside [Nonce::next] *)

Lemma fetch_inv n t ivs lane rest saving reserve c :
  thread_inv t ivs -> t_phase t = Fetch lane rest saving reserve ->
  m_nonces n !! idx = Some c -> 0 <= c -> c + R * s < 2 ^ 64 ->
  reserve = R * s /\
  let '(n', t') := next_step N n t in
  thread_inv t' (owned 0 [c] ++ ivs) /\ m_nonces n' !! idx = Some (c + R * s) /\ starved t' = starved t.
Proof.
  intros (Hw & Hr & Hph) Eph Hn Hc Hb. rewrite Eph in Hph. destruct Hph as (cs & Hcall & ->).
  pose proof Hcall as (_ & _ & _ & _ & -> & _). split; [reflexivity|].
  unfold next_step. rewrite Eph. destruct Hw as [Hi Hw]. rewrite Hi.
  destruct (fetch_add_eq idx (R * s) n c Hn ltac:(nia) Hc Hb) as (n' & -> & Hn' & _).
  split; [|split; [exact Hn' | reflexivity]]. split; [split; assumption|]. split; [exact Hr|].
  exists cs. split; [exact Hcall|]. split; [nia | reflexivity].
Qed.

Lemma checking_inv n t ivs lane rest saving reserve c :
  thread_inv t ivs -> t_phase t = Checking lane rest saving reserve c -> starved t = false ->
  let '(n', t') := next_step N n t in
  m_nonces n' = m_nonces n /\ (starved t' = false -> gives t' ivs).
Proof.
  intros (Hw & Hr & Hph) Eph Est. rewrite Eph in Hph. destruct Hph as (cs & Hcall & Hc & ->).
  pose proof Hcall as ((Hr0 & Hbl & Hh & Hsv) & Hlane & HlN & Hrest & Hres & Hval).
  unfold next_step. rewrite Eph, Est, (on_job_mask _ Hw), Hres.
  pose proof (next_check_ok k (R * s) c Hk ltac:(nia) Hc) as Hv.
  destruct (next_check c (R * s) (2 ^ k - 1)) as [pz v]. cbn [snd] in Hv.
  split; [destruct pz; reflexivity|].
  assert (Hle : forall x, cnt x (owned 0 cs) <= cnt x (owned 0 [c] ++ owned 0 cs)).
  { intros x. rewrite cnt_app. pose proof (cnt_nonneg x (owned 0 [c])). lia. }
  destruct v.
  - destruct saving; [rewrite starved_enter; discriminate|]. intros _. exists [].
    split; [|intros x; apply cnt_nonneg]. split; [exact Hw|]. split; [exact Hr | reflexivity].
  - intros _. exists (owned 0 cs). split; [|exact Hle]. split; [exact Hw|]. split; [exact Hr|].
    exists cs. rewrite <- Hres. split; [exact Hcall | reflexivity].
  - intros Hst. assert (Hck : 0 <= c < 2 ^ k) by (destruct Hv as (? & ? & _); nia).
    destruct (write_lane (t_job t) lane c Hw HlN Hck) as (Hw' & Hr' & Hj' & Hv' & Ho').
    assert (Hlen : length (cs ++ [c]) = S lane) by (rewrite length_app, Hlane; cbn; lia).
    rewrite Hrest, <- Hlen in Hst |- *.
    destruct (enter_inv saving _ (cs ++ [c]) Hw' ltac:(rewrite Hr'; exact Hr) ltac:(lia)) as (ivs' & Hinv & Hcnt);
      [|exact Hst|].
    + split; [rewrite Hr'; exact Hr0|]. split; [apply Forall_app; split; [exact Hbl | repeat constructor; apply Hv]|].
      split.
      * intros i c' Hi. apply lookup_snoc_Some in Hi as [[Hi Hc']|[-> <-]].
        -- rewrite Ho' by lia. apply Hh, Hc'.
        -- rewrite <- Hlane, Hv', Hval. lia.
      * destruct saving; [rewrite Hj'; exact Hsv|]. intros i Hi. rewrite Ho' by lia. apply Hsv. lia.
    + exists ivs'. split; [exact Hinv|]. intros x. rewrite <- owned_full. apply Hcnt.
Qed.

(** *** A round *)

Lemma rounds_step m : 0 <= m -> Z.land (to_u32 (m + 1)) (to_u32 (R - 1)) = (m + 1) mod R /\ to_u32 (m + 1) mod R = (m + 1) mod R.
Proof.
  intros Hm. destruct HR as [Hp ->]. pose proof (pow2_le p 31 ltac:(lia)). pose proof (Z.pow_pos_nonneg 2 p).
  unfold to_u32. change 4294967296 with (2 ^ 32). rewrite (Z.mod_small (2 ^ p - 1)) by lia.
  replace (2 ^ p - 1) with (Z.ones p) by (rewrite Z.ones_equiv; lia). rewrite Z.land_ones by lia.
  split; [|]; (apply Z.mod_mod_divide; exists (2 ^ (32 - p)); rewrite <- Z.pow_add_r by lia; f_equal; lia).
Qed.

Lemma on_job_rounds w r : on_job w -> let w' := set_wj_rounds w r in
  on_job w' /\ rounds_of w' = r /\ forall i, lane_val w' i = lane_val w i.
Proof.
  intros (Hi & Hj & Hb & (r0 & Hr) & Hm). unfold on_job, set_wj_rounds, rounds_of, lane_val, blob.
  cbn [wj_blobs wj_index wj_jobs wj_rounds wj_nonce_mask]. rewrite Hi.
  assert (Hl : (idx < length (wj_rounds w))%nat) by (apply lookup_lt_Some in Hr; exact Hr).
  split; [|split; [apply list_lookup_total_insert_eq, Hl | reflexivity]].
  split; [reflexivity|]. split; [exact Hj|]. split; [exact Hb|]. split; [|exact Hm].
  exists r. apply list_lookup_insert_eq, Hl.
Qed.

(** In a block there is room for every round, and the low words do not carry. *)
Lemma block_room c j : block k (R * s) c -> 0 <= j < R ->
  0 <= c + j * s /\ c + j * s + s <= 2 ^ k /\
  (0 <= base + (c + j * s) -> (k <= 32 -> base + (c + j * s) < 2 ^ 32) -> j + 1 < R ->
   (base + (c + j * s)) mod 2 ^ 32 + s < 2 ^ 32).
Proof.
  intros (Hc & Hck & Hlow) Hj. pose proof (Z.mod_pos_bound c (2 ^ 32) ltac:(lia)) as Hm.
  split; [nia|]. split; [nia|]. intros H0 H32 Hj1.
  destruct (Z_le_gt_dec k 32) as [Hk32|Hk32].
  - specialize (H32 Hk32). rewrite Z.mod_small by lia.
    assert (Hpw : 2 ^ 32 = 2 ^ (32 - k) * 2 ^ k) by (rewrite <- Z.pow_add_r by lia; f_equal; lia).
    assert (0 < 2 ^ k) by (apply Z.pow_pos_nonneg; lia).
    assert (q < 2 ^ (32 - k)) by nia. nia.
  - assert (Hpw : 2 ^ k = 2 ^ (k - 32) * 2 ^ 32) by (rewrite <- Z.pow_add_r by lia; f_equal; lia).
    replace (base + (c + j * s)) with (c mod 2 ^ 32 + j * s + (q * 2 ^ (k - 32) + c / 2 ^ 32) * 2 ^ 32).
    + rewrite Z.mod_add by lia. rewrite Z.mod_small; nia.
    + pose proof (Z.div_mod c (2 ^ 32) ltac:(lia)). rewrite Hpw. nia.
Qed.

Lemma lane_nonces_eq w j cs : on_job w -> length cs = N -> lanes_hold w j cs ->
  lane_nonces N w = map (fun c => base + (c + j * s)) cs.
Proof.
  intros Hw Hl Hh. change ((lane_nonce w <$> seq 0 N) = ((fun c => base + (c + j * s)) <$> cs)).
  apply list_eq. intros i. rewrite !list_lookup_fmap. destruct (cs !! i) as [c|] eqn:Ec.
  - pose proof (lookup_lt_Some _ _ _ Ec). rewrite lookup_seq_lt by lia. cbn [fmap option_fmap option_map Nat.add].
    rewrite lane_nonce_val by exact Hw. f_equal. apply Hh, Ec.
  - apply lookup_ge_None in Ec. rewrite lookup_seq_ge by lia. reflexivity.
Qed.

(** What an idle thread logs. *)
Definition logged (w : worker_job) : list (Z * Z) := map (fun v => (v, v + s)) (lane_nonces N w).

Lemma round_inv t ivs :
  thread_inv t ivs -> t_phase t = Idle -> starved t = false ->
  let t' := nextRound N R s t in
  Forall (fun v => base <= v /\ v + s <= base + 2 ^ k) (lane_nonces N (t_job t)) /\
  (starved t' = false ->
   exists ivs', thread_inv t' ivs' /\ forall x, cnt x (logged (t_job t)) + cnt x ivs' <= cnt x ivs).
Proof.
  intros (Hw & Hr & Hph) Eph Est. rewrite Eph in Hph. destruct Hph as (cs & Hl & Hbl & Hh & ->).
  set (w := t_job t) in *. set (j := rounds_of w mod R) in *.
  assert (HRp : 0 < R) by (destruct HR as [? ->]; apply Z.pow_pos_nonneg; lia).
  assert (Hj : 0 <= j < R) by (apply Z.mod_pos_bound; exact HRp).
  assert (Elog : logged w = map (fun c => (base + (c + j * s), base + (c + (j + 1) * s))) cs).
  { unfold logged. rewrite (lane_nonces_eq w j cs Hw Hl Hh), map_map. apply map_ext. intros c. f_equal; lia. }
  assert (Hval : forall i, (i < N)%nat -> exists c, cs !! i = Some c /\ block k (R * s) c /\ lane_val w i = base + (c + j * s)).
  { intros i Hi. destruct (lookup_lt_is_Some_2 cs i ltac:(lia)) as [c Hc]. exists c. split; [exact Hc|].
    split; [eapply Forall_lookup_1; eassumption | apply Hh, Hc]. }
  assert (Hsplit : forall x, cnt x (owned j cs) = cnt x (logged w) + cnt x (owned (j + 1) cs)).
  { intros x. rewrite Elog. apply cnt_map_split. intros c. nia. }
  cbv zeta. split.
  { rewrite (lane_nonces_eq w j cs Hw Hl Hh). apply Forall_map. eapply Forall_impl; [exact Hbl|].
    intros c Hc. destruct (block_room c j Hc Hj) as (H0 & H1 & _). lia. }
  destruct (rounds_step (rounds_of w) Hr) as [E1 E2].
  destruct (on_job_rounds w (to_u32 (rounds_of w + 1)) Hw) as (Hw' & Hr' & Hv').
  assert (Hu : 0 <= to_u32 (rounds_of w + 1)) by (apply Z.mod_pos_bound; lia).
  assert (Ej : (rounds_of w + 1) mod R = (j + 1) mod R) by (unfold j; rewrite Zplus_mod_idemp_l; reflexivity).
  unfold nextRound. fold w. rewrite E1, Ej, Est.
  destruct (Z.eqb_spec ((j + 1) mod R) 0) as [Ez|Ez].
  - assert (Hj1 : j + 1 = R).
    { destruct (Z_lt_ge_dec (j + 1) R); [rewrite Z.mod_small in Ez by lia; lia | lia]. }
    replace (to_u32 (R * s)) with (R * s) by (symmetry; apply Z.mod_small; lia).
    intros Hst.
    pose proof (enter_inv false _ [] Hw' ltac:(rewrite Hr'; exact Hu) (Nat.le_0_l _)) as Henter.
    cbn [length] in Henter. rewrite Nat.sub_0_r in Henter.
    destruct Henter as (ivs' & Hinv & Hcnt); [|exact Hst|].
    + split; [rewrite Hr', E2, Ej; exact Ez|]. split; [constructor|]. split; [intros i c Hc; discriminate|].
      intros i Hi. rewrite Hv'. destruct (Hval i ltac:(lia)) as (c & _ & Hc & ->).
      destruct (block_room c j Hc Hj) as (H0 & H1 & _).
      symmetry. apply Z.div_unique with (c + j * s); lia.
    + exists ivs'. split; [exact Hinv|]. intros x. rewrite (Hsplit x). specialize (Hcnt x). cbn [owned map cnt] in Hcnt.
      pose proof (cnt_nonneg x (owned (j + 1) cs)). lia.
  - assert (Hj1 : j + 1 < R).
    { destruct (Z.eq_dec (j + 1) R) as [E|]; [rewrite E, Z.mod_same in Ez by lia|]; lia. }
    rewrite (Z.mod_small (j + 1)) in Ej by lia. intros _.
    destruct (advance_lanes s (seq 0 N) _ Hw' ltac:(lia) (NoDup_seq 0 N)) as (Hw2 & Hr2 & Hv2).
    { intros i Hi. apply elem_of_seq in Hi. split; [lia|]. rewrite Hv'.
      destruct (Hval i ltac:(lia)) as (c & _ & Hc & Hvi). rewrite Hvi. apply (block_room c j Hc Hj); [|intros Hk32|exact Hj1].
      - rewrite <- Hvi. apply nonce_value_range; [lia | apply on_job_blob, Hw].
      - rewrite <- Hvi. unfold lane_val, nonce_value. destruct (Z.ltb_spec 32 k); [lia|].
        apply read_range, on_job_blob, Hw. }
    exists (owned (j + 1) cs). split; [|intros x; rewrite Hsplit; lia].
    split; [exact Hw2|]. cbn [t_job t_phase phase_inv]. rewrite Hr2, Hr'. split; [exact Hu|].
    exists cs. rewrite E2, Ej. split; [exact Hl|]. split; [exact Hbl|]. split; [|reflexivity].
    intros i c Hc. rewrite Hv2, Hv'. rewrite decide_True.
    + rewrite (Hh i c Hc). lia.
    + apply elem_of_seq. pose proof (lookup_lt_Some _ _ _ Hc). lia.
Qed.

End Lanes.
