(* ===== verification/Mining.v ===== *)
(** * The workers of one job

    The invariant of the whole system of workers (WorkerJob.v), preserved by
    every step of every schedule, from the state after a job change: the
    counter of the job's slot is zero and every worker has just saved the
    job. *)

From S2P Require Import Prelude.
From S2P Require Import CInt.
From S2P Require Import Bytes.
From S2P Require Import Job.
From S2P Require Import Nonce.
From S2P Require Import WorkerJob.

(** ** Jobs and workers *)

(** A job as [setBlob] leaves it. *)
Definition job_ok (job : Job) : Prop :=
  (m_index job < 2)%nat /\ bytes_of kMaxBlobSize (m_blob job) /\ (m_size job < kMaxBlobSize)%nat /\
  (nonceOffset job + nonceSize job <= m_size job)%nat.

(** The buffers of [WorkerJob<N>]. *)
Definition room (N : nat) (w : worker_job) : Prop :=
  length (wj_blobs w) = 2%nat /\ Forall (bytes_of (kMaxBlobSize * N)) (wj_blobs w) /\
  length (wj_jobs w) = 2%nat /\ length (wj_rounds w) = 2%nat /\ length (wj_nonce_mask w) = 2%nat.

#[export] Instance job_ok_dec job : Decision (job_ok job).
Proof. unfold job_ok. apply _. Defined.

#[export] Instance room_dec N w : Decision (room N w).
Proof. unfold room. apply _. Defined.

(** The rounds between two reservations are a power of two, and the reserved
    count fits [uint32_t]. *)
Definition params_ok (w : worker) : Prop :=
  (exists p, 0 <= p <= 31 /\ w_rounds w = 2 ^ p) /\ 1 <= w_roundSize w /\ w_rounds w * w_roundSize w < 2 ^ 32.

(** The worker has just saved the job, up to the first atomic addition. *)
Definition started (job : Job) (w : worker) : Prop :=
  params_ok w /\
  exists w0, room (w_lanes w) w0 /\ save (w_lanes w) job (w_rounds w * w_roundSize w) w0 = Some (w_thread w).

(** The nonce of the job, of the words a mask covers. *)
Definition job_nonce (job : Job) (msk : Z) : Z :=
  let n0 := readUnaligned (m_blob job) (nonceOffset job) in
  if 0xFFFFFFFF <? msk then n0 + 2 ^ 32 * readUnaligned (m_blob job) (nonceOffset job + 4) else n0.

(** The masks of a job are made of ones. *)
Lemma nonceMask_ones job msk :
  nonceMask job = Some msk ->
  exists k, 0 <= k <= 63 /\ next_mask msk = 2 ^ k - 1 /\ (nonce_width k <= nonceSize job)%nat.
Proof.
  unfold nonceMask.
  assert (H4 : forall k, 0 <= k <= 32 -> (nonce_width k <= nonceSize job)%nat).
  { intros k Hk. unfold nonce_width, nonceSize. destruct (Z.ltb_spec 32 k); [lia|]. destruct (_ =? _); lia. }
  destruct (m_nicehash job).
  - intros [= <-]. exists 24. split; [lia|]. split; [reflexivity | apply H4; lia].
  - destruct (Nat.eqb_spec (nonceSize job) 8) as [E|_].
    + rewrite E. destruct (Z.ltb_spec (string_size (m_extraNonce job) * 4) 64) as [Hn|]; [|discriminate].
      intros [= <-]. assert (Hp : 0 <= string_size (m_extraNonce job)) by (unfold string_size; destruct (m_extraNonce job); lia).
      set (n := string_size (m_extraNonce job)) in *.
      assert (HH : forallb (fun i => let n := Z.of_nat i in let k := if n =? 0 then 63 else 64 - n * 4 in
                next_mask (Z.shiftr 0xFFFFFFFFFFFFFFFF (n * 4)) =? 2 ^ k - 1) (seq 0 16) = true) by eval_closed.
      pose proof (forallb_seq_spec _ _ HH (Z.to_nat n) ltac:(lia)) as Hi. cbv beta zeta in Hi.
      rewrite Z2Nat.id in Hi by lia. apply Z.eqb_eq in Hi.
      exists (if n =? 0 then 63 else 64 - n * 4). split; [destruct (Z.eqb_spec n 0); lia|]. split; [exact Hi|].
      unfold nonce_width. destruct (32 <? _); lia.
    + intros [= <-]. exists 32. split; [lia|]. split; [reflexivity | apply H4; lia].
Qed.

(** ** Steps forget nothing *)

Definition phase_nonneg (ph : phase) : Prop :=
  match ph with Fetch _ _ _ r | Checking _ _ _ r _ => 0 <= r | Idle | Failed => True end.

(** What holds from one thread state to a later one. *)
Definition later (t t' : thread) : Prop :=
  (phase_nonneg (t_phase t) -> phase_nonneg (t_phase t')) /\ (starved t = true -> starved t' = true).

Lemma enter_later N todo saving reserve w st :
  0 <= reserve -> let t := enter_lanes N todo saving reserve w st in
  phase_nonneg (t_phase t) /\ (st = true -> starved t = true).
Proof.
  intros Hr. revert w st. induction todo as [|a todo IH]; intros w st; cbn [enter_lanes]; [split; [exact I | auto]|].
  cbv zeta. destruct (next_refuses _ _); [|split; [exact Hr | auto]].
  destruct saving; [|split; [exact I | auto]]. destruct (IH (copy_lane w a) true) as [H1 H2].
  split; [exact H1 | intros _; apply H2; reflexivity].
Qed.

Lemma next_step_later N n t : phase_nonneg (t_phase t) -> later t (snd (next_step N n t)).
Proof.
  intros Hr. unfold next_step, later. destruct (t_phase t) as [|lane rest saving r|lane rest saving r c|] eqn:E;
    cbn [phase_nonneg] in Hr; try (cbn [snd]; rewrite E; auto; fail).
  - destruct (fetch_add _ _ _) as [c n']. cbn. auto.
  - destruct (next_check _ _ _) as [pz v]. cbn [snd].
    destruct v.
    + destruct saving; [|cbn; auto]. destruct (enter_later N rest true r (t_job t) true Hr) as [H1 H2].
      split; [auto | intros _; apply H2; reflexivity].
    + cbn. auto.
    + pose proof (enter_later N rest saving r (set_wj_blob (t_job t) (write_nonce c (next_mask (mask (t_job t)))
        (blob (t_job t)) (nonce_at (t_job t) lane))) (starved t) Hr) as [H1 H2]. auto.
Qed.

Lemma nextRound_later N R s t : later t (nextRound N R s t).
Proof.
  unfold nextRound, later. cbv zeta. destruct (_ =? _); [|cbn; auto].
  assert (Hr : 0 <= to_u32 (R * s)) by (apply Z.mod_pos_bound; lia).
  pose proof (enter_later N (seq 0 N) false (to_u32 (R * s)) (set_wj_rounds (t_job t) (to_u32 (rounds_of (t_job t) + 1)))
    (starved t) Hr) as [H1 H2]. auto.
Qed.

(** A worker that goes on after a refusal is marked. *)
Lemma resume_later job w n t :
  0 <= w_rounds w * w_roundSize w -> after_refusal job w n = Some t -> phase_nonneg (t_phase t) /\ starved t = true.
Proof.
  intros Hr. unfold after_refusal. destruct (w_backend w); try (intros [= <-]; split; [exact I | reflexivity]).
  destruct (m_paused n); [discriminate|]. intros H. apply bind_inv in H as (t' & Ha & [= <-]).
  split; [|reflexivity]. cbn [t_phase]. unfold add in Ha. destruct (isEqual _ _); [injection Ha as <-; exact I|].
  destruct (_ && _); [injection Ha as <-; exact I|]. unfold save in Ha. apply bind_inv in Ha as (msk & _ & [= <-]).
  apply enter_later, Hr.
Qed.

Definition workers_nonneg (s : system) : Prop := 
  Forall (fun w => 0 <= w_rounds w * w_roundSize w /\ phase_nonneg (t_phase (w_thread w))) (workers s).
Definition fed (s : system) : Prop := Forall (fun w => starved (w_thread w) = false) (workers s).

Lemma fed_insert ws tid w t :
  ws !! tid = Some w -> (starved (w_thread w) = true -> starved t = true) ->
  Forall (fun w => starved (w_thread w) = false) (<[tid := set_thread w t]> ws) ->
  Forall (fun w => starved (w_thread w) = false) ws.
Proof.
  intros Hw Hm H. apply Forall_lookup. intros i w' Hi. destruct (decide (i = tid)) as [->|Hne].
  - rewrite Hw in Hi. injection Hi as <-.
    assert (Ht : starved (w_thread (set_thread w t)) = false).
    { refine (Forall_lookup_1 _ _ tid _ H _). apply list_lookup_insert_eq, (lookup_lt_Some _ _ _ Hw). }
    cbn in Ht. destruct (starved (w_thread w)); [rewrite Hm in Ht by reflexivity; discriminate | reflexivity].
  - refine (Forall_lookup_1 _ _ i _ H _). rewrite list_lookup_insert_ne by congruence. exact Hi.
Qed.

Lemma step_later job s tid :
  workers_nonneg s ->
  workers_nonneg (sys_step job s tid) /\ (fed (sys_step job s tid) -> fed s) /\ reserved s <= reserved (sys_step job s tid).
Proof.
  intros Hn. unfold sys_step. destruct (workers s !! tid) as [w|] eqn:Hw; [|repeat split; auto; lia].
  destruct (Forall_lookup_1 _ _ _ _ Hn Hw) as [Hrs Hp]. cbv beta in Hp.
  destruct (t_phase (w_thread w)) as [|lane rest saving r|lane rest saving r c|] eqn:E.
  - destruct (nextRound_later (w_lanes w) (w_rounds w) (w_roundSize w) (w_thread w)) as [L1 L2].
    rewrite E in L1. split; [apply Forall_insert; [exact Hn | split; [exact Hrs | apply L1; exact I]]|].
    split; [intros H; eapply fed_insert; eauto | cbn; lia].
  - pose proof (next_step_later (w_lanes w) (shared s) (w_thread w)) as L. rewrite E in L. specialize (L Hp).
    destruct (next_step _ _ _) as [n' t']. destruct L as [L1 L2]. rewrite E in L1. cbn [snd] in *.
    split; [apply Forall_insert; [exact Hn | split; [exact Hrs | apply L1, Hp]]|].
    split; [intros H; eapply fed_insert; eauto|]. unfold pending_add. rewrite E. cbn [reserved phase_nonneg] in *. lia.
  - pose proof (next_step_later (w_lanes w) (shared s) (w_thread w)) as L. rewrite E in L. specialize (L Hp).
    destruct (next_step _ _ _) as [n' t']. destruct L as [L1 L2]. rewrite E in L1. cbn [snd] in *.
    split; [apply Forall_insert; [exact Hn | split; [exact Hrs | apply L1, Hp]]|].
    split; [intros H; eapply fed_insert; eauto|]. unfold pending_add. rewrite E. cbn [reserved]. lia.
  - destruct (after_refusal job w (shared s)) as [t'|] eqn:Er; [|repeat split; auto; lia].
    destruct (resume_later job w _ t' Hrs Er) as [L1 L2].
    split; [apply Forall_insert; [exact Hn | split; [exact Hrs | exact L1]]|].
    split; [intros H; apply (fed_insert (workers s) tid w t' Hw (fun _ => L2) H) | cbn; lia].
Qed.

Lemma run_later job sched s :
  workers_nonneg s -> (fed (run_system job s sched) -> fed s) /\ reserved s <= reserved (run_system job s sched).
Proof.
  unfold run_system. revert s. induction sched as [|tid sched IH]; intros s Hn; cbn [foldl]; [split; [auto | lia]|].
  destruct (step_later job s tid Hn) as (H1 & H2 & H3). destruct (IH _ H1) as [H4 H5]. split; [auto | lia].
Qed.

(** ** The start *)

Lemma set_slot_ok N job msk w :
  (m_index job < 2)%nat -> (m_size job < kMaxBlobSize)%nat -> room N w ->
  let w1 := set_slot job msk w in
  on_job N job msk w1 /\ wj_jobs w1 !! m_index job = Some job /\ rounds_of w1 = 0.
Proof.
  intros Hidx Hsize (Hb & Hbl & Hj & Hrd & Hmk). cbv zeta.
  assert (E : wj_jobs (set_slot job msk w) !! m_index job = Some job) by (cbn; apply list_lookup_insert_eq; lia).
  split; [|split; [exact E | unfold rounds_of; cbn; apply list_lookup_total_insert_eq; lia]].
  split; [reflexivity|]. split; [exists job; auto|]. split.
  - destruct (lookup_lt_is_Some_2 (wj_blobs w) (m_index job) ltac:(lia)) as [b Hbi]. exists b.
    split; [exact Hbi|]. destruct (Forall_lookup_1 _ _ _ _ Hbl Hbi) as [Hbb Hbn]. split; [exact Hbb|]. rewrite Hbn. nia.
  - split; [exists 0|]; cbn; apply list_lookup_insert_eq; lia.
Qed.

(** ** The invariant *)

Section Job_era.

Variables (job : Job) (k msk : Z).
Hypothesis Hk : 0 <= k <= 63.
Hypothesis Hmsk : next_mask msk = 2 ^ k - 1.
Hypothesis Hoff : (nonceOffset job + nonce_width k <= m_size job)%nat.
Hypothesis Hjob : is_bytes (m_blob job) /\ (m_size job <= length (m_blob job))%nat.

Definition above : Z := nonce_value k (m_blob job) (nonceOffset job) / 2 ^ k.
Definition era_base : Z := above * 2 ^ k.

Definition worker_inv (w : worker) (ivs : list (Z * Z)) : Prop :=
  params_ok w /\ starved (w_thread w) = false /\
  thread_inv (w_lanes w) job k msk above (w_rounds w) (w_roundSize w) (w_thread w) ivs.

(** A log entry as a range. *)
Definition entry_range (e : Z * Z) : Z * Z := (fst e, fst e + snd e).

Definition entry_ok (e : Z * Z) : Prop := era_base <= fst e /\ 1 <= snd e /\ fst e + snd e <= era_base + 2 ^ k.

(** The ranges the workers own, one list per worker, and the log cover no
    integer twice and stay below the counter. *)
Definition sys_inv (s : system) : Prop :=
  0 <= reserved s /\ m_nonces (shared s) !! m_index job = Some (reserved s) /\ Forall entry_ok (hashed s) /\
  exists ivss, Forall2 worker_inv (workers s) ivss /\
    forall x, cnt x (map entry_range (hashed s)) + cnt x (concat ivss) <= inside x (era_base, era_base + reserved s).

Lemma worker_insert ws ivss tid w t ivs' :
  Forall2 worker_inv ws ivss -> ws !! tid = Some w -> worker_inv (set_thread w t) ivs' ->
  exists ivs, ivss !! tid = Some ivs /\ worker_inv w ivs /\
    Forall2 worker_inv (<[tid := set_thread w t]> ws) (<[tid := ivs']> ivss).
Proof.
  intros H Hw Hi. destruct (Forall2_lookup_l_Some _ _ _ _ _ H Hw) as (ivs & Hivs & Hwi).
  exists ivs. split; [exact Hivs|]. split; [exact Hwi|]. apply Forall2_insert; assumption.
Qed.

Lemma fed_at ws tid w t :
  ws !! tid = Some w -> Forall (fun w => starved (w_thread w) = false) (<[tid := set_thread w t]> ws) -> starved t = false.
Proof.
  intros Hw H. refine (Forall_lookup_1 _ _ tid (set_thread w t) H _).
  apply list_lookup_insert_eq, (lookup_lt_Some _ _ _ Hw).
Qed.

(** An idle worker hashes and starts a round. *)
Lemma idle_step_inv s tid w :
  sys_inv s -> workers s !! tid = Some w -> t_phase (w_thread w) = Idle ->
  fed (sys_step job s tid) -> sys_inv (sys_step job s tid).
Proof.
  intros (Hr & Hn & Hlog & ivss & H2 & Hcnt) Hw Eph. unfold sys_step. rewrite Hw, Eph. intros Hfed.
  pose proof (fed_at _ _ _ _ Hw Hfed) as Hst.
  destruct (Forall2_lookup_l_Some _ _ _ _ _ H2 Hw) as (ivs & Hivs & (Hp & Hs0 & Hinv)).
  pose proof Hp as ((p & HR) & Hsz & HRs).
  destruct (round_inv (w_lanes w) job k msk Hk Hmsk Hoff Hjob above (w_rounds w) (w_roundSize w) p HR Hsz HRs eq_refl
    (w_thread w) ivs Hinv Eph Hs0) as [Hvals Hround].
  destruct (Hround Hst) as (ivs' & Hinv' & Hcnt').
  split; [exact Hr|]. split; [exact Hn|]. split.
  { cbn [hashed]. apply Forall_app. split; [|exact Hlog]. apply Forall_map.
    eapply Forall_impl; [exact Hvals|]. intros v [Hv1 Hv2]. unfold entry_ok, era_base. cbn [fst snd]. lia. }
  destruct (worker_insert _ _ _ _ (nextRound (w_lanes w) (w_rounds w) (w_roundSize w) (w_thread w)) ivs' H2 Hw)
    as (ivs0 & Hivs0 & _ & H2').
  { split; [exact Hp|]. split; [exact Hst | exact Hinv']. }
  exists (<[tid := ivs']> ivss). split; [exact H2'|]. intros x. cbn [hashed reserved].
  rewrite map_app, map_map, cnt_app. pose proof (cnt_concat_insert x ivss tid ivs ivs' Hivs).
  specialize (Hcnt x). specialize (Hcnt' x). unfold logged, entry_range in *. cbn [fst snd] in *. lia.
Qed.

(** A worker inside [Nonce::next]. *)
Lemma fetch_step_inv s tid w lane rest saving reserve :
  sys_inv s -> workers s !! tid = Some w -> t_phase (w_thread w) = Fetch lane rest saving reserve ->
  reserved (sys_step job s tid) < 2 ^ 64 -> sys_inv (sys_step job s tid).
Proof.
  intros (Hr & Hn & Hlog & ivss & H2 & Hcnt) Hw Eph.
  destruct (Forall2_lookup_l_Some _ _ _ _ _ H2 Hw) as (ivs & Hivs & (Hp & Hs0 & Hinv)).
  pose proof Hp as ((p & HR) & Hsz & HRs). unfold sys_step. rewrite Hw, Eph.
  assert (Hres : reserve = w_rounds w * w_roundSize w).
  { destruct Hinv as (_ & _ & Hph). rewrite Eph in Hph. destruct Hph as (cs & (_ & _ & _ & _ & -> & _) & _). reflexivity. }
  assert (Hpend : pending_add (w_thread w) = w_rounds w * w_roundSize w) by (unfold pending_add; rewrite Eph; exact Hres).
  destruct (next_step (w_lanes w) (shared s) (w_thread w)) as [n' t'] eqn:Es. cbn [reserved].
  rewrite Hpend. intros Hlt.
  pose proof (fetch_inv (w_lanes w) job k msk Hk Hoff Hjob above (w_rounds w) (w_roundSize w) p HR Hsz
    (shared s) (w_thread w) ivs lane rest saving reserve (reserved s) Hinv Eph Hn Hr Hlt) as [_ Hf].
  rewrite Es in Hf. destruct Hf as (Hinv' & Hn' & Hst').
  assert (HRp : 0 < w_rounds w) by (destruct HR as [? ->]; apply Z.pow_pos_nonneg; lia).
  split; [cbn [reserved]; nia|]. split; [exact Hn'|]. split; [exact Hlog|].
  destruct (worker_insert _ _ _ _ t' (owned k above (w_rounds w) (w_roundSize w) 0 [reserved s] ++ ivs) H2 Hw)
    as (ivs0 & Hivs0 & _ & H2').
  { split; [exact Hp|]. split; [cbn; congruence | exact Hinv']. }
  eexists. split; [exact H2'|]. intros x. cbn [hashed reserved].
  pose proof (cnt_concat_insert x ivss tid ivs (owned k above (w_rounds w) (w_roundSize w) 0 [reserved s] ++ ivs) Hivs) as Hc.
  rewrite cnt_app in Hc. specialize (Hcnt x).
  assert (Ho : cnt x (owned k above (w_rounds w) (w_roundSize w) 0 [reserved s]) =
               inside x (era_base + reserved s, era_base + (reserved s + w_rounds w * w_roundSize w))).
  { unfold owned. cbn [map cnt]. fold era_base. rewrite Z.mul_0_l, !Z.add_0_r. reflexivity. }
  rewrite (inside_split x era_base (era_base + reserved s) (era_base + (reserved s + w_rounds w * w_roundSize w))) by nia.
  rewrite Ho in Hc. lia.
Qed.

Lemma check_step_inv s tid w lane rest saving reserve c :
  sys_inv s -> workers s !! tid = Some w -> t_phase (w_thread w) = Checking lane rest saving reserve c ->
  fed (sys_step job s tid) -> sys_inv (sys_step job s tid).
Proof.
  intros (Hr & Hn & Hlog & ivss & H2 & Hcnt) Hw Eph.
  destruct (Forall2_lookup_l_Some _ _ _ _ _ H2 Hw) as (ivs & Hivs & (Hp & Hs0 & Hinv)).
  pose proof Hp as ((p & HR) & Hsz & HRs). unfold sys_step. rewrite Hw, Eph.
  assert (Hpend : pending_add (w_thread w) = 0) by (unfold pending_add; rewrite Eph; reflexivity).
  destruct (next_step (w_lanes w) (shared s) (w_thread w)) as [n' t'] eqn:Es. rewrite Hpend, Z.add_0_r. intros Hfed.
  pose proof (fed_at _ _ _ _ Hw Hfed) as Hst.
  pose proof (checking_inv (w_lanes w) job k msk Hk Hmsk Hoff Hjob above (w_rounds w) (w_roundSize w) p HR Hsz HRs eq_refl
    (shared s) (w_thread w) ivs lane rest saving reserve c Hinv Eph Hs0) as Hc.
  rewrite Es in Hc. destruct Hc as [Hn' Hg]. destruct (Hg Hst) as (ivs' & Hinv' & Hcnt').
  split; [exact Hr|]. split; [cbn [shared]; rewrite Hn'; exact Hn|]. split; [exact Hlog|].
  destruct (worker_insert _ _ _ _ t' ivs' H2 Hw) as (ivs0 & Hivs0 & _ & H2').
  { split; [exact Hp|]. split; [exact Hst | exact Hinv']. }
  eexists. split; [exact H2'|]. intros x. cbn [hashed reserved].
  pose proof (cnt_concat_insert x ivss tid ivs ivs' Hivs). specialize (Hcnt x). specialize (Hcnt' x). lia.
Qed.

Lemma step_inv s tid :
  sys_inv s -> fed (sys_step job s tid) -> reserved (sys_step job s tid) < 2 ^ 64 -> sys_inv (sys_step job s tid).
Proof.
  intros Hi Hf Hr. destruct (workers s !! tid) as [w|] eqn:Hw; [|unfold sys_step; rewrite Hw; exact Hi].
  destruct (t_phase (w_thread w)) as [|lane rest saving r|lane rest saving r c|] eqn:E.
  - eapply idle_step_inv; eassumption.
  - eapply fetch_step_inv; eassumption.
  - eapply check_step_inv; eassumption.
  - revert Hf. unfold sys_step. rewrite Hw, E. destruct (after_refusal job w (shared s)) as [t'|] eqn:Er; [|intros _; exact Hi].
    intros Hf. exfalso. pose proof (fed_at _ _ _ _ Hw Hf) as Hst.
    assert (Hrs : 0 <= w_rounds w * w_roundSize w).
    { destruct Hi as (_ & _ & _ & ivss & H2 & _). destruct (Forall2_lookup_l_Some _ _ _ _ _ H2 Hw) as (ivs & _ & (Hp & _)).
      destruct Hp as ((p & Hp0 & ->) & Hsz & _). pose proof (Z.pow_pos_nonneg 2 p). nia. }
    destruct (resume_later job w _ t' Hrs Er). congruence.
Qed.

Lemma run_inv sched s :
  workers_nonneg s -> sys_inv s -> fed (run_system job s sched) -> reserved (run_system job s sched) < 2 ^ 64 ->
  sys_inv (run_system job s sched).
Proof.
  revert s. induction sched as [|tid sched IH]; intros s Hn Hi Hf Hr; [exact Hi|].
  cbn [run_system foldl] in *. fold (run_system job (sys_step job s tid) sched) in *.
  destruct (step_later job s tid Hn) as (H1 & _ & _). destruct (run_later job sched (sys_step job s tid) H1) as [H2 H3].
  apply IH; [exact H1 | apply step_inv; [exact Hi | apply H2, Hf | lia] | exact Hf | exact Hr].
Qed.

(** *** Within the mask no reservation is refused *)

(** A worker whose reservations fit the mask and that was never refused. *)
Definition granted (w : worker) : Prop :=
  1 <= w_rounds w * w_roundSize w <= 2 ^ k /\ t_phase (w_thread w) <> Failed.

Lemma enter_granted N todo saving r w st :
  next_mask (mask w) = 2 ^ k - 1 -> 1 <= r <= 2 ^ k -> r < 2 ^ 32 ->
  let t := enter_lanes N todo saving r w st in starved t = st /\ t_phase t <> Failed.
Proof.
  clear Hk Hmsk Hoff Hjob. intros Hm Hr Hr32. destruct todo as [|lane rest]; cbn [enter_lanes]; cbv zeta; [split; [reflexivity | discriminate]|].
  replace (next_mask (mask (if saving then copy_lane w lane else w))) with (2 ^ k - 1) by (destruct saving; symmetry; exact Hm).
  replace (next_refuses r (2 ^ k - 1)) with false; [split; [reflexivity | discriminate]|].
  unfold next_refuses, to_u32. rewrite Z.mod_small by lia.
  rewrite (proj2 (Z.eqb_neq _ _)), (proj2 (Z.ltb_ge _ _)) by lia. reflexivity.
Qed.

Lemma granted_insert ws tid w t :
  Forall granted ws -> ws !! tid = Some w -> t_phase t <> Failed -> Forall granted (<[tid := set_thread w t]> ws).
Proof.
  intros H Hw Ht. apply Forall_insert; [exact H|]. split; [|exact Ht]. apply (Forall_lookup_1 _ _ _ _ H Hw).
Qed.

Lemma fed_insert_1 ws tid w t :
  Forall (fun w => starved (w_thread w) = false) ws -> starved t = false ->
  Forall (fun w => starved (w_thread w) = false) (<[tid := set_thread w t]> ws).
Proof. intros H Ht. apply Forall_insert; [exact H | exact Ht]. Qed.

Lemma sys_inv_fed s : sys_inv s -> fed s.
Proof.
  intros (_ & _ & _ & ivss & H2 & _). unfold fed. induction H2 as [|w ivs ws ivss (_ & Hs & _) _ IH]; constructor; assumption.
Qed.

(** A drawn counter lies below the shared one. *)
Lemma drawn_below s tid w lane rest saving r c :
  sys_inv s -> workers s !! tid = Some w -> t_phase (w_thread w) = Checking lane rest saving r c ->
  r = w_rounds w * w_roundSize w /\ 0 <= c < 2 ^ 64 /\ 1 <= r < 2 ^ 32 /\ c + r <= reserved s.
Proof.
  intros (_ & _ & _ & ivss & H2 & Hcnt) Hw E.
  destruct (Forall2_lookup_l_Some _ _ _ _ _ H2 Hw) as (ivs & Hivs & (((p & Hp0 & HR) & Hsz & HRs) & _ & (_ & _ & Hph))).
  rewrite E in Hph. destruct Hph as (cs & (_ & _ & _ & _ & Hr & _) & Hc & ->).
  assert (0 < w_rounds w) by (rewrite HR; apply Z.pow_pos_nonneg; lia).
  split; [exact Hr|]. split; [exact Hc|]. split; [nia|].
  set (x := era_base + (c + r) - 1).
  assert (Ho : 1 <= cnt x (owned k above (w_rounds w) (w_roundSize w) 0 [c] ++ owned k above (w_rounds w) (w_roundSize w) 0 cs)).
  { rewrite cnt_app. cbn [owned map cnt]. rewrite (inside_true x) by (unfold x, era_base; nia).
    match goal with |- context [cnt x ?l] => pose proof (cnt_nonneg x l) end. lia. }
  pose proof (cnt_concat_insert x ivss tid _ [] Hivs) as Hci. cbn [cnt] in Hci.
  pose proof (cnt_nonneg x (concat (<[tid := []]> ivss))). pose proof (cnt_nonneg x (map entry_range (hashed s))).
  specialize (Hcnt x).
  destruct (Z_lt_ge_dec x (era_base + reserved s)); [unfold x in *; lia|]. rewrite inside_false in Hcnt by lia. lia.
Qed.

Lemma thread_mask w ivs : worker_inv w ivs -> next_mask (mask (t_job (w_thread w))) = 2 ^ k - 1.
Proof. intros (_ & _ & Hon & _). apply (on_job_mask (w_lanes w) job k msk Hmsk _ Hon). Qed.

Lemma step_granted s tid :
  sys_inv s -> Forall granted (workers s) -> reserved (sys_step job s tid) <= 2 ^ k ->
  fed (sys_step job s tid) /\ Forall granted (workers (sys_step job s tid)).
Proof.
  intros Hi Hg Hr. pose proof (sys_inv_fed s Hi) as Hf. revert Hr. unfold sys_step.
  destruct (workers s !! tid) as [w|] eqn:Hw; [|auto].
  destruct (Forall_lookup_1 _ _ _ _ Hg Hw) as [Hrs Hph]. pose proof (Forall_lookup_1 _ _ _ _ Hf Hw) as Hst. cbv beta in Hst.
  pose proof Hi as (_ & _ & _ & ivss & H2 & _). destruct (Forall2_lookup_l_Some _ _ _ _ _ H2 Hw) as (ivs & _ & Hwi).
  pose proof (thread_mask w ivs Hwi) as Hmk. pose proof Hwi as ((_ & _ & HRs) & _).
  destruct (t_phase (w_thread w)) as [|lane rest saving r|lane rest saving r c|] eqn:E; [| | |congruence].
  - intros _. assert (H : starved (nextRound (w_lanes w) (w_rounds w) (w_roundSize w) (w_thread w)) = false /\
      t_phase (nextRound (w_lanes w) (w_rounds w) (w_roundSize w) (w_thread w)) <> Failed).
    { unfold nextRound. cbv zeta. rewrite Hst. destruct (_ =? 0); [|split; [reflexivity | discriminate]].
      replace (to_u32 (w_rounds w * w_roundSize w)) with (w_rounds w * w_roundSize w) by (symmetry; apply Z.mod_small; lia).
      apply enter_granted; [exact Hmk | exact Hrs | exact HRs]. }
    split; [apply fed_insert_1; tauto | apply granted_insert; tauto].
  - unfold next_step. rewrite E. destruct (fetch_add _ _ _) as [c n']. intros _.
    split; [apply fed_insert_1; assumption | apply granted_insert; [assumption..|discriminate]].
  - destruct (drawn_below s tid w lane rest saving r c Hi Hw E) as (Er & Hc & Hr1 & Hcr).
    unfold next_step, pending_add. rewrite E, Hmk, Hst. pose proof (next_check_ok k r c Hk ltac:(lia) Hc) as Hv.
    destruct (next_check c r (2 ^ k - 1)) as [pz v]. cbn [snd] in Hv. cbn [reserved]. intros Hr. destruct v; [lia| |].
    + split; [apply fed_insert_1; [exact Hf | reflexivity] | apply granted_insert; [assumption..|discriminate]].
    + match goal with |- context [enter_lanes ?N ?todo ?sv ?rr ?w1 ?st] =>
        destruct (enter_granted N todo sv rr w1 st Hmk ltac:(lia) ltac:(lia)) as [H1 H2']
      end.
      split; [apply fed_insert_1; [exact Hf | exact H1] | apply granted_insert; assumption].
Qed.

Lemma run_granted sched s :
  workers_nonneg s -> sys_inv s -> Forall granted (workers s) -> reserved (run_system job s sched) <= 2 ^ k ->
  fed (run_system job s sched).
Proof.
  assert (Hk64 : 2 ^ k < 2 ^ 64) by (apply Z.pow_lt_mono_r; lia).
  revert s. induction sched as [|tid sched IH]; intros s Hn Hi Hg Hr; [apply sys_inv_fed, Hi|].
  cbn [run_system foldl] in *. fold (run_system job (sys_step job s tid) sched) in *.
  destruct (step_later job s tid Hn) as (H1 & _ & _). destruct (run_later job sched (sys_step job s tid) H1) as [_ H3].
  destruct (step_granted s tid Hi Hg ltac:(lia)) as [Hf' Hg'].
  apply IH; [exact H1 | apply step_inv; [exact Hi | exact Hf' | lia] | exact Hg' | exact Hr].
Qed.

(** *** The workers at the start *)

Lemma started_inv w :
  (m_index job < 2)%nat -> (m_size job < kMaxBlobSize)%nat ->
  nonceMask job = Some msk -> started job w -> starved (w_thread w) = false ->
  exists ivs, worker_inv w ivs /\ forall x, cnt x ivs = 0.
Proof.
  intros Hidx Hsize Hm (Hp & w0 & Hroom & Hsave) Hst.
  pose proof Hp as ((p & HR) & Hsz & HRs). unfold save in Hsave. rewrite Hm in Hsave.
  cbn [mbind option_bind] in Hsave. injection Hsave as Hsave.
  destruct (set_slot_ok (w_lanes w) job msk w0 Hidx Hsize Hroom) as (Hon & Hj & Hr0).
  set (w1 := set_slot _ _ _) in *.
  pose proof (enter_inv (w_lanes w) job k msk Hk Hmsk Hoff Hjob above (w_rounds w) (w_roundSize w) p HR eq_refl
    true w1 [] Hon ltac:(lia) (Nat.le_0_l _)) as He.
  cbn [length] in He. rewrite Nat.sub_0_r, Hsave in He.
  destruct He as (ivs & Hinv & Hc); [|exact Hst|].
  - split; [rewrite Hr0; apply Z.mod_0_l; destruct HR as [? ->]; apply Z.pow_nonzero; lia|].
    split; [constructor|]. split; [intros i c Hi; discriminate | exact Hj].
  - exists ivs. split; [split; [exact Hp | split; [exact Hst | exact Hinv]]|].
    intros x. specialize (Hc x). pose proof (cnt_nonneg x ivs). cbn in Hc. lia.
Qed.

End Job_era.
