(* ===== verification/MiningSpec.v ===== *)
(** * Mining: the properties

    Nonces are never hashed twice; a reservation ends; and two ways in which
    the counters of one job meet the next one. *)

From S2P Require Import Prelude.
From S2P Require Import CInt.
From S2P Require Import Bytes.
From S2P Require Import Job.
From S2P Require Import Nonce.
From S2P Require Import WorkerJob.
From S2P Require Import Mining.

(** ** Helpers *)


(** The facts about a job that the lemmas of the components ask for. *)
Lemma job_facts job msk :
  job_ok job -> nonceMask job = Some msk ->
  exists k, 0 <= k <= 63 /\ next_mask msk = 2 ^ k - 1 /\ (nonceOffset job + nonce_width k <= m_size job)%nat /\
    (is_bytes (m_blob job) /\ (m_size job <= length (m_blob job))%nat).
Proof.
  intros (_ & (Hb & Hbl) & Hs & Ho) Hm. destruct (nonceMask_ones job msk Hm) as (k & Hk & Hmk & Hw).
  exists k. split; [exact Hk|]. split; [exact Hmk|]. split; [lia|]. split; [exact Hb | lia].
Qed.

Lemma job_nonce_value job k : 0 <= k -> job_nonce job (2 ^ k - 1) = nonce_value k (m_blob job) (nonceOffset job).
Proof. intros Hk. unfold job_nonce, nonce_value. rewrite mask_wide by exact Hk. reflexivity. Qed.








(** ** Examples *)

(** A job of a nicehash pool: the high byte of its nonce is given. *)
Definition sample_blob : list Z := repeat 1 39 ++ [0; 0; 0; 171] ++ repeat 2 33 ++ repeat 0 332.
Definition sample_job : Job := MkJob RX_0 true [] 76 None None (Some [49]) 1000 1000 sample_blob 0.

Definition blank (N : nat) : worker_job :=
  WJ (repeat (repeat 0 (kMaxBlobSize * N)%nat) 2) (repeat (new_job false RX_0 None) 2) [0; 0] [0; 0] 0 0.

Definition sample_thread (N : nat) (reserve : Z) : thread :=
  default (Thread (blank N) Failed true) (save N sample_job reserve (blank N)).



(** A worker that fetched the last range of a job. *)
Definition stale_thread : thread :=
  Thread (t_job (sample_thread 1 32768)) (Checking 0 [] false 32768 0xFF8000) false.

(** A worker that drew a range past the mask. *)
Definition refused_worker : worker :=
  Worker CPU 1 32768 1 (Thread (t_job (sample_thread 1 32768)) (Checking 0 [] false 32768 0x1000000) false).

(** ** Properties *)


(** C11: [Nonce::next], when no other thread interferes, returns after at most
    two additions to the counter, for any reservation up to 2^31 nonces; it
    reserves a range under the mask that does not cross a multiple of 2^32,
    puts its first nonce under the mask and leaves the rest, and pauses the
    miner exactly when the range ends the mask; it refuses only when the range
    would not fit. *)
Theorem next_terminates k r msk index off b n c0 :
  0 <= k <= 63 -> 1 <= r <= 2 ^ 31 -> next_mask msk = 2 ^ k - 1 ->
  m_nonces n !! index = Some c0 -> 0 <= c0 -> c0 + 2 * r < 2 ^ 64 ->
  is_bytes b -> (off + nonce_width k <= length b)%nat ->
  exists ok b' n', next 2 index r msk b off n = Some (ok, b', n') /\
    if ok : bool then
      exists c, c0 <= c <= c0 + r /\ c + r <= 2 ^ k /\ c mod 2 ^ 32 + r <= 2 ^ 32 /\
        m_nonces n' !!! index = c + r /\
        nonce_value k b' off = c + nonce_value k b off / 2 ^ k * 2 ^ k /\
        m_paused n' = m_paused n || (c + r =? 2 ^ k)
    else b' = b /\ 2 ^ k < c0 + 2 * r /\ (m_paused n' = true \/ 2 ^ k <= c0 + r).
Proof.
  intros Hk Hr Hm Hn Hc Hw Hb Hl. destruct (next_ok k r msk index off Hk Hr Hm c0 b n Hn Hc Hw Hb Hl) as (res & E & Hp).
  destruct res as [[ok b'] n']. exists ok, b', n'. split; [exact E|]. unfold next_post in Hp. destruct ok; [|exact Hp].
  destruct Hp as (c & H1 & (_ & H2 & H3) & H4). exists c. auto.
Qed.

(** [save] ignores the result of [Nonce::next]: when the counter of the
    job is exhausted the worker goes on with the nonce the pool sent, the same
    for every worker. *)
Theorem refused_save_keeps_pool_nonce job msk reserve w t n c :
  job_ok job -> nonceMask job = Some msk -> room 1 w -> save 1 job reserve w = Some t ->
  1 <= reserve < 2 ^ 32 -> reserve - 1 <= next_mask msk ->
  m_nonces n !! m_index job = Some c -> next_mask msk < c < 2 ^ 63 + 2 ^ 32 ->
  let '(n1, t1) := next_step 1 n t in
  let '(n2, t2) := next_step 1 n1 t1 in
  t_phase t2 = Idle /\ lane_nonces 1 (t_job t2) = [job_nonce job (next_mask msk)] /\ m_paused n2 = m_paused n.
Proof.
  intros Hok Hm Hroom Hsave Hr Hrm Hn Hc.
  destruct (job_facts job msk Hok Hm) as (k & Hk & Hmsk & Ho & Hjb). pose proof Hok as (Hidx & _ & Hsz & _).
  unfold save in Hsave. rewrite Hm in Hsave. cbn [mbind option_bind] in Hsave. injection Hsave as <-.
  destruct (set_slot_ok 1 job msk w Hidx Hsz Hroom) as (Hon & Hj1 & _). set (w1 := set_slot job msk w) in *.
  destruct (copy_lane_change 1 job k msk Hk Ho Hjb w1 0 Hon Hj1 ltac:(lia)) as (Hon' & _ & _ & Hv & _).
  assert (Href : next_refuses reserve (next_mask msk) = false).
  { unfold next_refuses, to_u32. rewrite Z.mod_small by lia. destruct (Z.eqb_spec reserve 0); [lia|].
    destruct (Z.ltb_spec (next_mask msk) (reserve - 1)); [lia | reflexivity]. }
  assert (Em : next_mask (mask (copy_lane w1 0)) = next_mask msk).
  { rewrite (on_job_mask 1 job k msk Hmsk _ Hon'). symmetry. exact Hmsk. }
  cbn [seq enter_lanes]. cbv zeta. rewrite Em, Href. unfold next_step at 1. cbn [t_phase t_job starved].
  replace (wj_index (copy_lane w1 0)) with (m_index job) by (symmetry; apply Hon').
  destruct (fetch_add_eq (m_index job) reserve n c Hn ltac:(lia) ltac:(lia) ltac:(lia)) as (n' & -> & _ & Hp).
  unfold next_step. cbn [t_phase t_job starved]. rewrite Em.
  replace (next_check c reserve (next_mask msk)) with (false, Refuse).
  2:{ unfold next_check. destruct (Z.ltb_spec (next_mask msk) c); [reflexivity | lia]. }
  cbn [enter_lanes pause_if t_phase t_job finish_lanes negb andb].
  split; [reflexivity|]. split; [|exact Hp].
  unfold lane_nonces. cbn [seq map]. f_equal.
  rewrite (lane_nonce_val 1 job k msk Hk Hmsk Ho Hjb _ 0 Hon'), Hv, Hmsk. symmetry. apply job_nonce_value. lia.
Qed.

(** A CPU worker whose reservation was refused while the miner is not paused
    consumes the job it is on and hashes the nonce of its blob again. *)
Theorem refused_round_hashes_again job s tid w rest reserve c :
  workers s !! tid = Some w -> w_backend w = CPU ->
  t_phase (w_thread w) = Checking 0 rest false reserve c -> next_mask (mask (t_job (w_thread w))) < c ->
  m_paused (shared s) = false -> isEqual (currentJob (t_job (w_thread w))) job = true ->
  hashed (run_system job s [tid; tid; tid]) =
    map (fun v => (v, w_roundSize w)) (lane_nonces (w_lanes w) (t_job (w_thread w))) ++ hashed s.
Proof.
  intros Hw Hb Hph Hc Hp Heq. pose proof (lookup_lt_Some _ _ _ Hw) as Hl. unfold run_system. cbn [foldl].
  assert (E1 : sys_step job s tid = System (shared s) (<[tid := set_thread w (Thread (t_job (w_thread w)) Failed (starved (w_thread w)))]>
                 (workers s)) (hashed s) (reserved s + 0)).
  { unfold sys_step. rewrite Hw, Hph. unfold next_step, pending_add. rewrite Hph. unfold next_check.
    rewrite (proj2 (Z.ltb_lt _ _)) by exact Hc. reflexivity. }
  rewrite E1. unfold sys_step at 2. cbn [workers shared]. rewrite list_lookup_insert_eq by exact Hl.
  cbn [w_thread set_thread t_phase]. unfold after_refusal. cbn [w_backend set_thread]. rewrite Hb, Hp.
  unfold add. cbn [t_job w_thread set_thread].
  change (currentJob (set_wj_sequence ?x ?y)) with (currentJob x). rewrite Heq. cbn [mbind option_bind t_job t_phase].
  unfold sys_step. cbn [workers]. rewrite list_insert_insert_eq, list_lookup_insert_eq by exact Hl.
  reflexivity.
Qed.

(** C39: a thread that drew the last range of the old job before a job change
    sets the pause flag after [handleJobChange] cleared it: the miner is
    paused although the new job's counter is untouched. *)
Theorem stale_reservation_pauses_new_job N n t lane rest saving reserve c index :
  t_phase t = Checking lane rest saving reserve c -> 0 <= c -> 1 <= reserve < 2 ^ 32 ->
  c <= next_mask (mask (t_job t)) < 2 ^ 63 -> next_mask (mask (t_job t)) < c + reserve ->
  (index < length (m_nonces n))%nat ->
  let n1 := handleJobChange true true true index n in
  let n2 := fst (next_step N n1 t) in
  m_paused n1 = false /\ m_paused n2 = true /\ m_nonces n2 !! index = Some 0 /\ m_sequence n2 = m_sequence n1.
Proof.
  intros Eph Hc Hr Hm Hlast Hi. cbv zeta. unfold next_step. rewrite Eph.
  assert (Ep : fst (next_check c reserve (next_mask (mask (t_job t)))) = true).
  { unfold next_check, to_u32, to_u64. destruct (Z.ltb_spec (next_mask (mask (t_job t))) c); [lia|].
    rewrite !Z.mod_small by lia. destruct (Z.leb_spec (next_mask (mask (t_job t)) - c) (reserve - 1)); [reflexivity | lia]. }
  destruct (next_check _ _ _) as [p v]. cbn [fst] in *. subst p.
  split; [reflexivity|]. split; [reflexivity|]. split; [|reflexivity].
  cbn. apply list_lookup_insert_eq, Hi.
Qed.

(** ** Witnesses *)



Lemma next_terminates_witness :
  exists ok b' n', next 2 0 32768 0xFFFFFFFF sample_blob 39 (Nonces false [1; 1; 1] [98304; 0]) = Some (ok, b', n') /\
    if ok : bool then
      exists c, 98304 <= c <= 98304 + 32768 /\ c + 32768 <= 2 ^ 32 /\ c mod 2 ^ 32 + 32768 <= 2 ^ 32 /\
        m_nonces n' !!! 0%nat = c + 32768 /\
        nonce_value 32 b' 39 = c + nonce_value 32 sample_blob 39 / 2 ^ 32 * 2 ^ 32 /\
        m_paused n' = false || (c + 32768 =? 2 ^ 32)
    else b' = sample_blob /\ 2 ^ 32 < 98304 + 2 * 32768 /\ (m_paused n' = true \/ 2 ^ 32 <= 98304 + 32768).
Proof.
  apply (next_terminates 32 32768 0xFFFFFFFF 0 39 sample_blob (Nonces false [1; 1; 1] [98304; 0]) 98304);
    try (cbn; lia); try reflexivity.
  apply (bool_decide_unpack _). vm_compute. exact I.
Defined.

Lemma refused_save_keeps_pool_nonce_witness :
  let '(n1, t1) := next_step 1 (Nonces false [1; 1; 1] [0x1000000; 0]) (sample_thread 1 32768) in
  let '(n2, t2) := next_step 1 n1 t1 in
  t_phase t2 = Idle /\ lane_nonces 1 (t_job t2) = [job_nonce sample_job 0xFFFFFF] /\ m_paused n2 = false.
Proof.
  apply (refused_save_keeps_pool_nonce sample_job 0xFFFFFF 32768 (blank 1) (sample_thread 1 32768)
    (Nonces false [1; 1; 1] [0x1000000; 0]) 0x1000000); try reflexivity; try (cbn; lia);
    apply (bool_decide_unpack _); vm_compute; exact I.
Defined.

Lemma stale_reservation_pauses_new_job_witness :
  let n1 := handleJobChange true true true 0 (Nonces false [5; 5; 5] [0x1000000; 0]) in
  let n2 := fst (next_step 1 n1 stale_thread) in
  m_paused n1 = false /\ m_paused n2 = true /\ m_nonces n2 !! 0%nat = Some 0 /\ m_sequence n2 = m_sequence n1.
Proof.
  apply (stale_reservation_pauses_new_job 1 (Nonces false [5; 5; 5] [0x1000000; 0]) stale_thread 0 [] false 32768 0xFF8000 0);
    try reflexivity; try lia; try (vm_compute; intuition discriminate). cbn. lia.
Defined.

Lemma refused_round_hashes_again_witness :
  hashed (run_system sample_job (System (Nonces false [1; 1; 1] [0x1008000; 0]) [refused_worker] [] 0) [0; 0; 0]%nat) =
    [(job_nonce sample_job 0xFFFFFF, 1)].
Proof.
  rewrite (refused_round_hashes_again sample_job _ 0 refused_worker [] 32768 0x1000000); vm_compute; reflexivity.
Defined.
