(* ===== verification/JobSpec.v ===== *)
(** * Jobs: the properties

    The hexadecimal conversions, and what [setBlob] and [setTarget] make of the
    strings a pool sends. *)

From S2P Require Import Prelude.
From S2P Require Import CInt.
From S2P Require Import Bytes.
From S2P Require Import Cvt.
From S2P Require Import Job.
From S2P Require Import Nonce.
From S2P Require Import WorkerJob.
From S2P Require Import Mining.

(** ** Helpers *)

Lemma length_pos_ne {A} (s : list A) : (0 < length s)%nat -> s <> [].
Proof. intros H ->. cbn in H. lia. Qed.

(** Whether [setBlob] takes a string of [n] bytes. *)
Definition blob_size_ok (job : Job) (n : nat) : bool :=
  ((nonceOffset job + nonceSize job <=? n) && (n <? kMaxBlobSize))%nat.

Lemma hex_even s v : hex_bytes s = Some v -> (length s mod 2 = 0)%nat /\ (length s / 2 = length v)%nat.
Proof.
  intros H. rewrite (hex_bytes_length s v H), Nat.mul_comm. split; [apply Nat.Div0.mod_mul | apply Nat.div_mul; lia].
Qed.

Lemma fromHex_into_refuses buf s : is_bytes s -> hex_bytes s = None -> snd (fromHex_into buf s) = false.
Proof.
  intros Hb Hv. pose proof (cvt_hex2bin_ok (length buf) s Hb) as H. rewrite Hv in H.
  unfold fromHex_into. destruct (length s =? 0)%nat; [reflexivity|].
  destruct (cvt_hex2bin _ _) as [r bs]. cbn [fst] in H. subst r. reflexivity.
Qed.

Lemma le_val_4_range raw : is_bytes raw -> length raw = 4%nat -> 0 <= le_val raw < 2 ^ 32.
Proof. intros Hb Hl. pose proof (le_val_range raw Hb) as H. rewrite Hl in H. exact H. Qed.

Lemma fromHex_bytes s v : is_bytes s -> hex_bytes s = Some v -> is_bytes v.
Proof.
  remember (length s) as n eqn:En. revert s v En. induction n as [n IH] using lt_wf_ind. intros s v -> Hb H.
  destruct s as [|a [|b s]]; [injection H as <-; constructor | discriminate|].
  cbn [hex_bytes] in H. apply bind_inv in H as (x & Hx & H). apply bind_inv in H as (y & Hy & H).
  apply bind_inv in H as (r & Hr & [= <-]). apply hex_digit_range in Hx, Hy.
  inversion_clear Hb as [|? ? _ Hb']. inversion_clear Hb' as [|? ? _ Hb''].
  constructor; [unfold is_byte; lia | exact (IH (length s) ltac:(cbn; lia) s r eq_refl Hb'' Hr)].
Qed.

(** The digits of 00 and 7F. *)
Definition sample_hex : list Z := [48; 48; 55; 70].

(** ** Properties *)

(** Encoding bytes in hexadecimal and decoding them gives them back, and
    the decoder, for a buffer of any size, returns 0 exactly on the strings of
    digit pairs, of either case, that fit. *)
Theorem hex_conversions_correct bs hex max :
  is_bytes bs -> is_bytes hex -> Z.of_nat (length bs) < 2 ^ 62 ->
  (exists s, cvt_bin2hex (2 * Z.of_nat (length bs)) bs = Some s /\ length s = (2 * length bs)%nat /\
     (bs <> [] -> fromHex s = bs)) /\
  match hex_bytes hex with
  | Some v => if (length v <=? max)%nat then cvt_hex2bin max hex = (0, v) else fst (cvt_hex2bin max hex) = -1
  | None => fst (cvt_hex2bin max hex) = -1
  end.
Proof.
  intros Hb Hh Hl. split; [|apply cvt_hex2bin_ok, Hh].
  unfold cvt_bin2hex. replace (SIZE_MAX / 2) with (2 ^ 63 - 1) by reflexivity.
  destruct (Z.leb_spec (2 ^ 63 - 1) (Z.of_nat (length bs))); [lia|].
  destruct (Z.ltb_spec (2 * Z.of_nat (length bs)) (Z.of_nat (length bs) * 2)); [lia|]. cbn [orb].
  destruct (Z.ltb_spec (Z.of_nat (length bs) * 2) (2 * Z.of_nat (length bs))); [lia|].
  exists (concat (map hex_pair bs)). split; [reflexivity|]. split; [apply hex_pairs_length|]. intros Hne.
  apply fromHex_ok; [apply hex_pairs_bytes, Hb | | apply hex_bytes_pairs, Hb].
  apply length_pos_ne. rewrite hex_pairs_length. destruct bs; [contradiction | cbn; lia].
Qed.

(** [setBlob] accepts exactly the hexadecimal strings of a blob that has
    room for the nonce and is shorter than the buffer; it then stores the
    decoded bytes and their number, marks the job as one of a nicehash pool if
    its nonce is not zero, and the job is one the workers can take; otherwise
    the size of the blob is unchanged. *)
Theorem setBlob_correct job s :
  (m_index job < 2)%nat -> bytes_of kMaxBlobSize (m_blob job) -> is_bytes s ->
  let '(job', ok) := setBlob job (Some s) in
  match hex_bytes s with
  | Some v =>
      if blob_size_ok job (length v) then
        ok = true /\ m_blob job' = v ++ drop (length v) (m_blob job) /\ m_size job' = length v /\ job_ok job' /\
        m_nicehash job' = m_nicehash job || negb (le_val (take 4 (drop (nonceOffset job) v)) =? 0)
      else ok = false /\ m_size job' = m_size job
  | None => ok = false /\ m_size job' = m_size job
  end.
Proof.
  intros Hi [Hb Hl] Hs. unfold setBlob.
  destruct (hex_bytes s) as [v|] eqn:Ev.
  - destruct (hex_even s v Ev) as [-> ->]. cbn [Nat.eqb negb]. unfold blob_size_ok. rewrite Hl.
    destruct (Nat.ltb_spec (length v) (nonceOffset job + nonceSize job)) as [H1|H1]; cbn [orb].
    { destruct (Nat.leb_spec (nonceOffset job + nonceSize job) (length v)); [lia|]. split; reflexivity. }
    destruct (Nat.leb_spec kMaxBlobSize (length v)) as [H2|H2].
    { destruct (Nat.ltb_spec (length v) kMaxBlobSize); [lia|]. rewrite andb_false_r. split; reflexivity. }
    destruct (Nat.leb_spec (nonceOffset job + nonceSize job) (length v)) as [H3|]; [|lia].
    destruct (Nat.ltb_spec (length v) kMaxBlobSize) as [H4|]; [|lia]. cbn [andb].
    assert (Hsz : (4 <= nonceSize job)%nat) by (unfold nonceSize; destruct (_ =? _); lia).
    assert (Hne : s <> []) by (apply length_pos_ne; rewrite (hex_bytes_length s v Ev); lia).
    rewrite (fromHex_into_ok (m_blob job) s v Hs Hne Ev) by lia. cbn [negb].
    split; [reflexivity|]. split; [reflexivity|]. split; [reflexivity|].
    pose proof (fromHex_bytes s v Hs Ev) as Hvb. split.
    + split; [exact Hi|]. split; [|split; [exact H2 | exact H1]]. split.
      * apply Forall_app. split; [exact Hvb | apply Forall_drop, Hb].
      * cbn [with_blob m_blob]. rewrite length_app, length_drop. lia.
    + cbn [with_blob m_nicehash m_blob m_algorithm]. do 2 f_equal. unfold readUnaligned. f_equal. f_equal.
      change (nonceOffset (with_blob job (m_nicehash job) (m_size job) (v ++ drop (length v) (m_blob job))))
        with (nonceOffset job).
      rewrite drop_app_le, take_app_le by (rewrite ?length_drop; lia). reflexivity.
  - destruct (negb _); [split; reflexivity|]. destruct (_ || _); [split; reflexivity|].
    pose proof (fromHex_into_refuses (m_blob job) s Hs Ev) as Hf.
    destruct (fromHex_into _ _) as [buf ok]. cbn [snd] in Hf. subst ok. split; reflexivity.
Qed.

(** C38: [setTarget]: eight hexadecimal digits give the target
    (2^64 - 1) / ((2^32 - 1) / t), a positive 64-bit number, and its
    difficulty; sixteen give the target itself; other lengths and the zero
    target of sixteen digits are refused; but eight zero digits divide by
    zero. *)
Theorem setTarget_correct strtoull16 job s v :
  m_algorithm job <> RX_YADA -> is_bytes s -> hex_bytes s = Some v -> (4 <= length s)%nat ->
  match length v with
  | 4%nat =>
      if le_val v =? 0 then setTarget strtoull16 job (Some s) = None
      else exists t, setTarget strtoull16 job (Some s) = Some (with_target job (0xFFFFFFFFFFFFFFFF / t) t, true) /\
             t = 0xFFFFFFFFFFFFFFFF / (0xFFFFFFFF / le_val v) /\ 0 < t < 2 ^ 64 /\
             le_val v * 2 ^ 32 <= t
  | 8%nat =>
      if le_val v =? 0 then setTarget strtoull16 job (Some s) = Some (with_target job (m_diff job) 0, false)
      else setTarget strtoull16 job (Some s) =
             Some (with_target job (0xFFFFFFFFFFFFFFFF / le_val v) (le_val v), true)
  | _ => setTarget strtoull16 job (Some s) = Some (with_target job (m_diff job) 0, false)
  end.
Proof.
  intros Ha Hs Hv Hlen. unfold setTarget, parse_target.
  destruct (Nat.ltb_spec (length s) 4); [lia|]. destruct (Z.eqb_spec (m_algorithm job) RX_YADA); [contradiction|].
  rewrite (fromHex_ok s v Hs (length_pos_ne s ltac:(lia)) Hv). unfold target_of_raw.
  pose proof (fromHex_bytes s v Hs Hv) as Hb.
  destruct (Nat.eqb_spec (length v) 4) as [E4|E4].
  - rewrite E4. pose proof (le_val_4_range v Hb E4) as Hr.
    destruct (Z.eqb_spec (le_val v) 0); [reflexivity|].
    pose proof (Z.div_str_pos 0xFFFFFFFF (le_val v) ltac:(lia)) as Hd.
    pose proof (Z.mul_div_le 0xFFFFFFFF (le_val v) ltac:(lia)) as Hm.
    set (d := 0xFFFFFFFF / le_val v) in *.
    destruct (Z.eqb_spec d 0); [lia|]. cbn [mbind option_bind].
    assert (Ht : le_val v * 2 ^ 32 <= 0xFFFFFFFFFFFFFFFF / d).
    { apply Z.div_le_lower_bound; [lia|]. change (2 ^ 32) with 4294967296. nia. }
    assert (Hu : 0xFFFFFFFFFFFFFFFF / d <= 0xFFFFFFFFFFFFFFFF) by (apply Z.div_le_upper_bound; nia).
    exists (0xFFFFFFFFFFFFFFFF / d). destruct (Z.eqb_spec (0xFFFFFFFFFFFFFFFF / d) 0); [lia|].
    unfold toDiff. destruct (Z.eqb_spec (0xFFFFFFFFFFFFFFFF / d) 0); [lia|].
    split; [reflexivity|]. split; [reflexivity|]. split; [lia | exact Ht].
  - destruct (Nat.eqb_spec (length v) 8) as [E8|E8].
    + rewrite E8. cbn [mbind option_bind]. unfold toDiff. destruct (Z.eqb_spec (le_val v) 0) as [->|]; reflexivity.
    + generalize dependent (length v). intros m E4 E8. do 9 (destruct m as [|m]; [try contradiction; reflexivity|]).
      reflexivity.
Qed.

(** ** Witnesses *)

Lemma hex_conversions_correct_witness :
  (exists s, cvt_bin2hex 4 [0; 127] = Some s /\ length s = 4%nat /\ ([0; 127] <> [] -> fromHex s = [0; 127])) /\
  cvt_hex2bin 2 sample_hex = (0, [0; 127]).
Proof.
  apply (hex_conversions_correct [0; 127] sample_hex 2);
    try (apply (bool_decide_unpack _); vm_compute; exact I).
Defined.

Lemma setBlob_correct_witness :
  let job := new_job false RX_0 None in
  let s := concat (repeat [48; 49] 76) in
  let '(job', ok) := setBlob job (Some s) in
  ok = true /\ m_blob job' = repeat 1 76 ++ drop 76 (m_blob job) /\ m_size job' = 76%nat /\ job_ok job' /\
  m_nicehash job' = false || negb (le_val (take 4 (drop 39 (repeat 1 76))) =? 0).
Proof.
  apply (setBlob_correct (new_job false RX_0 None) (concat (repeat [48; 49] 76)));
    [cbn; lia | |]; apply (bool_decide_unpack _); vm_compute; exact I.
Defined.

Lemma setTarget_correct_witness :
  setTarget (fun _ => 0) (new_job false RX_0 None) (Some (repeat 48 8)) = None.
Proof.
  apply (setTarget_correct (fun _ => 0) (new_job false RX_0 None) (repeat 48 8) (repeat 0 4));
    [discriminate | apply (bool_decide_unpack _); vm_compute; exact I | reflexivity | cbn; lia].
Defined.
