(* ===== verification/LineReader.v ===== *)
(** * Splitting a stream into lines

    base/net/tools/LineReader.cpp: the bytes a socket delivers in pieces are
    cut at newlines and handed to the listener, a line that spans several
    pieces through a buffer of one network chunk.  The specification feeds the
    whole stream to an unbounded line splitter. *)

From S2P Require Import Prelude.
From S2P Require Import Bytes.
From S2P Require Import Job.
From S2P Require Import Nonce.

(** ** State *)

Definition XMRIG_NET_BUFFER_CHUNK_SIZE : nat := 64 * 1024.
Notation CHUNK := XMRIG_NET_BUFFER_CHUNK_SIZE.
#[global] Opaque XMRIG_NET_BUFFER_CHUNK_SIZE.

(** The buffer when it is allocated; the listener is the list of the lines it
    was given. *)
Record reader := Reader { m_buf : option (list Z); m_pos : nat }.

Definition new_reader : reader := Reader None 0.

Section LineReader.

(** What the chunk [NetBuffer::allocate] returns holds. *)
Variable fresh : list Z.

(** ** Operations *)

Definition reader_reset (r : reader) : reader :=
  match m_buf r with Some _ => Reader None 0 | None => r end.

Definition reader_add (data : list Z) (r : reader) : reader :=
  if (CHUNK <? length data + m_pos r)%nat then r
  else
    let '(buf, pos) := match m_buf r with Some buf => (buf, m_pos r) | None => (fresh, 0%nat) end in
    Reader (Some (memcpy buf pos data)) (pos + length data).

(** [m_listener->onLine(m_buf, m_pos - 1)]. *)
Definition buffered_line (r : reader) : list Z :=
  match m_buf r with Some buf => take (m_pos r - 1) buf | None => [] end.

(** [memchr(start, '\n', remaining) - start]. *)
Fixpoint find_newline (start : list Z) : option nat :=
  match start with
  | [] => None
  | b :: start => if b =? 10 then Some 0%nat else S <$> find_newline start
  end.

(** The line of [n] bytes before the newline at [start + n], which is
    overwritten with 0 before the line is copied. *)
Definition getline_one (n : nat) (start : list Z) (r : reader) : list (list Z) * reader :=
  let len := S n in
  if negb (m_pos r =? 0)%nat then
    let r := reader_add (take n start ++ [0]) r in
    ([buffered_line r], Reader (m_buf r) 0)
  else if (1 <? len)%nat then ([take (len - 1) start], r)
  else ([], r).

(** The loop; every turn consumes a line. *)
Fixpoint getline (fuel : nat) (start : list Z) (r : reader) : option (list (list Z) * reader) :=
  match fuel with
  | O => None
  | S fuel =>
      match find_newline start with
      | None => Some ([], if (length start =? 0)%nat then reader_reset r else reader_add start r)
      | Some n =>
          let '(out, r) := getline_one n start r in
          p ← getline fuel (drop (S n) start) r;
          let '(rest, r) := p in
          Some (out ++ rest, r)
      end
  end.

(** An empty piece is ignored. *)
Definition reader_parse (data : list Z) (r : reader) : option (list (list Z) * reader) :=
  if (length data =? 0)%nat then Some ([], r) else getline (S (length data)) data r.

(** The pieces in turn. *)
Fixpoint parse_all (pieces : list (list Z)) (r : reader) : option (list (list Z) * reader) :=
  match pieces with
  | [] => Some ([], r)
  | d :: pieces =>
      p ← reader_parse d r; let '(out, r) := p in
      p ← parse_all pieces r; let '(rest, r) := p in
      Some (out ++ rest, r)
  end.

(** ** Specification *)

(** The non-empty lines of a stream, [p] being the line so far, and what
    follows the last newline. *)
Fixpoint split_lines (p s : list Z) : list (list Z) * list Z :=
  match s with
  | [] => ([], p)
  | b :: s =>
      if b =? 10 then
        let '(ls, q) := split_lines [] s in (match p with [] => ls | _ => p :: ls end, q)
      else split_lines (p ++ [b]) s
  end.

(** The lines fit the buffer with their newline, and so does the rest. *)
Definition lines_fit (p s : list Z) : Prop :=
  let '(ls, q) := split_lines p s in
  Forall (fun l => (length l < CHUNK)%nat) ls /\ (length q <= CHUNK)%nat.

(** ** The specification, piece by piece *)

Lemma split_lines_app p s t :
  split_lines p (s ++ t) =
  (let '(ls, q) := split_lines p s in let '(ls', q') := split_lines q t in (ls ++ ls', q')).
Proof.
  revert p. induction s as [|b s IH]; intros p; cbn [app split_lines].
  - destruct (split_lines p t). reflexivity.
  - destruct (b =? 10); [|apply IH]. rewrite IH. destruct (split_lines [] s) as [ls q].
    destruct (split_lines q t) as [ls' q']. destruct p; reflexivity.
Qed.

Lemma find_newline_Some start n :
  find_newline start = Some n -> start = take n start ++ 10 :: drop (S n) start /\ find_newline (take n start) = None
    /\ (n < length start)%nat.
Proof.
  revert n. induction start as [|b start IH]; intros n; cbn [find_newline]; [discriminate|].
  destruct (Z.eqb_spec b 10) as [->|Hb].
  - intros [= <-]. cbn. split; [reflexivity | split; [reflexivity | lia]].
  - destruct (find_newline start) as [m|]; [|discriminate]. intros [= <-].
    destruct (IH m eq_refl) as (E & Hn & Hl). cbn [take drop app find_newline length].
    split; [f_equal; exact E|]. split; [|lia]. destruct (Z.eqb_spec b 10); [contradiction|]. rewrite Hn. reflexivity.
Qed.

Lemma split_lines_none p s : find_newline s = None -> split_lines p s = ([], p ++ s).
Proof.
  revert p. induction s as [|b s IH]; intros p; cbn [find_newline split_lines]; [rewrite app_nil_r; reflexivity|].
  destruct (b =? 10); [discriminate|]. destruct (find_newline s); [discriminate|]. intros _.
  rewrite (IH _ eq_refl), <- app_assoc. reflexivity.
Qed.

(** One line of the stream. *)
Lemma split_lines_line p s n :
  find_newline s = Some n ->
  split_lines p s =
  (let '(ls, q) := split_lines [] (drop (S n) s) in
   (match p ++ take n s with [] => ls | l => l :: ls end, q)).
Proof.
  intros H. destruct (find_newline_Some s n H) as (E & Hn & _). rewrite E at 1.
  rewrite split_lines_app, (split_lines_none p _ Hn). cbn [split_lines Z.eqb Pos.eqb].
  destruct (split_lines [] (drop (S n) s)) as [ls q]. destruct (p ++ take n s); reflexivity.
Qed.

(** ** The reader follows it *)

Hypothesis Hfresh : length fresh = CHUNK.

(** [p] is the line so far. *)
Definition holds (r : reader) (p : list Z) : Prop :=
  m_pos r = length p /\
  match m_buf r with
  | Some buf => length buf = CHUNK /\ take (length p) buf = p
  | None => p = []
  end.

Lemma holds_bound r p : holds r p -> (length p <= CHUNK)%nat.
Proof.
  intros [_ H]. destruct (m_buf r) as [buf|]; [|subst; cbn; lia]. destruct H as [Hl Ht].
  rewrite <- Ht, length_take. lia.
Qed.

Lemma memcpy_append buf p data :
  take (length p) buf = p -> (length p + length data <= length buf)%nat ->
  take (length p + length data) (memcpy buf (length p) data) = p ++ data.
Proof.
  intros Ht Hl. unfold memcpy. rewrite Ht, app_assoc, take_app_le by (rewrite length_app; lia).
  apply firstn_all2. rewrite length_app. lia.
Qed.

Lemma add_holds r p data :
  holds r p -> (length p + length data <= CHUNK)%nat -> holds (reader_add data r) (p ++ data).
Proof.
  intros [Hp Hb] Hl. unfold reader_add. rewrite Hp.
  destruct (Nat.ltb_spec CHUNK (length data + length p)); [lia|].
  destruct (m_buf r) as [buf|].
  - destruct Hb as [Hbl Ht]. split; cbn [m_pos m_buf]; rewrite length_app; [lia|].
    split; [rewrite memcpy_length by lia; exact Hbl | apply memcpy_append; [exact Ht | lia]].
  - subst p. cbn [app] in *. split; cbn [m_pos m_buf]; [cbn; lia|].
    split; [rewrite memcpy_length by (cbn in *; lia); exact Hfresh|].
    exact (memcpy_append fresh [] data eq_refl ltac:(cbn in *; lia)).
Qed.

Lemma buffered_line_ok r p b : holds r (p ++ [b]) -> buffered_line r = p.
Proof.
  intros [Hp Hb]. unfold buffered_line. rewrite Hp, length_app. cbn [length]. rewrite Nat.add_sub.
  destruct (m_buf r) as [buf|]; [|destruct p; discriminate]. destruct Hb as [_ Ht].
  rewrite length_app in Ht. pose proof (f_equal (take (length p)) Ht) as H.
  rewrite take_take, Nat.min_l in H by (cbn; lia). rewrite H. apply take_app_length.
Qed.

Lemma emptied_holds r p : holds r p -> holds (Reader (m_buf r) 0) [].
Proof.
  intros [_ Hb]. split; [reflexivity|]. cbn [m_buf]. destruct (m_buf r) as [buf|]; [|reflexivity].
  split; [apply Hb | apply take_0].
Qed.

Lemma reset_holds r p : holds r p -> m_pos r = 0%nat -> holds (reader_reset r) [].
Proof.
  intros [Hp Hb] H0. unfold reader_reset. destruct (m_buf r) as [buf|] eqn:E; [split; reflexivity|].
  split; [exact H0|]. rewrite E. reflexivity.
Qed.

(** A piece: the lines it completes, and the line so far after it. *)
Lemma getline_ok fuel data r p :
  (length data < fuel)%nat -> (data = [] -> m_pos r = 0%nat) -> holds r p -> lines_fit p data ->
  exists r', getline fuel data r = Some (fst (split_lines p data), r') /\ holds r' (snd (split_lines p data)).
Proof.
  revert data r p. induction fuel as [|fuel IH]; intros data r p Hfuel Hne Hr Hfit; [lia|].
  cbn [getline]. unfold lines_fit in Hfit. destruct (find_newline data) as [n|] eqn:En.
  - pose proof (split_lines_line p data n En) as Hs. destruct (find_newline_Some data n En) as (E & _ & Hn).
    rewrite Hs in Hfit |- *. destruct (split_lines [] (drop (S n) data)) as [ls q] eqn:Erest. cbn [fst snd] in *.
    assert (Htn : length (take n data) = n) by (rewrite length_take; lia).
    assert (Hstep : exists out r1, getline_one n data r = (out, r1) /\ holds r1 [] /\ m_pos r1 = 0%nat /\
      (match p ++ take n data with [] => ls | _ => (p ++ take n data) :: ls end) = out ++ ls).
    { unfold getline_one. pose proof Hr as [Hp _]. destruct (Nat.eqb_spec (m_pos r) 0) as [H0|H0]; cbn [negb].
      - assert (p = []) as -> by (destruct p; [reflexivity | cbn in Hp; lia]). cbn [app].
        replace (S n - 1)%nat with n by lia.
        destruct (Nat.ltb_spec 1 (S n)).
        + eexists _, _. split; [reflexivity|]. split; [exact Hr|]. split; [exact H0|].
          destruct (take n data); [cbn in Htn; lia | reflexivity].
        + assert (n = 0%nat) as -> by lia. eexists _, _. split; [reflexivity|]. split; [exact Hr|]. split; [exact H0 | reflexivity].
      - assert (Hline : (length p + n < CHUNK)%nat).
        { destruct (p ++ take n data) as [|b l] eqn:Ep; [destruct p; [cbn in Hp; lia | discriminate]|].
          destruct Hfit as [Hfit _]. inversion_clear Hfit as [|? ? H _]. rewrite <- Ep, length_app, Htn in H. exact H. }
        pose proof (add_holds r p (take n data ++ [0]) Hr ltac:(rewrite length_app, Htn; cbn [length]; lia)) as Ha.
        rewrite app_assoc in Ha. eexists _, _. split; [reflexivity|].
        split; [exact (emptied_holds _ _ Ha)|]. split; [reflexivity|].
        rewrite (buffered_line_ok _ _ _ Ha). destruct p; [cbn in Hp; lia | reflexivity]. }
    destruct Hstep as (out & r1 & -> & Hr1 & Hp1 & Hout).
    destruct (IH (drop (S n) data) r1 []) as (r' & Hg & Hr').
    + rewrite length_drop. lia.
    + intros _. exact Hp1.
    + exact Hr1.
    + unfold lines_fit. rewrite Erest. destruct Hfit as [Hfit Hq]. split; [|exact Hq].
      destruct (p ++ take n data); [exact Hfit | inversion Hfit; assumption].
    + rewrite Hg, Erest. cbn [mbind option_bind fst snd] in *. rewrite Erest in Hr'. exists r'.
      split; [|exact Hr']. rewrite <- Hout. destruct (p ++ take n data); reflexivity.
  - rewrite (split_lines_none p data En) in Hfit |- *. cbn [fst snd] in *. destruct Hfit as [_ Hq].
    eexists. split; [reflexivity|].
    destruct (Nat.eqb_spec (length data) 0) as [H0|H0].
    + destruct data; [|discriminate]. rewrite app_nil_r. pose proof (Hne eq_refl) as Hz. pose proof Hr as [Hp _].
      assert (p = []) as -> by (destruct p; [reflexivity | cbn in Hp; lia]). exact (reset_holds r [] Hr Hz).
    + apply add_holds; [exact Hr | rewrite <- length_app; exact Hq].
Qed.

(** Fitting is inherited by the pieces. *)
Lemma lines_fit_app p s t :
  (length (snd (split_lines p s)) <= CHUNK)%nat -> lines_fit p (s ++ t) -> lines_fit p s /\ lines_fit (snd (split_lines p s)) t.
Proof.
  unfold lines_fit. rewrite split_lines_app. destruct (split_lines p s) as [ls q]. cbn [snd].
  destruct (split_lines q t) as [ls' q']. intros Hq [Hf Hq']. apply Forall_app in Hf as [H1 H2]. auto.
Qed.

(** The line so far is the start of a line or of the rest. *)
Lemma so_far_bound p t : lines_fit p t -> (length p <= CHUNK)%nat.
Proof.
  unfold lines_fit. revert p. induction t as [|b t IH]; intros p; cbn [split_lines]; [intros [_ H]; exact H|].
  destruct (b =? 10).
  - destruct (split_lines [] t) as [ls q]. intros [H _]. destruct p; [cbn; lia|]. inversion_clear H. lia.
  - intros H. specialize (IH (p ++ [b]) H). rewrite length_app in IH. lia.
Qed.

Lemma lines_fit_next p s t : lines_fit p (s ++ t) -> lines_fit p s /\ lines_fit (snd (split_lines p s)) t.
Proof.
  intros H. assert (Ht : lines_fit (snd (split_lines p s)) t).
  { unfold lines_fit in *. rewrite split_lines_app in H. destruct (split_lines p s) as [ls q]. cbn [snd].
    destruct (split_lines q t) as [ls' q']. destruct H as [Hf Hq]. apply Forall_app in Hf as [_ Hf]. auto. }
  split; [|exact Ht]. exact (proj1 (lines_fit_app p s t (so_far_bound _ _ Ht) H)).
Qed.

Lemma parse_all_ok pieces r p :
  holds r p -> lines_fit p (concat pieces) ->
  exists r', parse_all pieces r = Some (fst (split_lines p (concat pieces)), r') /\
             holds r' (snd (split_lines p (concat pieces))).
Proof.
  revert r p. induction pieces as [|d pieces IH]; intros r p Hr Hfit; [exists r; split; [reflexivity | exact Hr]|].
  cbn [concat parse_all] in *. destruct (lines_fit_next p d (concat pieces) Hfit) as [H1 H2].
  rewrite split_lines_app.
  assert (Hd : exists r1, reader_parse d r = Some (fst (split_lines p d), r1) /\ holds r1 (snd (split_lines p d))).
  { unfold reader_parse. destruct (Nat.eqb_spec (length d) 0) as [H0|H0].
    - destruct d; [|discriminate]. exists r. split; [reflexivity | exact Hr].
    - apply getline_ok; [lia | intros ->; cbn in H0; lia | exact Hr | exact H1]. }
  destruct Hd as (r1 & -> & Hr1). cbn [mbind option_bind]. destruct (IH r1 _ Hr1 H2) as (r2 & -> & Hr2).
  cbn [mbind option_bind]. exists r2. destruct (split_lines p d) as [ls q]. cbn [fst snd] in *.
  destruct (split_lines q (concat pieces)) as [ls' q']. split; [reflexivity | exact Hr2].
Qed.

(** ** Any input *)

(** The position never passes the end of the buffer, whatever the stream. *)
Definition in_bounds (r : reader) : Prop :=
  (m_pos r <= CHUNK)%nat /\ match m_buf r with Some buf => length buf = CHUNK | None => m_pos r = 0%nat end.

Lemma add_bounds data r : in_bounds r -> in_bounds (reader_add data r).
Proof.
  intros [Hp Hb]. unfold reader_add. destruct (Nat.ltb_spec CHUNK (length data + m_pos r)); [split; assumption|].
  destruct (m_buf r) as [buf|].
  - split; cbn [m_pos m_buf]; [lia|]. rewrite memcpy_length; lia.
  - split; cbn [m_pos m_buf]; [lia|]. rewrite memcpy_length; lia.
Qed.

Lemma getline_bounds fuel data r :
  (length data < fuel)%nat -> in_bounds r ->
  exists out r', getline fuel data r = Some (out, r') /\ in_bounds r'.
Proof.
  revert data r. induction fuel as [|fuel IH]; intros data r Hfuel Hr; [lia|].
  cbn [getline]. destruct (find_newline data) as [n|] eqn:En.
  - destruct (find_newline_Some data n En) as (_ & _ & Hn).
    destruct (getline_one n data r) as [out r1] eqn:Ec. unfold getline_one in Ec.
    assert (Hr1 : in_bounds r1).
    { destruct (negb _).
      - pose proof (add_bounds (take n data ++ [0]) r Hr) as [Ha1 Ha2]. injection Ec as _ <-.
        split; cbn [m_pos m_buf]; [lia|]. destruct (m_buf (reader_add _ r)); [exact Ha2 | reflexivity].
      - destruct (1 <? S n)%nat; injection Ec as _ <-; exact Hr. }
    destruct (IH (drop (S n) data) r1 ltac:(rewrite length_drop; lia) Hr1) as (rest & r2 & -> & Hr2).
    exists (out ++ rest), r2. split; [reflexivity | exact Hr2].
  - eexists _, _. split; [reflexivity|]. destruct (_ =? _)%nat; [|apply add_bounds, Hr].
    unfold reader_reset. destruct (m_buf r) eqn:E; [split; cbn; lia | exact Hr].
Qed.

Lemma parse_all_bounds pieces r :
  in_bounds r -> exists out r', parse_all pieces r = Some (out, r') /\ in_bounds r'.
Proof.
  revert r. induction pieces as [|d pieces IH]; intros r Hr; [exists [], r; split; [reflexivity | exact Hr]|].
  cbn [parse_all]. unfold reader_parse.
  assert (Hd : exists out r1, (if (length d =? 0)%nat then Some ([], r) else getline (S (length d)) d r) = Some (out, r1)
            /\ in_bounds r1).
  { destruct (length d =? 0)%nat; [exists [], r; split; [reflexivity | exact Hr]|]. apply getline_bounds; [lia | exact Hr]. }
  destruct Hd as (out & r1 & -> & Hr1). cbn [mbind option_bind]. destruct (IH r1 Hr1) as (rest & r2 & -> & Hr2).
  eexists _, _. split; [reflexivity | exact Hr2].
Qed.

End LineReader.
