(* ===== verification/MemPool.v ===== *)
(** * The pool of network buffers

    base/net/tools/MemPool.h: chunks of equal size cut from arrays that are
    allocated a batch at a time, with the set of the free chunk numbers and the
    map from the pointers in use to their numbers.  A pointer is the array it
    points into and the offset there. *)

From S2P Require Import Prelude.
From stdpp Require Import gmap.

#[local] Open Scope nat_scope.

Section MemPool.

(** The template parameters. *)
Variables (CHUNK_SIZE INIT_SIZE : nat).

(** ** State *)

Definition pointer : Type := nat * nat.

(** [m_data] has the keys below its size; its arrays hold the clients' bytes. *)
Record mem_pool := Pool { m_used : gmap pointer nat; m_data : nat; m_free : gset nat }.

Definition empty_pool : mem_pool := Pool ∅ 0 ∅.

(** ** Operations *)

(** [*m_free.begin()]: the least element. *)
Definition set_begin (X : gset nat) : option nat :=
  match elements X with [] => None | x :: xs => Some (foldr Nat.min x xs) end.

Definition pool_resize (p : mem_pool) : mem_pool :=
  let index := m_data p in
  Pool (m_used p) (S index) (m_free p ∪ list_to_set (seq (index * INIT_SIZE) INIT_SIZE)).

(** [m_data[r].data() + (i - r * INIT_SIZE) * CHUNK_SIZE]. *)
Definition chunk_pointer (i : nat) : pointer :=
  let r := i / INIT_SIZE in (r, (i - r * INIT_SIZE) * CHUNK_SIZE).

Definition pool_allocate (p : mem_pool) : option (pointer * mem_pool) :=
  let p := if decide (m_free p = ∅) then pool_resize p else p in
  i ← set_begin (m_free p);
  let ptr := chunk_pointer i in
  Some (ptr, Pool (<[ptr := i]> (m_used p)) (m_data p) (m_free p ∖ {[i]})).

(** [m_used[ptr]] inserts 0 for a pointer that is not in use, which the
    assertion excludes in a debug build. *)
Definition pool_deallocate (ptr : pointer) (p : mem_pool) : mem_pool :=
  let i := default 0 (m_used p !! ptr) in
  Pool (delete ptr (m_used p)) (m_data p) (m_free p ∪ {[i]}).

Definition freeSize (p : mem_pool) : nat := size (m_free p) * CHUNK_SIZE.
Definition pool_size (p : mem_pool) : nat := m_data p * CHUNK_SIZE * INIT_SIZE.

(** A client's requests: a new chunk, or the release of one it holds. *)
Inductive request := Allocate | Deallocate (ptr : pointer).

(** [None] when a pointer is released that is not in use. *)
Definition pool_step (p : mem_pool) (r : request) : option mem_pool :=
  match r with
  | Allocate => q ← pool_allocate p; Some (snd q)
  | Deallocate ptr => match m_used p !! ptr with Some _ => Some (pool_deallocate ptr p) | None => None end
  end.

Fixpoint pool_run (p : mem_pool) (rs : list request) : option mem_pool :=
  match rs with [] => Some p | r :: rs => p ← pool_step p r; pool_run p rs end.

(** ** Invariant *)

Hypothesis Hchunk : 0 < CHUNK_SIZE.
Hypothesis Hinit : 0 < INIT_SIZE.

(** Every number below the total is either free or in use, at its own
    pointer. *)
Record pool_ok (p : mem_pool) : Prop := {
  used_at : forall ptr i, m_used p !! ptr = Some i -> ptr = chunk_pointer i /\ i < m_data p * INIT_SIZE /\ i ∉ m_free p;
  free_below : forall i, i ∈ m_free p -> i < m_data p * INIT_SIZE;
  all_there : forall i, i < m_data p * INIT_SIZE -> i ∈ m_free p \/ m_used p !! chunk_pointer i = Some i
}.

Lemma chunk_pointer_inj i j : chunk_pointer i = chunk_pointer j -> i = j.
Proof.
  unfold chunk_pointer. intros H. injection H as Hr Ho.
  pose proof (Nat.div_mod_eq i INIT_SIZE). pose proof (Nat.div_mod_eq j INIT_SIZE).
  pose proof (Nat.Div0.mul_div_le i INIT_SIZE). pose proof (Nat.Div0.mul_div_le j INIT_SIZE). nia.
Qed.

(** A chunk lies inside its array. *)
Lemma chunk_inside n i : i < n * INIT_SIZE ->
  fst (chunk_pointer i) < n /\ snd (chunk_pointer i) + CHUNK_SIZE <= CHUNK_SIZE * INIT_SIZE.
Proof.
  intros Hi. unfold chunk_pointer. cbn [fst snd]. split; [apply Nat.Div0.div_lt_upper_bound; lia|].
  pose proof (Nat.div_mod_eq i INIT_SIZE). pose proof (Nat.mod_upper_bound i INIT_SIZE). nia.
Qed.

(** Chunks with different numbers do not overlap. *)
Lemma chunks_apart i j : i <> j -> fst (chunk_pointer i) = fst (chunk_pointer j) ->
  snd (chunk_pointer i) + CHUNK_SIZE <= snd (chunk_pointer j) \/ snd (chunk_pointer j) + CHUNK_SIZE <= snd (chunk_pointer i).
Proof.
  unfold chunk_pointer. cbn [fst snd]. intros Hij Hr. rewrite Hr.
  pose proof (Nat.Div0.mul_div_le i INIT_SIZE). pose proof (Nat.Div0.mul_div_le j INIT_SIZE). nia.
Qed.

Lemma foldr_min_ok x xs : foldr Nat.min x xs ∈ x :: xs /\ forall y, y ∈ x :: xs -> foldr Nat.min x xs <= y.
Proof.
  induction xs as [|a xs [IH1 IH2]]; cbn [foldr].
  - split; [left|]. intros y Hy. apply list_elem_of_singleton in Hy. lia.
  - split.
    + destruct (Nat.min_dec a (foldr Nat.min x xs)) as [->| ->]; [right; left|].
      apply elem_of_cons in IH1 as [->|IH1]; [left | right; right; exact IH1].
    + intros y Hy. apply elem_of_cons in Hy as [->|Hy]; [specialize (IH2 x ltac:(left)); lia|].
      apply elem_of_cons in Hy as [->|Hy]; [lia|]. specialize (IH2 y ltac:(right; exact Hy)). lia.
Qed.

Lemma set_begin_ok X : X <> ∅ -> exists i, set_begin X = Some i /\ i ∈ X /\ forall j, j ∈ X -> i <= j.
Proof.
  intros HX. unfold set_begin. destruct (elements X) as [|x xs] eqn:E.
  - apply elements_empty_iff in E. apply leibniz_equiv in E. contradiction.
  - destruct (foldr_min_ok x xs) as [H1 H2]. eexists. split; [reflexivity|]. rewrite <- E in H1, H2.
    split; [apply elem_of_elements, H1 | intros j Hj; apply H2, elem_of_elements, Hj].
Qed.

Lemma resize_ok p : pool_ok p -> m_free p = ∅ -> pool_ok (pool_resize p) /\ m_free (pool_resize p) <> ∅.
Proof.
  intros [Hu Hf Ha] Hempty. unfold pool_resize. split.
  - split; cbn [m_used m_data m_free].
    + intros ptr i Hi. destruct (Hu ptr i Hi) as (-> & Hlt & _). split; [reflexivity|]. split; [lia|].
      rewrite Hempty. intros Hin. apply elem_of_union in Hin as [Hin|Hin]; [set_solver|].
      apply elem_of_list_to_set, elem_of_seq in Hin. lia.
    + intros i Hi. rewrite Hempty in Hi. apply elem_of_union in Hi as [Hi|Hi]; [set_solver|].
      apply elem_of_list_to_set, elem_of_seq in Hi. lia.
    + intros i Hi. destruct (decide (i < m_data p * INIT_SIZE)) as [Hlt|Hge].
      * destruct (Ha i Hlt); [left; set_solver | right; assumption].
      * left. apply elem_of_union_r, elem_of_list_to_set, elem_of_seq. lia.
  - cbn [m_free]. intros E. assert (H : m_data p * INIT_SIZE ∈ (∅ : gset nat)).
    { rewrite <- E. apply elem_of_union_r, elem_of_list_to_set, elem_of_seq. lia. }
    set_solver.
Qed.

(** The chunk handed out was not in use and lies inside an array. *)
Lemma allocate_ok p :
  pool_ok p -> exists ptr p', pool_allocate p = Some (ptr, p') /\ pool_ok p' /\
    m_used p !! ptr = None /\ (exists i, m_used p' = <[ptr := i]> (m_used p)) /\
    fst ptr < m_data p' /\ snd ptr + CHUNK_SIZE <= CHUNK_SIZE * INIT_SIZE.
Proof.
  intros Hok. unfold pool_allocate.
  set (q := if decide (m_free p = ∅) then pool_resize p else p).
  assert (Hq : pool_ok q /\ m_free q <> ∅ /\ m_used q = m_used p).
  { unfold q. destruct (decide (m_free p = ∅)) as [E|E].
    - destruct (resize_ok p Hok E). auto.
    - auto. }
  destruct Hq as (Hqok & Hne & Eused). destruct (set_begin_ok (m_free q) Hne) as (i & -> & Hi & _).
  cbn [mbind option_bind]. eexists _, _. split; [reflexivity|]. destruct Hqok as [Hu Hf Ha].
  assert (Hnone : m_used q !! chunk_pointer i = None).
  { destruct (m_used q !! chunk_pointer i) as [j|] eqn:E; [|reflexivity].
    destruct (Hu _ _ E) as (Hptr & _ & Hn). apply chunk_pointer_inj in Hptr as <-. contradiction. }
  split; [|split; [rewrite <- Eused; exact Hnone | split; [exists i; cbn; rewrite Eused; reflexivity | apply chunk_inside; apply Hf, Hi]]].
  split; cbn [m_used m_data m_free].
  - intros ptr j Hj. apply lookup_insert_Some in Hj as [[<- <-]|[Hne' Hj]].
    + split; [reflexivity|]. split; [apply Hf, Hi | set_solver].
    + destruct (Hu ptr j Hj) as (-> & Hlt & Hn). split; [reflexivity|]. split; [exact Hlt | set_solver].
  - intros j Hj. apply Hf. set_solver.
  - intros j Hj. destruct (decide (j = i)) as [->|Hji]; [right; apply lookup_insert_eq|].
    destruct (Ha j Hj) as [H|H]; [left; set_solver|]. right.
    rewrite lookup_insert_ne; [exact H|]. intros E. apply chunk_pointer_inj in E. congruence.
Qed.

Lemma deallocate_ok p ptr i : pool_ok p -> m_used p !! ptr = Some i -> pool_ok (pool_deallocate ptr p).
Proof.
  intros [Hu Hf Ha] Hi. destruct (Hu ptr i Hi) as (-> & Hlt & Hn). unfold pool_deallocate. rewrite Hi. cbn [default].
  split; cbn [m_used m_data m_free].
  - intros q j Hj. apply lookup_delete_Some in Hj as [Hne Hj]. destruct (Hu q j Hj) as (-> & Hjlt & Hjn).
    split; [reflexivity|]. split; [exact Hjlt|]. intros Hin. apply elem_of_union in Hin as [Hin|Hin]; [contradiction|].
    apply elem_of_singleton in Hin as ->. contradiction.
  - intros j Hj. apply elem_of_union in Hj as [Hj|Hj]; [apply Hf, Hj|]. apply elem_of_singleton in Hj as ->. exact Hlt.
  - intros j Hj. destruct (decide (j = i)) as [->|Hji]; [left; set_solver|].
    destruct (Ha j Hj) as [H|H]; [left; set_solver|]. right. rewrite lookup_delete_ne; [exact H|].
    intros E. apply chunk_pointer_inj in E. congruence.
Qed.

Lemma empty_ok : pool_ok empty_pool.
Proof. split; cbn; intros; (lia || set_solver || (exfalso; set_solver)). Qed.

Lemma pool_run_ok rs p p' : pool_ok p -> pool_run p rs = Some p' -> pool_ok p'.
Proof.
  revert p. induction rs as [|r rs IH]; intros p Hok; cbn [pool_run]; [intros [= <-]; exact Hok|].
  intros H. apply bind_inv in H as (q & Hq & H). apply (IH q); [|exact H]. destruct r as [|ptr]; cbn [pool_step] in Hq.
  - destruct (allocate_ok p Hok) as (pt & p1 & E & Hp1 & _). rewrite E in Hq. injection Hq as <-. exact Hp1.
  - destruct (m_used p !! ptr) as [i|] eqn:E; [|discriminate]. injection Hq as <-. exact (deallocate_ok p ptr i Hok E).
Qed.

(** Every chunk is counted once: [freeSize() + used = size()]. *)
Lemma pool_count p : pool_ok p -> size (m_free p) + size (m_used p) = m_data p * INIT_SIZE.
Proof.
  intros [Hu Hf Ha].
  assert (Hused : size (m_used p) = size (list_to_set (C := gset nat) (map snd (map_to_list (m_used p))))).
  { rewrite size_list_to_set.
    - rewrite length_map. rewrite length_map_to_list. reflexivity.
    - apply NoDup_fmap_2_strong; [|apply NoDup_map_to_list].
      intros [q1 i1] [q2 i2] H1 H2 E. cbn in E. subst i2. apply elem_of_map_to_list in H1, H2.
      destruct (Hu _ _ H1) as [-> _], (Hu _ _ H2) as [-> _]. reflexivity. }
  rewrite Hused, <- size_union.
  - transitivity (size (list_to_set (C := gset nat) (seq 0 (m_data p * INIT_SIZE))));
      [|rewrite size_list_to_set by apply NoDup_seq; apply length_seq].
    f_equal. apply set_eq. intros i. rewrite elem_of_union, !elem_of_list_to_set, elem_of_seq.
    rewrite list_elem_of_fmap. split.
    + intros [H|[[q j] [-> H]]]; [pose proof (Hf i H); lia|]. apply elem_of_map_to_list in H.
      destruct (Hu _ _ H) as (_ & H' & _). cbn. lia.
    + intros [_ Hi]. destruct (Ha i ltac:(lia)) as [H|H]; [left; exact H|]. right. exists (chunk_pointer i, i).
      split; [reflexivity | apply elem_of_map_to_list, H].
  - intros i Hi1 Hi2. apply elem_of_list_to_set, list_elem_of_fmap in Hi2 as [[q j] [-> H]].
    apply elem_of_map_to_list in H. destruct (Hu _ _ H) as (_ & _ & Hn). contradiction.
Qed.

End MemPool.
