(* ===== verification/NetSpec.v ===== *)
(** * Network input: the properties

    Lines do not depend on how the stream was cut into pieces, what happens to
    lines that do not fit, and the pool the buffers come from. *)

From stdpp Require Import gmap.
From S2P Require Import Prelude.
From S2P Require Import Bytes.
From S2P Require Import Job.
From S2P Require Import Nonce.
From S2P Require Import LineReader.
From S2P Require Import MemPool.

(** ** Examples *)

Definition blank_chunk : list Z := repeat 0 (Z.to_nat 65536).

(** "ab\ncd", "e\n\n", "f" *)
Definition sample_pieces : list (list Z) := [[97; 98; 10; 99; 100]; [101; 10; 10]; []; [102]].

(** ** Properties *)

(** C30: the listener gets exactly the non-empty lines of the stream, in order,
    however the stream was cut into pieces, as long as every line and the rest
    after the last newline fit the buffer; the buffer then holds that rest. *)
Theorem line_reader_correct fresh pieces :
  length fresh = XMRIG_NET_BUFFER_CHUNK_SIZE -> lines_fit [] (concat pieces) ->
  exists r, parse_all fresh pieces new_reader = Some (fst (split_lines [] (concat pieces)), r) /\
    m_pos r = length (snd (split_lines [] (concat pieces))) /\
    forall buf, m_buf r = Some buf -> take (m_pos r) buf = snd (split_lines [] (concat pieces)).
Proof.
  intros Hf Hfit. destruct (parse_all_ok fresh Hf pieces new_reader []) as (r & E & Hp & Hb).
  - split; reflexivity.
  - exact Hfit.
  - exists r. split; [exact E|]. split; [exact Hp|]. intros buf Hbuf. rewrite Hbuf in Hb. rewrite Hp. apply Hb.
Qed.

(** For any stream the reader terminates and never writes past its buffer;
    but a line that was buffered in part and does not fit with its end is
    handed to the listener without that end and without its own last byte. *)
Theorem line_reader_bounds fresh pieces r p d :
  length fresh = XMRIG_NET_BUFFER_CHUNK_SIZE -> in_bounds r ->
  holds r p -> (0 < length p)%nat -> find_newline d = None ->
  (XMRIG_NET_BUFFER_CHUNK_SIZE < length p + S (length d))%nat ->
  (exists out r', parse_all fresh pieces r = Some (out, r') /\ in_bounds r') /\
  (exists r', reader_parse fresh (d ++ [10]) r = Some ([take (length p - 1) p], r')).
Proof.
  intros Hf Hb [Hp Hh] Hpos Hd Hlong. split; [apply (parse_all_bounds fresh Hf), Hb|].
  assert (En : find_newline (d ++ [10]) = Some (length d)).
  { clear -Hd. induction d as [|b d IH]; [reflexivity|]. cbn [find_newline app length] in *.
    destruct (b =? 10); [discriminate|]. destruct (find_newline d); [discriminate|]. rewrite IH; reflexivity. }
  unfold reader_parse. rewrite length_app. cbn [length]. rewrite Nat.add_1_r. cbn [Nat.eqb getline].
  rewrite En. unfold getline_one. destruct (Nat.eqb_spec (m_pos r) 0); [lia|]. cbn [negb].
  assert (Eadd : reader_add fresh (take (length d) (d ++ [10]) ++ [0]) r = r).
  { unfold reader_add. rewrite length_app, length_take, length_app. cbn [length].
    destruct (Nat.ltb_spec XMRIG_NET_BUFFER_CHUNK_SIZE (length d `min` (length d + 1) + 1 + m_pos r)); [reflexivity | lia]. }
  rewrite Eadd. rewrite (drop_ge (d ++ [10])) by (rewrite length_app; cbn; lia).
  cbn [find_newline length Nat.eqb mbind option_bind].
  unfold buffered_line. destruct (m_buf r) as [buf|]; [|subst p; cbn in Hpos; lia].
  destruct Hh as [_ Ht]. eexists. cbn [app]. do 3 f_equal.
  transitivity (take (length p - 1) (take (length p) buf)); [|rewrite Ht; reflexivity].
  rewrite take_take. f_equal. lia.
Qed.

(** C31: whatever chunks are requested and released, an allocation succeeds and
    returns a chunk that lies inside an array of the pool and overlaps no chunk
    in use, and every chunk is either free or in use. *)
Theorem mem_pool_correct CHUNK_SIZE INIT_SIZE requests p :
  (0 < CHUNK_SIZE)%nat -> (0 < INIT_SIZE)%nat ->
  pool_run CHUNK_SIZE INIT_SIZE empty_pool requests = Some p ->
  (exists ptr p', pool_allocate CHUNK_SIZE INIT_SIZE p = Some (ptr, p') /\
     (fst ptr < m_data p')%nat /\ (snd ptr + CHUNK_SIZE <= CHUNK_SIZE * INIT_SIZE)%nat /\
     forall (used : pointer) i, m_used p !! used = Some i -> fst used = fst ptr ->
       (snd used + CHUNK_SIZE <= snd ptr \/ snd ptr + CHUNK_SIZE <= snd used)%nat) /\
  (freeSize CHUNK_SIZE p + size (m_used p) * CHUNK_SIZE = pool_size CHUNK_SIZE INIT_SIZE p)%nat.
Proof.
  intros Hc Hi Hrun.
  pose proof (pool_run_ok CHUNK_SIZE INIT_SIZE Hc Hi requests _ p (empty_ok CHUNK_SIZE INIT_SIZE Hc Hi) Hrun) as Hok. split.
  - destruct (allocate_ok CHUNK_SIZE INIT_SIZE Hc Hi p Hok) as (ptr & p' & E & Hok' & Hnone & (j & Hused) & Hin).
    exists ptr, p'. split; [exact E|]. split; [apply Hin|]. split; [apply Hin|]. intros used i Hu Hf.
    destruct Hok' as [Hu' _ _].
    destruct (Hu' ptr j ltac:(rewrite Hused; apply lookup_insert_eq)) as (-> & _).
    assert (Hne : used <> chunk_pointer CHUNK_SIZE INIT_SIZE j) by (intros E1; rewrite E1, Hnone in Hu; discriminate).
    destruct (Hu' used i ltac:(rewrite Hused, lookup_insert_ne by (intros E2; apply Hne; symmetry; exact E2); exact Hu)) as (-> & _).
    apply chunks_apart; try assumption. intros ->. contradiction.
  - unfold freeSize, pool_size. pose proof (pool_count CHUNK_SIZE INIT_SIZE Hc Hi p Hok). nia.
Qed.

(** ** Witnesses *)

Lemma line_reader_correct_witness :
  exists r, parse_all blank_chunk sample_pieces new_reader = Some ([[97; 98]; [99; 100; 101]], r) /\
    m_pos r = 1%nat /\ forall buf, m_buf r = Some buf -> take (m_pos r) buf = [102].
Proof.
  apply (line_reader_correct blank_chunk sample_pieces).
  - apply repeat_length.
  - change (Forall (fun l : list Z => (length l < XMRIG_NET_BUFFER_CHUNK_SIZE)%nat) [[97; 98]; [99; 100; 101]] /\
            (1 <= XMRIG_NET_BUFFER_CHUNK_SIZE)%nat).
    split; [constructor; [|constructor; [|constructor]]; apply Nat.ltb_lt | apply Nat.leb_le]; vm_compute; reflexivity.
Defined.

(** The largest piece the buffer holds, and a piece that does not fit behind
    it. *)
Definition full_line : list Z := repeat 97 (Z.to_nat 65536).

Lemma line_reader_bounds_witness :
  (exists out r', parse_all blank_chunk [[97]; [98]] (Reader (Some full_line) XMRIG_NET_BUFFER_CHUNK_SIZE) = Some (out, r')
     /\ in_bounds r') /\
  (exists r', reader_parse blank_chunk ([98; 99] ++ [10]) (Reader (Some full_line) XMRIG_NET_BUFFER_CHUNK_SIZE) =
     Some ([take (length full_line - 1) full_line], r')).
Proof.
  assert (Hl : length full_line = XMRIG_NET_BUFFER_CHUNK_SIZE) by apply repeat_length.
  apply (line_reader_bounds blank_chunk [[97]; [98]] (Reader (Some full_line) XMRIG_NET_BUFFER_CHUNK_SIZE) full_line [98; 99]).
  - apply repeat_length.
  - split; [cbn [m_pos]; lia | exact Hl].
  - split; [symmetry; exact Hl|]. cbn [m_buf]. split; [exact Hl | apply firstn_all].
  - unfold full_line. rewrite repeat_length. lia.
  - reflexivity.
  - rewrite Hl. lia.
Defined.

Lemma mem_pool_correct_witness :
  exists p, pool_run 16 4 empty_pool [Allocate; Allocate; Deallocate (0, 0)%nat; Allocate] = Some p /\
    (freeSize 16 p + size (m_used p) * 16 = pool_size 16 4 p)%nat.
Proof.
  eexists. split; [vm_compute; reflexivity|].
  apply (mem_pool_correct 16 4 [Allocate; Allocate; Deallocate (0, 0)%nat; Allocate]); [lia | lia | vm_compute; reflexivity].
Defined.
