(* ===== verification/Failover.v ===== *)
(** * Choosing a pool

    base/net/stratum/strategies/FailoverStrategy.cpp: a list of clients, one per
    pool, of which at most one is active.  The handlers are called by the
    clients and by the network; what they do to the clients and to the listener
    is the list of actions they return.  The specification is the listener's
    view: which pool it was told is active. *)

From S2P Require Import Prelude.

Section Failover.

(** The jobs, and the algorithms, proxies, times, documents and results, which
    the strategy passes through. *)
Context {job arg : Type}.

(** ** State and interface *)

Record strategy := Strategy { m_active : Z; m_index : nat }.

Inductive action :=
  | Connect (id : nat)
  | Disconnect (id : nat)
  | Submit (id : nat)
  | SetAlgo (id : nat) (algo : arg)
  | SetProxy (id : nat) (proxy : arg)
  | Tick (id : nat) (now : arg)
  | OnLogin (id : nat) (params : arg)
  | OnResultAccepted (id : nat) (result : arg)
  | OnVerifyAlgorithm (id : nat) (algorithm : arg)
  | OnActive (id : nat)
  | OnPause
  | OnJob (id : nat) (j : job).

Definition initial : strategy := Strategy (-1) 0.

(** The number of pools and [m_retries]. *)
Variables (pools : nat) (m_retries : Z).

Definition isActive (s : strategy) : bool := 0 <=? m_active s.

(** ** Handlers *)

(** Undefined behaviour without a pool. *)
Definition connect (s : strategy) : option (list action * strategy) :=
  if (m_index s <? pools)%nat then Some ([Connect (m_index s)], s) else None.

(** The job the active client holds. *)
Definition resume (current : nat -> job) (s : strategy) : list action * strategy :=
  if negb (isActive s) then ([], s)
  else let id := Z.to_nat (m_active s) in ([OnJob id (current id)], s).

Definition submit (s : strategy) : list action * strategy :=
  if negb (isActive s) then ([], s) else ([Submit (Z.to_nat (m_active s))], s).

Definition stop (s : strategy) : list action * strategy :=
  (map Disconnect (seq 0 pools) ++ [OnPause], Strategy (-1) 0).

(** The clients are told in turn. *)
Definition setAlgo (algo : arg) (s : strategy) : list action * strategy := (map (fun id => SetAlgo id algo) (seq 0 pools), s).
Definition setProxy (proxy : arg) (s : strategy) : list action * strategy := (map (fun id => SetProxy id proxy) (seq 0 pools), s).
Definition tick (now : arg) (s : strategy) : list action * strategy := (map (fun id => Tick id now) (seq 0 pools), s).

(** The listener is told, whichever client calls. *)
Definition onLogin (id : nat) (params : arg) (s : strategy) : list action * strategy := ([OnLogin id params], s).
Definition onResultAccepted (id : nat) (result : arg) (s : strategy) : list action * strategy := ([OnResultAccepted id result], s).
Definition onVerifyAlgorithm (id : nat) (algorithm : arg) (s : strategy) : list action * strategy := ([OnVerifyAlgorithm id algorithm], s).

Definition onClose (id : nat) (failures : Z) (s : strategy) : list action * strategy :=
  if failures =? -1 then ([], s)
  else
    let '(out, s) :=
      if m_active s =? Z.of_nat id then ([OnPause], Strategy (-1) (m_index s)) else ([], s) in
    if ((m_index s =? 0)%nat && (failures <? m_retries)) then (out, s)
    else if ((m_index s =? id) && (1 <? pools - m_index s))%nat then
      (out ++ [Connect (S (m_index s))], Strategy (m_active s) (S (m_index s)))
    else (out, s).

Definition onJobReceived (id : nat) (j : job) (s : strategy) : list action * strategy :=
  if m_active s =? Z.of_nat id then ([OnJob id j], s) else ([], s).

Definition onLoginSuccess (id : nat) (s : strategy) : list action * strategy :=
  let active := if (id =? 0)%nat || negb (isActive s) then Z.of_nat id else m_active s in
  let out := map Disconnect (filter (fun i => active <> Z.of_nat i) (seq 1 (pools - 1))) in
  if (0 <=? active) && negb (active =? m_active s)
  then (out ++ [OnActive id], Strategy active (Z.to_nat active))
  else (out, s).

(** ** Runs *)

Inductive event :=
  | EConnect
  | EResume (current : nat -> job)
  | ESubmit
  | EStop
  | EClose (id : nat) (failures : Z)
  | EJob (id : nat) (j : job)
  | ELogin (id : nat)
  | ESetAlgo (algo : arg)
  | ESetProxy (proxy : arg)
  | ETick (now : arg)
  | EClientLogin (id : nat) (params : arg)
  | EResult (id : nat) (result : arg)
  | EVerify (id : nat) (algorithm : arg).

(** The events are those of clients the strategy made. *)
Definition event_ok (e : event) : Prop :=
  match e with EClose id _ | EJob id _ | ELogin id | EClientLogin id _ | EResult id _ | EVerify id _ => (id < pools)%nat | _ => True end.

Definition handle (e : event) (s : strategy) : option (list action * strategy) :=
  match e with
  | EConnect => connect s
  | EResume current => Some (resume current s)
  | ESubmit => Some (submit s)
  | EStop => Some (stop s)
  | EClose id failures => Some (onClose id failures s)
  | EJob id j => Some (onJobReceived id j s)
  | ELogin id => Some (onLoginSuccess id s)
  | ESetAlgo algo => Some (setAlgo algo s)
  | ESetProxy proxy => Some (setProxy proxy s)
  | ETick now => Some (tick now s)
  | EClientLogin id params => Some (onLogin id params s)
  | EResult id result => Some (onResultAccepted id result s)
  | EVerify id algorithm => Some (onVerifyAlgorithm id algorithm s)
  end.

Fixpoint run_events (es : list event) (s : strategy) : option (list action * strategy) :=
  match es with
  | [] => Some ([], s)
  | e :: es =>
      p ← handle e s; let '(out, s) := p in
      p ← run_events es s; let '(rest, s) := p in
      Some (out ++ rest, s)
  end.

(** ** Specification: the listener's view *)

(** Which pool is active according to what the listener was told. *)
Definition view_step (v : option nat) (a : action) : option nat :=
  match a with OnActive id => Some id | OnPause => None | _ => v end.

(** A correct sequence of actions: jobs and results only of the active pool,
    a pool is announced only when it was not active, and only pools of the list
    are touched. *)
Definition action_ok (v : option nat) (a : action) : Prop :=
  match a with
  | Connect id | Disconnect id | SetAlgo id _ | SetProxy id _ | Tick id _
  | OnLogin id _ | OnResultAccepted id _ | OnVerifyAlgorithm id _ => (id < pools)%nat
  | Submit id | OnJob id _ => v = Some id
  | OnActive id => (id < pools)%nat /\ v <> Some id
  | OnPause => True
  end.

Fixpoint actions_ok (v : option nat) (out : list action) : Prop :=
  match out with [] => True | a :: out => action_ok v a /\ actions_ok (view_step v a) out end.

Definition view (v : option nat) (out : list action) : option nat := foldl view_step v out.

(** The strategy agrees with the view [v]. *)
Definition agrees (s : strategy) (v : option nat) : Prop :=
  (m_index s < pools)%nat /\
  match v with Some i => m_active s = Z.of_nat i /\ m_index s = i | None => m_active s = -1 end.

(** ** The handlers keep to it *)

Lemma actions_ok_app v a b : actions_ok v (a ++ b) <-> actions_ok v a /\ actions_ok (view v a) b.
Proof.
  revert v. induction a as [|x a IH]; intros v; cbn [app actions_ok view foldl]; [tauto|].
  rewrite IH. unfold view. cbn [foldl]. tauto.
Qed.

Lemma view_app v a b : view v (a ++ b) = view (view v a) b.
Proof. apply foldl_app. Qed.

(** What is done to every client of a list, and does not concern the listener. *)
Lemma broadcast_ok (f : nat -> action) v l :
  (forall i w, (i < pools)%nat -> action_ok w (f i) /\ view_step w (f i) = w) ->
  Forall (fun i => (i < pools)%nat) l -> actions_ok v (map f l) /\ view v (map f l) = v.
Proof.
  intros Hf. induction 1 as [|i l Hi _ [IH1 IH2]]; [split; reflexivity || exact I|]. destruct (Hf i v Hi) as [Ha Hv].
  cbn [map actions_ok view foldl]. rewrite Hv. split; [split; [exact Ha | exact IH1] | exact IH2].
Qed.

Lemma disconnects_ok v l : Forall (fun i => (i < pools)%nat) l -> actions_ok v (map Disconnect l) /\ view v (map Disconnect l) = v.
Proof. apply broadcast_ok. intros i w Hi. split; [exact Hi | reflexivity]. Qed.

Lemma all_pools : Forall (fun i => (i < pools)%nat) (seq 0 pools).
Proof. apply Forall_forall. intros i Hin. apply elem_of_seq in Hin. lia. Qed.

Lemma agrees_active s v : agrees s v -> isActive s = match v with Some _ => true | None => false end.
Proof.
  intros [_ H]. unfold isActive. destruct v as [i|]; [destruct H as [-> _]|rewrite H]; [|reflexivity].
  apply Z.leb_le. lia.
Qed.

(** What a handler does is correct and leaves the strategy in agreement. *)
Definition correct (v : option nat) (p : list action * strategy) : Prop :=
  actions_ok v (fst p) /\ agrees (snd p) (view v (fst p)).

Lemma broadcast_correct (f : nat -> action) s v :
  agrees s v -> (forall i w, (i < pools)%nat -> action_ok w (f i) /\ view_step w (f i) = w) -> correct v (map f (seq 0 pools), s).
Proof. intros Hs Hf. destruct (broadcast_ok f v (seq 0 pools) Hf all_pools) as [Ha Hv]. split; cbn [fst snd]; [exact Ha | rewrite Hv; exact Hs]. Qed.

Lemma close_correct id failures s v : agrees s v -> (id < pools)%nat -> correct v (onClose id failures s).
Proof.
  intros Hs Hid. unfold onClose, correct. destruct (failures =? -1); [split; [exact I | exact Hs]|].
  destruct Hs as [Hi Hv].
  assert (H : exists out s1, (if m_active s =? Z.of_nat id then ([OnPause], Strategy (-1) (m_index s)) else ([], s)) = (out, s1) /\
    actions_ok v out /\ agrees s1 (view v out) /\ m_index s1 = m_index s /\
    (m_index s = id -> view v out = None)).
  { destruct (Z.eqb_spec (m_active s) (Z.of_nat id)) as [E|E].
    - eexists _, _. split; [reflexivity|]. split; [split; exact I|]. split; [split; [exact Hi | reflexivity]|].
      split; [reflexivity | intros _; reflexivity].
    - eexists _, _. split; [reflexivity|]. split; [exact I|]. split; [split; assumption|]. split; [reflexivity|].
      intros Ei. cbn. destruct v as [j|]; [|reflexivity]. destruct Hv as [Ha Hj]. congruence. }
  destruct H as (out & s1 & -> & Ha & [Hi1 Hv1] & Ei1 & Hnone).
  destruct (_ && _); [split; [exact Ha | split; assumption]|].
  destruct (Nat.eqb_spec (m_index s1) id) as [E|E]; cbn [andb]; [|split; [exact Ha | split; assumption]].
  destruct (Nat.ltb_spec 1 (pools - m_index s1)); [|split; [exact Ha | split; assumption]].
  cbn [fst snd]. rewrite Hnone in * by congruence. split.
  - apply actions_ok_app. split; [exact Ha|]. split; [cbn; lia | exact I].
  - rewrite view_app, Hnone by congruence. split; cbn [m_index m_active view foldl view_step]; [lia | exact Hv1].
Qed.

Lemma login_correct id s v : agrees s v -> (id < pools)%nat -> correct v (onLoginSuccess id s).
Proof.
  intros Hs Hid. unfold onLoginSuccess, correct. rewrite (agrees_active s v Hs). destruct Hs as [Hi Hv].
  set (active := if _ || _ then Z.of_nat id else m_active s). cbv zeta.
  destruct (disconnects_ok v (filter (fun i => active <> Z.of_nat i) (seq 1 (pools - 1)))) as [Hd Hvd].
  { apply Forall_forall. intros i Hin. apply list_elem_of_filter in Hin as [_ Hin]. apply elem_of_seq in Hin. lia. }
  destruct (Z.leb_spec 0 active) as [H0|H0]; cbn [andb fst snd]; [|split; [exact Hd | rewrite Hvd; split; assumption]].
  destruct (Z.eqb_spec active (m_active s)) as [E|E]; cbn [negb fst snd]; [split; [exact Hd | rewrite Hvd; split; assumption]|].
  assert (Ea : active = Z.of_nat id) by (unfold active in *; destruct (_ || _); [reflexivity | congruence]).
  split.
  - apply actions_ok_app. split; [exact Hd|]. rewrite Hvd. split; [|exact I]. split; [exact Hid|].
    intros ->. destruct Hv as [Hv _]. congruence.
  - rewrite view_app, Hvd. cbn [view foldl view_step]. unfold agrees. cbn [m_index m_active].
    rewrite Ea, Nat2Z.id. auto.
Qed.

Lemma handle_correct e s v :
  agrees s v -> event_ok e -> exists p, handle e s = Some p /\ correct v p.
Proof.
  intros Hs He. pose proof (agrees_active s v Hs) as Hact. destruct Hs as [Hi Hv].
  destruct e as [|current| | |id failures|id j|id|a|a|a|id a|id a|id a]; cbn [handle event_ok] in *;
    try (eexists; split; [reflexivity|]; split; [|split; assumption]; split; [exact He | exact I]).
  - unfold connect. destruct (Nat.ltb_spec (m_index s) pools); [|lia]. eexists. split; [reflexivity|].
    split; [split; [exact Hi | exact I] | split; assumption].
  - eexists. split; [reflexivity|]. unfold resume, correct. rewrite Hact. destruct v as [i|]; cbn [negb fst snd].
    + destruct Hv as [Ha Hix]. split; [|split; [exact Hi | split; assumption]].
      rewrite Ha, Nat2Z.id. split; [reflexivity | exact I].
    + split; [exact I | split; assumption].
  - eexists. split; [reflexivity|]. unfold submit, correct. rewrite Hact. destruct v as [i|]; cbn [negb fst snd].
    + destruct Hv as [Ha Hix]. split; [|split; [exact Hi | split; assumption]].
      rewrite Ha, Nat2Z.id. split; [reflexivity | exact I].
    + split; [exact I | split; assumption].
  - eexists. split; [reflexivity|]. unfold stop, correct. cbn [fst snd].
    destruct (disconnects_ok v (seq 0 pools) all_pools) as [Hd Hvd].
    split; [apply actions_ok_app; split; [exact Hd | split; exact I]|]. rewrite view_app. split; [cbn; lia | reflexivity].
  - eexists. split; [reflexivity|]. apply close_correct; [split; assumption | exact He].
  - eexists. split; [reflexivity|]. unfold onJobReceived, correct.
    destruct (Z.eqb_spec (m_active s) (Z.of_nat id)) as [E|E]; cbn [fst snd]; [|split; [exact I | split; assumption]].
    split; [|split; assumption]. split; [|exact I]. destruct v as [i|]; [|lia]. destruct Hv as [Ha _]. cbn. f_equal. lia.
  - eexists. split; [reflexivity|]. apply login_correct; [split; assumption | exact He].
  - eexists. split; [reflexivity|]. apply broadcast_correct; [split; assumption|]. intros i w Hi'. split; [exact Hi' | reflexivity].
  - eexists. split; [reflexivity|]. apply broadcast_correct; [split; assumption|]. intros i w Hi'. split; [exact Hi' | reflexivity].
  - eexists. split; [reflexivity|]. apply broadcast_correct; [split; assumption|]. intros i w Hi'. split; [exact Hi' | reflexivity].
Qed.

Lemma run_correct es s v :
  agrees s v -> Forall event_ok es -> exists p, run_events es s = Some p /\ correct v p.
Proof.
  intros Hs Hes. revert s v Hs. induction Hes as [|e es He _ IH]; intros s v Hs; cbn [run_events].
  - eexists. split; [reflexivity|]. split; [exact I | exact Hs].
  - destruct (handle_correct e s v Hs He) as ([out s1] & -> & Ha & Hs1). cbn [mbind option_bind fst snd] in *.
    destruct (IH s1 _ Hs1) as ([rest s2] & -> & Hr & Hs2). cbn [mbind option_bind fst snd] in *.
    eexists. split; [reflexivity|]. split; cbn [fst snd].
    + apply actions_ok_app. split; assumption.
    + rewrite view_app. exact Hs2.
Qed.

(** ** Falling through the list *)

Lemma filter_all (P : nat -> Prop) `{forall i, Decision (P i)} (l : list nat) : (forall i, i ∈ l -> P i) -> filter P l = l.
Proof.
  induction l as [|i l IH]; intros Hl; [reflexivity|].
  rewrite filter_cons_True by (apply Hl; left). f_equal. apply IH. intros k Hk. apply Hl. right. exact Hk.
Qed.

Lemma run_events_app es fs s :
  run_events (es ++ fs) s =
  (p ← run_events es s; let '(out, s) := p in
   q ← run_events fs s; let '(rest, s) := q in Some (out ++ rest, s)).
Proof.
  revert s. induction es as [|e es IH]; intros s; cbn [app run_events mbind option_bind].
  - destruct (run_events fs s) as [[rest s']|]; reflexivity.
  - destruct (handle e s) as [[out s1]|]; cbn [mbind option_bind]; [|reflexivity]. rewrite IH.
    destruct (run_events es s1) as [[out1 s2]|]; cbn [mbind option_bind]; [|reflexivity].
    destruct (run_events fs s2) as [[rest s3]|]; cbn [mbind option_bind]; [|reflexivity].
    rewrite app_assoc. reflexivity.
Qed.

(** The pool being tried fails often enough. *)
Lemma close_next i failures :
  (S i < pools)%nat -> failures <> -1 -> (i = 0%nat -> m_retries <= failures) ->
  onClose i failures (Strategy (-1) i) = ([Connect (S i)], Strategy (-1) (S i)).
Proof.
  intros Hi Hf Hr. unfold onClose. destruct (Z.eqb_spec failures (-1)); [contradiction|].
  cbn [m_active m_index]. destruct (Z.eqb_spec (-1) (Z.of_nat i)); [lia|]. cbn [m_active m_index app].
  rewrite Nat.eqb_refl. destruct (Nat.ltb_spec 1 (pools - i)); [|lia]. cbn [andb].
  destruct (Nat.eqb_spec i 0) as [E|]; [|reflexivity].
  specialize (Hr E). destruct (Z.ltb_spec failures m_retries); [lia | reflexivity].
Qed.

Lemma fall_through (f : nat -> Z) j :
  (j < pools)%nat -> (forall i, (i < j)%nat -> f i <> -1) -> ((0 < j)%nat -> m_retries <= f 0%nat) ->
  run_events (map (fun i => EClose i (f i)) (seq 0 j)) initial = Some (map Connect (seq 1 j), Strategy (-1) j).
Proof.
  intros Hj Hf Hr. induction j as [|j IH]; [reflexivity|].
  rewrite !seq_S, !map_app, run_events_app, IH by (intros; try apply Hf; try apply Hr; lia).
  cbn [mbind option_bind map run_events handle Nat.add].
  rewrite close_next by (try apply Hf; try lia; intros ->; apply Hr; lia). reflexivity.
Qed.

End Failover.

(** * Choosing a pool: the properties *)

(** ** Properties *)

(** C12: with at least one pool, for every sequence of events of its clients
    the strategy keeps to the listener's view: jobs and results are those of
    the pool last announced as active, a pool is announced only when it was not
    the active one, every action is on a pool of the list, and the state always
    says which pool is active and stays inside the list. *)
Theorem failover_refines_view (job arg : Type) pools m_retries (es : list (event (job := job) (arg := arg))) :
  (0 < pools)%nat -> Forall (event_ok pools) es ->
  exists out s, run_events pools m_retries es initial = Some (out, s) /\
    actions_ok pools None out /\ agrees pools s (view None out).
Proof.
  intros Hp Hes. destruct (run_correct pools m_retries es initial None) as ([out s] & E & Ha & Hs).
  - split; [exact Hp | reflexivity].
  - exact Hes.
  - exists out, s. split; [exact E | split; assumption].
Qed.

(** C13: when the pools before pool j fail, the primary one at least
    [m_retries] times, the strategy connects the pools in turn up to j, makes j
    active when it logs in and disconnects the others; when the primary pool
    logs in later it takes over. *)
Theorem failover_reaches_pool (job arg : Type) pools m_retries j (f : nat -> Z) :
  (j < pools)%nat -> (forall i, (i < j)%nat -> f i <> -1) -> ((0 < j)%nat -> m_retries <= f 0%nat) ->
  run_events (job := job) (arg := arg) pools m_retries
    (EConnect :: map (fun i => EClose i (f i)) (seq 0 j) ++ [ELogin j]) initial =
  Some (map Connect (seq 0 (S j)) ++
        map Disconnect (filter (fun i => i <> j) (seq 1 (pools - 1))) ++ [OnActive j],
        Strategy (Z.of_nat j) j) /\
  (j <> 0%nat -> onLoginSuccess (job := job) (arg := arg) pools 0 (Strategy (Z.of_nat j) j) =
    (map Disconnect (seq 1 (pools - 1)) ++ [OnActive 0%nat], Strategy 0 0)).
Proof.
  intros Hj Hf Hr. split.
  - cbn [run_events handle]. unfold connect. cbn [m_index initial].
    destruct (Nat.ltb_spec 0 pools); [|lia]. cbn [mbind option_bind].
    change (Strategy (-1) 0) with initial. rewrite run_events_app, fall_through by assumption.
    cbn [mbind option_bind run_events handle]. unfold onLoginSuccess, isActive. cbn [m_active m_index].
    rewrite orb_true_r. destruct (Z.leb_spec 0 (Z.of_nat j)); [|lia].
    destruct (Z.eqb_spec (Z.of_nat j) (-1)); [lia|]. cbn [negb andb mbind option_bind].
    rewrite Nat2Z.id, !app_nil_r. cbn [seq map app]. do 2 f_equal. f_equal. f_equal. f_equal. f_equal.
    apply list_filter_iff. intros i. lia.
  - intros Hne. unfold onLoginSuccess. cbn [Nat.eqb orb m_active].
    destruct (Z.eqb_spec (Z.of_nat 0) (Z.of_nat j)); [lia|]. cbn [negb andb Z.leb Z.of_nat Z.compare Z.to_nat].
    do 3 f_equal. rewrite filter_all; [reflexivity|]. intros i Hi. apply elem_of_seq in Hi. lia.
Qed.

(** ** Witnesses *)

(** A backup takes over, then the primary pool comes back. *)
Definition sample_events : list (event (job := Z) (arg := Z)) :=
  [ESetAlgo 3; EConnect; EClose 0 5; EClientLogin 1 4; ELogin 1; EJob 1 7; EJob 0 8; ETick 6; EResume (fun _ => 9); ELogin 0; ESubmit; EResult 0 1; EStop].

Lemma failover_refines_view_witness :
  exists out s, run_events 2 5 sample_events initial = Some (out, s) /\
    actions_ok 2 None out /\ agrees 2 s (view None out).
Proof. apply (failover_refines_view Z Z 2 5 sample_events); [lia | repeat constructor; cbn; lia]. Defined.

Lemma failover_reaches_pool_witness :
  run_events (job := Z) (arg := Z) 3 5 [EConnect; EClose 0 5; EClose 1 1; ELogin 2] initial =
    Some ([Connect 0; Connect 1; Connect 2; Disconnect 1; OnActive 2], Strategy 2 2)%nat /\
  (2%nat <> 0%nat -> onLoginSuccess (job := Z) (arg := Z) 3 0 (Strategy 2 2) =
    ([Disconnect 1; Disconnect 2; OnActive 0], Strategy 0 0)%nat).
Proof.
  apply (failover_reaches_pool Z Z 3 5 2 (fun i => match i with O => 5 | _ => 1 end)).
  - lia.
  - intros [|i] _; discriminate.
  - intros _. reflexivity.
Defined.
