(* ===== verification/BlobReader.v ===== *)
(** * Reading binary blobs

    base/tools/cryptonote/BlobReader.h: bytes, varints, arrays and spans read
    in turn from a region of memory.  The bounds check adds a length that comes
    from the data to the index, in 64 bits, so it is a parameter here: [wraps]
    is the check of the code, [exact] the same check without the overflow. *)

From S2P Require Import Prelude.
From S2P Require Import CInt.
From S2P Require Import Bytes.

(** ** Outcomes *)

(** What has no defined behaviour: a shift by 64 bits or more, and an access
    outside an object. *)
Inductive fault := OverlongShift | ReadOutside | WriteOutside.

(** [Throws]: an exception; the one of [outOfRange()] is a result of false when
    EXCEPTIONS is false, and every caller then gives up.  [Running]: the fuel of
    a loop ran out. *)
Inductive result (A : Type) :=
  | Ok (a : A)
  | Throws
  | Fault (u : fault)
  | Running.
#[global] Arguments Ok {A} a.
#[global] Arguments Throws {A}.
#[global] Arguments Fault {A} u.
#[global] Arguments Running {A}.

#[export] Instance result_ret : MRet result := fun A a => Ok a.
#[export] Instance result_bind : MBind result := fun A B k m =>
  match m with Ok a => k a | Throws => Throws | Fault u => Fault u | Running => Running end.

(** ** The reader *)

(** [m_data] is an offset into the memory the region lies in. *)
Record BlobReader := MkBlobReader { m_size : Z; m_data : Z; m_index : Z }.

Definition set_index (r : BlobReader) (i : Z) : BlobReader := MkBlobReader (m_size r) (m_data r) i.
Definition remaining (r : BlobReader) : Z := to_u64 (m_size r - m_index r).

(** The bytes [mem[p], ..., mem[p + n - 1]]. *)
Definition read_mem (mem : list Z) (p n : Z) : result (list Z) :=
  if (0 <=? p) && (p + n <=? Z.of_nat (length mem))
  then Ok (take (Z.to_nat n) (drop (Z.to_nat p) mem)) else Fault ReadOutside.

Definition write_mem (mem : list Z) (p : Z) (s : list Z) : result (list Z) :=
  if (0 <=? p) && (p + Z.of_nat (length s) <=? Z.of_nat (length mem))
  then Ok (take (Z.to_nat p) mem ++ s ++ drop (Z.to_nat p + length s) mem) else Fault WriteOutside.

(** [m_index + n > m_size], in [size_t] and in the integers. *)
Definition wraps (index n size : Z) : bool := size <? to_u64 (index + n).
Definition exact (index n size : Z) : bool := size <? index + n.

Section BlobReader.
Variable beyond : Z -> Z -> Z -> bool.
Variable mem : list Z.

Definition skip (n : Z) (r : BlobReader) : result BlobReader :=
  if beyond (m_index r) n (m_size r) then Throws
  else Ok (set_index r (to_u64 (m_index r + n))).

(** [operator()(uint8_t(&data)[N])]. *)
Definition read_array (n : Z) (r : BlobReader) : result (list Z * BlobReader) :=
  if beyond (m_index r) n (m_size r) then Throws
  else
    data ← read_mem mem (m_data r + m_index r) n;
    Ok (data, set_index r (to_u64 (m_index r + n))).

(** [operator()(T &data, size_t n)] for a span: its start and its size. *)
Definition read_span (n : Z) (r : BlobReader) : result (Z * Z * BlobReader) :=
  if beyond (m_index r) n (m_size r) then Throws
  else Ok (m_data r + m_index r, n, set_index r (to_u64 (m_index r + n))).

Definition getByte (r : BlobReader) : result (Z * BlobReader) :=
  if m_size r <=? m_index r then Throws
  else
    data ← read_mem mem (m_data r + m_index r) 1;
    Ok (hd 0 data, set_index r (to_u64 (m_index r + 1))).

(** The loop of [getVarint]; the shift is undefined from the eleventh byte. *)
Fixpoint varint_loop (fuel : nat) (shift acc : Z) (r : BlobReader) : result (Z * BlobReader) :=
  match fuel with
  | O => p ← getByte r; Fault OverlongShift
  | S fuel =>
      p ← getByte r; let '(t, r) := p in
      let acc := Z.lor acc (to_u64 (Z.shiftl (Z.land t 0x7F) shift)) in
      if Z.land t 0x80 =? 0 then Ok (acc, r) else varint_loop fuel (shift + 7) acc r
  end.

(** Ten bytes have the shifts 0, 7, ..., 63. *)
Definition getVarint (r : BlobReader) : result (Z * BlobReader) := varint_loop 10 0 0 r.

End BlobReader.

(** ** Specification: the encoding of integers *)

Fixpoint varint (fuel : nat) (v : Z) : list Z :=
  match fuel with
  | O => []
  | S fuel => if v <? 128 then [v] else v mod 128 + 128 :: varint fuel (v / 128)
  end.

(** The encoding of a 64-bit integer. *)
Definition u64 (v : Z) : Prop := 0 <= v < 2 ^ 64.
Definition put (v : Z) : list Z := varint 10 v.

Lemma varint_length fuel v : (length (varint fuel v) <= fuel)%nat.
Proof.
  revert v. induction fuel as [|fuel IH]; intros v; cbn [varint]; [cbn; lia|].
  destruct (v <? 128); cbn [length]; [lia|]. specialize (IH (v / 128)). lia.
Qed.

Lemma varint_bytes fuel v : 0 <= v -> is_bytes (varint fuel v).
Proof.
  revert v. induction fuel as [|fuel IH]; intros v Hv; cbn [varint]; [constructor|].
  destruct (Z.ltb_spec v 128); [repeat constructor; unfold is_byte; lia|].
  pose proof (Z.mod_pos_bound v 128). pose proof (Z.div_pos v 128).
  constructor; [unfold is_byte; lia | apply IH; lia].
Qed.

(** ** Memory *)

Lemma read_mem_ok mem p n :
  0 <= p -> p + n <= Z.of_nat (length mem) ->
  read_mem mem p n = Ok (take (Z.to_nat n) (drop (Z.to_nat p) mem)).
Proof.
  intros Hp Hn. unfold read_mem. destruct (Z.leb_spec 0 p); [|lia].
  destruct (Z.leb_spec (p + n) (Z.of_nat (length mem))); [reflexivity | lia].
Qed.

Lemma write_mem_ok mem p s :
  0 <= p -> p + Z.of_nat (length s) <= Z.of_nat (length mem) ->
  write_mem mem p s = Ok (take (Z.to_nat p) mem ++ s ++ drop (Z.to_nat p + length s) mem).
Proof.
  intros Hp Hn. unfold write_mem. destruct (Z.leb_spec 0 p); [|lia].
  destruct (Z.leb_spec (p + Z.of_nat (length s)) (Z.of_nat (length mem))); [reflexivity | lia].
Qed.

(** ** Readers inside their memory *)

(** The region lies in the memory, which is smaller than half the address
    space. *)
Definition region (mem : list Z) (r : BlobReader) : Prop :=
  0 <= m_data r /\ 0 <= m_index r <= m_size r /\
  m_data r + m_size r <= Z.of_nat (length mem) /\ Z.of_nat (length mem) < 2 ^ 63.

(** What lies ahead of the reader. *)
Definition pending (mem : list Z) (r : BlobReader) : list Z := drop (Z.to_nat (m_data r + m_index r)) mem.

Definition advance (r : BlobReader) (n : Z) : BlobReader := set_index r (m_index r + n).

Lemma advance_advance r a b : advance (advance r a) b = advance r (a + b).
Proof. unfold advance, set_index. cbn. f_equal. lia. Qed.

Lemma region_advance mem r n :
  region mem r -> 0 <= n -> m_index r + n <= m_size r -> region mem (advance r n).
Proof. unfold region, advance, set_index. cbn [m_data m_index m_size]. lia. Qed.

Lemma pending_advance mem r n :
  region mem r -> 0 <= n -> pending mem (advance r n) = drop (Z.to_nat n) (pending mem r).
Proof.
  unfold region, pending, advance, set_index. cbn [m_data m_index]. intros H Hn.
  rewrite skipn_skipn. f_equal. lia.
Qed.

Lemma pending_length mem r : region mem r -> m_size r - m_index r <= Z.of_nat (length (pending mem r)).
Proof. unfold region, pending. intros H. rewrite length_drop. lia. Qed.

Lemma set_index_advance mem r n :
  region mem r -> 0 <= n -> m_index r + n <= m_size r -> set_index r (to_u64 (m_index r + n)) = advance r n.
Proof. unfold region, advance. intros H Hn Hi. rewrite to_u64_id by lia. reflexivity. Qed.

(** ** The operations *)

(** With the exact check, an operation advances by [n] or throws. *)
Lemma exact_spec mem r n : region mem r -> exact (m_index r) n (m_size r) = negb (m_index r + n <=? m_size r).
Proof. intros _. unfold exact. rewrite Z.ltb_antisym. reflexivity. Qed.

Lemma skip_exact mem r n :
  region mem r -> 0 <= n ->
  skip exact n r = (if m_index r + n <=? m_size r then Ok (advance r n) else Throws).
Proof.
  intros Hr Hn. unfold skip. rewrite (exact_spec mem r n Hr).
  destruct (Z.leb_spec (m_index r + n) (m_size r)); cbn [negb]; [|reflexivity].
  rewrite (set_index_advance mem) by (assumption || lia). reflexivity.
Qed.

Lemma read_span_exact mem r n :
  region mem r -> 0 <= n ->
  read_span exact n r =
  (if m_index r + n <=? m_size r then Ok (m_data r + m_index r, n, advance r n) else Throws).
Proof.
  intros Hr Hn. unfold read_span. rewrite (exact_spec mem r n Hr).
  destruct (Z.leb_spec (m_index r + n) (m_size r)); cbn [negb]; [|reflexivity].
  rewrite (set_index_advance mem) by (assumption || lia). reflexivity.
Qed.

Lemma read_array_exact mem r n :
  region mem r -> 0 <= n ->
  read_array exact mem n r =
  (if m_index r + n <=? m_size r then Ok (take (Z.to_nat n) (pending mem r), advance r n) else Throws).
Proof.
  intros Hr Hn. unfold read_array. rewrite (exact_spec mem r n Hr).
  destruct (Z.leb_spec (m_index r + n) (m_size r)); cbn [negb]; [|reflexivity].
  rewrite read_mem_ok by (unfold region in Hr; lia). cbn [mbind result_bind].
  rewrite (set_index_advance mem) by (assumption || lia). reflexivity.
Qed.

Lemma getByte_spec mem r :
  region mem r ->
  getByte mem r = (if m_index r + 1 <=? m_size r then Ok (hd 0 (pending mem r), advance r 1) else Throws).
Proof.
  intros Hr. unfold getByte. replace (m_size r <=? m_index r) with (negb (m_index r + 1 <=? m_size r)) by lia.
  destruct (Z.leb_spec (m_index r + 1) (m_size r)); cbn [negb]; [|reflexivity].
  rewrite read_mem_ok by (unfold region in Hr; lia). cbn [mbind result_bind].
  rewrite (set_index_advance mem) by (assumption || lia).
  f_equal. f_equal. pose proof (pending_length mem r Hr) as Hl. unfold pending in *.
  destruct (drop _ mem) as [|b s]; [cbn in Hl; lia | reflexivity].
Qed.

(** ** Varints *)

Lemma varint_loop_cases mem fuel shift acc r :
  region mem r -> 0 <= acc < 2 ^ 64 -> 0 <= shift ->
  (exists v n, varint_loop mem fuel shift acc r = Ok (v, advance r n) /\ 0 <= v < 2 ^ 64 /\
     1 <= n /\ m_index r + n <= m_size r) \/
  varint_loop mem fuel shift acc r = Throws \/ varint_loop mem fuel shift acc r = Fault OverlongShift.
Proof.
  revert shift acc r. induction fuel as [|fuel IH]; intros shift acc r Hr Hacc Hs; cbn [varint_loop];
    rewrite getByte_spec by exact Hr;
    (destruct (Z.leb_spec (m_index r + 1) (m_size r)); cbn [mbind result_bind]; [|auto]).
  - auto.
  - set (t := hd 0 _). set (acc' := Z.lor acc _).
    assert (Hacc' : 0 <= acc' < 2 ^ 64).
    { unfold acc'. split; [apply Z.lor_nonneg; split; [lia | apply Z.mod_pos_bound; lia]|].
      apply Z.log2_lt_cancel. rewrite Z.log2_pow2 by lia. rewrite Z.log2_lor by (try apply Z.mod_pos_bound; lia).
      assert (forall z, 0 <= z < 2 ^ 64 -> Z.log2 z < 64) as Hlog.
      { intros z Hz. destruct (Z.eq_dec z 0) as [->|]; [cbn; lia | apply Z.log2_lt_pow2; lia]. }
      apply Z.max_lub_lt; [apply Hlog; exact Hacc | apply Hlog; apply Z.mod_pos_bound; lia]. }
    destruct (_ =? 0).
    + left. exists acc', 1. repeat split; lia || reflexivity.
    + destruct (IH (shift + 7) acc' (advance r 1)) as [(v & n & E & Hv & Hn & Hi) | [E|E]];
        [apply region_advance; (assumption || lia) | exact Hacc' | lia | | rewrite E; auto | rewrite E; auto].
      left. exists v, (1 + n). rewrite E, advance_advance. cbn [advance set_index m_index m_size] in Hi.
      repeat split; lia || reflexivity.
Qed.

Lemma getVarint_cases mem r :
  region mem r ->
  (exists v n, getVarint mem r = Ok (v, advance r n) /\ 0 <= v < 2 ^ 64 /\ 1 <= n /\ m_index r + n <= m_size r) \/
  getVarint mem r = Throws \/ getVarint mem r = Fault OverlongShift.
Proof. intros Hr. apply varint_loop_cases; [exact Hr | lia | lia]. Qed.

(** One byte of an encoding. *)
Lemma varint_step acc b v shift :
  0 <= shift -> 0 <= acc < 2 ^ shift -> 0 <= b < 128 -> 0 <= v -> acc + (b + 128 * v) * 2 ^ shift < 2 ^ 64 ->
  Z.lor acc (to_u64 (Z.shiftl b shift)) = acc + b * 2 ^ shift /\
  0 <= acc + b * 2 ^ shift < 2 ^ (shift + 7) /\
  acc + (b + 128 * v) * 2 ^ shift = acc + b * 2 ^ shift + v * 2 ^ (shift + 7).
Proof.
  intros Hs Ha Hb Hv Hlt. rewrite Z.pow_add_r by lia. change (2 ^ 7) with 128.
  assert (0 <= b * 2 ^ shift < 2 ^ 64) by nia.
  rewrite Z.shiftl_mul_pow2, to_u64_id by (assumption || lia).
  rewrite <- (Z.shiftl_mul_pow2 b) at 1 by assumption. rewrite lor_shiftl_add by assumption.
  assert (b * 2 ^ shift <= 127 * 2 ^ shift) by (apply Z.mul_le_mono_nonneg_r; lia).
  split; [reflexivity|]. split; [lia | ring].
Qed.

(** The bits of a byte that ends a varint, and of one that does not. *)
Lemma varint_last b : 0 <= b < 128 -> Z.land b 0x7F = b /\ Z.land b 0x80 =? 0 = true.
Proof.
  intros Hb.
  assert (H : forallb (fun n => let b := Z.of_nat n in (Z.land b 0x7F =? b) && (Z.land b 0x80 =? 0)) (seq 0 128) = true)
    by eval_closed.
  pose proof (forallb_seq_spec _ _ H (Z.to_nat b)) as Hd. cbv beta zeta in Hd. rewrite Z2Nat.id in Hd by lia.
  destruct (andb_prop _ _ (Hd ltac:(lia))) as [H1 H2]. split; [lia | exact H2].
Qed.

Lemma varint_more b : 0 <= b < 128 -> Z.land (b + 128) 0x7F = b /\ Z.land (b + 128) 0x80 =? 0 = false.
Proof.
  intros Hb.
  assert (H : forallb (fun n => let b := Z.of_nat n in
      (Z.land (b + 128) 0x7F =? b) && negb (Z.land (b + 128) 0x80 =? 0)) (seq 0 128) = true) by eval_closed.
  pose proof (forallb_seq_spec _ _ H (Z.to_nat b)) as Hd. cbv beta zeta in Hd. rewrite Z2Nat.id in Hd by lia.
  destruct (andb_prop _ _ (Hd ltac:(lia))) as [H1 H2]. split; [lia | apply negb_true_iff, H2].
Qed.

Lemma varint_loop_decodes mem fuel shift acc r v s :
  region mem r -> (0 < fuel)%nat -> 0 <= shift -> 0 <= acc < 2 ^ shift -> 0 <= v < 2 ^ (7 * Z.of_nat fuel) ->
  acc + v * 2 ^ shift < 2 ^ 64 -> pending mem r = varint fuel v ++ s ->
  m_index r + Z.of_nat (length (varint fuel v)) <= m_size r ->
  varint_loop mem fuel shift acc r =
  Ok (acc + v * 2 ^ shift, advance r (Z.of_nat (length (varint fuel v)))).
Proof.
  revert shift acc r v. induction fuel as [|fuel IH]; intros shift acc r v Hr Hf Hs Hacc Hv Hlt Hp Hi; [lia|].
  cbn [varint_loop]. cbn [varint] in Hp, Hi |- *. rewrite getByte_spec by exact Hr.
  rewrite Nat2Z.inj_succ in Hv. replace (7 * Z.succ (Z.of_nat fuel)) with (7 * Z.of_nat fuel + 7) in Hv by lia.
  rewrite Z.pow_add_r in Hv by lia. change (2 ^ 7) with 128 in Hv.
  destruct (Z.ltb_spec v 128) as [Hv128|Hv128]; cbn [length app] in *;
    (destruct (Z.leb_spec (m_index r + 1) (m_size r)); [|lia]); cbn [mbind result_bind]; rewrite Hp; cbn [hd].
  - destruct (varint_last v ltac:(lia)) as [-> ->].
    destruct (varint_step acc v 0 shift) as (-> & _ & _); [lia | lia | lia | lia | lia|]. reflexivity.
  - set (q := v / 128) in *. set (b := v mod 128) in *.
    pose proof (Z.mod_pos_bound v 128 eq_refl) as Hb. pose proof (Z.div_mod v 128 ltac:(lia)) as Ev. fold q b in Hb, Ev.
    destruct (varint_more b Hb) as [-> ->]. replace v with (b + 128 * q) in Hlt by lia.
    destruct (varint_step acc b q shift) as (-> & Hacc' & Eacc); [lia | lia | lia | lia | exact Hlt|].
    rewrite (IH (shift + 7) _ (advance r 1) q); [| | | lia | exact Hacc' | lia | lia | |].
    + rewrite advance_advance, <- Eacc. f_equal. f_equal; [f_equal; f_equal; lia | f_equal; lia].
    + apply region_advance; assumption || lia.
    + destruct fuel; [cbn in Hv|]; lia.
    + rewrite (pending_advance mem), Hp by (assumption || lia). reflexivity.
    + cbn [advance set_index m_index m_size]. lia.
Qed.

Lemma getVarint_decodes mem r v s :
  region mem r -> 0 <= v < 2 ^ 64 -> pending mem r = varint 10 v ++ s ->
  m_index r + Z.of_nat (length (varint 10 v)) <= m_size r ->
  getVarint mem r = Ok (v, advance r (Z.of_nat (length (varint 10 v)))).
Proof.
  intros Hr Hv Hp Hi. unfold getVarint.
  rewrite (varint_loop_decodes mem 10 0 0 r v s Hr); [| lia | lia | cbn; lia | cbn in *; lia | lia | exact Hp | exact Hi].
  f_equal. f_equal. lia.
Qed.
