(* ===== verification/MerkleTree.v ===== *)
(** * The tree of the transaction hashes

    [calculateMinerTxHash], [calculateRootHash] and [calculateMerkleTreeHash]
    of base/tools/cryptonote/BlockTemplate.cpp: the root of the tree over the
    hashes of a block, computed in place in a buffer, and the branch of its
    first leaf, the transaction that pays the miner.  Buffers are byte strings
    and every access is checked. *)

From S2P Require Import Prelude.
From S2P Require Import CInt.
From S2P Require Import Bytes.
From S2P Require Import Signatures.
From S2P Require Import BlobReader.

Definition kHashSize : Z := 32.

Section MerkleTree.
Context `{Digest32}.

(** [keccak(s, length, out, kHashSize)]; the hash is defined on every string. *)
Definition hash_of (s : list Z) : result (list Z) :=
  match digest s with Some d => Ok d | None => Fault ReadOutside end.

(** ** The transaction of the miner *)

Definition known_second_hash : list Z :=
  [188; 54; 120; 158; 122; 30; 40; 20; 54; 70; 66; 41; 130; 143; 129; 125;
   102; 18; 247; 180; 119; 214; 101; 145; 255; 150; 169; 224; 100; 188; 201; 138].

(** The three parts of [hashes]; the prefix is the bytes between the pointers. *)
Definition calculateMinerTxHash (prefix : list Z) : result (list Z) :=
  h ← hash_of prefix;
  hash_of (h ++ known_second_hash ++ repeat 0 (Z.to_nat kHashSize)).

Fixpoint root_loop (fuel : nat) (i : Z) (branch root : list Z) : result (list Z) :=
  match fuel with
  | O => Running
  | S fuel =>
      if i <? Z.of_nat (length branch) then
        b ← read_mem branch i kHashSize;
        root ← hash_of (root ++ b);
        root_loop fuel (i + kHashSize) branch root
      else Ok root
  end.

Definition calculateRootHash (prefix branch : list Z) : result (list Z) :=
  root ← calculateMinerTxHash prefix;
  root_loop (S (length branch)) 0 branch root.

(** ** The tree *)

(** [for (i = 0, cnt = 1; cnt <= count; ++i, cnt <<= 1) {}]. *)
Fixpoint count_levels (fuel : nat) (count i cnt : Z) : result (Z * Z) :=
  match fuel with
  | O => Running
  | S fuel => if cnt <=? count then count_levels fuel count (i + 1) (to_u64 (2 * cnt)) else Ok (i, cnt)
  end.

(** [n] turns of a loop that hashes pairs of [h], or of [ints] itself, into
    [ints]. *)
Fixpoint pair_hashes (n : nat) (h : option (list Z)) (i j : Z) (branch ints : list Z) : result (list Z * list Z) :=
  match n with
  | O => Ok (branch, ints)
  | S n =>
      let src := default ints h in
      branch ← (if i =? 0 then b ← read_mem src kHashSize kHashSize; Ok (branch ++ b) else Ok branch);
      s ← read_mem src (i * kHashSize) (kHashSize * 2);
      d ← hash_of s;
      ints ← write_mem ints (j * kHashSize) d;
      pair_hashes n h (i + 2) (j + 1) branch ints
  end.

(** [while (cnt > 2)]. *)
Fixpoint fold_levels (fuel : nat) (cnt : Z) (branch ints : list Z) : result (list Z * list Z) :=
  match fuel with
  | O => Running
  | S fuel =>
      if 2 <? cnt then
        let cnt := Z.shiftr cnt 1 in
        p ← pair_hashes (Z.to_nat cnt) None 0 0 branch ints; let '(branch, ints) := p in
        fold_levels fuel cnt branch ints
      else Ok (branch, ints)
  end.

(** From [m_numHashes] and [m_hashes], the branch and the root.  A count of 0,
    the overflow of the addition, makes [reserve] throw. *)
Definition calculateMerkleTreeHash (numHashes : Z) (h : list Z) : result (list Z * list Z) :=
  let count := to_u64 (numHashes + 1) in
  if count =? 1 then root ← read_mem h 0 kHashSize; Ok ([], root)
  else if count =? 2 then
    branch ← read_mem h kHashSize kHashSize;
    s ← read_mem h 0 (kHashSize * 2);
    root ← hash_of s;
    Ok (branch, root)
  else
    p ← count_levels 65 count 0 1; let '(i, cnt) := p in
    let cnt := Z.shiftr cnt 1 in
    if i =? 0 then Throws
    else
      first ← read_mem h 0 ((cnt * 2 - count) * kHashSize);
      ints ← write_mem (repeat 0 (Z.to_nat (cnt * kHashSize))) 0 first;
      let j := cnt * 2 - count in
      p ← pair_hashes (Z.to_nat (cnt - j)) (Some h) j j [] ints; let '(branch, ints) := p in
      p ← fold_levels 65 cnt branch ints; let '(branch, ints) := p in
      b ← read_mem ints kHashSize kHashSize;
      s ← read_mem ints 0 (kHashSize * 2);
      root ← hash_of s;
      Ok (branch ++ b, root).

End MerkleTree.

(** * The tree of the transaction hashes: correctness

    The buffers of MerkleTree.v as lists of hashes, the tree as a recursive
    definition, and the loops that compute its root and the branch of its first
    leaf. *)

Section MerkleTreeOk.
Context `{Digest32}.

Definition hash (s : list Z) : list Z := default [] (digest s).
Definition is_hash (s : list Z) : Prop := bytes_of 32 s.
Notation hashes := (Forall is_hash).

Lemma hash_of_ok s : is_bytes s -> hash_of s = Ok (hash s) /\ is_hash (hash s).
Proof.
  intros Hs. destruct (digest_bytes s Hs) as (d & E & Hd). unfold hash_of, hash. rewrite E. auto.
Qed.

Lemma hash_pair a b : is_hash a -> is_hash b -> hash_of (a ++ b) = Ok (hash (a ++ b)) /\ is_hash (hash (a ++ b)).
Proof. intros [Ha _] [Hb _]. apply hash_of_ok, Forall_app. auto. Qed.

(** ** The tree *)

(** The root of the complete tree over [2 ^ m] hashes. *)
Fixpoint tree_root (m : nat) (l : list (list Z)) : list Z :=
  match m with
  | O => hd [] l
  | S m => hash (tree_root m (take (2 ^ m) l) ++ tree_root m (drop (2 ^ m) l))
  end.

(** One level, from the leaves up. *)
Fixpoint pairs (l : list (list Z)) : list (list Z) :=
  match l with
  | a :: b :: l => hash (a ++ b) :: pairs l
  | _ => []
  end.

(** The last [2 n] of [n] more than a power of two hashes are paired. *)
Definition first_level (l : list (list Z)) : list (list Z) :=
  let cnt := (2 ^ Nat.log2 (length l))%nat in
  take (2 * cnt - length l) l ++ pairs (drop (2 * cnt - length l) l).

Definition merkle_root (l : list (list Z)) : list Z := tree_root (Nat.log2 (length l)) (first_level l).

(** The root a branch gives to a leaf. *)
Definition climb (leaf : list Z) (branch : list (list Z)) : list Z := foldl (fun r b => hash (r ++ b)) leaf branch.

(** ** Level by level *)

Fixpoint level_root (m : nat) (l : list (list Z)) : list Z :=
  match m with O => hd [] l | S m => level_root m (pairs l) end.

Fixpoint side (m : nat) (l : list (list Z)) : list (list Z) :=
  match m with O => [] | S m => nth 1 l [] :: side m (pairs l) end.

Lemma list_pair_ind (P : list (list Z) -> Prop) :
  P [] -> (forall a, P [a]) -> (forall a b l, P l -> P (a :: b :: l)) -> forall l, P l.
Proof.
  intros H0 H1 H2 l. enough (P l /\ forall a, P (a :: l)) as [Hl _] by exact Hl.
  induction l as [|b l [IH1 IH2]]; [auto|]. split; [apply IH2 | intros a; apply H2, IH1].
Qed.

Lemma pairs_length l : length (pairs l) = (length l / 2)%nat.
Proof.
  induction l as [|a|a b l IH] using list_pair_ind; [reflexivity | reflexivity|].
  cbn [pairs length]. rewrite IH. replace (S (S (length l))) with (1 * 2 + length l)%nat by lia.
  rewrite Nat.div_add_l by lia. reflexivity.
Qed.

Lemma pairs_app k l1 l2 : length l1 = (2 * k)%nat -> pairs (l1 ++ l2) = pairs l1 ++ pairs l2.
Proof.
  revert l1. induction k as [|k IH]; intros l1 Hl.
  - destruct l1; [reflexivity | discriminate].
  - destruct l1 as [|a [|b l1]]; cbn in Hl; [lia | lia|]. cbn [app pairs]. f_equal. apply IH. lia.
Qed.

Lemma pairs_hashes l : hashes l -> hashes (pairs l).
Proof.
  induction l as [|a|a b l IH] using list_pair_ind; intros Hl; [constructor | constructor|].
  apply Forall_cons in Hl as [Ha Hl]. apply Forall_cons in Hl as [Hb Hl].
  constructor; [apply hash_pair; assumption | apply IH, Hl].
Qed.

(** The two definitions of the root agree. *)
Lemma tree_root_pairs m l : length l = (2 ^ S m)%nat -> tree_root (S m) l = tree_root m (pairs l).
Proof.
  revert l. induction m as [|m IH]; intros l Hl.
  - destruct l as [|a [|b [|c l]]]; cbn in Hl; try lia. reflexivity.
  - change (tree_root (S (S m)) l) with (hash (tree_root (S m) (take (2 ^ S m) l) ++ tree_root (S m) (drop (2 ^ S m) l))).
    change (2 ^ S (S m))%nat with (2 * 2 ^ S m)%nat in Hl.
    rewrite !IH by (rewrite ?length_take, ?length_drop; lia). cbn [tree_root].
    rewrite <- (firstn_skipn (2 ^ S m) l) at 3 4. rewrite (pairs_app (2 ^ m)) by (rewrite length_take; cbn in *; lia).
    assert (Lp : length (pairs (take (2 ^ S m) l)) = (2 ^ m)%nat).
    { rewrite pairs_length, length_take, Nat.min_l by lia. cbn [Nat.pow]. rewrite Nat.mul_comm. apply Nat.div_mul. lia. }
    rewrite take_app_length', drop_app_length' by (symmetry; exact Lp). reflexivity.
Qed.

Lemma level_root_tree m l : length l = (2 ^ m)%nat -> level_root m l = tree_root m l.
Proof.
  revert l. induction m as [|m IH]; intros l Hl; [reflexivity|]. rewrite tree_root_pairs by exact Hl. cbn [level_root].
  apply IH. rewrite pairs_length, Hl. cbn [Nat.pow]. rewrite Nat.mul_comm. apply Nat.div_mul. lia.
Qed.

Lemma two_hashes m (l : list (list Z)) : length l = (2 ^ S m)%nat -> exists a b l', l = a :: b :: l'.
Proof.
  intros Hl. pose proof (Nat.pow_nonzero 2 m ltac:(lia)). rewrite Nat.pow_succ_r' in Hl.
  destruct l as [|a [|b l]]; cbn [length] in Hl; [lia | lia | eauto].
Qed.

Lemma pairs_pow m l : length l = (2 ^ S m)%nat -> length (pairs l) = (2 ^ m)%nat.
Proof. intros Hl. rewrite pairs_length, Hl, Nat.pow_succ_r', Nat.mul_comm. apply Nat.div_mul. lia. Qed.

Lemma side_climbs m l : length l = (2 ^ m)%nat -> climb (hd [] l) (side m l) = level_root m l.
Proof.
  revert l. induction m as [|m IH]; intros l Hl; [reflexivity|]. cbn [side level_root].
  rewrite <- (IH _ (pairs_pow _ _ Hl)). destruct (two_hashes _ _ Hl) as (a & b & l' & ->). reflexivity.
Qed.

(** ** Buffers of hashes *)

Lemma concat_length l : hashes l -> length (concat l) = (32 * length l)%nat.
Proof.
  induction 1 as [|a l [_ Ha] _ IH]; [reflexivity|]. cbn [concat length]. rewrite length_app, Ha, IH. lia.
Qed.

Lemma concat_drop k l : hashes l -> drop (32 * k) (concat l) = concat (drop k l).
Proof.
  intros Hl. revert k. induction Hl as [|a l [_ Ha] Hl IH]; intros k; [cbn [concat]; rewrite !drop_nil; reflexivity|].
  destruct k as [|k]; [reflexivity|]. cbn [concat drop]. rewrite <- IH.
  rewrite drop_app_ge by lia. f_equal. lia.
Qed.

Lemma concat_take k l : hashes l -> take (32 * k) (concat l) = concat (take k l).
Proof.
  intros Hl. revert k. induction Hl as [|a l [_ Ha] Hl IH]; intros k; [cbn [concat]; rewrite !take_nil; reflexivity|].
  destruct k as [|k]; [reflexivity|]. cbn [concat take]. rewrite <- IH.
  rewrite take_app_ge by lia. do 2 f_equal. lia.
Qed.

Lemma read_hashes_ok l i k :
  hashes l -> (i + k <= length l)%nat ->
  read_mem (concat l) (Z.of_nat i * kHashSize) (Z.of_nat k * kHashSize) = Ok (concat (take k (drop i l))).
Proof.
  intros Hl Hi. unfold kHashSize. rewrite read_mem_ok by (rewrite ?concat_length by exact Hl; lia).
  replace (Z.to_nat (Z.of_nat i * 32)) with (32 * i)%nat by lia.
  replace (Z.to_nat (Z.of_nat k * 32)) with (32 * k)%nat by lia.
  rewrite concat_drop by exact Hl. rewrite concat_take by (apply Forall_drop, Hl). reflexivity.
Qed.

Lemma write_hash_ok l j d :
  hashes l -> is_hash d -> (j < length l)%nat ->
  write_mem (concat l) (Z.of_nat j * kHashSize) d = Ok (concat (<[j := d]> l)).
Proof.
  intros Hl [_ Hd] Hj. unfold kHashSize. rewrite write_mem_ok by (rewrite ?concat_length by exact Hl; lia).
  replace (Z.to_nat (Z.of_nat j * 32)) with (32 * j)%nat by lia. rewrite Hd.
  replace (32 * j + 32)%nat with (32 * S j)%nat by lia.
  rewrite concat_take, concat_drop by exact Hl. rewrite insert_take_drop by exact Hj. rewrite concat_app. reflexivity.
Qed.

(** ** The loops *)

(** The pair at [i]. *)
Lemma pair_at (l : list (list Z)) i :
  (i + 1 < length l)%nat -> exists a b, drop i l = a :: b :: drop (i + 2) l /\ take 2 (drop i l) = [a; b].
Proof.
  intros Hi. destruct (drop i l) as [|a [|b r]] eqn:E; try (apply (f_equal length) in E; rewrite length_drop in E; cbn in E; lia).
  exists a, b. replace (drop (i + 2) l) with r; [auto|].
  rewrite Nat.add_comm, <- skipn_skipn, E. reflexivity.
Qed.

(** The first loop reads one buffer and writes the other. *)
Lemma first_loop n l k i j branch :
  hashes l -> hashes k -> (1 <= i)%nat -> (i + 2 * n = length l)%nat -> (j + n = length k)%nat ->
  pair_hashes n (Some (concat l)) (Z.of_nat i) (Z.of_nat j) branch (concat k) =
  Ok (branch, concat (take j k ++ pairs (drop i l))).
Proof.
  intros Hl. revert k i j. induction n as [|n IH]; intros k i j Hk Hi El Ek; cbn [pair_hashes default id].
  - rewrite (drop_ge l) by lia. rewrite take_ge by lia. rewrite app_nil_r. reflexivity.
  - rewrite (proj2 (Z.eqb_neq (Z.of_nat i) 0)) by lia. cbn [mbind result_bind].
    destruct (pair_at l i ltac:(lia)) as (a & b & Ed & Et).
    change (kHashSize * 2) with (Z.of_nat 2 * kHashSize). rewrite read_hashes_ok by (exact Hl || lia).
    rewrite Et. cbn [mbind result_bind concat]. rewrite app_nil_r.
    assert (Hab : is_hash a /\ is_hash b).
    { pose proof (Forall_drop is_hash i l Hl) as Hd. rewrite Ed in Hd. apply Forall_cons in Hd as [Ha Hd].
      apply Forall_cons in Hd as [Hb _]. auto. }
    destruct (hash_pair a b (proj1 Hab) (proj2 Hab)) as [-> Hh]. cbn [mbind result_bind].
    rewrite write_hash_ok by (exact Hk || exact Hh || lia). cbn [mbind result_bind].
    replace (Z.of_nat i + 2) with (Z.of_nat (i + 2)) by lia. replace (Z.of_nat j + 1) with (Z.of_nat (j + 1)) by lia.
    rewrite IH; [| apply Forall_insert; assumption | lia | lia | rewrite length_insert; lia].
    rewrite Ed. cbn [pairs]. f_equal. f_equal. f_equal.
    rewrite Nat.add_1_r, take_S_r with (x := hash (a ++ b)) by (apply list_lookup_insert_eq; lia).
    rewrite take_insert_ge by lia. rewrite <- app_assoc. reflexivity.
Qed.

(** One turn in place: the pair at [i] is read before [j <= i] is written. *)
Lemma in_place_turn n m i j branch :
  hashes m -> (j <= i)%nat -> (i + 1 < length m)%nat -> (0 < i)%nat ->
  exists h, is_hash h /\ pairs (drop i m) = h :: pairs (drop (i + 2) m) /\
    pair_hashes (S n) None (Z.of_nat i) (Z.of_nat j) branch (concat m) =
    pair_hashes n None (Z.of_nat (i + 2)) (Z.of_nat (j + 1)) branch (concat (<[j := h]> m)).
Proof.
  intros Hm Hj Hi H0. destruct (pair_at m i Hi) as (a & b & Ed & Et).
  pose proof (Forall_drop is_hash i m Hm) as Hd. rewrite Ed in Hd. apply Forall_cons in Hd as [Ha Hd]. apply Forall_cons in Hd as [Hb _].
  destruct (hash_pair a b Ha Hb) as [Eh Hh]. exists (hash (a ++ b)). split; [exact Hh|]. split; [rewrite Ed; reflexivity|].
  cbn [pair_hashes default id]. rewrite (proj2 (Z.eqb_neq (Z.of_nat i) 0)) by lia. cbn [mbind result_bind].
  change (kHashSize * 2) with (Z.of_nat 2 * kHashSize). rewrite read_hashes_ok by (exact Hm || lia).
  rewrite Et. cbn [mbind result_bind concat]. rewrite app_nil_r, Eh. cbn [mbind result_bind].
  rewrite write_hash_ok by (exact Hm || exact Hh || lia). cbn [mbind result_bind].
  f_equal; lia.
Qed.

(** The first turn also appends the sibling to the branch. *)
Lemma in_place_first n m branch :
  hashes m -> (2 <= length m)%nat ->
  exists h, is_hash h /\ pairs m = h :: pairs (drop 2 m) /\
    pair_hashes (S n) None 0 0 branch (concat m) =
    pair_hashes n None 2 1 (branch ++ nth 1 m []) (concat (<[0%nat := h]> m)).
Proof.
  intros Hm Hl. destruct m as [|a [|b m]]; cbn [length] in Hl; [lia | lia|].
  pose proof Hm as Hab. apply Forall_cons in Hab as [Ha Hab]. apply Forall_cons in Hab as [Hb _].
  destruct (hash_pair a b Ha Hb) as [Eh Hh]. exists (hash (a ++ b)). split; [exact Hh|]. split; [reflexivity|].
  cbn [pair_hashes default id]. cbn [Z.eqb].
  change (read_mem (concat (a :: b :: m)) kHashSize kHashSize)
    with (read_mem (concat (a :: b :: m)) (Z.of_nat 1 * kHashSize) (Z.of_nat 1 * kHashSize)).
  change (kHashSize * 2) with (Z.of_nat 2 * kHashSize). change (0 * kHashSize) with (Z.of_nat 0 * kHashSize).
  rewrite !read_hashes_ok by (exact Hm || (cbn; lia)). cbn [mbind result_bind drop take concat nth].
  rewrite !app_nil_r, Eh. cbn [mbind result_bind].
  change (a ++ b ++ concat m) with (concat (a :: b :: m)).
  rewrite write_hash_ok by (exact Hm || exact Hh || (cbn; lia)). reflexivity.
Qed.

(** [n] turns from the pair at [i]. *)
Lemma in_place_loop n m i j branch :
  hashes m -> (0 < i)%nat -> (j <= i)%nat -> (i + 2 * n <= length m)%nat ->
  pair_hashes n None (Z.of_nat i) (Z.of_nat j) branch (concat m) =
  Ok (branch, concat (take j m ++ pairs (take (2 * n) (drop i m)) ++ drop (j + n) m)).
Proof.
  revert m i j. induction n as [|n IH]; intros m i j Hm Hi Hj Hl.
  - cbn [pair_hashes]. rewrite Nat.mul_0_r, take_0, Nat.add_0_r. cbn [pairs app]. rewrite take_drop. reflexivity.
  - destruct (in_place_turn n m i j branch Hm Hj ltac:(lia) Hi) as (h & Hh & Ep & ->).
    destruct (pair_at m i ltac:(lia)) as (a & b & Ed & _).
    rewrite IH; [| apply Forall_insert; assumption | lia | lia | rewrite length_insert; lia].
    f_equal. f_equal. f_equal.
    rewrite Nat.add_1_r, take_S_r with (x := h) by (apply list_lookup_insert_eq; lia).
    rewrite take_insert_ge, !drop_insert_lt by lia. rewrite <- app_assoc. f_equal. cbn [app].
    rewrite Ed in Ep |- *. replace (2 * S n)%nat with (S (S (2 * n))) by lia. cbn [take pairs] in *. injection Ep as ->.
    cbn [app]. do 2 f_equal. f_equal. lia.
Qed.

Lemma level_in_place n m branch :
  hashes m -> (2 * S n <= length m)%nat ->
  pair_hashes (S n) None 0 0 branch (concat m) =
  Ok (branch ++ nth 1 m [], concat (pairs (take (2 * S n) m) ++ drop (S n) m)).
Proof.
  intros Hm Hl. destruct (in_place_first n m branch Hm ltac:(lia)) as (h & Hh & Ep & ->).
  change 2 with (Z.of_nat 2). change 1 with (Z.of_nat 1).
  rewrite in_place_loop; [| apply Forall_insert; assumption | lia | lia | rewrite length_insert; lia].
  f_equal. f_equal. f_equal. destruct m as [|a [|b m]]; cbn [length] in Hl; [lia | lia|].
  replace (2 * S n)%nat with (S (S (2 * n))) by lia. cbn [take pairs drop insert list_insert Nat.add app] in *.
  injection Ep as ->. reflexivity.
Qed.

Definition pow2 (p : nat) : Z := Z.of_nat (2 ^ p).

Lemma pow2_S p : pow2 (S p) = 2 * pow2 p.
Proof. unfold pow2. rewrite Nat.pow_succ_r'. lia. Qed.

Lemma pow2_pos p : 0 < pow2 p.
Proof. unfold pow2. pose proof (Nat.pow_nonzero 2 p ltac:(lia)). lia. Qed.

Lemma pow2_half p : Z.shiftr (pow2 (S p)) 1 = pow2 p.
Proof. rewrite pow2_S, Z.shiftr_div_pow2, Z.mul_comm by lia. apply Z.div_mul. lia. Qed.

(** The levels above the first: what is left are the two hashes below the
    root. *)
Lemma fold_levels_ok p fuel m branch :
  hashes m -> (2 ^ S p <= length m)%nat -> (p < fuel)%nat ->
  exists a b r br, fold_levels fuel (pow2 (S p)) branch (concat m) = Ok (branch ++ br, concat (a :: b :: r)) /\
    hashes (a :: b :: r) /\ br ++ b = concat (side (S p) (take (2 ^ S p) m)) /\
    hash (a ++ b) = level_root (S p) (take (2 ^ S p) m).
Proof.
  revert fuel m branch. induction p as [|p IH]; intros fuel m branch Hm Hl Hf; (destruct fuel as [|fuel]; [lia|]); cbn [fold_levels].
  - change (2 <? pow2 1) with false. cbv iota. change (2 ^ 1)%nat with 2%nat in *.
    destruct m as [|a [|b r]]; cbn [length] in Hl; [lia | lia|]. exists a, b, r, [].
    rewrite app_nil_r. repeat split; [exact Hm|]. cbn. rewrite app_nil_r. reflexivity.
  - rewrite (proj2 (Z.ltb_lt 2 _)) by (rewrite !pow2_S; pose proof (pow2_pos p); lia). rewrite pow2_half.
    replace (Z.to_nat (pow2 (S p))) with (2 ^ S p)%nat by (unfold pow2; lia). pose proof (Nat.pow_nonzero 2 (S p) ltac:(lia)).
    destruct (2 ^ S p)%nat as [|n] eqn:En; [lia|]. rewrite (Nat.pow_succ_r' 2 (S p)), En in Hl |- *.
    rewrite level_in_place by (exact Hm || lia). cbn [mbind result_bind].
    set (l := take (2 * S n) m). set (m1 := pairs l ++ drop (S n) m).
    assert (Hll : length l = (2 ^ S (S p))%nat) by (unfold l; rewrite length_take, (Nat.pow_succ_r' 2 (S p)), En; lia).
    pose proof (pairs_pow _ _ Hll) as Hpl.
    assert (Hm1 : hashes m1) by (apply Forall_app; split; [apply pairs_hashes, Forall_take, Hm | apply Forall_drop, Hm]).
    rewrite En in Hpl. assert (Et : take (S n) m1 = pairs l) by (unfold m1; apply take_app_length'; symmetry; exact Hpl).
    destruct (IH fuel m1 (branch ++ nth 1 m []) Hm1) as (a & b & r & br & E & Hr & Eb & Er);
      [unfold m1; rewrite length_app; lia | lia|].
    rewrite E. exists a, b, r, (nth 1 m [] ++ br). rewrite <- (app_assoc branch). split; [reflexivity|]. split; [exact Hr|].
    rewrite Et in Eb, Er. split; [|exact Er].
    change (side (S (S p)) l) with (nth 1 l [] :: side (S p) (pairs l)). cbn [concat]. rewrite <- Eb, <- app_assoc. f_equal.
    unfold l. destruct m as [|x [|y m]]; cbn [length] in Hl; [lia | lia|]. replace (2 * S n)%nat with (S (S (2 * n))) by lia. reflexivity.
Qed.

Lemma count_levels_ok p k fuel count :
  pow2 p <= count < pow2 (S p) -> (k <= S p)%nat -> (S p < k + fuel)%nat -> (p < 62)%nat ->
  count_levels fuel count (Z.of_nat k) (pow2 k) = Ok (Z.of_nat (S p), pow2 (S p)).
Proof.
  intros Hc. revert k. induction fuel as [|fuel IH]; intros k Hk Hf Hp; [lia|]. cbn [count_levels].
  destruct (Nat.eq_dec k (S p)) as [->|Hne].
  - rewrite (proj2 (Z.leb_gt _ _)) by lia. reflexivity.
  - assert (Hkp : pow2 k <= pow2 p) by (unfold pow2; apply Nat2Z.inj_le, Nat.pow_le_mono_r; lia).
    rewrite (proj2 (Z.leb_le _ _)) by lia. rewrite <- pow2_S.
    assert (pow2 (S k) <= pow2 62) by (unfold pow2; apply Nat2Z.inj_le, Nat.pow_le_mono_r; lia).
    assert (E62 : pow2 62 = 2 ^ 62) by (unfold pow2; rewrite Nat2Z.inj_pow; reflexivity).
    rewrite to_u64_id by (pose proof (pow2_pos (S k)); lia).
    replace (Z.of_nat k + 1) with (Z.of_nat (S k)) by lia. apply IH; lia.
Qed.

(** ** The whole tree *)

(** The largest power of two below the number of hashes. *)
Lemma log2_bounds (l : list (list Z)) :
  (1 <= length l)%nat -> (2 ^ Nat.log2 (length l) <= length l < 2 * 2 ^ Nat.log2 (length l))%nat.
Proof. intros Hl. rewrite <- Nat.pow_succ_r'. apply Nat.log2_spec. lia. Qed.

Lemma first_level_ok l :
  hashes l -> (1 <= length l)%nat -> hashes (first_level l) /\ length (first_level l) = (2 ^ Nat.log2 (length l))%nat.
Proof.
  intros Hl Hn. pose proof (log2_bounds l Hn). unfold first_level. split.
  - apply Forall_app. split; [apply Forall_take, Hl | apply pairs_hashes, Forall_drop, Hl].
  - rewrite length_app, length_take, pairs_length, length_drop.
    replace (length l - (2 * 2 ^ Nat.log2 (length l) - length l))%nat
      with ((length l - 2 ^ Nat.log2 (length l)) * 2)%nat by lia.
    rewrite Nat.div_mul by lia. lia.
Qed.

(** The buffer [ints] with the hashes that the first level keeps. *)
Lemma kept_hashes l j cnt :
  hashes l -> (j <= length l)%nat -> (j <= cnt)%nat ->
  exists k, write_mem (repeat 0 (Z.to_nat (Z.of_nat cnt * kHashSize))) 0 (concat (take j l)) = Ok (concat k) /\
    hashes k /\ length k = cnt /\ take j k = take j l.
Proof.
  intros Hl Hj Hc. pose (zero := repeat 0 32). exists (take j l ++ repeat zero (cnt - j)).
  assert (Hz : hashes (repeat zero (cnt - j))).
  { apply Forall_forall. intros x Hx. apply list_elem_of_In, repeat_spec in Hx as ->. split; [|reflexivity].
    unfold zero. repeat constructor; unfold is_byte; lia. }
  assert (Lj : length (take j l) = j) by (rewrite length_take; lia).
  assert (Lt : length (concat (take j l)) = (32 * j)%nat) by (rewrite concat_length by (apply Forall_take, Hl); lia).
  split; [|split; [|split]].
  - unfold kHashSize. rewrite write_mem_ok by (rewrite ?repeat_length, ?Lt; lia). cbn [Z.to_nat Nat.add]. rewrite take_0, Lt, concat_app.
    cbn [app]. do 2 f_equal. replace (Z.to_nat (Z.of_nat cnt * 32)) with (32 * j + 32 * (cnt - j))%nat by lia.
    rewrite repeat_app, drop_app_length' by (rewrite repeat_length; lia).
    unfold zero. generalize (cnt - j)%nat as n. induction n as [|n IH]; [reflexivity|].
    change (concat (repeat (repeat 0 32) (S n))) with (repeat 0 32 ++ concat (repeat (repeat 0 32) n)). rewrite <- IH, <- repeat_app. f_equal. lia.
  - apply Forall_app. split; [apply Forall_take, Hl | exact Hz].
  - rewrite length_app, repeat_length, Lj. lia.
  - apply take_app_length'. symmetry. exact Lj.
Qed.

Lemma large_tree_ok l :
  hashes l -> (3 <= length l)%nat -> Z.of_nat (length l) < 2 ^ 61 ->
  calculateMerkleTreeHash (Z.of_nat (length l) - 1) (concat l) =
  Ok (concat (side (Nat.log2 (length l)) (first_level l)), level_root (Nat.log2 (length l)) (first_level l)).
Proof.
  intros Hl Hn Hb. pose proof (log2_bounds l ltac:(lia)) as Hp. destruct (first_level_ok l Hl ltac:(lia)) as [Hfl Lfl].
  set (p := Nat.log2 (length l)) in *. unfold calculateMerkleTreeHash.
  rewrite to_u64_id by lia. rewrite Z.sub_add, !(proj2 (Z.eqb_neq (Z.of_nat (length l)) _)) by lia.
  assert (Hp61 : (p < 61)%nat).
  { apply (Nat.pow_lt_mono_r_iff 2); [lia|]. apply Nat2Z.inj_lt. rewrite (Nat2Z.inj_pow 2 61). cbn [Z.of_nat]. change (Z.of_nat 61) with 61. lia. }
  assert (Ec : count_levels 65 (Z.of_nat (length l)) 0 1 = Ok (Z.of_nat (S p), pow2 (S p)))
    by (apply (count_levels_ok p 0); rewrite ?pow2_S; unfold pow2; lia).
  rewrite Ec. cbn [mbind result_bind].
  rewrite (proj2 (Z.eqb_neq (Z.of_nat (S p)) 0)), pow2_half by lia.
  set (j := (2 * 2 ^ p - length l)%nat). replace (pow2 p * 2 - Z.of_nat (length l)) with (Z.of_nat j) by (unfold pow2, j; lia).
  change (read_mem (concat l) 0 (Z.of_nat j * kHashSize)) with (read_mem (concat l) (Z.of_nat 0 * kHashSize) (Z.of_nat j * kHashSize)).
  rewrite read_hashes_ok by (exact Hl || (unfold j; lia)). cbn [mbind result_bind]. rewrite drop_0.
  destruct (kept_hashes l j (2 ^ p) Hl ltac:(lia) ltac:(lia)) as (k & Ek & Hk & Lk & Tk).
  change (Z.of_nat (2 ^ p)) with (pow2 p) in Ek. rewrite Ek. cbn [mbind result_bind].
  replace (Z.to_nat (pow2 p - Z.of_nat j)) with (2 ^ p - j)%nat by (unfold pow2; lia).
  rewrite first_loop by (exact Hl || exact Hk || (unfold j in *; lia)). cbn [mbind result_bind]. rewrite Tk.
  change (take j l ++ pairs (drop j l)) with (first_level l).
  destruct p as [|p]; [cbn in Hp; lia|].
  destruct (fold_levels_ok p 65 (first_level l) [] Hfl ltac:(lia) ltac:(lia)) as (a & b & r & br & Ef & Hr & Eb & Er).
  rewrite Ef. cbn [mbind result_bind app]. rewrite take_ge in Eb, Er by lia.
  change (read_mem (concat (a :: b :: r)) kHashSize kHashSize)
    with (read_mem (concat (a :: b :: r)) (Z.of_nat 1 * kHashSize) (Z.of_nat 1 * kHashSize)).
  change (read_mem (concat (a :: b :: r)) 0 (kHashSize * 2))
    with (read_mem (concat (a :: b :: r)) (Z.of_nat 0 * kHashSize) (Z.of_nat 2 * kHashSize)).
  rewrite !read_hashes_ok by (exact Hr || (cbn; lia)). cbn [mbind result_bind drop take concat]. rewrite !app_nil_r.
  apply Forall_cons in Hr as [Ha Hr]. apply Forall_cons in Hr as [Hb' _].
  rewrite (proj1 (hash_pair a b Ha Hb')). cbn [mbind result_bind]. rewrite Eb, Er. reflexivity.
Qed.

(** For any number of hashes: the root, and a branch that proves the first
    leaf. *)
Lemma tree_ok l :
  hashes l -> (1 <= length l)%nat -> Z.of_nat (length l) < 2 ^ 61 ->
  calculateMerkleTreeHash (Z.of_nat (length l) - 1) (concat l) =
  Ok (concat (side (Nat.log2 (length l)) (first_level l)), merkle_root l).
Proof.
  intros Hl Hn Hb. pose proof (first_level_ok l Hl Hn) as [_ Lf]. unfold merkle_root. rewrite <- (level_root_tree _ _ Lf).
  destruct l as [|a [|b [|c l]]]; [cbn in Hn; lia | | | apply large_tree_ok; [assumption | cbn [length]; lia | assumption]];
    unfold calculateMerkleTreeHash; cbn [length]; [change (to_u64 _) with 1 | change (to_u64 _) with 2]; cbn [Z.eqb Pos.eqb].
  - change (read_mem (concat [a]) 0 kHashSize) with (read_mem (concat [a]) (Z.of_nat 0 * kHashSize) (Z.of_nat 1 * kHashSize)).
    rewrite read_hashes_ok by (exact Hl || (cbn; lia)). cbn. rewrite app_nil_r. reflexivity.
  - change (read_mem (concat [a; b]) kHashSize kHashSize)
      with (read_mem (concat [a; b]) (Z.of_nat 1 * kHashSize) (Z.of_nat 1 * kHashSize)).
    change (read_mem (concat [a; b]) 0 (kHashSize * 2))
      with (read_mem (concat [a; b]) (Z.of_nat 0 * kHashSize) (Z.of_nat 2 * kHashSize)).
    rewrite !read_hashes_ok by (exact Hl || (cbn; lia)). apply Forall_cons in Hl as [Ha Hl]. apply Forall_cons in Hl as [Hb' _].
    cbn [mbind result_bind drop take concat]. rewrite !app_nil_r, (proj1 (hash_pair a b Ha Hb')). cbn. rewrite app_nil_r. reflexivity.
Qed.

(** The branch is made of hashes. *)
Lemma side_hashes m l : hashes l -> length l = (2 ^ m)%nat -> hashes (side m l).
Proof.
  revert l. induction m as [|m IH]; intros l Hl Ll; [constructor|]. cbn [side].
  destruct (two_hashes _ _ Ll) as (a & b & l' & El). constructor; [|apply IH; [apply pairs_hashes, Hl | apply pairs_pow, Ll]].
  rewrite El in *. apply Forall_cons in Hl as [_ Hl]. apply Forall_cons in Hl as [Hb _]. exact Hb.
Qed.

(** [calculateRootHash] climbs the branch. *)
Lemma root_loop_ok branch root i fuel :
  hashes branch -> is_hash root -> (i <= length branch)%nat -> (length branch < i + fuel)%nat ->
  root_loop fuel (Z.of_nat i * kHashSize) (concat branch) root = Ok (climb root (drop i branch)).
Proof.
  intros Hb. revert root i. induction fuel as [|fuel IH]; intros root i Hr Hi Hf; [lia|]. cbn [root_loop].
  rewrite concat_length by exact Hb. unfold kHashSize at 1. destruct (Z.ltb_spec (Z.of_nat i * 32) (Z.of_nat (32 * length branch))).
  - change (read_mem (concat branch) (Z.of_nat i * kHashSize) kHashSize)
      with (read_mem (concat branch) (Z.of_nat i * kHashSize) (Z.of_nat 1 * kHashSize)).
    rewrite read_hashes_ok by (exact Hb || lia).
    destruct (drop i branch) as [|b rest] eqn:E; [apply (f_equal length) in E; rewrite length_drop in E; cbn in E; lia|].
    pose proof (Forall_drop is_hash i branch Hb) as Hd. rewrite E in Hd. apply Forall_cons in Hd as [Hb1 _].
    cbn [take mbind result_bind concat]. rewrite app_nil_r. destruct (hash_pair root b Hr Hb1) as [-> Hh]. cbn [mbind result_bind].
    replace (Z.of_nat i * kHashSize + kHashSize) with (Z.of_nat (S i) * kHashSize) by (unfold kHashSize; lia).
    rewrite IH by (exact Hh || lia). unfold climb. cbn [foldl]. do 2 f_equal.
    rewrite <- Nat.add_1_l, <- skipn_skipn, E. reflexivity.
  - rewrite drop_ge by lia. reflexivity.
Qed.

Lemma calculateRootHash_ok prefix branch leaf :
  hashes branch -> is_hash leaf -> calculateMinerTxHash prefix = Ok leaf ->
  calculateRootHash prefix (concat branch) = Ok (climb leaf branch).
Proof.
  intros Hb Hl E. unfold calculateRootHash. rewrite E. cbn [mbind result_bind].
  apply (root_loop_ok branch leaf 0); [exact Hb | exact Hl | lia|]. rewrite concat_length by exact Hb. lia.
Qed.

Lemma first_level_hd l : (1 <= length l)%nat -> hd [] (first_level l) = hd [] l.
Proof.
  intros Hn. pose proof (log2_bounds l Hn). unfold first_level.
  destruct (2 * 2 ^ Nat.log2 (length l) - length l)%nat eqn:E; [lia|]. destruct l; [cbn in Hn; lia | reflexivity].
Qed.

(** The branch of the first leaf leads to the root. *)
Lemma branch_climbs l : (1 <= length l)%nat -> hashes l ->
  climb (hd [] l) (side (Nat.log2 (length l)) (first_level l)) = merkle_root l.
Proof.
  intros Hn Hl. destruct (first_level_ok l Hl Hn) as [_ Lf]. unfold merkle_root.
  rewrite <- (first_level_hd l Hn), (side_climbs _ _ Lf). apply level_root_tree, Lf.
Qed.

End MerkleTreeOk.
