(* ===== verification/BlockTemplate.v ===== *)
(** * Block templates

    base/tools/cryptonote/BlockTemplate.h and BlockTemplate.cpp: the parser of
    the block a daemon asks to mine, for every coin, and the blob to hash.  The
    parser is a state monad over the members and the reader, with exceptions
    and early returns: a failed parse leaves the members it has reached
    changed.  The members of one type are a function of their names. *)

From stdpp Require Import functions.
From S2P Require Import Prelude.
From S2P Require Import CInt.
From S2P Require Import Bytes.
From S2P Require Import Cvt.
From S2P Require Import Signatures.
From S2P Require Import BlobReader.
From S2P Require Import MerkleTree.

(** ** Data *)

(** [Coin::Id]. *)
Inductive Coin :=
  | INVALID | MONERO | SUMO | ARQMA | GRAFT | RAVEN | WOWNERO | ZEPHYR | TOWNFORGE | YADA.
#[export] Instance Coin_eq_dec : EqDecision Coin.
Proof. solve_decision. Defined.

Inductive Offset :=
  | NONCE_OFFSET | MINER_TX_PREFIX_OFFSET | MINER_TX_PREFIX_END_OFFSET | EPH_PUBLIC_KEY_OFFSET
  | TX_EXTRA_OFFSET | TX_PUBKEY_OFFSET | TX_EXTRA_NONCE_OFFSET | TX_EXTRA_MERGE_MINING_TAG_OFFSET.
#[export] Instance Offset_eq_dec : EqDecision Offset.
Proof. solve_decision. Defined.

(** The members of integer type; [version] is a pair. *)
Inductive Number :=
  | version_first | version_second | timestamp | txVersion | unlockTime | numInputs | inputType
  | height | numOutputs | amount | outputType | viewTag | extraSize | numHashes.
#[export] Instance Number_eq_dec : EqDecision Number.
Proof. solve_decision. Defined.

(** The spans of [m_blob]: a start and a size. *)
Inductive SpanName := prevId | minerSignature | ephPublicKey | txExtraNonce | txMergeMiningTag.
#[export] Instance SpanName_eq_dec : EqDecision SpanName.
Proof. solve_decision. Defined.

Record BlockTemplate := MkBlockTemplate {
  m_blob : list Z;
  m_coin : Coin;
  m_offsets : Offset -> Z;
  m_number : Number -> Z;
  m_span : SpanName -> Z * Z;
  m_vote : list Z;
  m_hashes : list Z;
  m_minerTxMerkleTreeBranch : list Z;
  m_rootHash : list Z
}.

Definition new_template : BlockTemplate :=
  MkBlockTemplate [] INVALID (fun _ => 0) (fun _ => 0) (fun _ => (0, 0)) [0; 0] [] [] (repeat 0 32).

Definition with_blob (b : list Z) (c : Coin) (t : BlockTemplate) : BlockTemplate :=
  MkBlockTemplate b c (m_offsets t) (m_number t) (m_span t) (m_vote t) (m_hashes t)
    (m_minerTxMerkleTreeBranch t) (m_rootHash t).
Definition with_offset (o : Offset) (v : Z) (t : BlockTemplate) : BlockTemplate :=
  MkBlockTemplate (m_blob t) (m_coin t) (<[o := v]> (m_offsets t)) (m_number t) (m_span t) (m_vote t) (m_hashes t)
    (m_minerTxMerkleTreeBranch t) (m_rootHash t).
Definition with_number (n : Number) (v : Z) (t : BlockTemplate) : BlockTemplate :=
  MkBlockTemplate (m_blob t) (m_coin t) (m_offsets t) (<[n := v]> (m_number t)) (m_span t) (m_vote t) (m_hashes t)
    (m_minerTxMerkleTreeBranch t) (m_rootHash t).
Definition with_span (s : SpanName) (v : Z * Z) (t : BlockTemplate) : BlockTemplate :=
  MkBlockTemplate (m_blob t) (m_coin t) (m_offsets t) (m_number t) (<[s := v]> (m_span t)) (m_vote t) (m_hashes t)
    (m_minerTxMerkleTreeBranch t) (m_rootHash t).
Definition with_vote (v : list Z) (t : BlockTemplate) : BlockTemplate :=
  MkBlockTemplate (m_blob t) (m_coin t) (m_offsets t) (m_number t) (m_span t) v (m_hashes t)
    (m_minerTxMerkleTreeBranch t) (m_rootHash t).
Definition with_hashes (v : list Z) (t : BlockTemplate) : BlockTemplate :=
  MkBlockTemplate (m_blob t) (m_coin t) (m_offsets t) (m_number t) (m_span t) (m_vote t) v
    (m_minerTxMerkleTreeBranch t) (m_rootHash t).
Definition with_tree (branch root : list Z) (t : BlockTemplate) : BlockTemplate :=
  MkBlockTemplate (m_blob t) (m_coin t) (m_offsets t) (m_number t) (m_span t) (m_vote t) (m_hashes t) branch root.

Definition hasMinerSignature (t : BlockTemplate) : bool := negb (snd (m_span t minerSignature) =? 0).
Definition majorVersion (t : BlockTemplate) : Z := m_number t version_first.

(** ** The monad *)

(** [Return]: [return b] from the parser.  An exception keeps the members. *)
Inductive outcome (A : Type) :=
  | Done (a : A) (t : BlockTemplate) (ar : BlobReader)
  | Return (b : bool) (t : BlockTemplate)
  | Threw (t : BlockTemplate)
  | Undefined (u : fault)
  | Runs.
#[global] Arguments Done {A} a t ar.
#[global] Arguments Return {A} b t.
#[global] Arguments Threw {A} t.
#[global] Arguments Undefined {A} u.
#[global] Arguments Runs {A}.

Definition parser (A : Type) : Type := BlockTemplate -> BlobReader -> outcome A.

#[export] Instance parser_ret : MRet parser := fun A a t ar => Done a t ar.
#[export] Instance parser_bind : MBind parser := fun A B k m t ar =>
  match m t ar with
  | Done a t ar => k a t ar
  | Return b t => Return b t
  | Threw t => Threw t
  | Undefined u => Undefined u
  | Runs => Runs
  end.

Definition return_if (c b : bool) : parser unit := fun t ar => if c then Return b t else Done tt t ar.
Definition get {A} (f : BlockTemplate -> A) : parser A := fun t ar => Done (f t) t ar.
Definition modify (f : BlockTemplate -> BlockTemplate) : parser unit := fun t ar => Done tt (f t) ar.
Definition runs {A} : parser A := fun _ _ => Runs.

(** A computation that may fail. *)
Definition lift {A} (c : BlockTemplate -> result A) : parser A := fun t ar =>
  match c t with Ok a => Done a t ar | Throws => Threw t | Fault u => Undefined u | Running => Runs end.

(** An operation of [ar], the reader of the state. *)
Definition with_ar {A} (f : list Z -> BlobReader -> result (A * BlobReader)) : parser A := fun t ar =>
  match f (m_blob t) ar with
  | Ok (a, ar) => Done a t ar
  | Throws => Threw t
  | Fault u => Undefined u
  | Running => Runs
  end.

Definition index : parser Z := fun t ar => Done (m_index ar) t ar.
Definition number (n : Number) : parser Z := get (fun t => m_number t n).
Definition offset (o : Offset) : parser Z := get (fun t => m_offsets t o).
Definition coin_is (c : Coin) : parser bool := get (fun t => bool_decide (m_coin t = c)).
Definition setOffset (o : Offset) (value : Z) : parser unit := modify (with_offset o (to_u32 value)).

(** ** The parser *)

Section Parser.
Context `{Digest32}.

(** The check of the bounds; whether a vector can be given a size, otherwise
    [resize] throws; and the fuel of the loops. *)
Variable beyond : Z -> Z -> Z -> bool.
Variable alloc : Z -> bool.
Variable fuel : nat.

Definition kKeySize : Z := 32.
Definition kNonceSize : Z := 4.
Definition kSignatureSize : Z := 64.

Definition ar_skip (n : Z) : parser unit := with_ar (fun _ r => r ← skip beyond n r; Ok (tt, r)).
Definition ar_byte : parser Z := with_ar getByte.
Definition ar_varint : parser Z := with_ar getVarint.
Definition ar_array (n : Z) : parser (list Z) := with_ar (fun mem => read_array beyond mem n).
Definition ar_span (n : Z) : parser (Z * Z) := with_ar (fun _ => read_span beyond n).

Definition read_byte (n : Number) : parser unit := v ← ar_byte; modify (with_number n v).
Definition read_varint (n : Number) : parser unit := v ← ar_varint; modify (with_number n v).
Definition read_span_of (s : SpanName) (n : Z) : parser unit := v ← ar_span n; modify (with_span s v).

Definition parse_header : parser unit :=
  read_byte version_first;;
  read_byte version_second;;
  read_varint timestamp;;
  read_span_of prevId kHashSize;;
  i ← index; setOffset NONCE_OFFSET i;;
  ar_skip kNonceSize;;
  wow ← coin_is WOWNERO;
  major ← get majorVersion;
  (if wow && (18 <=? major) then
     read_span_of minerSignature kSignatureSize;;
     vote ← ar_array 2; modify (with_vote vote)
   else mret tt);;
  zeph ← coin_is ZEPHYR;
  (if zeph : bool then ar_array 120;; mret tt else mret tt);;
  i ← index; setOffset MINER_TX_PREFIX_OFFSET i.

Definition parse_miner_tx_begin : parser unit :=
  read_varint txVersion;;
  town ← coin_is TOWNFORGE;
  (if town : bool then mret tt else read_varint unlockTime);;
  read_varint numInputs;;
  inputs ← number numInputs;
  return_if (negb (inputs =? 1)) false;;
  read_byte inputType;;
  input ← number inputType;
  return_if (negb (input =? 0xFF)) false;;
  read_varint height;;
  read_varint numOutputs;;
  outputs ← number numOutputs;
  zeph ← coin_is ZEPHYR;
  return_if (if zeph : bool then outputs <? 2 else negb (outputs =? 1)) false;;
  read_varint amount;;
  read_byte outputType;;
  output ← number outputType;
  return_if (negb (output =? 2) && negb (output =? 3)) false;;
  i ← index; setOffset EPH_PUBLIC_KEY_OFFSET i;;
  read_span_of ephPublicKey kKeySize.

(** The outputs after the first. *)
Fixpoint zephyr_outputs (fuel : nat) (k : Z) : parser unit :=
  match fuel with
  | O => runs
  | S fuel =>
      outputs ← number numOutputs;
      if k <? outputs then
        ar_varint;;
        output_type2 ← ar_byte;
        return_if (negb (output_type2 =? 2)) false;;
        ar_span kKeySize;;
        asset_type_len ← ar_varint;
        ar_skip asset_type_len;;
        ar_byte;;
        zephyr_outputs fuel (k + 1)
      else mret tt
  end.

Definition parse_outputs : parser unit :=
  zeph ← coin_is ZEPHYR;
  output ← number outputType;
  (if zeph : bool then
     return_if (negb (output =? 2)) false;;
     asset_type_len ← ar_varint;
     ar_skip asset_type_len;;
     read_byte viewTag;;
     zephyr_outputs fuel 1
   else if output =? 3 then read_byte viewTag
   else mret tt);;
  town ← coin_is TOWNFORGE;
  (if town : bool then read_varint unlockTime else mret tt).

(** An operation of [ar_extra]. *)
Definition extra {A} (f : list Z -> result A) : parser A := lift (fun t => f (m_blob t)).

(** A tag with a size and that many bytes. *)
Definition extra_field (o : Offset) (s : SpanName) (ar_extra : BlobReader) : parser BlobReader :=
  p ← extra (fun mem => getVarint mem ar_extra); let '(size, ar_extra) := p in
  base ← offset TX_EXTRA_OFFSET;
  setOffset o (base + m_index ar_extra);;
  p ← extra (fun _ => read_span beyond size ar_extra); let '(span, ar_extra) := p in
  modify (with_span s span);;
  mret ar_extra.

Fixpoint parse_extra (fuel : nat) (pubkey_offset_first : bool) (ar_extra : BlobReader) : parser unit :=
  match fuel with
  | O => runs
  | S fuel =>
      size ← number extraSize;
      if m_index ar_extra <? size then
        p ← extra (fun mem => getVarint mem ar_extra); let '(extra_tag, ar_extra) := p in
        if extra_tag =? 1 then
          base ← offset TX_EXTRA_OFFSET;
          (if pubkey_offset_first then setOffset TX_PUBKEY_OFFSET (base + m_index ar_extra) else mret tt);;
          ar_extra ← extra (fun _ => skip beyond kKeySize ar_extra);
          parse_extra fuel false ar_extra
        else if extra_tag =? 2 then
          ar_extra ← extra_field TX_EXTRA_NONCE_OFFSET txExtraNonce ar_extra;
          parse_extra fuel pubkey_offset_first ar_extra
        else if extra_tag =? 3 then
          ar_extra ← extra_field TX_EXTRA_MERGE_MINING_TAG_OFFSET txMergeMiningTag ar_extra;
          parse_extra fuel pubkey_offset_first ar_extra
        else return_if true false
      else mret tt
  end.

Definition parse_tx_extra : parser unit :=
  read_varint extraSize;;
  i ← index; setOffset TX_EXTRA_OFFSET i;;
  size ← number extraSize;
  base ← offset TX_EXTRA_OFFSET;
  ar_skip size;;
  parse_extra fuel true (MkBlobReader size base 0).

(** The signatures after the prefix; [return true] skips a TOWNFORGE update. *)
Definition parse_rct : parser unit :=
  i ← index; setOffset MINER_TX_PREFIX_END_OFFSET i;;
  vin_rct_type ← ar_byte;
  town ← coin_is TOWNFORGE;
  h ← number height;
  return_if (town && (h mod 720 =? 0)) true;;
  return_if (negb (vin_rct_type =? 0)) false;;
  miner_tx_end ← index;
  prefix_end ← offset MINER_TX_PREFIX_END_OFFSET;
  return_if (negb (miner_tx_end =? prefix_end + 1)) false;;
  b ← lift (fun t => read_mem (m_blob t) prefix_end 1);
  return_if (negb (hd 0 b =? 0)) false.

Definition parse_miner_tx_end : parser unit :=
  zeph ← coin_is ZEPHYR;
  (if zeph : bool then ar_varint;; ar_varint;; ar_varint;; mret tt else mret tt);;
  parse_rct.

(** [m_hashes.resize(n)]. *)
Definition resize (n : Z) (v : list Z) : result (list Z) :=
  if alloc n then Ok (take (Z.to_nat n) v ++ repeat 0 (Z.to_nat n - length v)) else Throws.

(** The bytes between two offsets, their number converted to [int]. *)
Definition prefix_bytes (t : BlockTemplate) : result (list Z) :=
  let n := to_i32 (m_offsets t MINER_TX_PREFIX_END_OFFSET - m_offsets t MINER_TX_PREFIX_OFFSET) in
  if n <? 0 then Fault ReadOutside else read_mem (m_blob t) (m_offsets t MINER_TX_PREFIX_OFFSET) n.

Fixpoint read_hashes (fuel : nat) (i : Z) : parser unit :=
  match fuel with
  | O => runs
  | S fuel =>
      n ← number numHashes;
      if i <=? n then
        h ← ar_span kHashSize;
        v ← lift (fun t => b ← read_mem (m_blob t) h.1 h.2; write_mem (m_hashes t) (to_u64 (i * kHashSize)) b);
        modify (with_hashes v);;
        read_hashes fuel (to_u64 (i + 1))
      else mret tt
  end.

Definition parse_hashes : parser unit :=
  n ← number numHashes;
  v ← lift (fun t => resize (to_u64 (to_u64 (n + 1) * kHashSize)) (m_hashes t));
  modify (with_hashes v);;
  v ← lift (fun t => p ← prefix_bytes t; h ← calculateMinerTxHash p; write_mem (m_hashes t) 0 h);
  modify (with_hashes v);;
  read_hashes fuel 1;;
  tree ← lift (fun t => calculateMerkleTreeHash (m_number t numHashes) (m_hashes t));
  modify (with_tree tree.1 tree.2).

(** [bool parse(bool hashes)], from the reader at the start of the blob. *)
Definition parse_body (hashes : bool) : parser unit :=
  parse_header;;
  parse_miner_tx_begin;;
  parse_outputs;;
  parse_tx_extra;;
  parse_miner_tx_end;;
  read_varint numHashes;;
  (if hashes then parse_hashes else mret tt).

(** The result and the members, whether the parser returns or throws. *)
Definition try_parse (hashes : bool) (t : BlockTemplate) : result (bool * BlockTemplate) :=
  match parse_body hashes t (MkBlobReader (Z.of_nat (length (m_blob t))) 0 0) with
  | Done _ t _ => Ok (true, t)
  | Return b t => Ok (b, t)
  | Threw t => Ok (false, t)
  | Undefined u => Fault u
  | Runs => Running
  end.

Definition kMinSize : Z := 76.

(** [parse(const Buffer &, ...)]. *)
Definition parse (blocktemplate : list Z) (coin : Coin) (hashes : bool) (t : BlockTemplate) :
    result (bool * BlockTemplate) :=
  if Z.of_nat (length blocktemplate) <? kMinSize then Ok (false, t)
  else try_parse hashes (with_blob blocktemplate coin t).

(** [parse(const char *, size_t, ...)]. *)
Definition parse_hex (blocktemplate : list Z) (coin : Coin) (hashes : bool) (t : BlockTemplate) :
    result (bool * BlockTemplate) :=
  if Z.of_nat (length blocktemplate) <? kMinSize * 2 then Ok (false, t)
  else
    let n := (length blocktemplate / 2)%nat in
    let '(buf, ok) := fromHex_into (take n (m_blob t) ++ repeat 0 (n - length (m_blob t))) blocktemplate in
    if ok : bool then try_parse hashes (with_blob buf coin t) else Ok (false, with_blob buf (m_coin t) t).

End Parser.

(** ** The blob to hash *)

(** [while (k >= 0x80)] and the last byte. *)
Fixpoint emit_varint (fuel : nat) (k : Z) : result (list Z) :=
  match fuel with
  | O => Running
  | S fuel =>
      if 0x80 <=? k then
        s ← emit_varint fuel (Z.shiftr k 7);
        Ok (Z.lor (Z.land (to_u8 k) 0x7F) 0x80 :: s)
      else Ok [to_u8 k]
  end.

Definition generateHashingBlob (t : BlockTemplate) : result (list Z) :=
  header ← read_mem (m_blob t) 0 (m_offsets t MINER_TX_PREFIX_OFFSET);
  k ← emit_varint 10 (to_u64 (m_number t numHashes + 1));
  Ok (header ++ m_rootHash t ++ k).
