(* ===== verification/BlockTemplateOk.v ===== *)
(** * Running the parser of block templates

    A weakest precondition for the parser monad over one blob, with the rules
    of the reader's operations under the exact check, and the agreement of the
    two checks. *)

From stdpp Require Import functions.
From S2P Require Import Prelude.
From S2P Require Import CInt.
From S2P Require Import Bytes.
From S2P Require Import Signatures.
From S2P Require Import BlobReader.
From S2P Require Import MerkleTree.
From S2P Require Import BlockTemplate.

(** What is claimed when the parser leaves early. *)
Record exits := Exits { on_return : bool -> BlockTemplate -> Prop; on_throw : Prop; on_overlong : Prop }.

(** ** Reading the members after updates *)

Lemma offset_same o v t : m_offsets (with_offset o v t) o = v.
Proof. apply fn_lookup_insert. Qed.
Lemma offset_other o o' v t : o <> o' -> m_offsets (with_offset o v t) o' = m_offsets t o'.
Proof. intros Ho. apply fn_lookup_insert_ne, Ho. Qed.
Lemma number_same n v t : m_number (with_number n v t) n = v.
Proof. apply fn_lookup_insert. Qed.
Lemma number_other n n' v t : n <> n' -> m_number (with_number n v t) n' = m_number t n'.
Proof. intros Hn. apply fn_lookup_insert_ne, Hn. Qed.
Lemma span_same s v t : m_span (with_span s v t) s = v.
Proof. apply fn_lookup_insert. Qed.
Lemma span_other s s' v t : s <> s' -> m_span (with_span s v t) s' = m_span t s'.
Proof. intros Hs. apply fn_lookup_insert_ne, Hs. Qed.

(** An update of one kind leaves the members of the others. *)
Lemma offsets_number n v t : m_offsets (with_number n v t) = m_offsets t.
Proof. reflexivity. Qed.
Lemma offsets_span s v t : m_offsets (with_span s v t) = m_offsets t.
Proof. reflexivity. Qed.
Lemma offsets_vote v t : m_offsets (with_vote v t) = m_offsets t.
Proof. reflexivity. Qed.
Lemma offsets_hashes v t : m_offsets (with_hashes v t) = m_offsets t.
Proof. reflexivity. Qed.
Lemma offsets_tree b r t : m_offsets (with_tree b r t) = m_offsets t.
Proof. reflexivity. Qed.
Lemma numbers_offset o v t : m_number (with_offset o v t) = m_number t.
Proof. reflexivity. Qed.
Lemma numbers_span s v t : m_number (with_span s v t) = m_number t.
Proof. reflexivity. Qed.
Lemma numbers_vote v t : m_number (with_vote v t) = m_number t.
Proof. reflexivity. Qed.
Lemma numbers_hashes v t : m_number (with_hashes v t) = m_number t.
Proof. reflexivity. Qed.
Lemma numbers_tree b r t : m_number (with_tree b r t) = m_number t.
Proof. reflexivity. Qed.
Lemma spans_offset o v t : m_span (with_offset o v t) = m_span t.
Proof. reflexivity. Qed.
Lemma spans_number n v t : m_span (with_number n v t) = m_span t.
Proof. reflexivity. Qed.
Lemma spans_vote v t : m_span (with_vote v t) = m_span t.
Proof. reflexivity. Qed.
Lemma spans_hashes v t : m_span (with_hashes v t) = m_span t.
Proof. reflexivity. Qed.
Lemma spans_tree b r t : m_span (with_tree b r t) = m_span t.
Proof. reflexivity. Qed.
Lemma votes_offset o v t : m_vote (with_offset o v t) = m_vote t.
Proof. reflexivity. Qed.
Lemma votes_number n v t : m_vote (with_number n v t) = m_vote t.
Proof. reflexivity. Qed.
Lemma votes_span s v t : m_vote (with_span s v t) = m_vote t.
Proof. reflexivity. Qed.
Lemma votes_hashes v t : m_vote (with_hashes v t) = m_vote t.
Proof. reflexivity. Qed.
Lemma votes_tree b r t : m_vote (with_tree b r t) = m_vote t.
Proof. reflexivity. Qed.
Lemma votes_vote v t : m_vote (with_vote v t) = v.
Proof. reflexivity. Qed.

Create HintDb members.
#[export] Hint Rewrite
  offset_same number_same span_same offsets_number offsets_span offsets_vote
  offsets_hashes offsets_tree numbers_offset numbers_span numbers_vote numbers_hashes
  numbers_tree spans_offset spans_number spans_vote spans_hashes spans_tree
  votes_offset votes_number votes_span votes_hashes votes_tree votes_vote : members.
#[export] Hint Rewrite offset_other number_other span_other using discriminate : members.
Ltac members := autorewrite with members.

Section Wp.
Variables (blob : list Z) (coin : Coin).
Notation len := (Z.of_nat (length blob)).
Hypothesis Hlen : len < 2 ^ 32.

(** [ar] at an index of the blob. *)
Definition ar_at (i : Z) : BlobReader := MkBlobReader len 0 i.

Definition here (t : BlockTemplate) (i : Z) : Prop := m_blob t = blob /\ m_coin t = coin /\ 0 <= i <= len.

Definition wp {A} (E : exits) (m : parser A) (Q : A -> BlockTemplate -> Z -> Prop) (t : BlockTemplate) (i : Z) : Prop :=
  match m t (ar_at i) with
  | Done a t' ar => exists i', ar = ar_at i' /\ here t' i' /\ Q a t' i'
  | Return b t' => on_return E b t'
  | Threw _ => on_throw E
  | Undefined u => u = OverlongShift /\ on_overlong E
  | Runs => False
  end.

Lemma ar_region i : 0 <= i <= len -> region blob (ar_at i).
Proof. intros Hi. unfold region, ar_at. cbn. lia. Qed.

(** ** Structural rules *)

Lemma wp_bind {A B} E (m : parser A) (k : A -> parser B) Q t i :
  wp E m (fun a t i => here t i -> wp E (k a) Q t i) t i -> wp E (m ≫= k) Q t i.
Proof.
  unfold wp, mbind, parser_bind. destruct (m t (ar_at i)); [|auto..].
  intros (i' & -> & Hh & Hk). exact (Hk Hh).
Qed.

Lemma wp_seq {A B} E (m : parser A) (k : parser B) Q t i :
  wp E m (fun _ t i => here t i -> wp E k Q t i) t i -> wp E (m ;; k) Q t i.
Proof. apply wp_bind. Qed.

Lemma wp_mono {A} E (m : parser A) Q Q' t i :
  wp E m Q t i -> (forall a t i, here t i -> Q a t i -> Q' a t i) -> wp E m Q' t i.
Proof.
  unfold wp. destruct (m t (ar_at i)); [|auto..]. intros (i' & Ei & Hh & HQ) HQQ. eauto.
Qed.

Lemma wp_ret {A} E (a : A) Q t i : here t i -> Q a t i -> wp E (mret a) Q t i.
Proof. unfold wp. cbn. eauto. Qed.

Lemma wp_get {A} E (f : BlockTemplate -> A) Q t i : here t i -> Q (f t) t i -> wp E (get f) Q t i.
Proof. unfold wp. cbn. eauto. Qed.

Lemma wp_number E n Q t i : here t i -> Q (m_number t n) t i -> wp E (number n) Q t i.
Proof. apply (wp_get E (fun t => m_number t n)). Qed.

Lemma wp_offset E o Q t i : here t i -> Q (m_offsets t o) t i -> wp E (offset o) Q t i.
Proof. apply (wp_get E (fun t => m_offsets t o)). Qed.

Lemma wp_coin E c Q t i : here t i -> Q (bool_decide (coin = c)) t i -> wp E (coin_is c) Q t i.
Proof. intros Hh HQ. apply wp_get; [exact Hh|]. destruct Hh as (_ & -> & _). exact HQ. Qed.

Lemma wp_index E Q t i : here t i -> Q i t i -> wp E index Q t i.
Proof. unfold wp. cbn. eauto. Qed.

Lemma wp_modify E f Q t i : here t i -> here (f t) i -> Q tt (f t) i -> wp E (modify f) Q t i.
Proof. unfold wp. cbn. eauto. Qed.

Lemma wp_setOffset E o v Q t i : here t i -> Q tt (with_offset o (to_u32 v) t) i -> wp E (setOffset o v) Q t i.
Proof. intros Hh. apply wp_modify; exact Hh. Qed.

Lemma wp_return_if E c b Q t i :
  here t i -> (c = true -> on_return E b t) -> (c = false -> Q tt t i) -> wp E (return_if c b) Q t i.
Proof. unfold wp, return_if. destruct c; cbn; eauto. Qed.

(** ** The reader *)

Lemma wp_byte E Q t i :
  here t i -> (i + 1 <= len -> Q (hd 0 (drop (Z.to_nat i) blob)) t (i + 1)) -> (len < i + 1 -> on_throw E) ->
  wp E ar_byte Q t i.
Proof.
  intros Hh HQ HT. unfold wp, ar_byte, with_ar. destruct Hh as (Eb & Ec & Hi).
  rewrite Eb, getByte_spec by (apply ar_region, Hi). cbn [ar_at m_index m_size].
  destruct (Z.leb_spec (i + 1) len); [|apply HT; lia].
  exists (i + 1). split; [reflexivity|]. split; [unfold here; auto with lia|].
  specialize (HQ ltac:(assumption)). unfold pending. cbn [ar_at m_data m_index]. exact HQ.
Qed.

Lemma wp_varint E Q t i :
  here t i -> (forall v n, 0 <= v < 2 ^ 64 -> 1 <= n -> i + n <= len -> Q v t (i + n)) ->
  on_throw E -> on_overlong E -> wp E ar_varint Q t i.
Proof.
  intros (Eb & Ec & Hi) HQ HT HO. unfold wp, ar_varint, with_ar. rewrite Eb.
  destruct (getVarint_cases blob (ar_at i) (ar_region i Hi)) as [(v & n & -> & Hv & Hn & Hin) | [-> | ->]].
  - cbn [ar_at m_index m_size] in Hin. exists (i + n). split; [reflexivity|].
    split; [unfold here; auto with lia | auto].
  - exact HT.
  - auto.
Qed.

Lemma wp_skip E n Q t i :
  here t i -> 0 <= n -> (i + n <= len -> Q tt t (i + n)) -> (len < i + n -> on_throw E) ->
  wp E (ar_skip exact n) Q t i.
Proof.
  intros (Eb & Ec & Hi) Hn HQ HT. unfold wp, ar_skip, with_ar.
  rewrite (skip_exact blob) by (apply ar_region, Hi || exact Hn). cbn [ar_at m_index m_size].
  destruct (Z.leb_spec (i + n) len); [|apply HT; lia].
  exists (i + n). split; [reflexivity|]. split; [unfold here; auto with lia | auto].
Qed.

Lemma wp_span E n Q t i :
  here t i -> 0 <= n -> (i + n <= len -> Q (i, n) t (i + n)) -> (len < i + n -> on_throw E) ->
  wp E (ar_span exact n) Q t i.
Proof.
  intros (Eb & Ec & Hi) Hn HQ HT. unfold wp, ar_span, with_ar.
  rewrite (read_span_exact blob) by (apply ar_region, Hi || exact Hn). cbn [ar_at m_data m_index m_size].
  destruct (Z.leb_spec (i + n) len); [|apply HT; lia].
  exists (i + n). split; [reflexivity|]. split; [unfold here; auto with lia | auto].
Qed.

Lemma wp_array E n Q t i :
  here t i -> 0 <= n -> (i + n <= len -> Q (take (Z.to_nat n) (drop (Z.to_nat i) blob)) t (i + n)) ->
  (len < i + n -> on_throw E) -> wp E (ar_array exact n) Q t i.
Proof.
  intros (Eb & Ec & Hi) Hn HQ HT. unfold wp, ar_array, with_ar.
  rewrite Eb, read_array_exact by (apply ar_region, Hi || exact Hn). cbn [ar_at m_index m_size].
  destruct (Z.leb_spec (i + n) len); [|apply HT; lia].
  exists (i + n). split; [reflexivity|]. split; [unfold here; auto with lia|].
  unfold pending. cbn [ar_at m_data m_index]. auto.
Qed.

Lemma wp_lift {A} E (c : BlockTemplate -> result A) a Q t i :
  here t i -> c t = Ok a -> Q a t i -> wp E (lift c) Q t i.
Proof. intros Hh Ec HQ. unfold wp, lift. rewrite Ec. eauto. Qed.

Lemma wp_read E p n Q t i :
  here t i -> 0 <= p -> p + n <= len -> Q (take (Z.to_nat n) (drop (Z.to_nat p) blob)) t i ->
  wp E (lift (fun t => read_mem (m_blob t) p n)) Q t i.
Proof.
  intros Hh Hp Hn HQ. eapply wp_lift; [exact Hh | | exact HQ].
  pose proof Hh as (-> & _). apply read_mem_ok; assumption.
Qed.

(** ** The reader of the extra field *)

Section Extra.
Variables (base size : Z).
Hypothesis Hbase : 0 <= base.
Hypothesis Hsize : base + size <= len.

(** [ar_extra] at an index of the field. *)
Definition extra_at (j : Z) : BlobReader := MkBlobReader size base j.

Lemma extra_region j : 0 <= j <= size -> region blob (extra_at j).
Proof. intros Hj. unfold region, extra_at. cbn. lia. Qed.

Lemma wp_extra_varint E Q t i j :
  here t i -> 0 <= j <= size ->
  (forall v n, 0 <= v < 2 ^ 64 -> 1 <= n -> j + n <= size -> Q (v, extra_at (j + n)) t i) ->
  on_throw E -> on_overlong E -> wp E (extra (fun mem => getVarint mem (extra_at j))) Q t i.
Proof.
  intros Hh Hj HQ HT HO. unfold wp, extra, lift. pose proof Hh as (-> & _ & _).
  destruct (getVarint_cases blob (extra_at j) (extra_region j Hj)) as [(v & n & -> & Hv & Hn & Hin) | [-> | ->]].
  - exists i. split; [reflexivity|]. split; [exact Hh | exact (HQ v n Hv Hn Hin)].
  - exact HT.
  - exact (conj eq_refl HO).
Qed.

Lemma wp_extra_skip E n Q t i j :
  here t i -> 0 <= j <= size -> 0 <= n -> (j + n <= size -> Q (extra_at (j + n)) t i) ->
  (size < j + n -> on_throw E) -> wp E (extra (fun _ => skip exact n (extra_at j))) Q t i.
Proof.
  intros Hh Hj Hn HQ HT. unfold wp, extra, lift. rewrite (skip_exact blob) by (apply extra_region, Hj || exact Hn).
  cbn [extra_at m_index m_size]. destruct (Z.leb_spec (j + n) size); [|apply HT; lia].
  exists i. auto.
Qed.

Lemma wp_extra_span E n Q t i j :
  here t i -> 0 <= j <= size -> 0 <= n -> (j + n <= size -> Q ((base + j, n), extra_at (j + n)) t i) ->
  (size < j + n -> on_throw E) -> wp E (extra (fun _ => read_span exact n (extra_at j))) Q t i.
Proof.
  intros Hh Hj Hn HQ HT. unfold wp, extra, lift. rewrite (read_span_exact blob) by (apply extra_region, Hj || exact Hn).
  cbn [extra_at m_data m_index m_size]. destruct (Z.leb_spec (j + n) size); [|apply HT; lia].
  exists i. auto.
Qed.

End Extra.
End Wp.

(** ** Any check of the bounds *)

(** A check that is exact for the sizes in [small], when the constants of the
    parser and the varints of the template are such sizes. *)
Section Checked.
Variables (blob : list Z) (coin : Coin).
Notation len := (Z.of_nat (length blob)).
Hypothesis Hlen : len < 2 ^ 32.
Variable beyond : Z -> Z -> Z -> bool.
Variable small : Z -> Prop.
Hypothesis Hcheck : forall i n size, 0 <= i < 2 ^ 32 -> 0 <= n -> small n -> beyond i n size = exact i n size.
Hypothesis Hvar : forall r v r', region blob r -> getVarint blob r = Ok (v, r') -> small v.

Lemma check_skip n r : region blob r -> 0 <= n -> small n -> skip beyond n r = skip exact n r.
Proof. intros Hr Hn Hs. unfold skip. unfold region in Hr. rewrite Hcheck by (assumption || lia). reflexivity. Qed.

Lemma check_span n r : region blob r -> 0 <= n -> small n -> read_span beyond n r = read_span exact n r.
Proof. intros Hr Hn Hs. unfold read_span. unfold region in Hr. rewrite Hcheck by (assumption || lia). reflexivity. Qed.

Lemma check_array n r : region blob r -> 0 <= n -> small n -> read_array beyond blob n r = read_array exact blob n r.
Proof. intros Hr Hn Hs. unfold read_array. unfold region in Hr. rewrite Hcheck by (assumption || lia). reflexivity. Qed.

Lemma wpc_varint E Q t i :
  here blob coin t i -> (forall v n, 0 <= v < 2 ^ 64 -> small v -> 1 <= n -> i + n <= len -> Q v t (i + n)) ->
  on_throw E -> on_overlong E -> wp blob coin E ar_varint Q t i.
Proof.
  intros (Eb & Ec & Hi) HQ HT HO. unfold wp, ar_varint, with_ar. rewrite Eb.
  destruct (getVarint_cases blob (ar_at blob i) (ar_region blob Hlen i Hi)) as [(v & n & E1 & Hv & Hn & Hin) | [-> | ->]].
  - rewrite E1. cbn [ar_at m_index m_size] in Hin. exists (i + n). split; [reflexivity|].
    split; [unfold here; auto with lia | apply HQ; try assumption; exact (Hvar _ _ _ (ar_region blob Hlen i Hi) E1)].
  - exact HT.
  - auto.
Qed.

Lemma wpc_skip E n Q t i :
  here blob coin t i -> 0 <= n -> small n -> (i + n <= len -> Q tt t (i + n)) -> (len < i + n -> on_throw E) ->
  wp blob coin E (ar_skip beyond n) Q t i.
Proof.
  intros Hh Hn Hs HQ HT. pose proof (wp_skip blob coin Hlen E n Q t i Hh Hn HQ HT) as Hw. revert Hw.
  unfold wp, ar_skip, with_ar. rewrite check_skip; [exact (fun H => H) | apply (ar_region blob Hlen), Hh | exact Hn | exact Hs].
Qed.

Lemma wpc_span E n Q t i :
  here blob coin t i -> 0 <= n -> small n -> (i + n <= len -> Q (i, n) t (i + n)) -> (len < i + n -> on_throw E) ->
  wp blob coin E (ar_span beyond n) Q t i.
Proof.
  intros Hh Hn Hs HQ HT. pose proof (wp_span blob coin Hlen E n Q t i Hh Hn HQ HT) as Hw. revert Hw.
  unfold wp, ar_span, with_ar. rewrite check_span; [exact (fun H => H) | apply (ar_region blob Hlen), Hh | exact Hn | exact Hs].
Qed.

Lemma wpc_array E n Q t i :
  here blob coin t i -> 0 <= n -> small n -> (i + n <= len -> Q (take (Z.to_nat n) (drop (Z.to_nat i) blob)) t (i + n)) ->
  (len < i + n -> on_throw E) -> wp blob coin E (ar_array beyond n) Q t i.
Proof.
  intros Hh Hn Hs HQ HT. pose proof (wp_array blob coin Hlen E n Q t i Hh Hn HQ HT) as Hw. revert Hw.
  unfold wp, ar_array, with_ar. rewrite (proj1 Hh).
  rewrite check_array; [exact (fun H => H) | apply (ar_region blob Hlen), Hh | exact Hn | exact Hs].
Qed.

Section Extra.
Variables (base size : Z).
Hypothesis Hbase : 0 <= base.
Hypothesis Hsize : base + size <= len.
Notation at_ := (extra_at base size).

Lemma wpc_extra_varint E Q t i j :
  here blob coin t i -> 0 <= j <= size ->
  (forall v n, 0 <= v < 2 ^ 64 -> small v -> 1 <= n -> j + n <= size -> Q (v, at_ (j + n)) t i) ->
  on_throw E -> on_overlong E -> wp blob coin E (extra (fun mem => getVarint mem (at_ j))) Q t i.
Proof.
  intros Hh Hj HQ HT HO. unfold wp, extra, lift. pose proof Hh as (-> & _ & _).
  pose proof (extra_region blob Hlen base size Hbase Hsize j Hj) as Hr.
  destruct (getVarint_cases blob (at_ j) Hr) as [(v & n & E1 & Hv & Hn & Hin) | [-> | ->]].
  - rewrite E1. exists i. split; [reflexivity|]. split; [exact Hh | exact (HQ v n Hv (Hvar _ _ _ Hr E1) Hn Hin)].
  - exact HT.
  - exact (conj eq_refl HO).
Qed.

Lemma wpc_extra_skip E n Q t i j :
  here blob coin t i -> 0 <= j <= size -> 0 <= n -> small n -> (j + n <= size -> Q (at_ (j + n)) t i) ->
  (size < j + n -> on_throw E) -> wp blob coin E (extra (fun _ => skip beyond n (at_ j))) Q t i.
Proof.
  intros Hh Hj Hn Hs HQ HT. pose proof (wp_extra_skip blob coin Hlen base size Hbase Hsize E n Q t i j Hh Hj Hn HQ HT) as Hw. revert Hw.
  unfold wp, extra, lift.
  rewrite check_skip; [exact (fun H => H) | apply (extra_region blob Hlen base size); assumption | exact Hn | exact Hs].
Qed.

Lemma wpc_extra_span E n Q t i j :
  here blob coin t i -> 0 <= j <= size -> 0 <= n -> small n -> (j + n <= size -> Q ((base + j, n), at_ (j + n)) t i) ->
  (size < j + n -> on_throw E) -> wp blob coin E (extra (fun _ => read_span beyond n (at_ j))) Q t i.
Proof.
  intros Hh Hj Hn Hs HQ HT. pose proof (wp_extra_span blob coin Hlen base size Hbase Hsize E n Q t i j Hh Hj Hn HQ HT) as Hw. revert Hw.
  unfold wp, extra, lift.
  rewrite check_span; [exact (fun H => H) | apply (extra_region blob Hlen base size); assumption | exact Hn | exact Hs].
Qed.

Lemma wpc_extra_field E o s Q t i j :
  here blob coin t i -> 0 <= j <= size -> m_offsets t TX_EXTRA_OFFSET = base ->
  (forall n size', 1 <= n -> 0 <= size' < 2 ^ 64 -> j + n + size' <= size ->
     Q (at_ (j + n + size')) (with_span s (base + (j + n), size') (with_offset o (base + (j + n)) t)) i) ->
  on_throw E -> on_overlong E -> wp blob coin E (extra_field beyond o s (at_ j)) Q t i.
Proof.
  intros Hh Hj Hb HQ HT HO. unfold extra_field. apply wp_bind, wpc_extra_varint; [assumption..| |assumption|assumption].
  intros size' n Hs' Hsm Hn Hin _. apply wp_bind, wp_offset; [exact Hh|]. intros _. rewrite Hb. cbn [extra_at m_index].
  apply wp_bind, wp_setOffset; [exact Hh|]. intros _.
  replace (to_u32 (base + (j + n))) with (base + (j + n)) by (symmetry; apply Z.mod_small; lia).
  apply wp_bind, wpc_extra_span; [exact Hh | lia | lia | exact Hsm | | auto]. intros Hspan _.
  apply wp_bind, wp_modify; [exact Hh | exact Hh|]. intros _. apply wp_ret; [exact Hh|].
  apply HQ; lia.
Qed.

End Extra.
End Checked.

(** One step of the weakest precondition; the side conditions about the reader
    and the exits that hold by hypothesis are discharged. *)
Ltac wp_side := first [assumption | exact I | lia | idtac].
Ltac wp_step :=
  lazymatch goal with
  | |- wp _ _ _ (mbind _ _) _ _ _ => apply wp_bind
  | |- wp _ _ _ (mret _) _ _ _ => apply wp_ret; [assumption|]
  | |- wp _ _ _ index _ _ _ => apply wp_index; [assumption|]
  | |- wp _ _ _ (number _) _ _ _ => apply wp_number; [assumption|]
  | |- wp _ _ _ (offset _) _ _ _ => apply wp_offset; [assumption|]
  | |- wp _ _ _ (coin_is _) _ _ _ => apply wp_coin; [assumption|]
  | |- wp _ _ _ (get _) _ _ _ => apply wp_get; [assumption|]
  | |- wp _ _ _ (modify _) _ _ _ => apply wp_modify; [assumption | assumption |]
  | |- wp _ _ _ (setOffset _ _) _ _ _ => apply wp_setOffset; [assumption|]
  | |- wp _ _ _ (return_if _ _) _ _ _ => apply wp_return_if; [assumption | intros | intros]
  | |- wp _ _ _ ar_byte _ _ _ => apply wp_byte; [assumption | assumption | intros | intros; wp_side]
  | |- wp _ _ _ ar_varint _ _ _ => apply wp_varint; [assumption | assumption | intros | wp_side | wp_side]
  | |- wp _ _ _ (if ?c then _ else _) _ _ _ => destruct c eqn:?
  end; cbv beta; intros.

(** ** Bounds *)

Section Bounds.
Context `{Digest32}.
Variable alloc : Z -> bool.
Variable fuel : nat.
Variables (blob : list Z) (coin : Coin).
Notation len := (Z.of_nat (length blob)).
Hypothesis Hlen : len < 2 ^ 32.
Variable beyond : Z -> Z -> Z -> bool.
Variable small : Z -> Prop.
Hypothesis Hcheck : forall i n size, 0 <= i < 2 ^ 32 -> 0 <= n -> small n -> beyond i n size = exact i n size.
Hypothesis Hvar : forall r v r', region blob r -> getVarint blob r = Ok (v, r') -> small v.
Hypothesis Hconst : forall n, 0 <= n <= 120 -> small n.

(** A step under this check. *)
Ltac small_side := first [assumption | solve [apply Hconst; lia]].
Ltac code_step :=
  lazymatch goal with
  | |- wp _ _ _ ar_varint _ _ _ =>
      apply (wpc_varint blob coin Hlen small Hvar); [assumption | intros | wp_side | wp_side]; cbv beta; intros
  | |- wp _ _ _ (ar_skip _ _) _ _ _ =>
      apply (wpc_skip blob coin Hlen beyond small Hcheck); [assumption | wp_side | small_side | intros | intros; wp_side]; cbv beta; intros
  | |- wp _ _ _ (ar_span _ _) _ _ _ =>
      apply (wpc_span blob coin Hlen beyond small Hcheck); [assumption | wp_side | small_side | intros | intros; wp_side]; cbv beta; intros
  | |- wp _ _ _ (ar_array _ _) _ _ _ =>
      apply (wpc_array blob coin Hlen beyond small Hcheck); [assumption | wp_side | small_side | intros | intros; wp_side]; cbv beta; intros
  | |- _ => wp_step
  end.

(** Exceptions, overlong varints and refusals are allowed; [W] is claimed of
    the members when the parser accepts early. *)
Definition safe (W : BlockTemplate -> Prop) : exits := Exits (fun b t => b = true -> W t) True True.

Lemma to_u32_index i : 0 <= i <= len -> to_u32 i = i.
Proof. intros Hi. apply Z.mod_small. lia. Qed.

Lemma here_range t i : here blob coin t i -> 0 <= i <= len.
Proof. intros (_ & _ & Hi). exact Hi. Qed.

(** Each stage, for any continuation [Q] that its effect on the offsets
    establishes. *)
Definition keeps (os : list Offset) (t t' : BlockTemplate) : Prop :=
  Forall (fun o => m_offsets t' o = m_offsets t o) os.

Ltac stage Hh HQ :=
  pose proof (here_range _ _ Hh); unfold read_byte, read_varint, read_span_of, kHashSize, kNonceSize, kSignatureSize, kKeySize;
  repeat code_step;
  try (intros; discriminate);
  try (apply HQ; [assumption|..]; unfold keeps; repeat apply Forall_cons_2; try apply Forall_nil_2;
       members; rewrite ?to_u32_index by lia; lia || reflexivity).

Lemma header_bounds W t i (Q : unit -> BlockTemplate -> Z -> Prop) :
  here blob coin t i ->
  (forall t' i', here blob coin t' i' -> 0 <= m_offsets t' NONCE_OFFSET ->
     m_offsets t' NONCE_OFFSET + 4 <= m_offsets t' MINER_TX_PREFIX_OFFSET ->
     m_offsets t' MINER_TX_PREFIX_OFFSET = i' ->
     keeps [TX_PUBKEY_OFFSET; TX_EXTRA_NONCE_OFFSET] t t' -> Q tt t' i') ->
  wp blob coin (safe W) (parse_header beyond) Q t i.
Proof. intros Hh HQ. unfold parse_header. stage Hh HQ. Qed.

Lemma begin_bounds W t i (Q : unit -> BlockTemplate -> Z -> Prop) :
  here blob coin t i ->
  (forall t' i', here blob coin t' i' -> i < m_offsets t' EPH_PUBLIC_KEY_OFFSET ->
     m_offsets t' EPH_PUBLIC_KEY_OFFSET + 32 = i' ->
     keeps [NONCE_OFFSET; MINER_TX_PREFIX_OFFSET; TX_PUBKEY_OFFSET; TX_EXTRA_NONCE_OFFSET] t t' -> Q tt t' i') ->
  wp blob coin (safe W) (parse_miner_tx_begin beyond) Q t i.
Proof. intros Hh HQ. unfold parse_miner_tx_begin. stage Hh HQ. Qed.

(** A turn of the loop consumes bytes. *)
Lemma zephyr_bounds W n k t i (Q : unit -> BlockTemplate -> Z -> Prop) :
  here blob coin t i -> len - i < Z.of_nat n ->
  (forall i', here blob coin t i' -> i <= i' -> Q tt t i') ->
  wp blob coin (safe W) (zephyr_outputs beyond n k) Q t i.
Proof.
  revert k t i. induction n as [|n IH]; intros k t i Hh Hn HQ; pose proof (here_range _ _ Hh); [lia|].
  cbn [zephyr_outputs]. unfold kKeySize. repeat code_step; try (intros; discriminate).
  - apply IH; [assumption | lia|]. intros i' Hh' Hi'. apply HQ; [assumption | lia].
  - apply HQ; [assumption | lia].
Qed.

Lemma outputs_bounds W t i (Q : unit -> BlockTemplate -> Z -> Prop) :
  here blob coin t i -> len < Z.of_nat fuel ->
  (forall t' i', here blob coin t' i' -> i <= i' -> m_offsets t' = m_offsets t -> m_span t' = m_span t -> Q tt t' i') ->
  wp blob coin (safe W) (parse_outputs beyond fuel) Q t i.
Proof.
  intros Hh Hf HQ. pose proof (here_range _ _ Hh). unfold parse_outputs, read_byte, read_varint.
  repeat (code_step || (apply zephyr_bounds; [assumption | lia | intros])); try (intros; discriminate);
    (apply HQ; [assumption | lia | reflexivity | reflexivity]).
Qed.

(** The key and the nonce of the extra field lie in it, unless they are those
    of an earlier template. *)
Definition pubkey_placed (t0 t : BlockTemplate) : Prop :=
  m_offsets t TX_PUBKEY_OFFSET = m_offsets t0 TX_PUBKEY_OFFSET \/
  m_offsets t TX_EXTRA_OFFSET < m_offsets t TX_PUBKEY_OFFSET /\
  m_offsets t TX_PUBKEY_OFFSET + 32 <= m_offsets t TX_EXTRA_OFFSET + m_number t extraSize.

Definition nonce_placed (t0 t : BlockTemplate) : Prop :=
  m_offsets t TX_EXTRA_NONCE_OFFSET = m_offsets t0 TX_EXTRA_NONCE_OFFSET \/
  m_offsets t TX_EXTRA_OFFSET < m_offsets t TX_EXTRA_NONCE_OFFSET /\
  fst (m_span t txExtraNonce) = m_offsets t TX_EXTRA_NONCE_OFFSET /\ 0 <= snd (m_span t txExtraNonce) /\
  m_offsets t TX_EXTRA_NONCE_OFFSET + snd (m_span t txExtraNonce) <= m_offsets t TX_EXTRA_OFFSET + m_number t extraSize.

Definition kept : list Offset := [NONCE_OFFSET; MINER_TX_PREFIX_OFFSET; EPH_PUBLIC_KEY_OFFSET; TX_EXTRA_OFFSET].

Ltac keeps_facts K := unfold keeps, kept in K; repeat rewrite Forall_cons in K.

Lemma keeps_trans os t t' t'' : keeps os t t' -> keeps os t' t'' -> keeps os t t''.
Proof.
  unfold keeps. rewrite !Forall_forall. intros H1 H2 o Ho. rewrite (H2 o Ho). apply H1, Ho.
Qed.

Lemma keeps_base t t' : keeps kept t t' -> m_offsets t' TX_EXTRA_OFFSET = m_offsets t TX_EXTRA_OFFSET.
Proof. unfold keeps, kept. rewrite !Forall_cons. tauto. Qed.

Lemma extra_bounds W t0 n first t i j (Q : unit -> BlockTemplate -> Z -> Prop) :
  let base := m_offsets t TX_EXTRA_OFFSET in
  let size := m_number t extraSize in
  here blob coin t i -> 0 <= base -> base + size <= len -> 0 <= j <= size -> size - j < Z.of_nat n ->
  pubkey_placed t0 t -> nonce_placed t0 t ->
  (forall t', here blob coin t' i -> m_number t' = m_number t ->
     keeps kept t t' -> pubkey_placed t0 t' -> nonce_placed t0 t' -> Q tt t' i) ->
  wp blob coin (safe W) (parse_extra beyond n first (extra_at base size j)) Q t i.
Proof.
  cbv zeta. revert first t j. induction n as [|n IH]; intros first t j Hh Hb Hs Hj Hn Hp Hx HQ; [lia|].
  cbn [parse_extra]. code_step. code_step. cbn [extra_at m_index]. code_step.
  2: { apply wp_ret; [assumption|]. apply HQ; auto. repeat constructor. }
  apply wp_bind, (wpc_extra_varint blob coin Hlen small Hvar _ _ Hb Hs); [assumption | assumption | | exact I | exact I].
  intros v k Hv Hsm Hk Hin Hh'.
  assert (Hnext : forall first t2 j2, here blob coin t2 i -> m_number t2 = m_number t -> keeps kept t t2 ->
      pubkey_placed t0 t2 -> nonce_placed t0 t2 -> j < j2 <= m_number t extraSize ->
      wp blob coin (safe W) (parse_extra beyond n first
        (extra_at (m_offsets t TX_EXTRA_OFFSET) (m_number t extraSize) j2)) Q t2 i).
  { intros first2 t2 j2 Hh2 Hnum Hk2 Hp2 Hx2 Hj2. pose proof (keeps_base _ _ Hk2) as Eb.
    rewrite <- Eb, <- Hnum. apply IH; rewrite ?Hnum, ?Eb; try assumption; [lia | lia|].
    intros t' Ht' En Hk' Hp' Hx'. apply HQ; [assumption | congruence | exact (keeps_trans _ _ _ _ Hk2 Hk') | assumption..]. }
  code_step; [|code_step; [|code_step]].
  - code_step. code_step. code_step. code_step; code_step.
    all: apply wp_bind, (wpc_extra_skip blob coin Hlen beyond small Hcheck _ _ Hb Hs);
      [assumption | lia | unfold kKeySize; lia | apply Hconst; unfold kKeySize; lia | | intros; exact I].
    all: intros Hin2 _; apply Hnext; [assumption | reflexivity | | | | unfold kKeySize in *; lia].
    all: try (repeat constructor; members; reflexivity); try assumption.
    right. members. cbn [extra_at m_index]. unfold kKeySize in *. rewrite to_u32_index by lia. lia.
  - apply wp_bind, (wpc_extra_field blob coin Hlen beyond small Hcheck Hvar _ _ Hb Hs);
      [assumption | lia | reflexivity | | exact I | exact I].
    intros m size' Hm Hs' Hin2 _. apply Hnext; [assumption | reflexivity | | | | lia].
    + repeat constructor; members; reflexivity.
    + unfold pubkey_placed in *. members. exact Hp.
    + right. members. cbn [fst snd]. lia.
  - apply wp_bind, (wpc_extra_field blob coin Hlen beyond small Hcheck Hvar _ _ Hb Hs);
      [assumption | lia | reflexivity | | exact I | exact I].
    intros m size' Hm Hs' Hin2 _. apply Hnext; [assumption | reflexivity | | | | lia].
    + repeat constructor; members; reflexivity.
    + unfold pubkey_placed in *. members. exact Hp.
    + unfold nonce_placed in *. members. exact Hx.
  - unfold wp, return_if. cbn. discriminate.
Qed.

Lemma tx_extra_bounds W t0 t i (Q : unit -> BlockTemplate -> Z -> Prop) :
  here blob coin t i -> len < Z.of_nat fuel ->
  m_offsets t TX_PUBKEY_OFFSET = m_offsets t0 TX_PUBKEY_OFFSET ->
  m_offsets t TX_EXTRA_NONCE_OFFSET = m_offsets t0 TX_EXTRA_NONCE_OFFSET ->
  (forall t' i', here blob coin t' i' -> i < m_offsets t' TX_EXTRA_OFFSET -> 0 <= m_number t' extraSize ->
     m_offsets t' TX_EXTRA_OFFSET + m_number t' extraSize = i' ->
     keeps [NONCE_OFFSET; MINER_TX_PREFIX_OFFSET; EPH_PUBLIC_KEY_OFFSET] t t' ->
     pubkey_placed t0 t' -> nonce_placed t0 t' -> Q tt t' i') ->
  wp blob coin (safe W) (parse_tx_extra beyond fuel) Q t i.
Proof.
  intros Hh Hf Hp Hx HQ. pose proof (here_range _ _ Hh). unfold parse_tx_extra, read_varint.
  do 13 code_step. set (t1 := with_offset _ _ _) in *.
  assert (Eb : m_offsets t1 TX_EXTRA_OFFSET = i + n) by (unfold t1; members; apply to_u32_index; lia).
  assert (Es : m_number t1 extraSize = v) by (unfold t1; members; reflexivity).
  code_step. apply (extra_bounds W t0 fuel true t1 _ 0); try assumption; try lia.
  - left. unfold t1. members. exact Hp.
  - left. unfold t1. members. exact Hx.
  - intros t' Hh' Hnum Hk Hp' Hx'. pose proof (keeps_base _ _ Hk). apply HQ; try assumption; rewrite ?Hnum; try lia.
    unfold keeps. keeps_facts Hk. unfold t1 in Hk. autorewrite with members in Hk.
    repeat apply Forall_cons_2; [tauto.. | apply Forall_nil_2].
Qed.

(** The offsets of an accepted template. *)
Definition well_placed (t0 t : BlockTemplate) : Prop :=
  0 <= m_offsets t NONCE_OFFSET /\
  m_offsets t NONCE_OFFSET + 4 <= m_offsets t MINER_TX_PREFIX_OFFSET /\
  m_offsets t MINER_TX_PREFIX_OFFSET < m_offsets t EPH_PUBLIC_KEY_OFFSET /\
  m_offsets t EPH_PUBLIC_KEY_OFFSET + 32 < m_offsets t TX_EXTRA_OFFSET /\
  0 <= m_number t extraSize /\
  m_offsets t TX_EXTRA_OFFSET + m_number t extraSize <= m_offsets t MINER_TX_PREFIX_END_OFFSET /\
  m_offsets t MINER_TX_PREFIX_END_OFFSET < len /\
  pubkey_placed t0 t /\ nonce_placed t0 t.

Lemma end_bounds W t i (Q : unit -> BlockTemplate -> Z -> Prop) :
  here blob coin t i ->
  (forall t' i', here blob coin t' i' -> i <= m_offsets t' MINER_TX_PREFIX_END_OFFSET < len ->
     m_number t' = m_number t -> m_span t' = m_span t ->
     keeps [NONCE_OFFSET; MINER_TX_PREFIX_OFFSET; EPH_PUBLIC_KEY_OFFSET; TX_EXTRA_OFFSET; TX_PUBKEY_OFFSET;
            TX_EXTRA_NONCE_OFFSET] t t' -> Q tt t' i' /\ W t') ->
  wp blob coin (safe W) parse_miner_tx_end Q t i.
Proof.
  intros Hh HQ. pose proof (here_range _ _ Hh). unfold parse_miner_tx_end, parse_rct.
  assert (Hend : forall e i', i <= e < len -> 0 <= i' <= len ->
      let t' := with_offset MINER_TX_PREFIX_END_OFFSET e t in Q tt t' i' /\ W t').
  { intros e i' He Hi' t'. apply HQ; try reflexivity.
    - destruct Hh as (? & ? & _). repeat split; assumption || lia.
    - unfold t'. members. lia.
    - unfold t', keeps. repeat apply Forall_cons_2; try apply Forall_nil_2; members; reflexivity. }
  repeat code_step; try discriminate.
  all: rewrite to_u32_index in * by lia.
  all: try (intros _; apply (Hend _ i); lia).
  all: members; apply wp_read; [assumption | lia | lia|].
  all: cbv beta; intros; code_step; [discriminate|]; apply Hend; lia.
Qed.

Lemma parse_body_bounds t0 t i :
  m_offsets t TX_PUBKEY_OFFSET = m_offsets t0 TX_PUBKEY_OFFSET ->
  m_offsets t TX_EXTRA_NONCE_OFFSET = m_offsets t0 TX_EXTRA_NONCE_OFFSET ->
  here blob coin t i -> len < Z.of_nat fuel ->
  wp blob coin (safe (well_placed t0)) (parse_body beyond alloc fuel false) (fun _ t' _ => well_placed t0 t') t i.
Proof.
  intros Hp Hx Hh Hf. unfold parse_body.
  apply wp_bind, header_bounds; [exact Hh|]. intros t1 i1 Hh1 F1 F2 F3 K1 _.
  apply wp_bind, begin_bounds; [exact Hh1|]. intros t2 i2 Hh2 F4 F5 K2 _.
  apply wp_bind, outputs_bounds; [exact Hh2 | exact Hf|]. intros t3 i3 Hh3 F6 E3 _ _.
  keeps_facts K1. keeps_facts K2.
  apply wp_bind, (tx_extra_bounds _ t0); [exact Hh3 | exact Hf | rewrite E3; intuition congruence.. |].
  intros t4 i4 Hh4 F7 F8 F9 K4 Hp4 Hx4 _. keeps_facts K4. rewrite E3 in K4.
  apply wp_bind, end_bounds; [exact Hh4|]. intros t5 i5 Hh5 F10 E5 E5' K5.
  assert (W5 : well_placed t0 t5).
  { keeps_facts K5. unfold well_placed, pubkey_placed, nonce_placed in *.
    rewrite E5, E5'. intuition congruence || lia. }
  split; [|exact W5]. intros _. unfold read_varint. repeat code_step. exact W5.
Qed.

End Bounds.

(** ** The two checks *)

(** The code agrees with the exact check unless the latter throws. *)
Section Agree.
Context `{Digest32}.
Variable alloc : Z -> bool.

Definition sizes_ok (t : BlockTemplate) (ar : BlobReader) : Prop := 0 <= m_index ar /\ 0 <= m_number t extraSize.

(** [m] runs with the exact check and [m'] with the one of the code. *)
Definition agree {A} (m m' : parser A) (Q : A -> Prop) : Prop :=
  forall t ar, sizes_ok t ar ->
  match m t ar with
  | Threw _ => True
  | Done a t' ar' => m' t ar = Done a t' ar' /\ sizes_ok t' ar' /\ Q a
  | Return b t' => m' t ar = Return b t'
  | Undefined u => m' t ar = Undefined u
  | Runs => m' t ar = Runs
  end.

Definition any {A} (a : A) : Prop := True.

Lemma agree_bind {A B} (m m' : parser A) (k k' : A -> parser B) Q R :
  agree m m' Q -> (forall a, Q a -> agree (k a) (k' a) R) -> agree (m ≫= k) (m' ≫= k') R.
Proof.
  intros Hm Hk t ar Ht. specialize (Hm t ar Ht). unfold mbind, parser_bind.
  destruct (m t ar) as [a t' ar'| | | |]; [|rewrite Hm; reflexivity | exact I | rewrite Hm; reflexivity..].
  destruct Hm as (-> & Ht' & Ha). exact (Hk a Ha t' ar' Ht').
Qed.

Lemma agree_same {A} (m : parser A) (Q : A -> Prop) :
  (forall t ar, sizes_ok t ar ->
     match m t ar with Done a t' ar' => sizes_ok t' ar' /\ Q a | _ => True end) -> agree m m Q.
Proof. intros Hm t ar Ht. specialize (Hm t ar Ht). destruct (m t ar); auto. Qed.

Lemma agree_if {A} (c : bool) (m1 m1' m2 m2' : parser A) Q :
  agree m1 m1' Q -> agree m2 m2' Q -> agree (if c then m1 else m2) (if c then m1' else m2') Q.
Proof. destruct c; auto. Qed.

Lemma agree_ret {A} (a : A) : agree (mret a) (mret a) any.
Proof. apply agree_same. intros t ar Ht. split; [exact Ht | exact I]. Qed.

Lemma agree_get {A} (f : BlockTemplate -> A) : agree (get f) (get f) any.
Proof. apply agree_same. intros t ar Ht. split; [exact Ht | exact I]. Qed.

Lemma agree_extraSize : agree (number extraSize) (number extraSize) (fun n => 0 <= n).
Proof. apply agree_same. intros t ar Ht. split; [exact Ht | exact (proj2 Ht)]. Qed.

Lemma agree_index : agree index index any.
Proof. apply agree_same. intros t ar Ht. split; [exact Ht | exact I]. Qed.

Lemma agree_modify f :
  (forall t, 0 <= m_number t extraSize -> 0 <= m_number (f t) extraSize) -> agree (modify f) (modify f) any.
Proof. intros Hf. apply agree_same. intros t ar [Hi Ht]. split; [split; [exact Hi | exact (Hf t Ht)] | exact I]. Qed.

Lemma agree_setOffset o v : agree (setOffset o v) (setOffset o v) any.
Proof. apply agree_modify. intros t Ht. exact Ht. Qed.

Lemma agree_return_if c b : agree (return_if c b) (return_if c b) any.
Proof. apply agree_same. intros t ar Ht. unfold return_if. destruct c; [exact I | exact (conj Ht I)]. Qed.

Lemma agree_runs {A} : agree (@runs A) runs any.
Proof. apply agree_same. intros t ar _. exact I. Qed.

Lemma agree_lift {A} (c : BlockTemplate -> result A) : agree (lift c) (lift c) any.
Proof. apply agree_same. intros t ar Ht. unfold lift. destruct (c t); try exact I. exact (conj Ht I). Qed.

Lemma to_u64_nonneg z : 0 <= to_u64 z.
Proof. apply Z.mod_pos_bound. lia. Qed.

Lemma agree_byte : agree ar_byte ar_byte any.
Proof.
  apply agree_same. intros t ar [Hi Ht]. unfold ar_byte, with_ar, getByte.
  destruct (m_size ar <=? m_index ar); [exact I|]. unfold read_mem. destruct (_ && _); [|exact I].
  split; [split; [apply to_u64_nonneg | exact Ht] | exact I].
Qed.

Lemma varint_loop_nonneg mem fuel shift acc r v r' :
  varint_loop mem fuel shift acc r = Ok (v, r') -> 0 <= acc -> 0 <= v /\ 0 <= m_index r'.
Proof.
  revert shift acc r. induction fuel as [|fuel IH]; intros shift acc r; cbn [varint_loop]; unfold getByte, read_mem;
    (destruct (m_size r <=? m_index r); [discriminate|]); (destruct (_ && _); [|discriminate]); [discriminate|].
  cbn [mbind result_bind]. set (acc' := Z.lor acc _). intros E Hacc.
  assert (0 <= acc') by (unfold acc'; apply Z.lor_nonneg; split; [exact Hacc | apply to_u64_nonneg]).
  destruct (_ =? 0); [injection E as <- <-; split; [assumption | apply to_u64_nonneg] | exact (IH _ _ _ E ltac:(assumption))].
Qed.

Lemma getVarint_nonneg mem r v r' : getVarint mem r = Ok (v, r') -> 0 <= v /\ 0 <= m_index r'.
Proof. intros E. exact (varint_loop_nonneg _ _ _ _ _ _ _ E (Z.le_refl 0)). Qed.

Lemma agree_varint : agree ar_varint ar_varint (fun v => 0 <= v).
Proof.
  apply agree_same. intros t ar [Hi Ht]. unfold ar_varint, with_ar.
  destruct (getVarint (m_blob t) ar) as [[v r]| | |] eqn:E; try exact I.
  apply getVarint_nonneg in E as [Hv Hr]. exact (conj (conj Hr Ht) Hv).
Qed.

(** The check passes when the exact one does. *)
Lemma wraps_exact i n size : 0 <= i -> 0 <= n -> exact i n size = false -> wraps i n size = false.
Proof.
  unfold exact, wraps, to_u64. intros Hi Hn H1. apply Z.ltb_ge in H1. apply Z.ltb_ge.
  pose proof (Z.mod_le (i + n) 18446744073709551616). lia.
Qed.

Lemma agree_skip n : 0 <= n -> agree (ar_skip exact n) (ar_skip wraps n) any.
Proof.
  intros Hn t ar [Hi Ht]. unfold ar_skip, with_ar, skip. destruct (exact _ _ _) eqn:E; [exact I|].
  rewrite wraps_exact by assumption. cbn. split; [reflexivity|]. split; [split; [apply to_u64_nonneg | exact Ht] | exact I].
Qed.

Lemma agree_span n : 0 <= n -> agree (ar_span exact n) (ar_span wraps n) any.
Proof.
  intros Hn t ar [Hi Ht]. unfold ar_span, with_ar, read_span. destruct (exact _ _ _) eqn:E; [exact I|].
  rewrite wraps_exact by assumption. cbn. split; [reflexivity|]. split; [split; [apply to_u64_nonneg | exact Ht] | exact I].
Qed.

Lemma agree_array n : 0 <= n -> agree (ar_array exact n) (ar_array wraps n) any.
Proof.
  intros Hn t ar [Hi Ht]. unfold ar_array, with_ar, read_array. destruct (exact _ _ _) eqn:E; [exact I|].
  rewrite wraps_exact by assumption. destruct (read_mem _ _ _); cbn; try reflexivity; try exact I.
  split; [reflexivity|]. split; [split; [apply to_u64_nonneg | exact Ht] | exact I].
Qed.

Lemma agree_extra_varint r :
  agree (extra (fun mem => getVarint mem r)) (extra (fun mem => getVarint mem r))
    (fun p => 0 <= fst p /\ 0 <= m_index (snd p)).
Proof.
  apply agree_same. intros t ar Ht. unfold extra, lift.
  destruct (getVarint (m_blob t) r) as [[v r']| | |] eqn:E; try exact I.
  exact (conj Ht (getVarint_nonneg _ _ _ _ E)).
Qed.

Lemma agree_extra_skip n r :
  0 <= n -> 0 <= m_index r ->
  agree (extra (fun _ => skip exact n r)) (extra (fun _ => skip wraps n r)) (fun r => 0 <= m_index r).
Proof.
  intros Hn Hr t ar Ht. unfold extra, lift, skip. destruct (exact _ _ _) eqn:E; [exact I|].
  rewrite wraps_exact by assumption. split; [reflexivity|]. split; [exact Ht | apply to_u64_nonneg].
Qed.

Lemma agree_extra_span n r :
  0 <= n -> 0 <= m_index r ->
  agree (extra (fun _ => read_span exact n r)) (extra (fun _ => read_span wraps n r)) (fun p => 0 <= m_index (snd p)).
Proof.
  intros Hn Hr t ar Ht. unfold extra, lift, read_span. destruct (exact _ _ _) eqn:E; [exact I|].
  rewrite wraps_exact by assumption. split; [reflexivity|]. split; [exact Ht | apply to_u64_nonneg].
Qed.

(** One step of the agreement. *)
Ltac agree_step :=
  lazymatch goal with
  | |- agree (mbind _ _) _ _ => eapply agree_bind; [|intros ? ?]
  | |- agree (if _ then _ else _) _ _ => apply agree_if
  | |- agree (mret _) _ _ => apply agree_ret
  | |- agree (get _) _ _ => apply agree_get
  | |- agree (number extraSize) _ _ => apply agree_extraSize
  | |- agree (number _) _ _ => apply agree_get
  | |- agree (offset _) _ _ => apply agree_get
  | |- agree (coin_is _) _ _ => apply agree_get
  | |- agree index _ _ => apply agree_index
  | |- agree (modify _) _ _ => apply agree_modify; intros; (assumption || (members; assumption))
  | |- agree (setOffset _ _) _ _ => apply agree_setOffset
  | |- agree (return_if _ _) _ _ => apply agree_return_if
  | |- agree runs _ _ => apply agree_runs
  | |- agree ar_byte _ _ => apply agree_byte
  | |- agree ar_varint _ _ => apply agree_varint
  | |- agree (ar_skip _ _) _ _ => apply agree_skip; (assumption || (unfold kKeySize, kNonceSize; lia))
  | |- agree (ar_span _ _) _ _ => apply agree_span; (assumption || (unfold kKeySize, kHashSize, kSignatureSize; lia))
  | |- agree (ar_array _ _) _ _ => apply agree_array; lia
  | |- agree (lift _) _ _ => apply agree_lift
  end.

Lemma agree_header : agree (parse_header exact) (parse_header wraps) any.
Proof. unfold parse_header, read_byte, read_varint, read_span_of. repeat agree_step. Qed.

Lemma agree_begin : agree (parse_miner_tx_begin exact) (parse_miner_tx_begin wraps) any.
Proof. unfold parse_miner_tx_begin, read_byte, read_varint, read_span_of. repeat agree_step. Qed.

Lemma agree_zephyr fuel k : agree (zephyr_outputs exact fuel k) (zephyr_outputs wraps fuel k) any.
Proof.
  revert k. induction fuel as [|fuel IH]; intros k; cbn [zephyr_outputs]; [apply agree_runs|].
  repeat (agree_step || apply IH).
Qed.

Lemma agree_outputs fuel : agree (parse_outputs exact fuel) (parse_outputs wraps fuel) any.
Proof. unfold parse_outputs, read_byte, read_varint. repeat (agree_step || apply agree_zephyr). Qed.

Lemma agree_extra_field o s r :
  0 <= m_index r -> agree (extra_field exact o s r) (extra_field wraps o s r) (fun r => 0 <= m_index r).
Proof.
  intros Hr. unfold extra_field. eapply agree_bind; [apply agree_extra_varint|]. intros [size r1] [Hs Hr1].
  do 2 (agree_step; [agree_step|]).
  eapply agree_bind; [apply agree_extra_span; assumption|]. intros [span r2] Hr2.
  agree_step; [agree_step|]. apply agree_same. intros t ar Ht. exact (conj Ht Hr2).
Qed.

Lemma agree_parse_extra fuel first r :
  0 <= m_index r -> agree (parse_extra exact fuel first r) (parse_extra wraps fuel first r) any.
Proof.
  revert first r. induction fuel as [|fuel IH]; intros first r Hr; cbn [parse_extra]; [apply agree_runs|].
  agree_step; [agree_step|]. apply agree_if; [|agree_step].
  eapply agree_bind; [apply agree_extra_varint|]. intros [tag r1] [_ Hr1].
  repeat apply agree_if; [| | |agree_step].
  - do 2 (agree_step; [repeat agree_step|]).
    eapply agree_bind; [apply agree_extra_skip; [unfold kKeySize; lia | exact Hr1]|]. intros r2. apply IH.
  - eapply agree_bind; [apply agree_extra_field, Hr1|]. intros r2. apply IH.
  - eapply agree_bind; [apply agree_extra_field, Hr1|]. intros r2. apply IH.
Qed.

Lemma agree_tx_extra fuel : agree (parse_tx_extra exact fuel) (parse_tx_extra wraps fuel) any.
Proof. unfold parse_tx_extra, read_varint. repeat agree_step. apply agree_parse_extra. cbn. lia. Qed.

Lemma agree_end : agree parse_miner_tx_end parse_miner_tx_end any.
Proof. unfold parse_miner_tx_end, parse_rct. repeat agree_step. Qed.

Lemma agree_read_hashes fuel i : agree (read_hashes exact fuel i) (read_hashes wraps fuel i) any.
Proof.
  revert i. induction fuel as [|fuel IH]; intros i; cbn [read_hashes]; [apply agree_runs|].
  repeat (agree_step || apply IH).
Qed.

Lemma agree_body fuel hashes : agree (parse_body exact alloc fuel hashes) (parse_body wraps alloc fuel hashes) any.
Proof.
  unfold parse_body, parse_hashes, read_varint.
  repeat (apply agree_header || apply agree_begin || apply agree_outputs || apply agree_tx_extra || apply agree_end ||
    apply agree_read_hashes || agree_step).
Qed.

End Agree.
