(* ===== verification/BlockFormat.v ===== *)
(** * The format of a block template

    What a block template is, as data, and its serialization for every coin:
    the specification of the parser of BlockTemplate.v, which reads back every
    member from the serialized block. *)

From stdpp Require Import functions.
From S2P Require Import Prelude.
From S2P Require Import CInt.
From S2P Require Import Bytes.
From S2P Require Import Signatures.
From S2P Require Import BlobReader.
From S2P Require Import MerkleTree.
From S2P Require Import BlockTemplate.
From S2P Require Import BlockTemplateOk.

(** ** Data *)

Record miner_output := MkOutput { o_amount : Z; o_key : list Z; o_asset : list Z; o_viewTag : Z }.

Inductive extra_item :=
  | Pubkey (key : list Z)
  | ExtraNonce (nonce : list Z)
  | MergeMining (tag : list Z).

(** The members the coin does not have are ignored. *)
Record block := MkBlock {
  b_major : Z; b_minor : Z; b_timestamp : Z; b_prevId : list Z; b_nonce : list Z;
  b_signature : list Z; b_vote : list Z; b_pricing : list Z;
  b_txVersion : Z; b_unlockTime : Z; b_height : Z;
  b_outputType : Z; b_output : miner_output; b_outputs : list miner_output;
  b_extra : list extra_item; b_prices : Z * Z * Z;
  b_hashes : list (list Z)
}.

(** A string with its length, and the parts of a block. *)
Definition put_string (s : list Z) : list Z := put (Z.of_nat (length s)) ++ s.

Definition signed (coin : Coin) (b : block) : bool := bool_decide (coin = WOWNERO) && (18 <=? b_major b).
Definition zephyr (coin : Coin) : bool := bool_decide (coin = ZEPHYR).
Definition townforge (coin : Coin) : bool := bool_decide (coin = TOWNFORGE).
Definition only (c : bool) (s : list Z) : list Z := if c then s else [].

Definition put_header (coin : Coin) (b : block) (rest : list Z) : list Z :=
  b_major b :: b_minor b :: put (b_timestamp b) ++ b_prevId b ++ b_nonce b ++
  only (signed coin b) (b_signature b ++ b_vote b) ++ only (zephyr coin) (b_pricing b) ++ rest.

Definition put_begin (coin : Coin) (b : block) (rest : list Z) : list Z :=
  put (b_txVersion b) ++ only (negb (townforge coin)) (put (b_unlockTime b)) ++ put 1 ++ 0xFF :: put (b_height b) ++
  put (Z.of_nat (S (length (b_outputs b)))) ++ put (o_amount (b_output b)) ++ b_outputType b :: o_key (b_output b) ++ rest.

Definition put_asset (o : miner_output) (rest : list Z) : list Z := put_string (o_asset o) ++ o_viewTag o :: rest.
Definition put_output (o : miner_output) (rest : list Z) : list Z :=
  put (o_amount o) ++ 2 :: o_key o ++ put_asset o rest.

Definition put_outputs (coin : Coin) (b : block) (rest : list Z) : list Z :=
  (if zephyr coin then fun rest => put_asset (b_output b) (foldr put_output rest (b_outputs b))
   else if b_outputType b =? 3 then fun rest => o_viewTag (b_output b) :: rest
   else fun rest => rest)
  (only (townforge coin) (put (b_unlockTime b)) ++ rest).

Definition put_item (item : extra_item) : list Z :=
  match item with
  | Pubkey key => put 1 ++ key
  | ExtraNonce nonce => put 2 ++ put_string nonce
  | MergeMining tag => put 3 ++ put_string tag
  end.
Definition put_extra (items : list extra_item) : list Z := concat (map put_item items).

Definition put_prices (coin : Coin) (b : block) : list Z :=
  let '(p, burnt, minted) := b_prices b in only (zephyr coin) (put p ++ put burnt ++ put minted).

(** The prefix of the transaction, and the whole. *)
Definition put_prefix (coin : Coin) (b : block) (rest : list Z) : list Z :=
  put_begin coin b (put_outputs coin b (put_string (put_extra (b_extra b)) ++ put_prices coin b ++ rest)).
Definition serialize (coin : Coin) (b : block) : list Z :=
  put_header coin b (put_prefix coin b (0 :: put (Z.of_nat (length (b_hashes b))) ++ concat (b_hashes b))).

(** ** Validity *)

Definition output_ok (o : miner_output) : Prop :=
  u64 (o_amount o) /\ length (o_key o) = 32%nat.

Definition item_ok (item : extra_item) : Prop :=
  match item with Pubkey key => length key = 32%nat | _ => True end.

Definition block_ok (coin : Coin) (b : block) : Prop :=
  u64 (b_timestamp b) /\ length (b_prevId b) = 32%nat /\ length (b_nonce b) = 4%nat /\
  length (b_signature b) = 64%nat /\ length (b_vote b) = 2%nat /\ length (b_pricing b) = 120%nat /\
  u64 (b_txVersion b) /\ u64 (b_unlockTime b) /\ u64 (b_height b) /\ u64 (Z.of_nat (S (length (b_outputs b)))) /\
  output_ok (b_output b) /\ Forall output_ok (b_outputs b) /\ Forall item_ok (b_extra b) /\
  u64 (fst (fst (b_prices b))) /\ u64 (snd (fst (b_prices b))) /\ u64 (snd (b_prices b)) /\
  (if zephyr coin then b_outputType b = 2 /\ b_outputs b <> []
   else (b_outputType b = 2 \/ b_outputType b = 3) /\ b_outputs b = []).

(** ** Reading what was written *)

Section Runs.
Context `{Digest32}.
Variable fuel : nat.
Variables (blob : list Z) (coin : Coin).
Notation len := (Z.of_nat (length blob)).
Hypothesis Hlen : len < 2 ^ 32.

Notation ahead i := (drop (Z.to_nat i) blob).

(** The bytes [s] stand at [i]. *)
Definition stands (i : Z) (s : list Z) : Prop :=
  0 <= i /\ i + Z.of_nat (length s) <= len /\ take (length s) (ahead i) = s.

Lemma ahead_range i s rest : 0 <= i <= len -> ahead i = s ++ rest -> i + Z.of_nat (length s) <= len.
Proof.
  intros Hi E. apply (f_equal length) in E. rewrite length_drop, length_app in E. lia.
Qed.

Lemma ahead_next i s rest :
  0 <= i -> ahead i = s ++ rest -> ahead (i + Z.of_nat (length s)) = rest.
Proof.
  intros Hi E. rewrite Z2Nat.inj_add, Nat2Z.id, Nat.add_comm, <- skipn_skipn, E by lia. apply drop_app_length.
Qed.

Lemma ahead_stands i s rest : 0 <= i <= len -> ahead i = s ++ rest -> stands i s.
Proof.
  intros Hi E. split; [lia|]. split; [exact (ahead_range i s rest Hi E)|]. rewrite E. apply take_app_length.
Qed.

(** The exits of a run that reaches the end, or the early acceptance of a
    TOWNFORGE update, of which [W] holds. *)
Definition runs_to (W : BlockTemplate -> Prop) : exits := Exits (fun b t => b = true /\ W t) False False.

Variable W : BlockTemplate -> Prop.
Notation run m Q t i := (wp blob coin (runs_to W) m Q t i).
Notation here := (here blob coin).

Lemma run_byte b rest Q t i :
  here t i -> ahead i = b :: rest -> (ahead (i + 1) = rest -> Q b t (i + 1)) -> run ar_byte Q t i.
Proof.
  intros Hh E HQ. pose proof Hh as (_ & _ & Hi). apply wp_byte; [exact Hlen | exact Hh | |].
  - intros _. rewrite E. apply HQ. exact (ahead_next i [b] rest ltac:(lia) E).
  - pose proof (ahead_range i [b] rest Hi E) as Hr. cbn [length] in Hr. cbn. lia.
Qed.

Lemma run_varint v rest Q t i :
  here t i -> u64 v -> ahead i = put v ++ rest ->
  (forall n, n = Z.of_nat (length (put v)) -> ahead (i + n) = rest -> Q v t (i + n)) -> run ar_varint Q t i.
Proof.
  intros Hh Hv E HQ. pose proof Hh as (Eb & Ec & Hi). unfold wp, ar_varint, with_ar. rewrite Eb.
  pose proof (ahead_range i _ rest Hi E) as Hr.
  rewrite (getVarint_decodes blob (ar_at blob i) v rest);
    [| apply ar_region; assumption | exact Hv | exact E | exact Hr].
  exists (i + Z.of_nat (length (put v))). split; [reflexivity|]. split; [repeat split; assumption || lia|].
  apply HQ; [reflexivity | apply ahead_next; [lia | exact E]].
Qed.

Lemma run_span s n rest Q t i :
  here t i -> ahead i = s ++ rest -> Z.of_nat (length s) = n ->
  (stands i s -> ahead (i + n) = rest -> Q (i, n) t (i + n)) -> run (ar_span exact n) Q t i.
Proof.
  intros Hh E <- HQ. pose proof Hh as (_ & _ & Hi). apply wp_span; [exact Hlen | exact Hh | lia | |].
  - intros _. apply HQ; [exact (ahead_stands i s rest Hi E) | apply ahead_next; [lia | exact E]].
  - pose proof (ahead_range i s rest Hi E) as Hr. cbn. lia.
Qed.

Lemma run_skip s n rest Q t i :
  here t i -> ahead i = s ++ rest -> Z.of_nat (length s) = n ->
  (stands i s -> ahead (i + n) = rest -> Q tt t (i + n)) -> run (ar_skip exact n) Q t i.
Proof.
  intros Hh E <- HQ. pose proof Hh as (_ & _ & Hi). apply wp_skip; [exact Hlen | exact Hh | lia | |].
  - intros _. apply HQ; [exact (ahead_stands i s rest Hi E) | apply ahead_next; [lia | exact E]].
  - pose proof (ahead_range i s rest Hi E) as Hr. cbn. lia.
Qed.

Lemma run_array s n rest Q t i :
  here t i -> ahead i = s ++ rest -> Z.of_nat (length s) = n ->
  (ahead (i + n) = rest -> Q s t (i + n)) -> run (ar_array exact n) Q t i.
Proof.
  intros Hh E <- HQ. pose proof Hh as (_ & _ & Hi). apply wp_array; [exact Hlen | exact Hh | lia | |].
  - intros _. rewrite E, Nat2Z.id, take_app_length. apply HQ, ahead_next; [lia | exact E].
  - pose proof (ahead_range i s rest Hi E) as Hr. cbn. lia.
Qed.

Lemma run_setOffset o Q t i : here t i -> Q tt (with_offset o i t) i -> run (setOffset o i) Q t i.
Proof.
  intros Hh HQ. pose proof Hh as (_ & _ & Hi). apply wp_setOffset; [exact Hh|].
  rewrite (to_u32_index blob Hlen i Hi). exact HQ.
Qed.

(** Facts about updated members. *)
Ltac fact := solve [reflexivity | assumption | intros; congruence | intros; assumption].
Ltac facts := first [exact (fun H => H) | repeat (split; [fact|]); fact].

(** One step of a run over a block. *)
Ltac run_step :=
  lazymatch goal with
  | E : drop (Z.to_nat ?i) blob = _ |- wp _ _ _ ar_byte _ _ ?i =>
      eapply run_byte; [eassumption | exact E | clear E; intros E]
  | E : drop (Z.to_nat ?i) blob = _ |- wp _ _ _ ar_varint _ _ ?i =>
      eapply run_varint; [eassumption | | exact E | clear E; intros ? ? E]; [solve [assumption | unfold u64; lia] |]
  | E : drop (Z.to_nat ?i) blob = _ |- wp _ _ _ (ar_span _ _) _ _ ?i =>
      eapply run_span; [eassumption | exact E | | clear E; intros ? E]; [solve [assumption | unfold kHashSize, kKeySize, kNonceSize, kSignatureSize; lia] |]
  | E : drop (Z.to_nat ?i) blob = _ |- wp _ _ _ (ar_skip _ _) _ _ ?i =>
      eapply run_skip; [eassumption | exact E | | clear E; intros ? E]; [solve [assumption | unfold kHashSize, kKeySize, kNonceSize, kSignatureSize; lia] |]
  | E : drop (Z.to_nat ?i) blob = _ |- wp _ _ _ (ar_array _ _) _ _ ?i =>
      eapply run_array; [eassumption | exact E | | clear E; intros E]; [solve [assumption | unfold kHashSize, kKeySize, kNonceSize, kSignatureSize; lia] |]
  | |- wp _ _ _ (setOffset _ ?i) _ _ ?i => apply run_setOffset; [assumption|]
  | |- wp _ _ _ (return_if _ _) _ _ _ => apply wp_return_if; [assumption | | intros _]; [solve [discriminate | intros Hc; autorewrite with members in Hc; fold (zephyr coin) in Hc; congruence] |]
  | |- wp _ _ _ (if _ then _ else _) _ _ _ => fail
  | |- _ => wp_step
  end; cbv beta; intros.

(** A string of the extra field, with its offset and its span: read, kept from
    before, and either. *)
Definition field_read (o : Offset) (s : SpanName) (str : list Z) (t : BlockTemplate) : Prop :=
  stands (m_offsets t o) str /\ m_span t s = (m_offsets t o, Z.of_nat (length str)).
Definition field_kept (o : Offset) (s : SpanName) (t t' : BlockTemplate) : Prop :=
  m_offsets t' o = m_offsets t o /\ m_span t' s = m_span t s.
Definition field_after (o : Offset) (s : SpanName) (v : option (list Z)) (t t' : BlockTemplate) : Prop :=
  match v with Some str => field_read o s str t' | None => field_kept o s t t' end.

Notation nonce_after := (field_after TX_EXTRA_NONCE_OFFSET txExtraNonce).
Notation tag_after := (field_after TX_EXTRA_MERGE_MINING_TAG_OFFSET txMergeMiningTag).

(** The offsets and spans only the extra field sets. *)
Definition untouched (t t' : BlockTemplate) : Prop :=
  m_offsets t' TX_PUBKEY_OFFSET = m_offsets t TX_PUBKEY_OFFSET /\ nonce_after None t t' /\ tag_after None t t'.

Lemma field_after_kept o s v t0 t t' : field_kept o s t0 t -> field_after o s v t t' -> field_after o s v t0 t'.
Proof. destruct v; cbn [field_after]; [auto|]. unfold field_kept. intros [-> ->]. auto. Qed.

(** An operation that sets other members. *)
Ltac other_field := apply field_after_kept; split; members; reflexivity.

Lemma untouched_trans t0 t t' : untouched t0 t -> untouched t t' -> untouched t0 t'.
Proof. unfold untouched, field_after, field_kept. intros (-> & [-> ->] & [-> ->]). auto. Qed.

(** What the header leaves in the members; [rest] comes after it. *)
Definition header_read (b : block) (rest : list Z) (t : BlockTemplate) : Prop :=
  m_number t version_first = b_major b /\ m_number t version_second = b_minor b /\
  m_number t timestamp = b_timestamp b /\
  snd (m_span t prevId) = 32 /\ stands (fst (m_span t prevId)) (b_prevId b) /\
  stands (m_offsets t NONCE_OFFSET) (b_nonce b) /\
  (signed coin b = true -> m_span t minerSignature = (m_offsets t NONCE_OFFSET + 4, 64) /\
     stands (m_offsets t NONCE_OFFSET + 4) (b_signature b) /\ m_vote t = b_vote b) /\
  0 <= m_offsets t MINER_TX_PREFIX_OFFSET <= len /\ ahead (m_offsets t MINER_TX_PREFIX_OFFSET) = rest.

Lemma run_header b rest t i Q :
  block_ok coin b -> here t i -> ahead i = put_header coin b rest ->
  (forall t' i', here t' i' -> ahead i' = rest -> untouched t t' -> header_read b rest t' -> Q tt t' i') ->
  run (parse_header exact) Q t i.
Proof.
  intros Hb Hh E HQ. unfold block_ok in Hb. split_hyps.
  unfold put_header in E. unfold parse_header, read_byte, read_varint, read_span_of.
  repeat run_step. unfold majorVersion. members. change (bool_decide (coin = WOWNERO) && _) with (signed coin b).
  destruct (signed coin b) eqn:Es; cbn [only] in E; rewrite <- ?app_assoc in E; cbn [app] in E; repeat run_step;
    change (bool_decide (coin = ZEPHYR)) with (zephyr coin);
    (destruct (zephyr coin); cbn [only app] in E; repeat run_step).
  all: apply HQ; [assumption | exact E | unfold untouched, field_after, field_kept; members; auto 10|].
  all: match goal with Hl : here _ ?j |- header_read _ _ (with_offset _ ?j _) => pose proof (proj2 (proj2 Hl)) end.
  all: unfold header_read; members; cbn [fst snd]; unfold kHashSize, kNonceSize, kSignatureSize in *.
  all: repeat (split; [first [reflexivity | assumption | discriminate | split; reflexivity || assumption]|]).
  all: split; [intros Et; first [congruence | split; [reflexivity | split; [assumption | reflexivity]]]|].
  all: split; [assumption | exact E].
Qed.

(** What the transaction leaves up to its first output. *)
Definition begin_read (b : block) (t : BlockTemplate) : Prop :=
  m_number t txVersion = b_txVersion b /\ (townforge coin = false -> m_number t unlockTime = b_unlockTime b) /\
  m_number t numInputs = 1 /\ m_number t inputType = 0xFF /\ m_number t height = b_height b /\
  m_number t numOutputs = Z.of_nat (S (length (b_outputs b))) /\ m_number t amount = o_amount (b_output b) /\
  m_number t outputType = b_outputType b /\ m_span t ephPublicKey = (m_offsets t EPH_PUBLIC_KEY_OFFSET, 32) /\
  stands (m_offsets t EPH_PUBLIC_KEY_OFFSET) (o_key (b_output b)).

Lemma outputs_accepted b :
  block_ok coin b ->
  (if zephyr coin then Z.of_nat (S (length (b_outputs b))) <? 2
   else negb (Z.of_nat (S (length (b_outputs b))) =? 1)) = false /\
  negb (b_outputType b =? 2) && negb (b_outputType b =? 3) = false.
Proof.
  unfold block_ok. intros Hb. do 16 destruct Hb as [_ Hb]. destruct (zephyr coin); destruct Hb as [Ht Ho].
  - destruct (b_outputs b); [congruence|]. cbn [length]. split; [apply Z.ltb_ge; lia | rewrite Ht; reflexivity].
  - rewrite Ho. split; [reflexivity | destruct Ht as [-> | ->]; reflexivity].
Qed.

Lemma run_begin b0 rest0 b rest t i Q :
  block_ok coin b -> here t i -> ahead i = put_begin coin b rest ->
  (forall t' i', here t' i' -> ahead i' = rest -> untouched t t' -> begin_read b t' ->
     (header_read b0 rest0 t -> header_read b0 rest0 t') -> Q tt t' i') ->
  run (parse_miner_tx_begin exact) Q t i.
Proof.
  intros Hb Hh E HQ. pose proof Hb as Hb'. unfold block_ok, output_ok in Hb. split_hyps.
  unfold put_begin in E. unfold parse_miner_tx_begin, read_byte, read_varint, read_span_of.
  destruct (outputs_accepted b Hb') as [Hn Hty].
  repeat run_step. change (bool_decide (coin = TOWNFORGE)) with (townforge coin).
  destruct (townforge coin) eqn:Ht; cbn [only negb app] in E; repeat run_step; members.
  all: apply HQ; [assumption | exact E | unfold untouched, field_after, field_kept; members; auto 10 | |].
  all: unfold begin_read, header_read; members; unfold kKeySize; facts.
Qed.

(** A string is shorter than the blob. *)
Lemma string_u64 t i s rest : here t i -> ahead i = put_string s ++ rest -> u64 (Z.of_nat (length s)).
Proof.
  intros (_ & _ & Hi) E. pose proof (ahead_range i _ rest Hi E) as Hr. unfold put_string in Hr.
  rewrite length_app in Hr. unfold u64. lia.
Qed.

Lemma run_asset o rest (k : parser unit) Q t i :
  here t i -> ahead i = put_asset o rest ->
  (forall i', here t i' -> ahead i' = o_viewTag o :: rest -> run k Q t i') ->
  run ar_varint (fun asset_type_len t i => here t i -> run (ar_skip exact asset_type_len;; k) Q t i) t i.
Proof.
  intros Hh E Hk. pose proof (string_u64 _ _ _ _ Hh E) as Hu. unfold put_asset, put_string in E.
  rewrite <- app_assoc in E. repeat run_step. apply Hk; assumption.
Qed.

Lemma run_zephyr n outs k rest t i Q :
  here t i -> Forall output_ok outs -> (length outs < n)%nat -> m_number t numOutputs = k + Z.of_nat (length outs) ->
  ahead i = foldr put_output rest outs ->
  (forall i', here t i' -> ahead i' = rest -> Q tt t i') ->
  run (zephyr_outputs exact n k) Q t i.
Proof.
  intros Hh Ho. revert n k i Hh. induction Ho as [|o outs [Ha Hk] _ IH]; intros n k i Hh Hn Hnum E HQ;
    (destruct n as [|n]; [cbn in Hn; lia|]); cbn [zephyr_outputs foldr length] in *;
    do 2 run_step; rewrite Hnum.
  - rewrite (proj2 (Z.ltb_ge _ _)) by lia. run_step. auto.
  - rewrite (proj2 (Z.ltb_lt _ _)) by lia. unfold put_output in E at 1. repeat run_step.
    eapply run_asset; [assumption | exact E|]. intros i' Hh' E'. repeat run_step.
    apply (IH n); [assumption | lia | lia | exact E' | exact HQ].
Qed.

(** What the outputs leave. *)
Definition outputs_read (b : block) (t : BlockTemplate) : Prop :=
  m_number t unlockTime = b_unlockTime b /\
  (zephyr coin = true \/ b_outputType b = 3 -> m_number t viewTag = o_viewTag (b_output b)).

Lemma run_unlock b rest t i Q :
  u64 (b_unlockTime b) -> here t i -> ahead i = only (townforge coin) (put (b_unlockTime b)) ++ rest ->
  (forall i', here t i' -> ahead i' = rest ->
     Q tt (if townforge coin then with_number unlockTime (b_unlockTime b) t else t) i') ->
  run (town ← coin_is TOWNFORGE; if town : bool then read_varint unlockTime else mret tt) Q t i.
Proof.
  intros Hu Hh E HQ. unfold read_varint. do 2 run_step. change (bool_decide (coin = TOWNFORGE)) with (townforge coin).
  destruct (townforge coin); cbn [only app] in E; repeat run_step; apply HQ; assumption.
Qed.

Lemma run_viewTag b rest t i Q :
  block_ok coin b -> here t i -> (length (b_outputs b) < fuel)%nat -> begin_read b t ->
  ahead i = (if zephyr coin then put_asset (b_output b) (foldr put_output rest (b_outputs b))
             else if b_outputType b =? 3 then o_viewTag (b_output b) :: rest else rest) ->
  (forall i', here t i' -> ahead i' = rest ->
     Q tt (if zephyr coin || (b_outputType b =? 3) then with_number viewTag (o_viewTag (b_output b)) t else t) i') ->
  run (if zephyr coin then
         return_if (negb (m_number t outputType =? 2)) false;;
         asset_type_len ← ar_varint; ar_skip exact asset_type_len;;
         read_byte viewTag;; zephyr_outputs exact fuel 1
       else if m_number t outputType =? 3 then read_byte viewTag else mret tt) Q t i.
Proof.
  intros Hb Hh Hf Hr E HQ. destruct Hr as (_ & _ & _ & _ & _ & Hn & _ & Hty & _). rewrite Hty.
  unfold block_ok in Hb. do 10 destruct Hb as [_ Hb]. destruct Hb as (_ & Ho & _ & _ & _ & _ & Hz).
  unfold read_byte. destruct (zephyr coin); cbn [orb] in *.
  - destruct Hz as [-> _]. cbn [Z.eqb Pos.eqb negb]. run_step. run_step. run_step.
    eapply run_asset; [assumption | exact E|]. intros i' Hh' E'. repeat run_step.
    eapply run_zephyr; [assumption | exact Ho | exact Hf | members; lia | exact E' | exact HQ].
  - destruct (b_outputType b =? 3); repeat run_step; apply HQ; assumption.
Qed.

Lemma run_outputs b0 rest0 b rest t i Q :
  block_ok coin b -> here t i -> (length (b_outputs b) < fuel)%nat -> begin_read b t -> ahead i = put_outputs coin b rest ->
  (forall t' i', here t' i' -> ahead i' = rest -> untouched t t' -> outputs_read b t' -> begin_read b t' ->
     (header_read b0 rest0 t -> header_read b0 rest0 t') -> Q tt t' i') ->
  run (parse_outputs exact fuel) Q t i.
Proof.
  intros Hb Hh Hf Hr E HQ. unfold parse_outputs. do 4 run_step.
  change (bool_decide (coin = ZEPHYR)) with (zephyr coin). apply wp_bind.
  eapply (run_viewTag b (only (townforge coin) (put (b_unlockTime b)) ++ rest)); try assumption.
  { rewrite E. unfold put_outputs. destruct (zephyr coin), (b_outputType b =? 3); reflexivity. }
  intros i' Hh' E' _. eapply (run_unlock b rest); [unfold block_ok in Hb; tauto | | exact E'|].
  { destruct (_ || _); exact Hh'. }
  intros i2 Hh2 E2. unfold begin_read in Hr. split_hyps. apply HQ; [| exact E2 | ..].
  all: destruct (townforge coin) eqn:Et, (zephyr coin) eqn:Ez, (b_outputType b =? 3) eqn:E3; cbn [orb] in *;
    try assumption; unfold untouched, field_after, field_kept, outputs_read, begin_read, header_read; members.
  all: intuition (congruence || lia).
Qed.

(** ** The extra field *)

(** The first key, the last nonce and the last tag of merge mining. *)
Fixpoint first_pubkey (items : list extra_item) : option (list Z) :=
  match items with
  | [] => None
  | Pubkey key :: _ => Some key
  | _ :: items => first_pubkey items
  end.

Fixpoint last_nonce (items : list extra_item) : option (list Z) :=
  match items with
  | [] => None
  | ExtraNonce nonce :: items => Some (default nonce (last_nonce items))
  | _ :: items => last_nonce items
  end.

Fixpoint last_tag (items : list extra_item) : option (list Z) :=
  match items with
  | [] => None
  | MergeMining tag :: items => Some (default tag (last_tag items))
  | _ :: items => last_tag items
  end.

(** What an operation of the extra field changes: three offsets, two spans. *)
Definition extra_frame (t t' : BlockTemplate) : Prop :=
  m_number t' = m_number t /\ m_vote t' = m_vote t /\
  keeps [NONCE_OFFSET; MINER_TX_PREFIX_OFFSET; EPH_PUBLIC_KEY_OFFSET; TX_EXTRA_OFFSET] t t' /\
  Forall (fun s => m_span t' s = m_span t s) [prevId; minerSignature; ephPublicKey].

Lemma extra_frame_trans t1 t2 t3 : extra_frame t1 t2 -> extra_frame t2 t3 -> extra_frame t1 t3.
Proof.
  unfold extra_frame. intros (N1 & V1 & O1 & S1) (N2 & V2 & O2 & S2).
  repeat split; [congruence | congruence | exact (keeps_trans _ _ _ _ O1 O2) |].
  rewrite !Forall_forall in *. intros s Hs. rewrite (S2 s Hs). exact (S1 s Hs).
Qed.

Lemma stands_after i s rest :
  0 <= i -> i + Z.of_nat (length s) <= len -> ahead i = s ++ rest ->
  stands i s /\ ahead (i + Z.of_nat (length s)) = rest.
Proof.
  intros Hi Hl E. split; [apply (ahead_stands i s rest); [lia | exact E] | apply ahead_next; [lia | exact E]].
Qed.

Section ExtraField.
Variables base size : Z.
Hypothesis Hbase : 0 <= base.
Hypothesis Hsize : base + size <= len.
Notation at_ := (extra_at base size).

Lemma run_extra_varint v rest Q t i j :
  here t i -> u64 v -> 0 <= j -> j + Z.of_nat (length (put v)) <= size -> ahead (base + j) = put v ++ rest ->
  (ahead (base + (j + Z.of_nat (length (put v)))) = rest -> Q (v, at_ (j + Z.of_nat (length (put v)))) t i) ->
  run (extra (fun mem => getVarint mem (at_ j))) Q t i.
Proof.
  intros Hh Hv Hj Hl E HQ. unfold wp, extra, lift. pose proof Hh as (-> & _ & _).
  rewrite (getVarint_decodes blob (at_ j) v rest); [| apply extra_region; lia || exact Hsize | exact Hv | exact E | exact Hl].
  exists i. split; [reflexivity|]. split; [exact Hh|]. apply HQ. rewrite Z.add_assoc. apply ahead_next; [lia | exact E].
Qed.

(** A tag and its string. *)
Lemma run_extra_field o s str rest Q t i j :
  here t i -> 0 <= j -> j + Z.of_nat (length (put_string str)) <= size -> m_offsets t TX_EXTRA_OFFSET = base ->
  ahead (base + j) = put_string str ++ rest ->
  (forall p, stands p str -> ahead (base + (j + Z.of_nat (length (put_string str)))) = rest ->
     Q (at_ (j + Z.of_nat (length (put_string str))))
       (with_span s (p, Z.of_nat (length str)) (with_offset o p t)) i) ->
  run (extra_field exact o s (at_ j)) Q t i.
Proof.
  intros Hh Hj Hl Hb E HQ. unfold put_string in *. rewrite length_app in Hl, HQ. rewrite <- app_assoc in E. unfold extra_field.
  apply wp_bind. apply (run_extra_varint (Z.of_nat (length str)) (str ++ rest)); [exact Hh | unfold u64; lia | exact Hj | lia | exact E|]. intros E' _.
  do 2 run_step. rewrite Hb. cbn [extra_at m_index]. run_step. run_step. rewrite (to_u32_index blob Hlen) by lia.
  destruct (stands_after (base + (j + Z.of_nat (length (put (Z.of_nat (length str)))))) str rest ltac:(lia) ltac:(lia) E') as [Hst E2].
  apply wp_bind, wp_extra_span; [exact Hlen | exact Hbase | exact Hsize | assumption | lia | lia | | intros; cbn; lia].
  intros _ _. repeat run_step. rewrite Nat2Z.inj_add, (Z.add_assoc j) in HQ. apply HQ; [exact Hst|].
  rewrite <- E2. f_equal. lia.
Qed.

Lemma run_extra_key key rest Q t i j :
  here t i -> 0 <= j -> length key = 32%nat -> j + 32 <= size -> ahead (base + j) = key ++ rest ->
  (stands (base + j) key -> ahead (base + (j + 32)) = rest -> Q (at_ (j + 32)) t i) ->
  run (extra (fun _ => skip exact kKeySize (at_ j))) Q t i.
Proof.
  intros Hh Hj Hk Hl E HQ. unfold kKeySize.
  destruct (stands_after (base + j) key rest ltac:(lia) ltac:(lia) E) as [Hst E2].
  apply wp_extra_skip; [exact Hlen | exact Hbase | exact Hsize | assumption | lia | lia | | intros; cbn; lia].
  intros _. apply HQ; [exact Hst|]. rewrite <- E2. f_equal. lia.
Qed.

(** What the items leave, when no key has been seen or one has. *)
Definition items_read (first : bool) (items : list extra_item) (t t' : BlockTemplate) : Prop :=
  extra_frame t t' /\
  match first, first_pubkey items with
  | true, Some key => stands (m_offsets t' TX_PUBKEY_OFFSET) key
  | _, _ => m_offsets t' TX_PUBKEY_OFFSET = m_offsets t TX_PUBKEY_OFFSET
  end /\
  nonce_after (last_nonce items) t t' /\ tag_after (last_tag items) t t'.

(** The operation that sets a field. *)
Lemma field_set o s v p str t t' :
  stands p str -> field_after o s v (with_span s (p, Z.of_nat (length str)) (with_offset o p t)) t' ->
  field_after o s (Some (default str v)) t t'.
Proof.
  intros Hp. destruct v; cbn [field_after default]; [auto|]. intros [E1 E2]. rewrite span_same in E2.
  autorewrite with members in E1. unfold field_read. rewrite E1, E2. auto.
Qed.

(** The items in turn. *)
Lemma items_key first p key items t t' :
  (first = true -> stands p key) ->
  items_read false items (if first then with_offset TX_PUBKEY_OFFSET p t else t) t' ->
  items_read first (Pubkey key :: items) t t'.
Proof.
  intros Hp (F & K & N & T). unfold items_read. cbn [first_pubkey last_nonce last_tag]. split; [|split; [|split]].
  - apply (extra_frame_trans _ (if first then with_offset TX_PUBKEY_OFFSET p t else t)); [|exact F].
    destruct first; repeat split; repeat constructor; members; reflexivity.
  - destruct first; [|exact K]. cbv iota in K |- *. rewrite offset_same in K. rewrite K. exact (Hp eq_refl).
  - revert N. destruct first; [other_field | auto].
  - revert T. destruct first; [other_field | auto].
Qed.

Lemma items_nonce first p nonce items t t' :
  stands p nonce ->
  items_read first items
    (with_span txExtraNonce (p, Z.of_nat (length nonce)) (with_offset TX_EXTRA_NONCE_OFFSET p t)) t' ->
  items_read first (ExtraNonce nonce :: items) t t'.
Proof.
  intros Hp (F & K & N & T). unfold items_read. cbn [first_pubkey last_nonce last_tag]. split; [|split; [|split]].
  - eapply extra_frame_trans; [|exact F]. repeat split; repeat constructor; members; reflexivity.
  - autorewrite with members in K. exact K.
  - exact (field_set _ _ _ _ _ _ _ Hp N).
  - revert T. other_field.
Qed.

Lemma items_tag first p tag items t t' :
  stands p tag ->
  items_read first items
    (with_span txMergeMiningTag (p, Z.of_nat (length tag)) (with_offset TX_EXTRA_MERGE_MINING_TAG_OFFSET p t)) t' ->
  items_read first (MergeMining tag :: items) t t'.
Proof.
  intros Hp (F & K & N & T). unfold items_read. cbn [first_pubkey last_nonce last_tag]. split; [|split; [|split]].
  - eapply extra_frame_trans; [|exact F]. repeat split; repeat constructor; members; reflexivity.
  - autorewrite with members in K. exact K.
  - revert N. other_field.
  - exact (field_set _ _ _ _ _ _ _ Hp T).
Qed.

Lemma put_item_length item : (1 <= length (put_item item))%nat.
Proof. destruct item; apply le_n_S, Nat.le_0_l. Qed.

Lemma run_extra_items n items first rest t i j Q :
  here t i -> Forall item_ok items -> (length items < n)%nat -> m_number t extraSize = size ->
  m_offsets t TX_EXTRA_OFFSET = base -> 0 <= j -> size = j + Z.of_nat (length (put_extra items)) ->
  ahead (base + j) = put_extra items ++ rest ->
  (forall t', here t' i -> items_read first items t t' -> Q tt t' i) ->
  run (parse_extra exact n first (at_ j)) Q t i.
Proof.
  revert n first t j. induction items as [|item items IH]; intros n first t j Hh Ho Hn Hs Hb Hj El E HQ;
    (destruct n as [|n]; [cbn in Hn; lia|]); cbn [parse_extra]; do 2 run_step; rewrite Hs; cbn [extra_at m_index].
  - rewrite (proj2 (Z.ltb_ge _ _)) by (cbn in El; lia). run_step. apply HQ; [assumption|].
    split; [|split; [destruct first; reflexivity | split; split; reflexivity]].
    split; [reflexivity|]. split; [reflexivity|]. split; repeat constructor.
  - apply Forall_cons in Ho as [Hi Ho].
    change (put_extra (item :: items)) with (put_item item ++ put_extra items) in *.
    rewrite length_app in El. rewrite <- app_assoc in E. pose proof (put_item_length item).
    rewrite (proj2 (Z.ltb_lt _ _)) by lia.
    destruct item as [key|nonce|tag]; cbn [put_item item_ok] in *; rewrite <- app_assoc in E; rewrite length_app in El;
      apply wp_bind; (eapply run_extra_varint; [assumption | | exact Hj | | exact E | intros E1 _]; [unfold u64; lia | lia |]);
      cbn [Z.eqb Pos.eqb].
    + do 2 run_step. rewrite Hb. cbn [extra_at m_index]. apply wp_bind.
      destruct (stands_after (base + (j + Z.of_nat (length (put 1)))) key (put_extra items ++ rest)) as [Hst _];
        [lia | lia | exact E1|].
      destruct first; run_step; rewrite ?(to_u32_index blob Hlen) in * by lia.
      all: apply wp_bind; eapply run_extra_key; [assumption | lia | exact Hi | lia | exact E1 | intros _ E2 _].
      all: apply IH; [assumption | assumption | cbn in Hn; lia | exact Hs | exact Hb | lia | lia | exact E2 |].
      all: intros t' Hh' Hr; apply HQ; [assumption|].
      * apply (items_key true (base + (j + Z.of_nat (length (put 1))))); [intros _; exact Hst | exact Hr].
      * apply (items_key false 0); [discriminate | exact Hr].
    + apply wp_bind. eapply (run_extra_field _ _ nonce); [assumption | lia | lia | exact Hb | exact E1 | intros p Hp E2 _].
      apply IH; [assumption | assumption | cbn in Hn; lia | exact Hs | exact Hb | lia | lia | exact E2 |].
      intros t' Hh' Hr. apply HQ; [assumption | exact (items_nonce _ p _ _ _ _ Hp Hr)].
    + apply wp_bind. eapply (run_extra_field _ _ tag); [assumption | lia | lia | exact Hb | exact E1 | intros p Hp E2 _].
      apply IH; [assumption | assumption | cbn in Hn; lia | exact Hs | exact Hb | lia | lia | exact E2 |].
      intros t' Hh' Hr. apply HQ; [assumption | exact (items_tag _ p _ _ _ _ Hp Hr)].
Qed.

End ExtraField.

(** ** The whole block *)

(** What the extra field leaves; [t0] are the members before the parse. *)
Definition extra_read (b : block) (t0 t : BlockTemplate) : Prop :=
  match first_pubkey (b_extra b) with
  | Some key => stands (m_offsets t TX_PUBKEY_OFFSET) key
  | None => m_offsets t TX_PUBKEY_OFFSET = m_offsets t0 TX_PUBKEY_OFFSET
  end /\
  nonce_after (last_nonce (b_extra b)) t0 t /\ tag_after (last_tag (b_extra b)) t0 t /\
  m_number t extraSize = Z.of_nat (length (put_extra (b_extra b))) /\
  stands (m_offsets t TX_EXTRA_OFFSET) (put_extra (b_extra b)).

Definition members_read (b : block) (rest : list Z) (t : BlockTemplate) : Prop :=
  header_read b rest t /\ begin_read b t /\ outputs_read b t.

Lemma members_frame b rest size base t t' :
  extra_frame (with_offset TX_EXTRA_OFFSET base (with_number extraSize size t)) t' ->
  members_read b rest t -> members_read b rest t'.
Proof.
  intros (N & V & K & S) (Hh & Hb & Ho). unfold keeps in K. repeat rewrite Forall_cons in K. repeat rewrite Forall_cons in S.
  destruct K as (K1 & K2 & K3 & _), S as (S1 & S2 & S3 & _).
  autorewrite with members in K1, K2, K3, S1, S2, S3, V.
  unfold members_read, header_read, begin_read, outputs_read in *.
  rewrite N, K1, K2, K3, S1, S2, S3, V. members. auto.
Qed.

Lemma run_tx_extra b rest0 rest t0 t i Q :
  block_ok coin b -> here t i -> (length (b_extra b) < fuel)%nat ->
  ahead i = put_string (put_extra (b_extra b)) ++ rest ->
  untouched t0 t -> members_read b rest0 t ->
  (forall t' i', here t' i' -> ahead i' = rest -> members_read b rest0 t' -> extra_read b t0 t' -> Q tt t' i') ->
  run (parse_tx_extra exact fuel) Q t i.
Proof.
  intros Hb Hh Hf E (Hp & Hx & Hy) Hm HQ. pose proof (string_u64 _ _ _ _ Hh E) as Hu.
  unfold parse_tx_extra, read_varint. unfold put_string in E. rewrite <- app_assoc in E. repeat run_step. members.
  set (t1 := with_offset _ _ _) in *. pose proof E as E0. run_step.
  match goal with Hst : stands _ _ |- _ => pose proof Hst as (Hb0 & Hb1 & _); rename Hst into Hextra end.
  apply (run_extra_items (i + n) (Z.of_nat (length (put_extra (b_extra b)))) Hb0 Hb1 fuel (b_extra b) true rest).
  - assumption.
  - unfold block_ok in Hb. tauto.
  - exact Hf.
  - unfold t1. members. reflexivity.
  - unfold t1. members. reflexivity.
  - lia.
  - lia.
  - rewrite Z.add_0_r. exact E.
  - intros t' Hh' (F & K & N & T). apply HQ; [assumption | exact E0 | exact (members_frame _ _ _ _ _ _ F Hm) |].
    split; [|split; [|split; [|split]]].
    + unfold t1 in K. autorewrite with members in K. destruct (first_pubkey (b_extra b)); congruence || exact K.
    + apply (field_after_kept _ _ _ _ _ _ Hx). revert N. unfold t1. other_field.
    + apply (field_after_kept _ _ _ _ _ _ Hy). revert T. unfold t1. other_field.
    + destruct F as (-> & _). unfold t1. members. reflexivity.
    + destruct F as (_ & _ & F & _). unfold keeps in F. repeat rewrite Forall_cons in F. destruct F as (_ & _ & _ & -> & _).
      unfold t1. members. exact Hextra.
Qed.

(** The end: the parser returns early at an update of TOWNFORGE. *)
Definition updates (b : block) : bool := townforge coin && (b_height b mod 720 =? 0).

Definition end_read (rest : list Z) (t : BlockTemplate) : Prop :=
  0 <= m_offsets t MINER_TX_PREFIX_END_OFFSET <= len /\ ahead (m_offsets t MINER_TX_PREFIX_END_OFFSET) = 0 :: rest.

Lemma run_rct b rest0 rest t0 t i Q :
  here t i -> members_read b rest0 t -> extra_read b t0 t -> ahead i = 0 :: rest ->
  (forall t' i', here t' i' -> members_read b rest0 t' -> extra_read b t0 t' -> end_read rest t' ->
     if updates b then W t' else ahead i' = rest -> Q tt t' i') ->
  run parse_rct Q t i.
Proof.
  intros Hh Hm Hx E HQ. pose proof (proj2 (proj2 Hh)) as Hi. set (t1 := with_offset MINER_TX_PREFIX_END_OFFSET i t).
  assert (Hh1 : forall j, 0 <= j <= len -> here t1 j) by (intros j Hj; destruct Hh as (? & ? & _); repeat split; assumption || lia).
  assert (Hm1 : members_read b rest0 t1).
  { revert Hm. unfold members_read, header_read, begin_read, outputs_read, t1. members. exact (fun H => H). }
  assert (Hx1 : extra_read b t0 t1).
  { revert Hx. unfold extra_read, field_after, field_read, field_kept, t1. members. exact (fun H => H). }
  assert (He1 : end_read rest t1) by (unfold end_read, t1; members; split; [exact Hi | exact E]).
  specialize (HQ t1). pose proof (ahead_range i [0] rest Hi E) as Hi1. cbn [length] in Hi1.
  assert (Eh : m_number t1 height = b_height b) by (destruct Hm1 as (_ & (_ & _ & _ & _ & Eh & _) & _); exact Eh).
  unfold parse_rct, updates in *. pose proof E as E0. do 4 run_step. fold t1. do 4 run_step.
  do 2 run_step. rewrite Eh. specialize (HQ (i + 1) (Hh1 (i + 1) ltac:(lia)) Hm1 Hx1 He1).
  change (bool_decide (coin = TOWNFORGE)) with (townforge coin). apply wp_bind, wp_return_if; [assumption | |].
  { intros Eu. rewrite Eu in HQ. exact (conj eq_refl HQ). }
  intros Eu _. rewrite Eu in HQ. do 6 run_step. apply wp_bind, wp_return_if; [assumption | |].
  { intros Ec. unfold t1 in Ec. autorewrite with members in Ec. rewrite Z.eqb_refl in Ec. discriminate. }
  intros _ _. replace (m_offsets t1 MINER_TX_PREFIX_END_OFFSET) with i by (unfold t1; members; reflexivity).
  apply wp_bind, wp_read; [assumption | lia | lia|]. intros _. rewrite E.
  apply wp_return_if; [assumption | discriminate | intros _; exact (HQ E0)].
Qed.

Lemma run_end b rest0 rest t0 t i Q :
  block_ok coin b -> here t i -> members_read b rest0 t -> extra_read b t0 t -> ahead i = put_prices coin b ++ 0 :: rest ->
  (forall t' i', here t' i' -> members_read b rest0 t' -> extra_read b t0 t' -> end_read rest t' ->
     if updates b then W t' else ahead i' = rest -> Q tt t' i') ->
  run parse_miner_tx_end Q t i.
Proof.
  intros Hb Hh Hm Hx E HQ. unfold block_ok in Hb. do 13 destruct Hb as [_ Hb]. destruct Hb as (P1 & P2 & P3 & _).
  unfold parse_miner_tx_end, put_prices in *. destruct (b_prices b) as [[p burnt] minted]. cbn [fst snd] in *.
  do 2 run_step. change (bool_decide (coin = ZEPHYR)) with (zephyr coin).
  destruct (zephyr coin); cbn [only app] in E; rewrite <- ?app_assoc in E; repeat run_step.
  all: eapply run_rct; eassumption.
Qed.

(** The members after the parse of a block. *)
Definition block_read (b : block) (t0 t : BlockTemplate) : Prop :=
  members_read b (put_prefix coin b (0 :: put (Z.of_nat (length (b_hashes b))) ++ concat (b_hashes b))) t /\ extra_read b t0 t /\
  end_read (put (Z.of_nat (length (b_hashes b))) ++ concat (b_hashes b)) t /\
  (updates b = false -> m_number t numHashes = Z.of_nat (length (b_hashes b))).

Definition counts_ok (b : block) : Prop :=
  (length (b_outputs b) < fuel)%nat /\ (length (b_extra b) < fuel)%nat /\ u64 (Z.of_nat (length (b_hashes b))).

Lemma put_prefix_eq b rest :
  put_prefix coin b rest =
  put_begin coin b (put_outputs coin b (put_string (put_extra (b_extra b)) ++ put_prices coin b ++ rest)).
Proof. reflexivity. Qed.

Variable alloc : Z -> bool.

Lemma run_body b t0 t (hashes : bool) Q :
  block_ok coin b -> counts_ok b -> here t 0 -> blob = serialize coin b -> untouched t0 t ->
  (forall t' i', updates b = true -> here t' i' -> block_read b t0 t' -> W t') ->
  (forall t' i', updates b = false -> here t' i' -> ahead i' = concat (b_hashes b) -> block_read b t0 t' ->
     run (if hashes then parse_hashes exact alloc fuel else mret tt) Q t' i') ->
  run (parse_body exact alloc fuel hashes) Q t 0.
Proof.
  intros Hb (Hc1 & Hc2 & Hc3) Hh Es U HW HQ. unfold parse_body.
  assert (E : ahead 0 = serialize coin b) by (rewrite Es; reflexivity).
  apply wp_bind. eapply run_header; [exact Hb | exact Hh | exact E|]. clear E. intros t1 i1 H1 E U1 Hd1 _.
  rewrite put_prefix_eq in E.
  apply wp_bind. eapply run_begin; [exact Hb | exact H1 | exact E|]. clear E. intros t2 i2 H2 E U2 Hg2 Hd2 _.
  apply wp_bind. eapply run_outputs; [exact Hb | exact H2 | exact Hc1 | exact Hg2 | exact E|]. clear E.
  intros t3 i3 H3 E U3 Ho3 Hg3 Hd3 _.
  apply wp_bind. eapply (run_tx_extra b _ _ t0); [exact Hb | exact H3 | exact Hc2 | exact E | exact (untouched_trans _ _ _ U (untouched_trans _ _ _ U1 (untouched_trans _ _ _ U2 U3))) | |].
  { split; [exact (Hd3 (Hd2 Hd1)) | split; [exact Hg3 | exact Ho3]]. }
  clear E. intros t4 i4 H4 E Hm4 Hx4 _.
  apply wp_bind. eapply run_end; [exact Hb | exact H4 | exact Hm4 | exact Hx4 | exact E|]. clear E.
  intros t5 i5 H5 Hm5 Hx5 He5. destruct (updates b) eqn:Eu.
  - apply (HW t5 i5); [reflexivity | exact H5|]. split; [exact Hm5|]. split; [exact Hx5|]. split; [exact He5 | congruence].
  - intros E _. unfold read_varint. do 4 run_step. apply (HQ _ _ eq_refl); [assumption | exact E|].
    revert Hm5 Hx5 He5. unfold block_read, members_read, header_read, begin_read, outputs_read, extra_read,
      field_after, field_read, field_kept, end_read.
    members. auto.
Qed.

End Runs.

(** ** The bytes of the prefix *)

Lemma put_outputs_foldr rest outs : foldr put_output rest outs = foldr put_output [] outs ++ rest.
Proof.
  induction outs as [|o outs IH]; cbn [foldr]; [reflexivity|]. rewrite IH. unfold put_output, put_asset.
  repeat (rewrite <- app_assoc; cbn [app]). reflexivity.
Qed.

Lemma put_prefix_app coin b rest : put_prefix coin b rest = put_prefix coin b [] ++ rest.
Proof.
  unfold put_prefix, put_begin, put_outputs, put_asset.
  destruct (zephyr coin), (b_outputType b =? 3); rewrite ?(put_outputs_foldr (_ ++ _)), ?app_nil_r;
    repeat (rewrite <- app_assoc; cbn [app]); reflexivity.
Qed.

(** The prefix lies between its two offsets. *)
Lemma prefix_between blob coin b rest t :
  header_read blob coin b (put_prefix coin b (0 :: rest)) t -> end_read blob rest t ->
  take (Z.to_nat (m_offsets t MINER_TX_PREFIX_END_OFFSET - m_offsets t MINER_TX_PREFIX_OFFSET))
    (drop (Z.to_nat (m_offsets t MINER_TX_PREFIX_OFFSET)) blob) = put_prefix coin b [].
Proof.
  intros (_ & _ & _ & _ & _ & _ & _ & Hp & Ep) [He Ee]. rewrite put_prefix_app in Ep.
  pose proof (f_equal length Ep) as Lp. pose proof (f_equal length Ee) as Le.
  rewrite length_drop, length_app in Lp. rewrite length_drop in Le. cbn [length] in Lp, Le. rewrite Ep.
  replace (Z.to_nat _) with (length (put_prefix coin b [])) by lia. apply take_app_length.
Qed.
