(* ===== verification/BlockHashes.v ===== *)
(** * The hashes of a block and the blob to hash

    The part of the parser that runs when the tree of the transactions is asked
    for, and [generateHashingBlob], over the format of BlockFormat.v and the
    tree of MerkleTree.v. *)

From stdpp Require Import functions.
From S2P Require Import Prelude.
From S2P Require Import CInt.
From S2P Require Import Bytes.
From S2P Require Import Signatures.
From S2P Require Import BlobReader.
From S2P Require Import MerkleTree.
From S2P Require Import BlockTemplate.
From S2P Require Import BlockTemplateOk.
From S2P Require Import BlockFormat.

(** ** Varints *)

Lemma low_bits m : 0 <= m < 256 -> Z.lor (Z.land m 0x7F) 0x80 = m mod 128 + 128.
Proof.
  intros Hm.
  assert (H : forallb (fun n => let m := Z.of_nat n in Z.lor (Z.land m 0x7F) 0x80 =? m mod 128 + 128) (seq 0 256) = true)
    by eval_closed.
  pose proof (forallb_seq_spec _ _ H (Z.to_nat m)) as Hd. cbv beta zeta in Hd. rewrite Z2Nat.id in Hd by lia.
  apply Z.eqb_eq, Hd. lia.
Qed.

Lemma emit_varint_ok fuel k : 0 <= k < 2 ^ (7 * Z.of_nat fuel) -> (0 < fuel)%nat -> emit_varint fuel k = Ok (varint fuel k).
Proof.
  revert k. induction fuel as [|fuel IH]; intros k Hk Hf; [lia|]. cbn [emit_varint varint].
  rewrite Nat2Z.inj_succ in Hk. replace (7 * Z.succ (Z.of_nat fuel)) with (7 * Z.of_nat fuel + 7) in Hk by lia.
  rewrite Z.pow_add_r in Hk by lia. change (2 ^ 7) with 128 in Hk.
  destruct (Z.leb_spec 0x80 k) as [H1|H1]; destruct (Z.ltb_spec k 128); try lia.
  - rewrite Z.shiftr_div_pow2 by lia. change (2 ^ 7) with 128.
    rewrite IH; [|pose proof (Z.div_pos k 128); pose proof (Z.div_lt_upper_bound k 128 (2 ^ (7 * Z.of_nat fuel))); lia
      | destruct fuel; [cbn in Hk|]; lia]. cbn [mbind result_bind]. do 2 f_equal.
    rewrite low_bits by apply to_u8_range. f_equal. symmetry.
    apply Znumtheory.Zmod_div_mod; [lia | lia | exists 2; reflexivity].
  - do 2 f_equal. apply Z.mod_small. lia.
Qed.

(** ** The buffer of hashes *)

Section Hashes.
Context `{Digest32}.
Variable alloc : Z -> bool.
Variable fuel : nat.
Variables (blob : list Z) (coin : Coin).
Notation len := (Z.of_nat (length blob)).
Hypothesis Hlen : len < 2 ^ 32.
Variable W : BlockTemplate -> Prop.
Notation run m Q t i := (wp blob coin (runs_to W) m Q t i).
Notation here := (here blob coin).
Notation ahead i := (drop (Z.to_nat i) blob).

Lemma resize_length n v r : resize alloc n v = Ok r -> length r = Z.to_nat n.
Proof.
  unfold resize. destruct (alloc n); [|discriminate]. intros [= <-]. rewrite length_app, length_take, repeat_length. lia.
Qed.

(** A hash written at the end of what is filled. *)
Lemma write_next (filled junk : list Z) (h : list Z) :
  length h = 32%nat -> (32 <= length junk)%nat ->
  write_mem (filled ++ junk) (Z.of_nat (length filled)) h = Ok (filled ++ h ++ drop 32 junk).
Proof.
  intros Hh Hj. rewrite write_mem_ok by (rewrite ?length_app; lia). rewrite Nat2Z.id, Hh.
  rewrite take_app_length, drop_app_ge by lia. do 3 f_equal. f_equal. lia.
Qed.

(** [numHashes] hashes, of which those in [filled] after the first are read. *)
Lemma run_read_hashes n hs k filled junk t i Q :
  here t i -> Forall is_hash hs -> (length hs < n)%nat -> ahead i = concat hs ->
  m_number t numHashes = Z.of_nat k + Z.of_nat (length hs) -> Z.of_nat k + Z.of_nat (length hs) < 2 ^ 32 ->
  length filled = (32 * S k)%nat -> length junk = (32 * length hs)%nat ->
  (forall i', here (with_hashes (filled ++ concat hs) t) i' -> Q tt (with_hashes (filled ++ concat hs) t) i') ->
  run (read_hashes exact n (Z.of_nat (S k))) Q (with_hashes (filled ++ junk) t) i.
Proof.
  intros Hh Hhs. revert n k filled junk i Hh. induction Hhs as [|h hs Hhash Hhs IH]; intros n k filled junk i Hh Hn E Hnum Hk Hf Hj HQ;
    (destruct n as [|n]; [cbn in Hn; lia|]); cbn [read_hashes]; apply wp_bind, wp_number; [exact Hh | | exact Hh |];
    intros _; members; rewrite Hnum.
  - rewrite (proj2 (Z.leb_gt _ _)) by (cbn [length]; lia). apply wp_ret; [exact Hh|].
    destruct junk; [|discriminate]. exact (HQ i Hh).
  - rewrite (proj2 (Z.leb_le _ _)) by (cbn [length]; lia). pose proof Hhash as [_ Lh].
    apply wp_bind. eapply (run_span blob coin Hlen _ h); [exact Hh | exact E | unfold kHashSize; lia|]. intros (Hi0 & Hi1 & Et) E' Hh'.
    apply wp_bind. eapply wp_lift; [exact Hh' | |].
    { cbn [fst snd]. pose proof Hh as (Eb & _). change (m_blob (with_hashes (filled ++ junk) t)) with (m_blob t).
      change (m_hashes (with_hashes (filled ++ junk) t)) with (filled ++ junk). change (m_blob t = blob) in Eb. rewrite Eb.
      unfold kHashSize. rewrite read_mem_ok by lia. change (Z.to_nat 32) with 32%nat. rewrite <- Lh, Et. cbn [mbind result_bind].
      rewrite to_u64_id by (cbn [length] in Hk; lia). replace (Z.of_nat (S k) * 32) with (Z.of_nat (length filled)) by lia.
      apply write_next; [exact Lh | cbn [length] in Hj; lia]. }
    intros _. apply wp_bind, wp_modify; [exact Hh' | exact Hh'|]. intros _. 
    rewrite to_u64_id by (cbn [length] in Hk; lia). replace (Z.of_nat (S k) + 1) with (Z.of_nat (S (S k))) by lia.
    change (with_hashes (filled ++ h ++ drop 32 junk) (with_hashes (filled ++ junk) t))
      with (with_hashes (filled ++ h ++ drop 32 junk) t).
    rewrite app_assoc. apply (IH n (S k)); [exact Hh' | cbn in Hn; lia | exact E' | cbn [length] in Hnum; lia | cbn [length] in Hk; lia
      | rewrite length_app; lia | rewrite length_drop; cbn [length] in Hj; lia|].
    rewrite <- app_assoc. exact HQ.
Qed.

(** The whole part, from the members and the bytes of the prefix. *)
Lemma run_hashes p miner hs t i Q :
  here t i -> Forall is_hash hs -> is_hash miner -> (length hs < fuel)%nat -> ahead i = concat hs ->
  m_number t numHashes = Z.of_nat (length hs) -> alloc (Z.of_nat (S (length hs)) * kHashSize) = true ->
  prefix_bytes t = Ok p -> calculateMinerTxHash p = Ok miner ->
  (let l := miner :: hs in
   forall i', let t' := with_tree (concat (side (Nat.log2 (length l)) (first_level l))) (merkle_root l) (with_hashes (concat l) t) in
   here t' i' -> Q tt t' i') ->
  run (parse_hashes exact alloc fuel) Q t i.
Proof.
  intros Hh Hhs Hm Hf E Hnum Ha Hp Hmt HQ. pose proof Hh as (Eb & _ & Hi). pose proof Hm as [_ Lm].
  assert (Hc : Z.of_nat (32 * length hs) <= len).
  { rewrite <- (concat_length hs Hhs). apply (f_equal length) in E. rewrite length_drop in E. lia. }
  unfold parse_hashes. apply wp_bind, wp_number; [exact Hh|]. intros _. rewrite Hnum.
  replace (to_u64 (to_u64 (Z.of_nat (length hs) + 1) * kHashSize)) with (Z.of_nat (S (length hs)) * kHashSize)
    by (unfold kHashSize; rewrite (to_u64_id (_ + 1)) by lia; rewrite to_u64_id by lia; lia).
  assert (Hr : exists v, resize alloc (Z.of_nat (S (length hs)) * kHashSize) (m_hashes t) = Ok v) by (unfold resize; rewrite Ha; eauto).
  destruct Hr as [v Ev]. pose proof (resize_length _ _ _ Ev) as Lv. unfold kHashSize in Lv.
  apply wp_bind. eapply wp_lift; [exact Hh | exact Ev|]. intros _. apply wp_bind, wp_modify; [exact Hh | exact Hh|]. intros _.
  apply wp_bind. eapply wp_lift; [exact Hh | |].
  { change (prefix_bytes (with_hashes v t)) with (prefix_bytes t). rewrite Hp. cbn [mbind result_bind]. rewrite Hmt.
    cbn [mbind result_bind]. exact (write_next [] v miner Lm ltac:(lia)). }
  intros _. apply wp_bind, wp_modify; [exact Hh | exact Hh|]. intros _.
  change (with_hashes ([] ++ miner ++ drop 32 v) (with_hashes v t)) with (with_hashes (miner ++ drop 32 v) t).
  apply wp_bind. eapply (run_read_hashes fuel hs 0 miner (drop 32 v)); [exact Hh | exact Hhs | exact Hf | exact E | exact Hnum | lia
    | exact Lm | rewrite length_drop; lia |]. intros i' Hh' _.
  change (miner ++ concat hs) with (concat (miner :: hs)) in *. set (l := miner :: hs) in *.
  apply wp_bind. eapply wp_lift; [exact Hh' | |].
  { change (m_number (with_hashes (concat l) t) numHashes) with (m_number t numHashes). rewrite Hnum.
    replace (Z.of_nat (length hs)) with (Z.of_nat (length l) - 1) by (unfold l; cbn [length]; lia).
    apply tree_ok; [constructor; assumption | unfold l; cbn; lia | unfold l; cbn [length]; lia]. }
  intros _. apply wp_modify; [exact Hh' | exact Hh' | apply (HQ i' Hh')].
Qed.

End Hashes.

(** ** The header *)

Lemma put_header_app coin b rest : put_header coin b rest = put_header coin b [] ++ rest.
Proof. unfold put_header. destruct (signed coin b), (zephyr coin); cbn [only app]; rewrite <- ?app_assoc; reflexivity. Qed.

(** The blob to hash: the header, the root, and the number of transactions. *)
Lemma hashing_blob_ok blob coin b rest t :
  blob = put_header coin b rest -> m_blob t = blob -> header_read blob coin b rest t ->
  0 <= m_number t numHashes < 2 ^ 64 - 1 ->
  generateHashingBlob t = Ok (put_header coin b [] ++ m_rootHash t ++ put (m_number t numHashes + 1)).
Proof.
  intros Es Eb (_ & _ & _ & _ & _ & _ & _ & Hp & Ep) Hn. unfold generateHashingBlob. rewrite Eb.
  rewrite read_mem_ok by lia. cbn [mbind result_bind]. rewrite to_u64_id by lia.
  rewrite emit_varint_ok by (cbn; lia). cbn [mbind result_bind]. do 2 f_equal.
  rewrite put_header_app in Es. rewrite Es in *. apply (f_equal length) in Ep. rewrite length_drop, length_app in Ep.
  rewrite length_app in Hp. cbn [Z.to_nat]. rewrite drop_0, take_app_le by lia. apply take_ge. lia.
Qed.
