(* ===== verification/BlockTemplateSpec.v ===== *)
(** * Block templates: the properties

    What the parser reads from a serialized block, what it guarantees of any
    input, and the inputs on which the overflow of its bounds check or of a
    size makes it loop or leave its buffers. *)

From stdpp Require Import functions.
From S2P Require Import Prelude.
From S2P Require Import CInt.
From S2P Require Import Bytes.
From S2P Require Import Cvt.
From S2P Require Import Signatures.
From S2P Require Import KeccakDigest.
From S2P Require Import BlobReader.
From S2P Require Import MerkleTree.
From S2P Require Import BlockTemplate.
From S2P Require Import BlockTemplateOk.
From S2P Require Import BlockFormat.
From S2P Require Import BlockHashes.

(** ** From the runs to the parser *)

Section Runs.
Context `{Digest32}.
Variable alloc : Z -> bool.
Variable fuel : nat.
Variables (blob : list Z) (coin : Coin) (t : BlockTemplate).
Notation len := (Z.of_nat (length blob)).
Hypothesis Hlen : kMinSize <= len < 2 ^ 32.
Hypothesis Hsize : 0 <= m_number t extraSize.

Notation body beyond := (parse_body beyond alloc fuel false (with_blob blob coin t) (MkBlobReader len 0 0)).

Lemma parse_eq beyond : parse beyond alloc fuel blob coin false t =
  match body beyond with
  | Done _ t _ => Ok (true, t)
  | Return b t => Ok (b, t)
  | Threw t => Ok (false, t)
  | Undefined u => Fault u
  | Runs => Running
  end.
Proof. unfold parse. rewrite (proj2 (Z.ltb_ge _ _)) by lia. reflexivity. Qed.

(** Where the exact check does not throw, both parse alike. *)
Lemma body_agrees : match body exact with Threw _ => True | o => body wraps = o end.
Proof.
  pose proof (agree_body alloc fuel false (with_blob blob coin t) (MkBlobReader len 0 0) (conj (Z.le_refl 0) Hsize)) as Ha.
  destruct (body exact); tauto.
Qed.

Lemma here_start : here blob coin (with_blob blob coin t) 0.
Proof. repeat split; lia. Qed.



Lemma body_reads b :
  block_ok coin b -> counts_ok fuel b -> blob = serialize coin b ->
  exists t', (body wraps = Return true t' \/ exists ar, body wraps = Done tt t' ar) /\ m_blob t' = blob /\
    block_read blob coin b t t'.
Proof.
  intros Hb Hc Es. pose proof (run_body fuel blob coin ltac:(lia) 
    (fun t' => m_blob t' = blob /\ block_read blob coin b t t') alloc b t (with_blob blob coin t) false
    (fun _ t' _ => block_read blob coin b t t')
    Hb Hc here_start Es ltac:(repeat split) (fun t' _ _ H H' => conj (proj1 H) H')) as Hw.
  specialize (Hw (fun t' i' _ Hh _ Hr => wp_ret blob coin _ tt _ t' i' Hh Hr)).
  unfold wp in Hw. change (ar_at blob 0) with (MkBlobReader len 0 0) in Hw. pose proof body_agrees as Ha.
  destruct (body exact) as [[] t' ar|b' t'| | |]; cbn in Hw; [| |contradiction | destruct Hw; contradiction | contradiction].
  - destruct Hw as (i' & -> & [Eb _] & Hr). exists t'. split; [right; eauto | exact (conj Eb Hr)].
  - destruct Hw as [-> Hr]. exists t'. split; [left; exact Ha | exact Hr].
Qed.

End Runs.

(** A block is never too short. *)
Lemma put_length v : (1 <= length (put v))%nat.
Proof. unfold put. cbn [varint]. destruct (v <? 128); apply le_n_S, Nat.le_0_l. Qed.

Lemma header_length coin b rest : block_ok coin b -> (76 <= length (put_header coin b (put_begin coin b rest)))%nat.
Proof.
  intros (_ & L1 & L2 & _ & _ & _ & _ & _ & _ & _ & [_ L3] & _). unfold put_header, put_begin.
  repeat (cbn [length]; rewrite length_app). cbn [length]. rewrite L1, L2.
  pose proof (put_length (b_timestamp b)). pose proof (put_length (b_txVersion b)). pose proof (put_length 1).
  pose proof (put_length (b_height b)). pose proof (put_length (Z.of_nat (S (length (b_outputs b))))).
  pose proof (put_length (o_amount (b_output b))). lia.
Qed.

Lemma serialize_length coin b : block_ok coin b -> (76 <= length (serialize coin b))%nat.
Proof. intros Hb. unfold serialize. rewrite put_prefix_eq. apply header_length, Hb. Qed.

Lemma prefix_bytes_ok blob coin b rest t :
  Z.of_nat (length blob) < 2 ^ 31 -> m_blob t = blob -> header_read blob coin b (put_prefix coin b (0 :: rest)) t -> end_read blob rest t ->
  prefix_bytes t = Ok (put_prefix coin b []).
Proof.
  intros Hl Eb Hh He. pose proof (prefix_between _ _ _ _ _ Hh He) as E.
  destruct Hh as (_ & _ & _ & _ & _ & _ & _ & Hp & Ep), He as [Hq Eq].
  assert (Hpq : 0 <= m_offsets t MINER_TX_PREFIX_END_OFFSET - m_offsets t MINER_TX_PREFIX_OFFSET).
  { rewrite put_prefix_app in Ep. apply (f_equal length) in Ep, Eq. rewrite length_drop, length_app in Ep.
    rewrite length_drop in Eq. cbn [length] in Ep, Eq. lia. }
  unfold prefix_bytes, to_i32. rewrite Z.mod_small, Z.add_simpl_r by lia.
  rewrite (proj2 (Z.ltb_ge _ _)) by lia. rewrite Eb, read_mem_ok by lia. rewrite E. reflexivity.
Qed.

(** A template in hexadecimal is parsed as its bytes are. *)
Lemma parse_hex_eq beyond alloc fuel hex v coin hashes t :
  is_bytes hex -> hex_bytes hex = Some v -> kMinSize <= Z.of_nat (length v) ->
  parse_hex beyond alloc fuel hex coin hashes t = parse beyond alloc fuel v coin hashes t.
Proof.
  intros Hb Hv Hl. pose proof (hex_bytes_length hex v Hv) as Hh. unfold parse_hex, parse.
  rewrite !(proj2 (Z.ltb_ge _ _)) by lia.
  rewrite Hh, (Nat.mul_comm 2), Nat.div_mul by lia.
  unfold kMinSize in Hl.
  rewrite (fromHex_into_ok _ hex v Hb);
    [| intros ->; cbn in Hh; lia | exact Hv | rewrite length_app, length_take, repeat_length; lia].
  rewrite drop_ge by (rewrite length_app, length_take, repeat_length; lia). rewrite app_nil_r. reflexivity.
Qed.

(** A block of every kind of field, for the witnesses. *)
Definition sample_block : block :=
  MkBlock 16 16 1700000000 (repeat 7 32) [1; 2; 3; 4] (repeat 0 64) [0; 0] (repeat 0 120) 2 60 3000000 3
    (MkOutput 600000000000 (repeat 9 32) [] 77) [] [Pubkey (repeat 5 32); ExtraNonce [1; 2; 3; 4]] (0, 0, 0)
    [repeat 1 32; repeat 2 32].

Lemma sample_block_ok : block_ok MONERO sample_block.
Proof. repeat split; try (cbn; lia); try (repeat constructor); right; reflexivity. Qed.

(** The parser on a serialized block. *)
Lemma parse_serialized `{Digest32} alloc fuel coin b t :
  block_ok coin b -> counts_ok fuel b -> Z.of_nat (length (serialize coin b)) < 2 ^ 31 -> 0 <= m_number t extraSize ->
  exists t', parse wraps alloc fuel (serialize coin b) coin false t = Ok (true, t') /\
    m_blob t' = serialize coin b /\ block_read (serialize coin b) coin b t t'.
Proof.
  intros Hb Hc Hl Hs. pose proof (serialize_length coin b Hb) as Hk.
  assert (Hlen : kMinSize <= Z.of_nat (length (serialize coin b)) < 2 ^ 32) by (unfold kMinSize; lia).
  destruct (body_reads alloc fuel (serialize coin b) coin t Hlen Hs b Hb Hc eq_refl) as (t' & Hrun & Eb & Hr).
  exists t'. split; [|exact (conj Eb Hr)].
  rewrite parse_eq by exact Hlen. destruct Hrun as [-> | [ar ->]]; reflexivity.
Qed.

(** ** Properties *)

(** C21: the parser accepts every serialized block of every coin and reads back
    each member, the position of each field, and the bytes of the prefix of the
    miner's transaction, from the bytes and from their hexadecimal digits. *)
Theorem parse_reads_block alloc fuel coin b t :
  block_ok coin b -> counts_ok fuel b -> Z.of_nat (length (serialize coin b)) < 2 ^ 31 -> 0 <= m_number t extraSize ->
  exists t', parse wraps alloc fuel (serialize coin b) coin false t = Ok (true, t') /\
    block_read (serialize coin b) coin b t t' /\ prefix_bytes t' = Ok (put_prefix coin b []) /\
    forall hex, is_bytes hex -> hex_bytes hex = Some (serialize coin b) ->
      parse_hex wraps alloc fuel hex coin false t = Ok (true, t').
Proof.
  intros Hb Hc Hl Hs. pose proof (serialize_length coin b Hb) as Hk.
  destruct (parse_serialized alloc fuel coin b t Hb Hc Hl Hs) as (t' & E & Eb & Hr).
  exists t'. split; [exact E | split; [exact Hr | split]].
  - destruct Hr as ((Hh & _) & _ & He & _). exact (prefix_bytes_ok _ _ _ _ _ Hl Eb Hh He).
  - intros hex Hx Hv. rewrite (parse_hex_eq _ _ _ hex _ _ _ _ Hx Hv) by (unfold kMinSize; lia). exact E.
Qed.

Lemma parse_reads_block_witness :
  exists t', parse wraps (fun _ => true) 3 (serialize MONERO sample_block) MONERO false new_template = Ok (true, t') /\
    block_read (serialize MONERO sample_block) MONERO sample_block new_template t' /\
    prefix_bytes t' = Ok (put_prefix MONERO sample_block []) /\
    forall hex, is_bytes hex -> hex_bytes hex = Some (serialize MONERO sample_block) ->
      parse_hex wraps (fun _ => true) 3 hex MONERO false new_template = Ok (true, t').
Proof.
  apply (parse_reads_block (fun _ => true) 3 MONERO sample_block new_template sample_block_ok).
  - repeat split; cbn; lia.
  - vm_compute. reflexivity.
  - cbn. lia.
Defined.







(** ** The tree *)

(** C23: for any number of hashes the loops compute in place the root of the
    tree, and a branch from which [calculateRootHash] gets the same root out of
    the prefix of the first transaction. *)
Theorem merkle_tree_correct `{Digest32} l prefix :
  Forall is_hash l -> (1 <= length l)%nat -> Z.of_nat (length l) < 2 ^ 61 -> calculateMinerTxHash prefix = Ok (hd [] l) ->
  exists branch, calculateMerkleTreeHash (Z.of_nat (length l) - 1) (concat l) = Ok (branch, merkle_root l) /\
    calculateRootHash prefix branch = Ok (merkle_root l).
Proof.
  intros Hl Hn Hb Hp. destruct (first_level_ok l Hl Hn) as [Hf Lf].
  exists (concat (side (Nat.log2 (length l)) (first_level l))). split; [exact (tree_ok l Hl Hn Hb)|].
  rewrite (calculateRootHash_ok prefix _ (hd [] l) (side_hashes _ _ Hf Lf)).
  - rewrite (branch_climbs l Hn Hl). reflexivity.
  - destruct l; [cbn in Hn; lia | exact (Forall_inv Hl)].
  - exact Hp.
Qed.

(** The leaf of an empty prefix, for the witness. *)
Definition sample_leaf : list Z := match calculateMinerTxHash [] with Ok d => d | _ => [] end.

Lemma merkle_tree_correct_witness :
  let l := [sample_leaf; repeat 1 32; repeat 2 32] in
  exists branch, calculateMerkleTreeHash (Z.of_nat (length l) - 1) (concat l) = Ok (branch, merkle_root l) /\
    calculateRootHash [] branch = Ok (merkle_root l).
Proof.
  apply (merkle_tree_correct [sample_leaf; repeat 1 32; repeat 2 32] []).
  - apply (bool_decide_unpack _). vm_compute. exact I.
  - cbn. lia.
  - cbn. lia.
  - vm_compute. reflexivity.
Defined.

Lemma prefix_is_bytes coin b : is_bytes (serialize coin b) -> is_bytes (put_prefix coin b []).
Proof.
  unfold serialize, is_bytes. rewrite put_header_app, put_prefix_app, !Forall_app. tauto.
Qed.

Lemma hashes_length coin b : Forall is_hash (b_hashes b) -> (32 * length (b_hashes b) <= length (serialize coin b))%nat.
Proof.
  intros Hh. rewrite <- (concat_length _ Hh). unfold serialize. rewrite put_header_app, put_prefix_app, !length_app.
  cbn [length]. rewrite length_app. lia.
Qed.

Lemma miner_hash `{Digest32} p : is_bytes p -> exists miner, calculateMinerTxHash p = Ok miner /\ is_hash miner.
Proof.
  intros Hp. unfold calculateMinerTxHash. destruct (hash_of_ok p Hp) as [-> [Hh _]]. cbn [mbind result_bind].
  eexists. apply hash_of_ok. repeat (apply Forall_app; split); [exact Hh | |]; repeat constructor; unfold is_byte; lia.
Qed.

(** With the hashes asked for, the parser leaves the root of the tree over
    the transactions, a branch that proves the one of the miner, and members
    from which [generateHashingBlob] makes the header, the root and the number
    of transactions. *)
Theorem parse_computes_root `{Digest32} alloc fuel coin b t :
  block_ok coin b -> counts_ok fuel b -> (length (b_hashes b) < fuel)%nat -> Forall is_hash (b_hashes b) ->
  is_bytes (serialize coin b) -> Z.of_nat (length (serialize coin b)) < 2 ^ 31 -> 0 <= m_number t extraSize ->
  updates coin b = false -> alloc (Z.of_nat (S (length (b_hashes b))) * kHashSize) = true ->
  exists miner t', calculateMinerTxHash (put_prefix coin b []) = Ok miner /\
    parse wraps alloc fuel (serialize coin b) coin true t = Ok (true, t') /\
    m_rootHash t' = merkle_root (miner :: b_hashes b) /\
    calculateRootHash (put_prefix coin b []) (m_minerTxMerkleTreeBranch t') = Ok (m_rootHash t') /\
    generateHashingBlob t' =
      Ok (put_header coin b [] ++ m_rootHash t' ++ put (Z.of_nat (length (b_hashes b)) + 1)).
Proof.
  intros Hb Hc Hf Hhs Hby Hl Hs Hu Ha. set (blob := serialize coin b) in *.
  destruct (miner_hash _ (prefix_is_bytes coin b Hby)) as (miner & Em & Hm). exists miner.
  pose proof (serialize_length coin b Hb) as Hk. fold blob in Hk.
  assert (Hlen : kMinSize <= Z.of_nat (length blob) < 2 ^ 32) by (unfold kMinSize; lia).
  pose (W := fun t' => m_rootHash t' = merkle_root (miner :: b_hashes b) /\
    m_minerTxMerkleTreeBranch t' = concat (side (Nat.log2 (S (length (b_hashes b)))) (first_level (miner :: b_hashes b))) /\
    m_blob t' = blob /\ m_number t' numHashes = Z.of_nat (length (b_hashes b)) /\
    exists rest, blob = put_header coin b rest /\ header_read blob coin b rest t').
  assert (Hw : wp blob coin (runs_to (fun _ => False)) (parse_body exact alloc fuel true) (fun _ t' _ => W t') (with_blob blob coin t) 0).
  { apply (run_body fuel blob coin ltac:(lia) _ alloc b t); [exact Hb | exact Hc | apply here_start | reflexivity | repeat split | congruence |].
    intros t' i' _ Hh E ((Hd & Hg) & Hx & He & Hn). pose proof Hh as (Eb & _).
    eapply (run_hashes alloc fuel blob coin ltac:(lia) _ _ miner (b_hashes b));
      [exact Hh | exact Hhs | exact Hm | exact Hf | exact E | exact (Hn Hu) | exact Ha
      | exact (prefix_bytes_ok _ _ _ _ _ Hl Eb Hd He) | exact Em |].
    cbv zeta. intros i2 Hh2. split; [reflexivity|]. split; [reflexivity|]. split; [exact Eb|]. split; [exact (Hn Hu)|].
    eexists. split; [reflexivity | exact Hd]. }
  pose proof (agree_body alloc fuel true (with_blob blob coin t) (MkBlobReader (Z.of_nat (length blob)) 0 0)
    (conj (Z.le_refl 0) Hs)) as Hag.
  unfold wp in Hw. change (ar_at blob 0) with (MkBlobReader (Z.of_nat (length blob)) 0 0) in Hw.
  destruct (parse_body exact alloc fuel true _ _) as [[] t' ar|b' t'|t'|u|] eqn:Er; cbn in Hw;
    [| destruct Hw; contradiction | contradiction | destruct Hw; contradiction | contradiction].
  destruct Hw as (i' & -> & _ & Hroot & Hbr & Eb & Hn & rest & Er' & Hd), Hag as (Hwr & _).
  exists t'. split; [exact Em|]. split; [|split; [exact Hroot|split]].
  - unfold parse, try_parse. rewrite (proj2 (Z.ltb_ge _ _)) by lia. fold blob.
    change (m_blob (with_blob blob coin t)) with blob. rewrite Hwr. reflexivity.
  - rewrite Hroot, Hbr. rewrite (calculateRootHash_ok _ _ miner); [| | exact Hm | exact Em].
    + rewrite <- (branch_climbs (miner :: b_hashes b)); [reflexivity | cbn; lia | constructor; assumption].
    + destruct (first_level_ok (miner :: b_hashes b)) as [Hfl Lfl]; [constructor; assumption | cbn; lia|].
      apply (side_hashes _ _ Hfl Lfl).
  - rewrite <- Hn. apply (hashing_blob_ok blob coin b rest t' Er' Eb Hd). rewrite Hn.
    pose proof (hashes_length coin b Hhs) as Hhl. fold blob in Hhl. lia.
Qed.

(** A block whose hash and every byte are known, for the witness. *)
Lemma parse_computes_root_witness :
  exists miner t', calculateMinerTxHash (put_prefix MONERO sample_block []) = Ok miner /\
    parse wraps (fun _ => true) 3 (serialize MONERO sample_block) MONERO true new_template = Ok (true, t') /\
    m_rootHash t' = merkle_root (miner :: b_hashes sample_block) /\
    calculateRootHash (put_prefix MONERO sample_block []) (m_minerTxMerkleTreeBranch t') = Ok (m_rootHash t') /\
    generateHashingBlob t' =
      Ok (put_header MONERO sample_block [] ++ m_rootHash t' ++ put (Z.of_nat (length (b_hashes sample_block)) + 1)).
Proof.
  apply (parse_computes_root (fun _ => true) 3 MONERO sample_block new_template sample_block_ok).
  - repeat split; cbn; lia.
  - cbn. lia.
  - apply (bool_decide_unpack _). vm_compute. exact I.
  - apply (bool_decide_unpack _). vm_compute. exact I.
  - vm_compute. reflexivity.
  - cbn. lia.
  - reflexivity.
  - reflexivity.
Defined.

(** ** A template that is never parsed *)

(** The tag of a nonce and a size that brings the index back to 0. *)
Definition loop_field : list Z := put 2 ++ put (2 ^ 64 - 11).

(** A block whose extra field is replaced. *)
Definition looping (coin : Coin) (b : block) (rest : list Z) : list Z :=
  put_header coin b (put_begin coin b (put_outputs coin b (put_string loop_field ++ rest))).

Section Looping.
Context `{Digest32}.
Variable blob : list Z.
Variable coin : Coin.
Notation len := (Z.of_nat (length blob)).
Hypothesis Hlen : len < 2 ^ 32.

(** A stage that completes with the exact check does so with the one of the
    code. *)
Lemma stage_done {A} (m m' : parser A) Q R t i :
  agree m m' R -> sizes_ok t (ar_at blob i) -> wp blob coin (runs_to (fun _ => False)) m Q t i ->
  exists a t' i', m' t (ar_at blob i) = Done a t' (ar_at blob i') /\ here blob coin t' i' /\ sizes_ok t' (ar_at blob i') /\ Q a t' i'.
Proof.
  intros Ha Hs Hw. specialize (Ha t (ar_at blob i) Hs). unfold wp in Hw.
  destruct (m t (ar_at blob i)) as [a t' ar|b t'|t'|u|]; cbn in Hw; [|destruct Hw; contradiction | contradiction | destruct Hw; contradiction | contradiction].
  destruct Hw as (i' & -> & Hh & HQ), Ha as (-> & Hs' & _). eauto 10.
Qed.

Lemma bind_done {A B} (m : parser A) (k : A -> parser B) t ar a t' ar' :
  m t ar = Done a t' ar' -> (m ≫= k) t ar = k a t' ar'.
Proof. intros E. unfold mbind, parser_bind. rewrite E. reflexivity. Qed.

(** The field brings [ar_extra] back to its start. *)
Lemma loop_field_runs n first base t ar :
  m_blob t = blob -> m_number t extraSize = 11 -> m_offsets t TX_EXTRA_OFFSET = base ->
  stands blob base loop_field -> parse_extra wraps n first (extra_at base 11 0) t ar = Runs.
Proof.
  intros Eb Es Ebase (Hb & Hl & Ef). revert first t ar Eb Es Ebase.
  assert (Hr : forall j, 0 <= j <= 11 -> region blob (extra_at base 11 j)).
  { intros j Hj. apply extra_region; [exact Hlen | exact Hb | exact Hl | exact Hj]. }
  change (length loop_field) with 11%nat in *.
  assert (E0 : drop (Z.to_nat base) blob = loop_field ++ drop 11 (drop (Z.to_nat base) blob))
    by (transitivity (take 11 (drop (Z.to_nat base) blob) ++ drop 11 (drop (Z.to_nat base) blob));
        [symmetry; apply take_drop | rewrite Ef; reflexivity]).
  assert (E1 : getVarint blob (extra_at base 11 0) = Ok (2, extra_at base 11 1)).
  { apply (getVarint_decodes blob (extra_at base 11 0) 2 (put (2 ^ 64 - 11) ++ drop 11 (drop (Z.to_nat base) blob)));
      [apply Hr; lia | lia | | cbn; lia]. unfold pending. cbn [extra_at m_data m_index]. rewrite Z.add_0_r. exact E0. }
  assert (E2 : getVarint blob (extra_at base 11 1) = Ok (2 ^ 64 - 11, extra_at base 11 11)).
  { apply (getVarint_decodes blob (extra_at base 11 1) (2 ^ 64 - 11) (drop 11 (drop (Z.to_nat base) blob)));
      [apply Hr; lia | lia | | vm_compute; discriminate]. unfold pending. cbn [extra_at m_data m_index].
    exact (ahead_next blob base [2] _ Hb E0). }
  induction n as [|n IH]; intros first t ar Eb Es Ebase; [reflexivity|]. cbn [parse_extra].
  rewrite (bind_done (number extraSize) _ t ar _ _ _ eq_refl), Es. cbn [extra_at m_index Z.ltb Z.compare].
  rewrite (bind_done (extra _) _ t ar (2, extra_at base 11 1) t ar) by (unfold extra, lift; rewrite Eb, E1; reflexivity).
  cbn [Z.eqb Pos.eqb]. unfold extra_field.
  set (t2 := with_span txExtraNonce (base + 11, 2 ^ 64 - 11) (with_offset TX_EXTRA_NONCE_OFFSET (to_u32 (base + 11)) t)).
  rewrite (bind_done _ _ t ar (extra_at base 11 0) t2 ar).
  - apply IH; [exact Eb | unfold t2; members; exact Es | unfold t2; members; exact Ebase].
  - rewrite (bind_done (extra _) _ t ar (2 ^ 64 - 11, extra_at base 11 11) t ar)
      by (unfold extra, lift; rewrite Eb, E2; reflexivity).
    rewrite (bind_done (offset _) _ t ar base t ar) by (unfold offset, get; rewrite Ebase; reflexivity).
    rewrite (bind_done (setOffset _ _) _ t ar tt _ ar eq_refl). reflexivity.
Qed.

Lemma loop_extra_runs n t i rest :
  here blob coin t i -> sizes_ok t (ar_at blob i) -> drop (Z.to_nat i) blob = put_string loop_field ++ rest ->
  parse_tx_extra wraps n t (ar_at blob i) = Runs.
Proof.
  intros Hh Hs E. unfold parse_tx_extra. unfold put_string in E. rewrite <- app_assoc in E.
  destruct (stage_done (read_varint extraSize) (read_varint extraSize)
    (fun _ t' i' => t' = with_number extraSize 11 t /\ drop (Z.to_nat i') blob = loop_field ++ rest) any t i)
    as ([] & t1 & i1 & E1 & H1 & S1 & -> & A1); [| exact Hs | |].
  { unfold read_varint. eapply agree_bind; [apply agree_varint | intros v Hv; apply agree_modify; intros; members; exact Hv]. }
  { unfold read_varint. apply wp_bind. eapply run_varint; [exact Hlen | exact Hh | | exact E|]; [change (Z.of_nat (length loop_field)) with 11; unfold u64; lia|].
    intros k _ E' Hh'. apply wp_modify; [exact Hh' | exact Hh' | split; [reflexivity | exact E']]. }
  rewrite (bind_done _ _ _ _ _ _ _ E1). rewrite (bind_done index _ _ _ _ _ _ eq_refl).
  rewrite (bind_done (setOffset _ _) _ _ _ tt _ _ eq_refl). cbn [ar_at m_index].
  rewrite (to_u32_index blob Hlen i1) by exact (proj2 (proj2 H1)).
  set (t2 := with_offset TX_EXTRA_OFFSET i1 _).
  assert (N2 : m_number t2 extraSize = 11) by (unfold t2; members; reflexivity).
  assert (O2 : m_offsets t2 TX_EXTRA_OFFSET = i1) by (unfold t2; members; reflexivity).
  rewrite (bind_done (number _) _ _ _ _ _ _ eq_refl), (bind_done (offset _) _ _ _ _ _ _ eq_refl), N2, O2.
  destruct (stage_done (ar_skip exact 11) (ar_skip wraps 11)
    (fun _ t' i' => t' = t2 /\ stands blob i1 loop_field) any t2 i1) as ([] & t3 & i3 & E3 & H3 & S3 & -> & A3);
    [apply agree_skip; lia | exact S1 | |].
  { eapply (run_skip blob coin Hlen _ loop_field); [exact H1 | exact A1 | reflexivity | intros Hst _; split; [reflexivity | exact Hst]]. }
  rewrite (bind_done _ _ _ _ _ _ _ E3). apply (loop_field_runs n true i1 t2 _ (proj1 H3) N2 O2 A3).
Qed.

End Looping.

Lemma no_outputs coin b : block_ok coin b -> zephyr coin = false -> b_outputs b = [].
Proof. unfold block_ok. intros Hb Hz. rewrite Hz in Hb. tauto. Qed.

(** A size of 2^64 - 11 in the extra field makes the index of the reader
    wrap to 0: the parser never returns from any such block, whatever its
    other fields. *)
Theorem crafted_extra_never_ends alloc n coin b rest t :
  block_ok coin b -> zephyr coin = false -> Z.of_nat (length (looping coin b rest)) < 2 ^ 32 -> 0 <= m_number t extraSize ->
  parse wraps alloc (S n) (looping coin b rest) coin false t = Running.
Proof.
  intros Hb Hz Hl Hs. set (blob := looping coin b rest) in *.
  assert (Hlen : kMinSize <= Z.of_nat (length blob) < 2 ^ 32)
    by (pose proof (header_length coin b (put_outputs coin b (put_string loop_field ++ rest)) Hb); unfold kMinSize, blob, looping in *; lia).
  assert (E0 : drop (Z.to_nat 0) blob = put_header coin b (put_begin coin b (put_outputs coin b (put_string loop_field ++ rest))))
    by reflexivity.
  assert (Hl' : Z.of_nat (length blob) < 2 ^ 32) by lia.
  set (t0 := with_blob blob coin t). rewrite parse_eq by exact Hlen. unfold parse_body. fold t0.
  change (MkBlobReader (Z.of_nat (length blob)) 0 0) with (ar_at blob 0).
  destruct (stage_done blob coin _ _
    (fun _ t' i' => drop (Z.to_nat i') blob = put_begin coin b (put_outputs coin b (put_string loop_field ++ rest)))
    _ t0 0 agree_header) as ([] & t1 & i1 & E1 & H1 & S1 & A1); [split; [cbn; lia | exact Hs] | |].
  { eapply run_header; [exact Hl' | exact Hb | apply here_start; lia | exact E0 | auto]. }
  destruct (stage_done blob coin _ _
    (fun _ t' i' => drop (Z.to_nat i') blob = put_outputs coin b (put_string loop_field ++ rest) /\ begin_read blob coin b t')
    _ t1 i1 agree_begin S1) as ([] & t2 & i2 & E2 & H2 & S2 & A2 & B2).
  { eapply (run_begin blob coin Hl' _ b []); [exact Hb | exact H1 | exact A1 | auto]. }
  destruct (stage_done blob coin _ _ (fun _ t' i' => drop (Z.to_nat i') blob = put_string loop_field ++ rest)
    _ t2 i2 (agree_outputs (S n)) S2) as ([] & t3 & i3 & E3 & H3 & S3 & A3).
  { eapply (run_outputs (S n) blob coin Hl' _ b []); [exact Hb | exact H2 | | exact B2 | exact A2 | auto].
    rewrite (no_outputs coin b Hb Hz). cbn. lia. }
  rewrite (bind_done _ _ _ _ _ _ _ E1), (bind_done _ _ _ _ _ _ _ E2), (bind_done _ _ _ _ _ _ _ E3).
  unfold mbind at 1, parser_bind at 1. rewrite (loop_extra_runs blob coin Hl' (S n) t3 i3 rest H3 S3 A3). reflexivity.
Qed.

Lemma crafted_extra_never_ends_witness :
  parse wraps (fun _ => true) 1000 (looping MONERO sample_block []) MONERO false new_template = Running.
Proof.
  apply (crafted_extra_never_ends (fun _ => true) 999 MONERO sample_block [] new_template sample_block_ok).
  - reflexivity.
  - vm_compute. reflexivity.
  - cbn. lia.
Defined.

(** ** Templates that leave the buffers *)

(** The template of [sample_block] with another extra field, and another count
    of hashes. *)
Definition with_extra (extra : list Z) : list Z :=
  put_header MONERO sample_block (put_begin MONERO sample_block (put_outputs MONERO sample_block extra)).

(** The size that wraps the index of [ar] to 0. *)
Definition wrapping_size : Z := 2 ^ 64 - (Z.of_nat (length (with_extra [])) + 10).

(** A short block without a key in its extra field. *)
Definition short_block : block :=
  MkBlock 16 16 100 (repeat 7 32) [1; 2; 3; 4] (repeat 0 64) [0; 0] (repeat 0 120) 2 60 100 2
    (MkOutput 6 (repeat 9 32) [] 0) [] [] (0, 0, 0) [].

(** The other checks that overflow: a size of the extra field that wraps
    the index lets the parser read past the template; a count of hashes that
    wraps the size of the buffer lets it write past the buffer; and a template
    without a key keeps the offset of the key of the one before, which may lie
    outside it. *)
Example overflows_leave_buffers alloc :
  parse wraps alloc 3 (with_extra (put wrapping_size ++ put 2 ++ put_string [0; 0])) MONERO false new_template =
    Fault ReadOutside /\
  parse wraps (fun n => n <? 2 ^ 40) 3 (with_extra (put_string [] ++ [0] ++ put (2 ^ 59 - 1))) MONERO true new_template =
    Fault WriteOutside /\
  (exists t1 t2, parse wraps alloc 3 (serialize MONERO sample_block) MONERO false new_template = Ok (true, t1) /\
     parse wraps alloc 3 (serialize MONERO short_block) MONERO false t1 = Ok (true, t2) /\
     read_mem (m_blob t2) (m_offsets t2 TX_PUBKEY_OFFSET) kKeySize = Fault ReadOutside).
Proof.
  split; [vm_compute; reflexivity | split; [vm_compute; reflexivity|]].
  do 2 eexists. split; [lazy; reflexivity|]. split; [lazy; reflexivity | vm_compute; reflexivity].
Qed.
