(* ===== verification/Umul128.v ===== *)
(** * The product of two 64-bit integers

    base/tools/cryptonote/umul128.h: the high and the low half of a product, by
    a 128-bit type where the compiler has one, and by four products of halves
    elsewhere.  The interface [Mul128] is what the decoding of addresses asks
    of either. *)

From S2P Require Import Prelude.
From S2P Require Import CInt.
From S2P Require Import BlobReader.

(** The low half, and the high one, which the code returns through a pointer. *)
Class Mul128 := {
  umul128 : Z -> Z -> Z * Z;
  umul128_ok : forall a b, u64 a -> u64 b -> umul128 a b = ((a * b) mod 2 ^ 64, a * b / 2 ^ 64)
}.

(** [unsigned __int128 r]; the product is below 2^128. *)
Definition umul128_int128 (a b : Z) : Z * Z :=
  let r := (a * b) mod 2 ^ 128 in
  (to_u64 r, to_u64 (Z.shiftr r 64)).

Definition umul128_portable (multiplier multiplicand : Z) : Z * Z :=
  let a := Z.shiftr multiplier 32 in
  let b := Z.land multiplier 0xFFFFFFFF in
  let c := Z.shiftr multiplicand 32 in
  let d := Z.land multiplicand 0xFFFFFFFF in
  let ad := to_u64 (a * d) in
  let bd := to_u64 (b * d) in
  let adbc := to_u64 (ad + to_u64 (b * c)) in
  let adbc_carry := if adbc <? ad then 1 else 0 in
  let product_lo := to_u64 (bd + to_u64 (Z.shiftl adbc 32)) in
  let product_lo_carry := if product_lo <? bd then 1 else 0 in
  let product_hi :=
    to_u64 (to_u64 (to_u64 (to_u64 (a * c) + Z.shiftr adbc 32) + to_u64 (Z.shiftl adbc_carry 32)) + product_lo_carry) in
  (product_lo, product_hi).

(** ** Both are the product *)

Lemma product_bound a b m n : 0 <= a < m -> 0 <= b < n -> 0 <= a * b <= (m - 1) * (n - 1).
Proof. intros Ha Hb. split; [apply Z.mul_nonneg_nonneg; lia | apply Z.mul_le_mono_nonneg; lia]. Qed.

Lemma umul128_int128_ok a b : u64 a -> u64 b -> umul128_int128 a b = ((a * b) mod 2 ^ 64, a * b / 2 ^ 64).
Proof.
  intros Ha Hb. pose proof (product_bound a b _ _ Ha Hb) as Hp. unfold umul128_int128, to_u64. cbv zeta.
  revert Hp. generalize (a * b). intros p Hp. rewrite Z.shiftr_div_pow2 by lia. rewrite (Z.mod_small p (2 ^ 128)) by lia.
  f_equal. apply Z.mod_small. split; [apply Z.div_pos; lia | apply Z.div_lt_upper_bound; lia].
Qed.

Lemma to_u64_range z : 0 <= to_u64 z < 2 ^ 64.
Proof. apply Z.mod_pos_bound. lia. Qed.

(** A sum of two words has wrapped exactly when it is below the first. *)
Lemma carry_out_ok x y : u64 x -> u64 y ->
  x + y = to_u64 (x + y) + 2 ^ 64 * (if to_u64 (x + y) <? x then 1 else 0).
Proof.
  unfold u64, to_u64. intros Hx Hy. pose proof (Z.div_mod (x + y) (2 ^ 64) ltac:(lia)) as E.
  assert (Hq : (x + y) / 2 ^ 64 = 0 \/ (x + y) / 2 ^ 64 = 1)
    by (assert (0 <= (x + y) / 2 ^ 64 < 2) by (split; [apply Z.div_pos | apply Z.div_lt_upper_bound]; lia); lia).
  change 18446744073709551616 with (2 ^ 64). destruct Hq as [Hq|Hq]; rewrite Hq in E;
    destruct (Z.ltb_spec ((x + y) mod 2 ^ 64) x); lia.
Qed.

Lemma half_split x : u64 x ->
  x = Z.shiftr x 32 * 2 ^ 32 + Z.land x 0xFFFFFFFF /\ 0 <= Z.shiftr x 32 < 2 ^ 32 /\ 0 <= Z.land x 0xFFFFFFFF < 2 ^ 32.
Proof.
  unfold u64. intros Hx. rewrite Z.shiftr_div_pow2 by lia. change 0xFFFFFFFF with (Z.ones 32). rewrite Z.land_ones by lia.
  pose proof (Z.div_mod x (2 ^ 32) ltac:(lia)). pose proof (Z.mod_pos_bound x (2 ^ 32) ltac:(lia)).
  split; [lia|]. split; [|lia]. split; [apply Z.div_pos; lia | apply Z.div_lt_upper_bound; lia].
Qed.

Lemma umul128_portable_ok x y : u64 x -> u64 y -> umul128_portable x y = ((x * y) mod 2 ^ 64, x * y / 2 ^ 64).
Proof.
  intros Hx Hy. unfold umul128_portable.
  destruct (half_split x Hx) as (Ex & Ha & Hb), (half_split y Hy) as (Ey & Hc & Hd).
  set (a := Z.shiftr x 32) in *. set (b := Z.land x _) in *. set (c := Z.shiftr y 32) in *. set (d := Z.land y _) in *.
  assert (E : x * y = a * c * 2 ^ 64 + (a * d + b * c) * 2 ^ 32 + b * d) by (rewrite Ex, Ey; ring).
  rewrite E. clearbody a b c d. clear x y Hx Hy Ex Ey E.
  pose proof (product_bound a d _ _ Ha Hd) as Bad. pose proof (product_bound b c _ _ Hb Hc) as Bbc.
  pose proof (product_bound b d _ _ Hb Hd) as Bbd. pose proof (product_bound a c _ _ Ha Hc) as Bac.
  revert Bad Bbc Bbd Bac. generalize (a * d) (b * c) (b * d) (a * c). intros ad bc bd ac Bad Bbc Bbd Bac. clear a b c d Ha Hb Hc Hd.
  rewrite !(to_u64_id ad), !(to_u64_id bc), !(to_u64_id bd), !(to_u64_id ac) by lia.
  pose proof (carry_out_ok ad bc ltac:(unfold u64; lia) ltac:(unfold u64; lia)) as E1.
  set (k1 := if _ <? ad then 1 else 0) in *. assert (H1 : 0 <= k1 <= 1) by (unfold k1; destruct (_ <? ad); lia).
  pose proof (to_u64_range (ad + bc)) as Bm.
  set (m := to_u64 (ad + bc)) in *. clearbody k1 m.
  rewrite Z.shiftl_mul_pow2, Z.shiftr_div_pow2, Z.shiftl_mul_pow2 by lia.
  pose proof (Z.div_mod m (2 ^ 32) ltac:(lia)) as Em. pose proof (Z.mod_pos_bound m (2 ^ 32) ltac:(lia)) as Br.
  assert (Bq : 0 <= m / 2 ^ 32 < 2 ^ 32) by (split; [apply Z.div_pos; lia | apply Z.div_lt_upper_bound; lia]).
  set (q := m / 2 ^ 32) in *. set (r := m mod 2 ^ 32) in *.
  assert (Es : to_u64 (m * 2 ^ 32) = r * 2 ^ 32).
  { unfold to_u64. symmetry. apply (Z.mod_unique _ _ q); lia. }
  rewrite Es. clearbody q r. clear Es.
  pose proof (carry_out_ok bd (r * 2 ^ 32) ltac:(unfold u64; lia) ltac:(unfold u64; lia)) as E2.
  set (k2 := if _ <? bd then 1 else 0) in *. assert (H2 : 0 <= k2 <= 1) by (unfold k2; destruct (_ <? bd); lia).
  pose proof (to_u64_range (bd + r * 2 ^ 32)) as Blo.
  set (lo := to_u64 (bd + r * 2 ^ 32)) in *. clearbody k2 lo.
  rewrite (to_u64_id (k1 * 2 ^ 32)) by lia.
  assert (Hhi : ac + q + k1 * 2 ^ 32 + k2 < 2 ^ 64) by lia.
  rewrite (to_u64_id (ac + q)), (to_u64_id (ac + q + k1 * 2 ^ 32)), (to_u64_id (ac + q + k1 * 2 ^ 32 + k2)) by lia.
  f_equal.
  - apply (Z.mod_unique _ _ (ac + q + k1 * 2 ^ 32 + k2)); lia.
  - apply (Z.div_unique _ _ _ lo); lia.
Qed.

#[export, refine] Instance mul128_int128 : Mul128 | 1 := { umul128 := umul128_int128 }.
Proof. exact umul128_int128_ok. Defined.

#[export, refine] Instance mul128_portable : Mul128 | 2 := { umul128 := umul128_portable }.
Proof. exact umul128_portable_ok. Defined.
