(* ===== verification/WalletAddress.v ===== *)
(** * Wallet addresses

    base/tools/cryptonote/WalletAddress.h and WalletAddress.cpp: the base58
    decoding of an address in blocks of eleven characters, the keys and the
    checksum in its bytes, and the table of the networks' tags.  Whether a char
    is signed depends on the platform: with a signed one the table of the digits
    is indexed by a negative number. *)

From Stdlib Require Ascii.
From stdpp Require Import strings.
From S2P Require Import Prelude.
From S2P Require Import CInt.
From S2P Require Import Bytes.
From S2P Require Import Sponge.
From S2P Require Import BlobReader.
From S2P Require Import BlockTemplate.
From S2P Require Import Umul128.

(** The characters of a literal. *)
Definition chars (s : string) : list Z :=
  map (fun c => Z.of_N (Ascii.N_of_ascii c)) (String.list_ascii_of_string s).
#[global] Arguments chars s%_string.

(** ** Data *)

Definition kMaxSize : Z := 256.
Definition kMinDataSize : Z := 69.
Definition kMinSize : Z := 95.

Inductive Net := MAINNET | TESTNET | STAGENET.
Inductive Type_ := PUBLIC | INTEGRATED | SUBADDRESS.

Record WalletAddress := MkWalletAddress {
  m_data : list Z;
  m_tag : Z;
  m_checksum : list Z;
  m_publicSpendKey : list Z;
  m_publicViewKey : list Z
}.

Definition new_address : WalletAddress := MkWalletAddress [] 0 (repeat 0 4) (repeat 0 32) (repeat 0 32).

Definition set_data (s : list Z) (w : WalletAddress) : WalletAddress :=
  MkWalletAddress s (m_tag w) (m_checksum w) (m_publicSpendKey w) (m_publicViewKey w).
Definition set_tag (t : Z) (w : WalletAddress) : WalletAddress :=
  MkWalletAddress (m_data w) t (m_checksum w) (m_publicSpendKey w) (m_publicViewKey w).
Definition set_checksum (c : list Z) (w : WalletAddress) : WalletAddress :=
  MkWalletAddress (m_data w) (m_tag w) c (m_publicSpendKey w) (m_publicViewKey w).
Definition set_spend_key (k : list Z) (w : WalletAddress) : WalletAddress :=
  MkWalletAddress (m_data w) (m_tag w) (m_checksum w) k (m_publicViewKey w).
Definition set_view_key (k : list Z) (w : WalletAddress) : WalletAddress :=
  MkWalletAddress (m_data w) (m_tag w) (m_checksum w) (m_publicSpendKey w) k.

Definition isValid (w : WalletAddress) : bool := (0 <? m_tag w) && (kMinSize <=? Z.of_nat (length (m_data w))).

(** ** The prefix of TOWNFORGE *)

(** [tf_tag] and the address after the prefix; [None]: the function returns
    false. *)
Definition tf_prefix (address : list Z) : option (Z * list Z) :=
  if (4 <=? length address)%nat && bool_decide (take 2 address = chars "TF") then
    let tf_tag := 0x424200 in
    version ← (if address !!! 2%nat =? 49 then Some 0 else if address !!! 2%nat =? 50 then Some 1 else None);
    net ← (if address !!! 3%nat =? 77 then Some 0
           else if address !!! 3%nat =? 84 then Some 0x10
           else if address !!! 3%nat =? 83 then Some 0x20 else None);
    Some (Z.lor (Z.lor tf_tag version) net, drop 4 address)
  else Some (0, address).

(** ** Base58 *)

Definition block_sizes : list nat := [0; 2; 3; 5; 6; 7; 9; 10; 11]%nat.
Definition full_block : nat := 11.
Definition alphabet : list Z := chars "123456789ABCDEFGHJKLMNPQRSTUVWXYZabcdefghijkmnopqrstuvwxyz".
Definition alphabet_size : Z := 58.

(** The table after [memset] and the loop over the alphabet. *)
Definition reverse_alphabet : list Z :=
  foldl (fun table i => <[Z.to_nat (alphabet !!! i) := Z.of_nat i]> table) (repeat (-1) 256) (seq 0 (length alphabet)).

(** The first index of [x] in [sizes]. *)
Fixpoint size_index (sizes : list nat) (x : nat) (i : nat) : option nat :=
  match sizes with
  | [] => None
  | s :: sizes => if (s =? x)%nat then Some i else size_index sizes x (S i)
  end.

Section Decode.
Context `{Mul128}.
Variable char_signed : bool.

(** [reverse_alphabet[static_cast<int>(c)]]. *)
Definition reverse_digit (c : Z) : result Z :=
  let i := if char_signed then to_i8 c else c in
  if i <? 0 then Fault ReadOutside
  else match reverse_alphabet !! Z.to_nat i with Some d => Ok d | None => Fault ReadOutside end.

(** The digits from [j - 1] down to 0; [Throws]: the function returns false. *)
Fixpoint decode_block (j : nat) (address_data : list Z) (num order : Z) : result Z :=
  match j with
  | O => Ok num
  | S j =>
      match address_data !! j with
      | None => Fault ReadOutside
      | Some c =>
          digit ← reverse_digit c;
          if digit <? 0 then Throws
          else
            let '(lo, hi) := umul128 order digit in
            let tmp := to_u64 (num + lo) in
            if (tmp <? num) || negb (hi =? 0) then Throws
            else decode_block j address_data tmp (to_u64 (order * alphabet_size))
      end
  end.

(** The bytes [p[n - 1], ..., p[0]] of [num]. *)
Definition emit (n : nat) (num : Z) : list Z := rev (take n (le_bytes 8 num)).

(** [full] full blocks and the last one. *)
Fixpoint decode_blocks (full last_block_size last_block_size_index : nat) (address_data data : list Z) :
    result (list Z) :=
  match full with
  | O =>
      num ← decode_block last_block_size address_data 0 1;
      Ok (data ++ emit last_block_size_index num)
  | S full =>
      num ← decode_block full_block address_data 0 1;
      decode_blocks full last_block_size last_block_size_index (drop full_block address_data) (data ++ emit 8 num)
  end.

Definition decode_base58 (address : list Z) : result (list Z) :=
  let size := Z.of_nat (length address) in
  if (size <? kMinSize) || (kMaxSize <? size) then Throws
  else
    let num_full_blocks := (length address / full_block)%nat in
    let last_block_size := (length address mod full_block)%nat in
    match size_index block_sizes last_block_size 0 with
    | None => Throws
    | Some last_block_size_index =>
        let data_size := Z.of_nat (num_full_blocks * 8 + last_block_size_index) in
        if data_size <? kMinDataSize then Throws
        else decode_blocks num_full_blocks last_block_size last_block_size_index address []
    end.

(** ** The members *)

(** An operand of [&&] in the condition; when it is false the tag is reset. *)
Definition and_then {A} (c : result (A * BlobReader)) (w : WalletAddress)
    (k : A -> BlobReader -> result (bool * WalletAddress)) : result (bool * WalletAddress) :=
  match c with
  | Ok (a, ar) => k a ar
  | Throws => Ok (false, set_tag 0 w)
  | Fault u => Fault u
  | Running => Running
  end.

Definition read_members (tf_tag : Z) (address data : list Z) (w : WalletAddress) : result (bool * WalletAddress) :=
  and_then (getVarint data (MkBlobReader (Z.of_nat (length data)) 0 0)) w (fun tag ar =>
  let w := set_tag tag w in
  and_then (read_array wraps data 32 ar) w (fun spend ar =>
  let w := set_spend_key spend w in
  and_then (read_array wraps data 32 ar) w (fun view ar =>
  let w := set_view_key view w in
  and_then (ar ← skip wraps (to_u64 (remaining ar - 4)) ar; Ok (tt, ar)) w (fun _ ar =>
  and_then (read_array wraps data 4 ar) w (fun checksum _ =>
  let w := set_checksum checksum w in
  match keccak (take (length data - 4) data) 200 with
  | None => Fault ReadOutside
  | Some md =>
      if bool_decide (checksum = take 4 md) then
        let w := set_data address w in
        Ok (true, if tf_tag =? 0 then w else set_tag tf_tag w)
      else Ok (false, set_tag 0 w)
  end))))).

(** [decode(const char *address, size_t size)]. *)
Definition decode (address : list Z) (w : WalletAddress) : result (bool * WalletAddress) :=
  match tf_prefix address with
  | None => Ok (false, w)
  | Some (tf_tag, address) =>
      match decode_base58 address with
      | Ok data => read_members tf_tag address data w
      | Throws => Ok (false, w)
      | Fault u => Fault u
      | Running => Running
      end
  end.

End Decode.

(** ** Networks *)

Record TagInfo := MkTagInfo { coin : Coin; net : Net; type : Type_; rpcPort : Z; zmqPort : Z }.

Definition dummy : TagInfo := MkTagInfo INVALID MAINNET PUBLIC 0 0.

Definition tags : list (Z * TagInfo) :=
  [ (0x12, MkTagInfo MONERO MAINNET PUBLIC 18081 18082);
    (0x13, MkTagInfo MONERO MAINNET INTEGRATED 18081 18082);
    (0x2a, MkTagInfo MONERO MAINNET SUBADDRESS 18081 18082);
    (0x35, MkTagInfo MONERO TESTNET PUBLIC 28081 28082);
    (0x36, MkTagInfo MONERO TESTNET INTEGRATED 28081 28082);
    (0x3f, MkTagInfo MONERO TESTNET SUBADDRESS 28081 28082);
    (0x18, MkTagInfo MONERO STAGENET PUBLIC 38081 38082);
    (0x19, MkTagInfo MONERO STAGENET INTEGRATED 38081 38082);
    (0x24, MkTagInfo MONERO STAGENET SUBADDRESS 38081 38082);
    (0x2bb39a, MkTagInfo SUMO MAINNET PUBLIC 19734 19735);
    (0x29339a, MkTagInfo SUMO MAINNET INTEGRATED 19734 19735);
    (0x8319a, MkTagInfo SUMO MAINNET SUBADDRESS 19734 19735);
    (0x37751a, MkTagInfo SUMO TESTNET PUBLIC 29734 29735);
    (0x34f51a, MkTagInfo SUMO TESTNET INTEGRATED 29734 29735);
    (0x1d351a, MkTagInfo SUMO TESTNET SUBADDRESS 29734 29735);
    (0x2cca, MkTagInfo ARQMA MAINNET PUBLIC 19994 19995);
    (0x116bc7, MkTagInfo ARQMA MAINNET INTEGRATED 19994 19995);
    (0x6847, MkTagInfo ARQMA MAINNET SUBADDRESS 19994 19995);
    (0x53ca, MkTagInfo ARQMA TESTNET PUBLIC 29994 29995);
    (0x504a, MkTagInfo ARQMA TESTNET INTEGRATED 29994 29995);
    (0x524a, MkTagInfo ARQMA TESTNET SUBADDRESS 29994 29995);
    (0x39ca, MkTagInfo ARQMA STAGENET PUBLIC 39994 39995);
    (0x1742ca, MkTagInfo ARQMA STAGENET INTEGRATED 39994 39995);
    (0x1d84ca, MkTagInfo ARQMA STAGENET SUBADDRESS 39994 39995);
    (0x1032, MkTagInfo WOWNERO MAINNET PUBLIC 34568 34569);
    (0x1a9a, MkTagInfo WOWNERO MAINNET INTEGRATED 34568 34569);
    (0x2fb0, MkTagInfo WOWNERO MAINNET SUBADDRESS 34568 34569);
    (0x5a, MkTagInfo GRAFT MAINNET PUBLIC 18981 18982);
    (0x5b, MkTagInfo GRAFT MAINNET INTEGRATED 18981 18982);
    (0x66, MkTagInfo GRAFT MAINNET SUBADDRESS 18981 18982);
    (0x54, MkTagInfo GRAFT TESTNET PUBLIC 28881 28882);
    (0x55, MkTagInfo GRAFT TESTNET INTEGRATED 28881 28882);
    (0x70, MkTagInfo GRAFT TESTNET SUBADDRESS 28881 28882);
    (0x424200, MkTagInfo TOWNFORGE MAINNET PUBLIC 18881 18882);
    (0x424201, MkTagInfo TOWNFORGE MAINNET SUBADDRESS 18881 18882);
    (0x424210, MkTagInfo TOWNFORGE TESTNET PUBLIC 28881 28882);
    (0x424211, MkTagInfo TOWNFORGE TESTNET SUBADDRESS 28881 28882);
    (0x424220, MkTagInfo TOWNFORGE STAGENET PUBLIC 38881 38882);
    (0x424221, MkTagInfo TOWNFORGE STAGENET SUBADDRESS 38881 38882) ].

(** The keys are distinct, so the order of the map does not matter. *)
Definition tagInfo (tag : Z) : TagInfo :=
  match List.find (fun p => fst p =? tag) tags with Some p => snd p | None => dummy end.

(** [netName] and [typeName] index a table with the enumerator. *)
Definition netName (w : WalletAddress) : string :=
  match net (tagInfo (m_tag w)) with MAINNET => "mainnet" | TESTNET => "testnet" | STAGENET => "stagenet" end%string.
Definition typeName (w : WalletAddress) : string :=
  match type (tagInfo (m_tag w)) with PUBLIC => "public" | INTEGRATED => "integrated" | SUBADDRESS => "subaddress" end%string.
