(* ===== verification/Base58.v ===== *)
(** * Base58 in blocks

    The specification of the encoding of addresses, eight bytes to eleven
    digits with a shorter last block, and the decoder of WalletAddress.v as the
    value of each block. *)

From stdpp Require Import strings.
From S2P Require Import Prelude.
From S2P Require Import CInt.
From S2P Require Import Bytes.
From S2P Require Import BlobReader.
From S2P Require Import Umul128.
From S2P Require Import WalletAddress.

(** ** Specification *)

(** The position of a character in the alphabet. *)
Definition digit_of (c : Z) : option Z :=
  (fun p => Z.of_nat (fst p)) <$> list_find (fun a => a = c) alphabet.

(** The number digits stand for, the first the most significant. *)
Definition value58 (s : list Z) : option Z :=
  foldl (fun acc c => v ← acc; d ← digit_of c; Some (58 * v + d)) (Some 0) s.

Definition be_bytes (n : nat) (v : Z) : list Z := rev (le_bytes n v).
Definition be_val (s : list Z) : Z := le_val (rev s).

(** A block of digits as [n] bytes: refused when it does not fit 64 bits, and
    cut to its last [n] bytes. *)
Definition block_bytes (n : nat) (s : list Z) : option (list Z) :=
  v ← value58 s; if v <? 2 ^ 64 then Some (be_bytes n v) else None.

Fixpoint blocks_bytes (full : nat) (n : nat) (s : list Z) : option (list Z) :=
  match full with
  | O => block_bytes n s
  | S full => a ← block_bytes 8 (take 11 s); b ← blocks_bytes full n (drop 11 s); Some (a ++ b)
  end.

(** The digits of [v], [k] of them. *)
Fixpoint digits (k : nat) (v : Z) : list Z :=
  match k with O => [] | S k => digits k (v / 58) ++ [alphabet !!! Z.to_nat (v mod 58)] end.

(** The number of digits of a block of [n] bytes. *)
Definition block_size (n : nat) : nat := block_sizes !!! n.

Definition encode_block (s : list Z) : list Z := digits (block_size (length s)) (be_val s).

Fixpoint encode_blocks (full : nat) (s : list Z) : list Z :=
  match full with
  | O => encode_block s
  | S full => encode_block (take 8 s) ++ encode_blocks full (drop 8 s)
  end.

Definition encode_base58 (s : list Z) : list Z := encode_blocks (length s / 8) s.

(** ** The digits *)

Definition is_ascii (c : Z) : Prop := 0 <= c < 128.

(** The characters a table indexed by a char is indexed in range for. *)
Definition indexable (char_signed : bool) (c : Z) : Prop := 0 <= c < if char_signed then 128 else 256.

Lemma reverse_digit_ok char_signed c :
  indexable char_signed c -> reverse_digit char_signed c = Ok (default (-1) (digit_of c)).
Proof.
  intros Hc. assert (Hb : 0 <= c < 256) by (unfold indexable in Hc; destruct char_signed; lia).
  assert (H : forallb (fun n => bool_decide (reverse_alphabet !! n = Some (default (-1) (digit_of (Z.of_nat n))))) (seq 0 256) = true)
    by eval_closed.
  pose proof (forallb_seq_spec _ _ H (Z.to_nat c) ltac:(lia)) as Hd. cbv beta in Hd.
  apply bool_decide_eq_true in Hd. rewrite Z2Nat.id in Hd by lia.
  assert (Ei : (if char_signed then to_i8 c else c) = c).
  { destruct char_signed; [|reflexivity]. unfold indexable in Hc. unfold to_i8. rewrite Z.mod_small; lia. }
  unfold reverse_digit. rewrite Ei, (proj2 (Z.ltb_ge _ _)), Hd by lia. reflexivity.
Qed.

Lemma digit_of_range c d : digit_of c = Some d -> 0 <= d < 58.
Proof.
  unfold digit_of. destruct (list_find _ alphabet) as [[i a]|] eqn:E; [|discriminate]. intros [= <-].
  apply list_find_Some in E as (E & _ & _). apply lookup_lt_Some in E. change (length alphabet) with 58%nat in E. cbn. lia.
Qed.

Lemma digit_of_nth d : 0 <= d < 58 -> digit_of (alphabet !!! Z.to_nat d) = Some d /\ is_ascii (alphabet !!! Z.to_nat d).
Proof.
  intros Hd.
  assert (H : forallb (fun n => bool_decide (digit_of (alphabet !!! n) = Some (Z.of_nat n)) &&
      (0 <=? alphabet !!! n) && (alphabet !!! n <? 128)) (seq 0 58) = true) by eval_closed.
  pose proof (forallb_seq_spec _ _ H (Z.to_nat d) ltac:(lia)) as Hn. cbv beta in Hn.
  apply andb_prop in Hn as [Hn H2]. apply andb_prop in Hn as [Hn H1]. apply bool_decide_eq_true in Hn.
  rewrite Z2Nat.id in Hn by lia. split; [exact Hn | unfold is_ascii; lia].
Qed.

Lemma value58_snoc s c : value58 (s ++ [c]) = (v ← value58 s; d ← digit_of c; Some (58 * v + d)).
Proof. unfold value58. rewrite foldl_app. reflexivity. Qed.

Lemma value58_range s v : value58 s = Some v -> 0 <= v < 58 ^ Z.of_nat (length s).
Proof.
  revert v. induction s as [|c s IH] using rev_ind; intros v.
  - intros [= <-]. cbn. lia.
  - rewrite value58_snoc. intros H. apply bind_inv in H as (u & Hu & H). apply bind_inv in H as (d & Hd & H).
    injection H as <-. apply IH in Hu. apply digit_of_range in Hd. rewrite length_app. cbn [length].
    rewrite Nat2Z.inj_add, Z.pow_add_r by lia. change (58 ^ Z.of_nat 1) with 58. lia.
Qed.

Lemma digits_length k v : length (digits k v) = k.
Proof. revert v. induction k as [|k IH]; intros v; [reflexivity|]. cbn [digits]. rewrite length_app, IH. cbn. lia. Qed.

Lemma digits_value k v : 0 <= v < 58 ^ Z.of_nat k -> value58 (digits k v) = Some v.
Proof.
  revert v. induction k as [|k IH]; intros v Hv.
  - cbn in Hv. cbn. f_equal. lia.
  - rewrite Nat2Z.inj_succ, Z.pow_succ_r in Hv by lia. cbn [digits]. rewrite value58_snoc, IH.
    + cbn [mbind option_bind]. rewrite (proj1 (digit_of_nth (v mod 58) (Z.mod_pos_bound v 58 eq_refl))).
      cbn [mbind option_bind]. f_equal. pose proof (Z.div_mod v 58). lia.
    + split; [apply Z.div_pos; lia | apply Z.div_lt_upper_bound; lia].
Qed.

Lemma digits_ascii k v : Forall is_ascii (digits k v).
Proof.
  revert v. induction k as [|k IH]; intros v; [constructor|]. cbn [digits]. apply Forall_app. split; [apply IH|].
  constructor; [|constructor]. apply digit_of_nth, Z.mod_pos_bound. lia.
Qed.

(** ** The bytes of a block *)

Lemma be_bytes_length n v : length (be_bytes n v) = n.
Proof. unfold be_bytes. rewrite length_rev. apply le_bytes_length. Qed.

Lemma be_bytes_bytes n v : is_bytes (be_bytes n v).
Proof. apply List.Forall_rev, le_bytes_bytes. Qed.

Lemma be_bytes_val s : is_bytes s -> be_bytes (length s) (be_val s) = s.
Proof.
  intros Hs. unfold be_bytes, be_val. rewrite <- (length_rev s), le_bytes_le_val by (apply List.Forall_rev, Hs). apply rev_involutive.
Qed.

Lemma be_val_range s : is_bytes s -> 0 <= be_val s < 2 ^ (8 * Z.of_nat (length s)).
Proof. intros Hs. unfold be_val. rewrite <- (length_rev s). apply le_val_range, List.Forall_rev, Hs. Qed.

Lemma take_le_bytes n m v : (n <= m)%nat -> take n (le_bytes m v) = le_bytes n v.
Proof.
  revert m v. induction n as [|n IH]; intros m v Hn; [reflexivity|].
  destruct m as [|m]; [lia|]. cbn [le_bytes take]. f_equal. apply IH. lia.
Qed.

Lemma emit_ok n v : (n <= 8)%nat -> emit n v = be_bytes n v.
Proof. intros Hn. unfold emit, be_bytes. rewrite take_le_bytes by exact Hn. reflexivity. Qed.

(** ** The decoder *)

Section Decoder.
Context `{Mul128}.
Variable char_signed : bool.

Lemma decode_block_ok j block num k :
  (j <= length block)%nat -> (j + k <= 11)%nat -> Forall (indexable char_signed) block ->
  0 <= num < 2 ^ 64 ->
  decode_block char_signed j block num (58 ^ Z.of_nat k) =
  match value58 (take j block) with
  | Some v => if num + 58 ^ Z.of_nat k * v <? 2 ^ 64 then Ok (num + 58 ^ Z.of_nat k * v) else Throws
  | None => Throws
  end.
Proof.
  revert num k. induction j as [|j IH]; intros num k Hj Hk Hc Hnum.
  { change (value58 (take 0 block)) with (Some 0). cbn [decode_block]. rewrite Z.mul_0_r, Z.add_0_r, (proj2 (Z.ltb_lt _ _)) by lia. reflexivity. }
  destruct (lookup_lt_is_Some_2 block j ltac:(lia)) as [c Ec].
  cbn [decode_block]. rewrite Ec. rewrite (take_S_r block j c Ec), value58_snoc.
  rewrite reverse_digit_ok by (eapply Forall_lookup_1; eassumption). cbn [mbind result_bind].
  destruct (digit_of c) as [d|] eqn:Ed; cbn [default from_option id]; [|destruct (value58 _); reflexivity].
  apply digit_of_range in Ed. rewrite (proj2 (Z.ltb_ge _ _)) by lia.
  set (o := 58 ^ Z.of_nat k).
  assert (Ho : 0 < o <= 58 ^ 10) by (unfold o; split; [apply Z.pow_pos_nonneg | apply Z.pow_le_mono_r]; lia).
  rewrite umul128_ok by (unfold u64; lia).
  assert (Hod : 0 <= o * d < 2 ^ 128) by nia.
  assert (IH' : num + o * d < 2 ^ 64 ->
    decode_block char_signed j block (to_u64 (num + (o * d) mod 2 ^ 64)) (to_u64 (o * alphabet_size)) =
    match value58 (take j block) with
    | Some v => if num + o * (58 * v + d) <? 2 ^ 64 then Ok (num + o * (58 * v + d)) else Throws
    | None => Throws
    end).
  { intros Hlt. rewrite (Z.mod_small (o * d)), to_u64_id by lia. destruct j as [|j'].
    - change (value58 (take 0 block)) with (Some 0). cbn [decode_block]. rewrite Z.mul_0_r, Z.add_0_l, (proj2 (Z.ltb_lt _ _)) by lia. reflexivity.
    - assert (E : to_u64 (o * alphabet_size) = 58 ^ Z.of_nat (S k)).
      { rewrite Nat2Z.inj_succ, Z.pow_succ_r by lia. fold o. rewrite Z.mul_comm. apply to_u64_id.
        assert (o <= 58 ^ 9) by (apply Z.pow_le_mono_r; lia). change alphabet_size with 58. lia. }
      rewrite E, IH by (lia || assumption). destruct (value58 (take (S j') block)) as [v|]; [|reflexivity].
      rewrite Nat2Z.inj_succ, Z.pow_succ_r by lia. fold o.
      replace (num + o * d + 58 * o * v) with (num + o * (58 * v + d)) by ring. reflexivity. }
  destruct (Z.ltb_spec (num + o * d) (2 ^ 64)) as [Hlt|Hge].
  - rewrite (Z.div_small (o * d)) by lia. cbn [Z.eqb negb]. rewrite orb_false_r.
    replace (to_u64 (num + (o * d) mod 2 ^ 64) <? num) with false; [rewrite IH' by exact Hlt; destruct (value58 _); reflexivity|].
    rewrite Z.mod_small, to_u64_id by lia. lia.
  - transitivity (@Throws Z); [|destruct (value58 (take j block)) as [v|] eqn:Ev; cbn [mbind option_bind]; [|reflexivity];
      apply value58_range in Ev; rewrite (proj2 (Z.ltb_ge _ _)) by nia; reflexivity].
    replace (_ || _) with true; [reflexivity|]. symmetry. apply orb_true_iff.
    destruct (Z_lt_le_dec (o * d) (2 ^ 64)) as [Hs|Hs]; [left | right].
    + rewrite (Z.mod_small (o * d)) by lia. unfold to_u64.
      rewrite <- (Z.mod_unique (num + o * d) 18446744073709551616 1 (num + o * d - 2 ^ 64)) by lia. lia.
    + apply negb_true_iff, Z.eqb_neq. pose proof (Z.div_le_lower_bound (o * d) (2 ^ 64) 1). lia.
Qed.

(** The code takes the blocks apart as the specification does. *)
Definition result_of {A} (c : option A) : result A := match c with Some a => Ok a | None => Throws end.

Lemma decode_block_bytes j block n :
  (j <= length block)%nat -> (j <= 11)%nat -> (n <= 8)%nat -> Forall (indexable char_signed) block ->
  (num ← decode_block char_signed j block 0 1; Ok (emit n num)) = result_of (block_bytes n (take j block)).
Proof.
  intros Hj Hj' Hn Hc. change 1 with (58 ^ Z.of_nat 0). rewrite decode_block_ok by (lia || assumption).
  unfold block_bytes. destruct (value58 (take j block)) as [v|]; [|reflexivity].
  change (58 ^ Z.of_nat 0) with 1. rewrite Z.mul_1_l, Z.add_0_l. cbn [mbind option_bind].
  destruct (v <? 2 ^ 64); [|reflexivity]. cbn [mbind result_bind result_of]. rewrite emit_ok by exact Hn. reflexivity.
Qed.

Lemma decode_blocks_ok full last n s data :
  length s = (11 * full + last)%nat -> (last < 11)%nat -> (n <= 8)%nat -> Forall (indexable char_signed) s ->
  decode_blocks char_signed full last n s data = result_of ((fun b => data ++ b) <$> blocks_bytes full n s).
Proof.
  revert s data. induction full as [|full IH]; intros s data Hl Hlast Hn Hc; cbn [decode_blocks blocks_bytes].
  - pose proof (decode_block_bytes last s n ltac:(lia) ltac:(lia) Hn Hc) as E. rewrite take_ge in E by lia.
    destruct (decode_block _ _ _ _ _) as [num| | |], (block_bytes n s) as [b|]; try discriminate; [|reflexivity].
    injection E as <-. reflexivity.
  - pose proof (decode_block_bytes 11 s 8 ltac:(lia) ltac:(lia) ltac:(lia) Hc) as E. change 11%nat with full_block in E at 1.
    destruct (decode_block _ _ _ _ _) as [num| | |], (block_bytes 8 (take 11 s)) as [b|]; try discriminate; [|reflexivity].
    injection E as <-. cbn [mbind result_bind option_bind].
    change (drop full_block s) with (drop 11 s).
    rewrite IH; [| rewrite length_drop; lia | exact Hlast | exact Hn | apply Forall_drop, Hc].
    destruct (blocks_bytes full n (drop 11 s)); [|reflexivity]. cbn. rewrite <- app_assoc. reflexivity.
Qed.

End Decoder.

(** ** Whole strings *)

Definition base58_bytes (s : list Z) : option (list Z) :=
  if (Z.of_nat (length s) <? kMinSize) || (kMaxSize <? Z.of_nat (length s)) then None
  else
    n ← size_index block_sizes (length s mod 11) 0;
    if Z.of_nat (length s / 11 * 8 + n) <? kMinDataSize then None else blocks_bytes (length s / 11) n s.

Lemma size_index_lt j n : (j < 11)%nat -> size_index block_sizes j 0 = Some n -> (n < 8)%nat /\ block_size n = j.
Proof.
  intros Hj. do 11 (destruct j as [|j]; [cbn; intros E; first [discriminate | injection E as <-; split; [lia | reflexivity]]|]). lia.
Qed.

Lemma size_index_size n : (n < 8)%nat -> size_index block_sizes (block_size n) 0 = Some n /\ (block_size n < 11)%nat.
Proof. intros Hn. do 8 (destruct n as [|n]; [split; [reflexivity | apply Nat.ltb_lt; reflexivity]|]). lia. Qed.

Lemma decode_base58_ok `{Mul128} char_signed s :
  Forall (indexable char_signed) s -> decode_base58 char_signed s = result_of (base58_bytes s).
Proof.
  intros Hc. unfold decode_base58, base58_bytes, full_block. cbv zeta.
  destruct (_ || _); [reflexivity|]. pose proof (Nat.mod_upper_bound (length s) 11 ltac:(lia)) as Hm.
  destruct (size_index _ _ _) as [n|] eqn:En; [|reflexivity]. cbn [mbind option_bind].
  destruct (_ <? _); [reflexivity|].
  rewrite decode_blocks_ok; [destruct (blocks_bytes _ _ _); reflexivity | | exact Hm | | exact Hc].
  - apply Nat.div_mod. lia.
  - apply size_index_lt in En; [lia | exact Hm].
Qed.

Lemma blocks_bytes_bytes full n s b : blocks_bytes full n s = Some b -> is_bytes b /\ length b = (8 * full + n)%nat.
Proof.
  assert (Hb : forall m t c, block_bytes m t = Some c -> is_bytes c /\ length c = m).
  { intros m t c E. apply bind_inv in E as (v & _ & E). destruct (v <? 2 ^ 64); [|discriminate].
    injection E as <-. split; [apply be_bytes_bytes | apply be_bytes_length]. }
  revert s b. induction full as [|full IH]; intros s b; cbn [blocks_bytes]; intros E.
  - destruct (Hb _ _ _ E) as [H1 H2]. split; [exact H1 | lia].
  - apply bind_inv in E as (c & Ec & E). apply bind_inv in E as (d & Ed & E). injection E as <-.
    destruct (Hb _ _ _ Ec) as [H1 H2], (IH _ _ Ed) as [H3 H4].
    split; [apply Forall_app; auto | rewrite length_app; lia].
Qed.

Lemma base58_bytes_ok s b :
  base58_bytes s = Some b -> is_bytes b /\ (69 <= length b <= 192)%nat /\ 95 <= Z.of_nat (length s) <= 256.
Proof.
  unfold base58_bytes, kMinSize, kMaxSize, kMinDataSize. destruct (Z.ltb_spec (Z.of_nat (length s)) 95); [discriminate|].
  destruct (Z.ltb_spec 256 (Z.of_nat (length s))); [discriminate|]. cbn [orb]. intros E.
  apply bind_inv in E as (n & En & E). destruct (Z.ltb_spec (Z.of_nat (length s / 11 * 8 + n)) 69) as [|Hd]; [discriminate|].
  destruct (blocks_bytes_bytes _ _ _ _ E) as [H1 H2]. apply size_index_lt in En as [En _]; [|apply Nat.mod_upper_bound; lia].
  pose proof (Nat.Div0.div_le_mono (length s) 256 11 ltac:(lia)) as Hm. change (256 / 11)%nat with 23%nat in Hm.
  split; [exact H1|]. split; lia.
Qed.

(** ** The encoding is decoded *)

Lemma encode_block_bytes s : is_bytes s -> (length s <= 8)%nat -> block_bytes (length s) (encode_block s) = Some s.
Proof.
  intros Hs Hl. pose proof (be_val_range s Hs) as Hr.
  assert (H : forallb (fun n => (2 ^ (8 * Z.of_nat n) <=? 58 ^ Z.of_nat (block_size n)) && (2 ^ (8 * Z.of_nat n) <=? 2 ^ 64))
    (seq 0 9) = true) by eval_closed.
  pose proof (forallb_seq_spec _ _ H (length s) ltac:(lia)) as Hn. cbv beta in Hn. apply andb_prop in Hn as [H1 H2].
  unfold block_bytes, encode_block. rewrite digits_value by lia. cbn [mbind option_bind].
  rewrite (proj2 (Z.ltb_lt _ _)), be_bytes_val by (assumption || lia). reflexivity.
Qed.

Lemma encode_block_length s : length (encode_block s) = block_size (length s).
Proof. apply digits_length. Qed.

Lemma encode_blocks_bytes full s n :
  is_bytes s -> length s = (8 * full + n)%nat -> (n < 8)%nat -> blocks_bytes full n (encode_blocks full s) = Some s.
Proof.
  revert s. induction full as [|full IH]; intros s Hs Hl Hn; cbn [blocks_bytes encode_blocks].
  - replace n with (length s) by lia. apply encode_block_bytes; [exact Hs | lia].
  - assert (Ht : length (take 8 s) = 8%nat) by (rewrite length_take; lia).
    assert (Hb : length (encode_block (take 8 s)) = 11%nat) by (rewrite encode_block_length, Ht; reflexivity).
    rewrite take_app_length', drop_app_length' by (symmetry; exact Hb).
    rewrite <- Ht at 1. rewrite encode_block_bytes by (try apply Forall_take; (exact Hs || lia)).
    rewrite IH; [| apply Forall_drop, Hs | rewrite length_drop; lia | exact Hn]. cbn [mbind option_bind].
    rewrite take_drop. reflexivity.
Qed.

Lemma encode_blocks_length full s n :
  length s = (8 * full + n)%nat -> length (encode_blocks full s) = (11 * full + block_size n)%nat.
Proof.
  revert s. induction full as [|full IH]; intros s Hl; cbn [encode_blocks].
  - rewrite encode_block_length, Hl. reflexivity.
  - rewrite length_app, encode_block_length, length_take, (IH (drop 8 s)) by (rewrite length_drop; lia).
    rewrite Nat.min_l by lia. change (block_size 8) with 11%nat. lia.
Qed.

Lemma encode_base58_ascii s : Forall is_ascii (encode_base58 s).
Proof.
  unfold encode_base58. generalize (length s / 8)%nat as full. intros full. revert s.
  induction full as [|full IH]; intros s; cbn [encode_blocks]; [apply digits_ascii|].
  apply Forall_app. split; [apply digits_ascii | apply IH].
Qed.

Lemma base58_encode s : is_bytes s -> (69 <= length s <= 186)%nat -> base58_bytes (encode_base58 s) = Some s.
Proof.
  intros Hs Hl. set (full := (length s / 8)%nat). set (n := (length s mod 8)%nat).
  pose proof (Nat.div_mod (length s) 8 ltac:(lia)) as E. fold full n in E.
  pose proof (Nat.mod_upper_bound (length s) 8 ltac:(lia)) as Hn. fold n in Hn.
  destruct (size_index_size n Hn) as [Ei Hb]. pose proof (encode_blocks_length full s n E) as El.
  fold full in El. change (encode_blocks full s) with (encode_base58 s) in El.
  assert (Hr : (95 <= length (encode_base58 s) <= 256)%nat).
  { rewrite El. assert (Hc : forallb (fun l => (95 <=? 11 * (l / 8) + block_size (l mod 8)) && (11 * (l / 8) + block_size (l mod 8) <=? 256))%nat
      (map (Nat.add 69) (seq 0 118)) = true) by eval_closed.
    rewrite forallb_forall in Hc. specialize (Hc (length s)). rewrite in_map_iff in Hc.
    destruct (andb_prop _ _ (Hc ltac:(exists (length s - 69)%nat; split; [lia | apply in_seq; lia]))) as [H1 H2].
    fold full n in H1, H2. apply Nat.leb_le in H1, H2. lia. }
  unfold base58_bytes, kMinSize, kMaxSize, kMinDataSize.
  rewrite (proj2 (Z.ltb_ge _ _)), (proj2 (Z.ltb_ge _ _)) by lia. cbn [orb].
  assert (Em : (length (encode_base58 s) mod 11 = block_size n)%nat) by (rewrite El, Nat.mul_comm, Nat.add_comm, Nat.Div0.mod_add, Nat.mod_small; lia).
  assert (Ed : (length (encode_base58 s) / 11 = full)%nat) by (rewrite El; symmetry; apply (Nat.div_unique _ _ _ (block_size n)); lia).
  rewrite Em, Ed, Ei. cbn [mbind option_bind]. rewrite (proj2 (Z.ltb_ge _ _)) by lia.
  apply encode_blocks_bytes; [exact Hs | exact E | exact Hn].
Qed.
