(* ===== verification/WalletSpec.v ===== *)
(** * Wallet addresses: the properties

    Which strings [decode] accepts and what it leaves in the members on every
    branch, the round trip with the encoding, and the strings it should not
    accept or should not read. *)

From stdpp Require Import strings.
From S2P Require Import Prelude.
From S2P Require Import CInt.
From S2P Require Import Bytes.
From S2P Require Import Sponge.
From S2P Require Import KeccakDigest.
From S2P Require Import BlobReader.
From S2P Require Import BlockTemplate.
From S2P Require Import Umul128.
From S2P Require Import WalletAddress.
From S2P Require Import Base58.

(** ** The members *)

(** The first four bytes of the Keccak digest. *)
Definition checksum (s : list Z) : list Z := take 4 (sponge 17 1 s 32).

Lemma checksum_bytes s : bytes_of 4 (checksum s).
Proof.
  destruct (sponge_bytes 17 1 s 32 ltac:(lia)) as [Hb Hl]. split; [apply Forall_take, Hb|].
  unfold checksum. rewrite length_take. lia.
Qed.

Lemma checksum_200 s : is_bytes s -> exists md, keccak s 200 = Some md /\ take 4 md = checksum s.
Proof.
  intros Hs. exists (sponge 17 1 s 200). split; [apply (keccak_ok s 200 17); [exact Hs | lia | lia | reflexivity]|].
  unfold checksum, sponge. destruct (absorb _ _ _) as [st pos]. rewrite !take_take. reflexivity.
Qed.

Definition key_at (k : Z) (data : list Z) : list Z := take 32 (drop (Z.to_nat k) data).

(** What the members become, from the tag and the place after it. *)
Definition members (tf_tag : Z) (address data : list Z) (tag k : Z) (w : WalletAddress) : bool * WalletAddress :=
  let len := Z.of_nat (length data) in
  if k + 64 <=? len then
    let sum := drop (length data - 4) data in
    if bool_decide (sum = checksum (take (length data - 4) data))
    then (true, MkWalletAddress address (if tf_tag =? 0 then tag else tf_tag) sum (key_at k data) (key_at (k + 32) data))
    else (false, MkWalletAddress (m_data w) 0 sum (key_at k data) (key_at (k + 32) data))
  else if k + 32 <=? len
  then (false, set_tag 0 (set_spend_key (key_at k data) w))
  else (false, set_tag 0 w).

Lemma wraps_small i n size : 0 <= i + n < 2 ^ 64 -> wraps i n size = exact i n size.
Proof. intros H. unfold wraps, exact. rewrite to_u64_id by exact H. reflexivity. Qed.

Lemma read_array_wraps mem r n :
  region mem r -> 0 <= n <= 2 ^ 10 ->
  read_array wraps mem n r = (if m_index r + n <=? m_size r then Ok (take (Z.to_nat n) (pending mem r), advance r n) else Throws).
Proof.
  intros Hr Hn. rewrite <- read_array_exact by (assumption || lia). unfold read_array.
  rewrite wraps_small by (unfold region in Hr; lia). reflexivity.
Qed.

Section Members.
Variable data : list Z.
Hypothesis Hdata : is_bytes data.
Hypothesis Hlen : 4 <= Z.of_nat (length data) < 2 ^ 63.
Notation len := (Z.of_nat (length data)).
Notation start := (MkBlobReader len 0 0).

Lemma start_region : region data start.
Proof. unfold region. cbn. lia. Qed.

Lemma at_region k : 0 <= k <= len -> region data (MkBlobReader len 0 k).
Proof. unfold region. cbn. lia. Qed.

Lemma read_at n k : 0 <= k <= len -> 0 <= n <= 2 ^ 10 ->
  read_array wraps data n (MkBlobReader len 0 k) =
  (if k + n <=? len then Ok (take (Z.to_nat n) (drop (Z.to_nat k) data), MkBlobReader len 0 (k + n)) else Throws).
Proof. intros Hk Hn. rewrite read_array_wraps by (apply at_region, Hk || exact Hn). reflexivity. Qed.

(** Skipping all but the last four bytes goes back when fewer are left. *)
Lemma skip_to_end k : 0 <= k <= len ->
  skip wraps (to_u64 (remaining (MkBlobReader len 0 k) - 4)) (MkBlobReader len 0 k) = Ok (MkBlobReader len 0 (len - 4)).
Proof.
  intros Hk. unfold skip, remaining, wraps. cbn [m_index m_size]. rewrite (to_u64_id (len - k)) by lia.
  assert (E : to_u64 (k + to_u64 (len - k - 4)) = len - 4).
  { unfold to_u64. rewrite Z.add_mod_idemp_r by lia. replace (k + (len - k - 4)) with (len - 4) by lia. apply Z.mod_small. lia. }
  rewrite E, (proj2 (Z.ltb_ge _ _)) by lia. reflexivity.
Qed.

Lemma read_members_ok tf_tag address w :
  match getVarint data start with
  | Ok (tag, ar) => read_members tf_tag address data w = Ok (members tf_tag address data tag (m_index ar) w)
  | Throws => read_members tf_tag address data w = Ok (false, set_tag 0 w)
  | Fault u => u = OverlongShift /\ read_members tf_tag address data w = Fault u
  | Running => False
  end.
Proof.
  unfold read_members. destruct (getVarint_cases data start start_region) as [(tag & k & E & _ & Hk & Hk') | [E|E]];
    rewrite E; [|reflexivity | split; reflexivity].
  cbn [m_index m_size advance set_index BlobReader.m_data] in *. rewrite Z.add_0_l in *. unfold members.
  change (advance start k) with (MkBlobReader len 0 k).
  cbn [and_then]. rewrite read_at by lia. destruct (Z.leb_spec (k + 32) len) as [H1|H1]; cbn [and_then];
    [|rewrite (proj2 (Z.leb_gt _ _)) by lia; reflexivity].
  rewrite read_at by lia. replace (k + 32 + 32) with (k + 64) by lia.
  destruct (Z.leb_spec (k + 64) len) as [H2|H2]; cbn [and_then]; [|reflexivity].
  rewrite skip_to_end by lia. cbn [mbind result_bind and_then].
  rewrite read_at by lia. rewrite (proj2 (Z.leb_le _ _)) by lia. cbn [and_then].
  replace (Z.to_nat (len - 4)) with (length data - 4)%nat by lia.
  rewrite (take_ge (drop (length data - 4) data)) by (rewrite length_drop; lia).
  destruct (checksum_200 (take (length data - 4) data)) as (md & -> & Em); [apply Forall_take, Hdata|].
  rewrite Em. case_bool_decide; [|reflexivity]. destruct (tf_tag =? 0); reflexivity.
Qed.

End Members.

(** ** The decoder *)

Notation start data := (MkBlobReader (Z.of_nat (length data)) 0 0).

(** The result as a function of the bytes of the address. *)
Definition decoded (address : list Z) (w : WalletAddress) : result (bool * WalletAddress) :=
  match tf_prefix address with
  | None => Ok (false, w)
  | Some (tf_tag, a) =>
      match base58_bytes a with
      | None => Ok (false, w)
      | Some data =>
          match getVarint data (start data) with
          | Ok (tag, ar) => Ok (members tf_tag a data tag (m_index ar) w)
          | Throws => Ok (false, set_tag 0 w)
          | Fault u => Fault u
          | Running => Running
          end
      end
  end.

Lemma tf_prefix_suffix address tf_tag a : tf_prefix address = Some (tf_tag, a) -> exists n, a = drop n address.
Proof.
  unfold tf_prefix. destruct (_ && _); [|intros [= _ <-]; exists 0%nat; reflexivity].
  intros E. apply bind_inv in E as (v & _ & E). apply bind_inv in E as (n & _ & E). injection E as _ <-. exists 4%nat. reflexivity.
Qed.

Lemma decode_decoded `{Mul128} char_signed address w :
  Forall (indexable char_signed) address -> decode char_signed address w = decoded address w.
Proof.
  intros Hc. unfold decode, decoded. destruct (tf_prefix address) as [[tf_tag a]|] eqn:Ea; [|reflexivity].
  destruct (tf_prefix_suffix _ _ _ Ea) as [n ->]. rewrite decode_base58_ok by (apply Forall_drop, Hc).
  destruct (base58_bytes _) as [data|] eqn:Ed; [|reflexivity]. destruct (base58_bytes_ok _ _ Ed) as (Hb & Hl & Hs).
  cbn [result_of]. pose proof (read_members_ok data Hb ltac:(lia) tf_tag (drop n address) w) as E.
  destruct (getVarint data (start data)) as [[tag ar]| |u|]; [exact E | exact E | exact (proj2 E) | contradiction].
Qed.

(** ** Well-formed members *)

Definition wallet_ok (w : WalletAddress) : Prop :=
  u64 (m_tag w) /\ bytes_of 4 (m_checksum w) /\ bytes_of 32 (m_publicSpendKey w) /\ bytes_of 32 (m_publicViewKey w).

Lemma key_at_bytes data k : is_bytes data -> 0 <= k -> k + 32 <= Z.of_nat (length data) -> bytes_of 32 (key_at k data).
Proof.
  intros Hd Hk Hl. unfold key_at. split; [apply Forall_take, Forall_drop, Hd|]. rewrite length_take, length_drop. lia.
Qed.

Lemma last_bytes data n : is_bytes data -> (n <= length data)%nat -> bytes_of n (drop (length data - n) data).
Proof. intros Hd Hl. split; [apply Forall_drop, Hd | rewrite length_drop; lia]. Qed.

Lemma members_ok tf_tag a data tag k w :
  is_bytes data -> (4 <= length data)%nat -> 0 <= k -> u64 tag -> u64 tf_tag -> wallet_ok w -> wallet_ok (snd (members tf_tag a data tag k w)).
Proof.
  intros Hd Hl Hk Ht Htf (H1 & H2 & H3 & H4). assert (H0 : u64 0) by (unfold u64; lia).
  unfold members. destruct (Z.leb_spec (k + 64) (Z.of_nat (length data))).
  - pose proof (key_at_bytes data k Hd Hk ltac:(lia)). pose proof (key_at_bytes data (k + 32) Hd ltac:(lia) ltac:(lia)).
    pose proof (last_bytes data 4 Hd Hl). unfold wallet_ok. case_bool_decide; [destruct (tf_tag =? 0)|]; cbn; tauto.
  - destruct (Z.leb_spec (k + 32) (Z.of_nat (length data))); [|exact (conj H0 (conj H2 (conj H3 H4)))].
    exact (conj H0 (conj H2 (conj (key_at_bytes data k Hd Hk ltac:(lia)) H4))).
Qed.

Lemma tf_prefix_tag address tf_tag a : tf_prefix address = Some (tf_tag, a) -> u64 tf_tag.
Proof.
  assert (H0 : u64 0) by (unfold u64; lia). unfold tf_prefix. destruct (_ && _); [|intros [= <- _]; exact H0].
  destruct (_ =? 49); [|destruct (_ =? 50); [|discriminate]]; cbn [mbind option_bind];
    (destruct (_ =? 77); [|destruct (_ =? 84); [|destruct (_ =? 83); [|discriminate]]]); cbn [mbind option_bind];
    intros [= <- _]; split; (discriminate || reflexivity).
Qed.

(** ** Strings that do not start with the prefix *)

Lemma digits_head k v :
  digits (S k) v = alphabet !!! Z.to_nat ((v / 58 ^ Z.of_nat k) mod 58) :: digits k v.
Proof.
  revert v. induction k as [|k IH]; intros v; [cbn [digits]; rewrite Z.div_1_r; reflexivity|].
  change (digits (S (S k)) v) with (digits (S k) (v / 58) ++ [alphabet !!! Z.to_nat (v mod 58)]). rewrite IH.
  rewrite Z.div_div by (try apply Z.pow_pos_nonneg; lia). rewrite <- Z.pow_succ_r, <- Nat2Z.inj_succ by lia. reflexivity.
Qed.

Lemma be_val_cons b s : be_val (b :: s) = be_val s + 2 ^ (8 * Z.of_nat (length s)) * b.
Proof. unfold be_val. cbn [rev]. rewrite le_val_app, length_rev. cbn [le_val]. lia. Qed.

(** The characters of the first block that start with T have first bytes from
    155 to 161. *)
Lemma encode_first b s :
  is_bytes (b :: s) -> (7 <= length s)%nat -> ~ 155 <= b <= 161 -> hd 0 (encode_base58 (b :: s)) <> 84.
Proof.
  intros Hs Hl Hb. inversion_clear Hs as [|? ? Hb' Hs']. unfold is_byte in Hb'.
  assert (Ef : exists full, (length (b :: s) / 8)%nat = S full).
  { exists (pred (length (b :: s) / 8)). pose proof (Nat.Div0.div_le_mono 8 (length (b :: s)) 8 ltac:(cbn [length]; lia)) as H.
    change (8 / 8)%nat with 1%nat in H. lia. }
  destruct Ef as [full Ef]. unfold encode_base58. rewrite Ef. cbn [encode_blocks take drop].
  assert (Ht : length (take 7 s) = 7%nat) by (rewrite length_take; lia).
  unfold encode_block. cbn [length]. rewrite Ht. change (block_size 8) with 11%nat. rewrite digits_head. cbn [hd app].
  pose proof (be_val_range (take 7 s) (Forall_take _ _ _ Hs')) as Hr. rewrite Ht in Hr. change (8 * Z.of_nat 7) with 56 in Hr.
  rewrite be_val_cons, Ht. change (8 * Z.of_nat 7) with 56. set (r := be_val _) in *. change (Z.of_nat 10) with 10.
  assert (Hq : 0 <= (r + 2 ^ 56 * b) / 58 ^ 10 < 43) by (split; [apply Z.div_pos | apply Z.div_lt_upper_bound]; lia).
  assert (Hn : (r + 2 ^ 56 * b) / 58 ^ 10 <> 26).
  { intros E. pose proof (Z.div_mod (r + 2 ^ 56 * b) (58 ^ 10) ltac:(lia)) as E2. rewrite E in E2.
    pose proof (Z.mod_pos_bound (r + 2 ^ 56 * b) (58 ^ 10) ltac:(lia)). lia. }
  rewrite Z.mod_small by lia. revert Hq Hn. generalize ((r + 2 ^ 56 * b) / 58 ^ 10). intros q Hq Hn E.
  pose proof (digit_of_nth q ltac:(lia)) as [Hd _]. rewrite E in Hd. injection Hd as Hd. lia.
Qed.

(** ** The properties *)

Lemma valid_unless_zero w : 0 <= m_tag w -> 95 <= Z.of_nat (length (m_data w)) -> isValid w = negb (m_tag w =? 0).
Proof.
  intros Ht Hl. unfold isValid, kMinSize. rewrite (proj2 (Z.leb_le _ _) Hl), andb_true_r.
  destruct (Z.ltb_spec 0 (m_tag w)), (Z.eqb_spec (m_tag w) 0); lia || reflexivity.
Qed.

(** C26: on characters inside its table of digits [decode] is undefined only
    for an overlong tag, and otherwise returns with well-formed members.  It
    succeeds exactly on the base58 encodings of a tag, two keys and, at the end,
    the checksum of all that precedes, and then holds these and is valid unless
    its tag is 0.  When it refuses, the string is kept, and either no member has
    changed (an address valid before stays valid) or the address is invalid. *)
Theorem decode_accepts `{Mul128} char_signed address w :
  Forall (indexable char_signed) address -> wallet_ok w ->
  (decode char_signed address w = Fault OverlongShift \/
   exists b w', decode char_signed address w = Ok (b, w') /\ wallet_ok w' /\
     if b : bool then isValid w' = negb (m_tag w' =? 0)
     else m_data w' = m_data w /\ (w' = w \/ isValid w' = false)) /\
  forall w', decode char_signed address w = Ok (true, w') <->
    exists tf_tag a data tag k, tf_prefix address = Some (tf_tag, a) /\ base58_bytes a = Some data /\
      getVarint data (start data) = Ok (tag, advance (start data) k) /\ k + 64 <= Z.of_nat (length data) /\
      drop (length data - 4) data = checksum (take (length data - 4) data) /\
      w' = MkWalletAddress a (if tf_tag =? 0 then tag else tf_tag) (drop (length data - 4) data)
             (key_at k data) (key_at (k + 32) data).
Proof.
  intros Hc Hw. assert (H0 : u64 0) by (unfold u64; lia). rewrite decode_decoded by exact Hc. unfold decoded.
  destruct (tf_prefix address) as [[tf_tag a]|] eqn:Ea;
    [|split; [right; exists false, w; auto | intros w'; split; [discriminate | intros (? & ? & ? & ? & ? & E & _); discriminate E]]].
  destruct (base58_bytes a) as [data|] eqn:Ed;
    [|split; [right; exists false, w; auto |
       intros w'; split; [discriminate | intros (? & ? & ? & ? & ? & [= <- <-] & E & _); congruence]]].
  destruct (base58_bytes_ok _ _ Ed) as (Hb & Hl & Hsz & _). pose proof (tf_prefix_tag _ _ _ Ea) as Htf.
  destruct (getVarint_cases data (start data) (start_region data ltac:(lia))) as [(tag & k & Ev & Ht & Hk & Hk') | [Ev|Ev]]; rewrite Ev.
  - cbn [m_index advance set_index BlobReader.m_data m_size] in *. rewrite Z.add_0_l in *.
    pose proof (members_ok tf_tag a data tag k w Hb ltac:(lia) ltac:(lia) Ht Htf Hw) as Hok. split.
    + right. destruct (members _ _ _ _ _ _) as [b w'] eqn:Em. exists b, w'. split; [reflexivity|]. split; [exact Hok|].
      destruct b; [apply valid_unless_zero; [apply Hok|] | split; [|right]].
      all: unfold members in Em; repeat (case_match; try discriminate); injection Em as <-; try reflexivity; exact Hsz.
    + intros w'. split.
      * unfold members. destruct (Z.leb_spec (k + 64) (Z.of_nat (length data))); [|case_match; discriminate].
        case_bool_decide as Hsum; [|discriminate]. intros [= <-]. exists tf_tag, a, data, tag, k. auto 10.
      * intros (tf' & a' & data' & tag' & k' & [= <- <-] & Ed' & Ev' & Hk2 & Hsum & ->).
        assert (data' = data) as -> by congruence. rewrite Ev in Ev'. injection Ev' as <- Ek.
        assert (k' = k) as -> by lia. unfold members. rewrite (proj2 (Z.leb_le _ _) Hk2), bool_decide_eq_true_2 by exact Hsum.
        reflexivity.
  - split; [right; exists false, (set_tag 0 w); split; [reflexivity|]; split; [exact (conj H0 (proj2 Hw)) | split; [reflexivity | right; reflexivity]]|].
    intros w'. split; [discriminate | intros (? & ? & ? & ? & ? & [= <- <-] & Ed' & Ev' & _); congruence].
  - split; [left; reflexivity|].
    intros w'. split; [discriminate | intros (? & ? & ? & ? & ? & [= <- <-] & Ed' & Ev' & _); congruence].
Qed.

(** An address as pools get them. *)
Definition sample_address : list Z :=
  chars "44AFFq5kSiGBoZ4NMDwYtN18obc8AemS33DBLWs3H7otXft3XjrpDtQGv7SqSsaBYBb98uNbr2VBBEt7f2wfn3RVGQBEP3A".

(** What the program reads in it. *)
Definition sample_wallet : WalletAddress :=
  MkWalletAddress sample_address 18 [126; 196; 167; 93]
    [66; 241; 143; 198; 21; 134; 85; 64; 149; 176; 121; 155; 92; 75; 111; 0;
     205; 235; 38; 169; 59; 32; 84; 13; 54; 105; 50; 198; 0; 22; 23; 183]
    [93; 179; 81; 9; 251; 186; 125; 95; 39; 95; 239; 75; 156; 73; 224; 204;
     28; 132; 178; 25; 236; 111; 246; 82; 253; 165; 79; 137; 247; 246; 60; 136].

Lemma indexable_ascii char_signed s : Forall is_ascii s -> Forall (indexable char_signed) s.
Proof. intros Hs. apply (Forall_impl _ _ _ Hs). unfold is_ascii, indexable. intros c Hc. destruct char_signed; lia. Qed.

Lemma new_address_ok : wallet_ok new_address.
Proof. repeat split; try (apply (bool_decide_unpack _); vm_compute; exact I); cbn; lia. Qed.

(** The address of two keys and what follows them, a payment id or nothing. *)
Definition address_body (tag : Z) (spend view payment : list Z) : list Z := put tag ++ spend ++ view ++ payment.
Definition address_of (tag : Z) (spend view payment : list Z) : list Z :=
  let body := address_body tag spend view payment in encode_base58 (body ++ checksum body).

Lemma decode_address_of `{Mul128} char_signed p tf_tag tag spend view payment w :
  tf_prefix (p ++ address_of tag spend view payment) = Some (tf_tag, address_of tag spend view payment) ->
  Forall is_ascii p -> u64 tag -> bytes_of 32 spend -> bytes_of 32 view -> is_bytes payment ->
  (1 <= length payment + length (put tag) <= 118)%nat ->
  decode char_signed (p ++ address_of tag spend view payment) w =
  Ok (true, MkWalletAddress (address_of tag spend view payment) (if tf_tag =? 0 then tag else tf_tag)
              (checksum (address_body tag spend view payment)) spend view).
Proof.
  intros Hp Hpa Ht [Hs Ls] [Hv Lv] Hpay Hl. set (a := address_of tag spend view payment) in *.
  set (body := address_body tag spend view payment) in *. destruct (checksum_bytes body) as [Hc Lc].
  assert (Hbody : is_bytes body).
  { unfold body, address_body. repeat (apply Forall_app; split); try assumption. apply varint_bytes. apply Ht. }
  assert (Lbody : length body = (length (put tag) + 64 + length payment)%nat)
    by (unfold body, address_body; rewrite !length_app; lia).
  rewrite decode_decoded by (apply indexable_ascii, Forall_app; split; [exact Hpa | apply encode_base58_ascii]).
  unfold decoded. rewrite Hp. unfold a at 1, address_of. fold body.
  rewrite base58_encode by (try (apply Forall_app; auto); rewrite length_app; lia).
  set (data := body ++ checksum body). assert (Ldata : length data = (length body + 4)%nat) by (unfold data; rewrite length_app; lia).
  assert (Ev : getVarint data (start data) = Ok (tag, advance (start data) (Z.of_nat (length (put tag))))).
  { apply (getVarint_decodes data (start data) tag (spend ++ view ++ payment ++ checksum body)); [apply start_region; lia | exact Ht | | cbn [m_index m_size]; fold (put tag); lia].
    unfold data, body, address_body, pending. cbn [BlobReader.m_data m_index Z.add Z.to_nat drop]. rewrite <- !app_assoc. reflexivity. }
  rewrite Ev. cbn [m_index advance set_index]. rewrite Z.add_0_l. unfold members.
  rewrite (proj2 (Z.leb_le _ _)) by lia.
  assert (Eb : take (length data - 4) data = body) by (unfold data; rewrite take_app_length'; [reflexivity | rewrite length_app; lia]).
  assert (Ec : drop (length data - 4) data = checksum body) by (unfold data; rewrite drop_app_length'; [reflexivity | rewrite length_app; lia]).
  rewrite Eb, Ec, bool_decide_eq_true_2 by reflexivity. fold a. repeat f_equal.
  - unfold key_at, data, body, address_body. rewrite Nat2Z.id, <- !app_assoc, drop_app_length, <- Ls, take_app_length. reflexivity.
  - unfold key_at, data, body, address_body. replace (Z.to_nat (Z.of_nat (length (put tag)) + 32)) with (length (put tag ++ spend))
      by (rewrite length_app; lia).
    rewrite <- !app_assoc, (app_assoc (put tag)), drop_app_length, <- Lv, take_app_length. reflexivity.
Qed.

(** No tag of the table but those of TOWNFORGE makes an address that starts
    with T. *)
Lemma tags_first tag info : (tag, info) ∈ tags ->
  u64 tag /\ (1 <= length (put tag) <= 4)%nat /\ (coin info <> TOWNFORGE -> ~ 155 <= hd 0 (put tag) <= 161) /\ tagInfo tag = info.
Proof.
  assert (H : Forall (fun p => (0 <= p.1 < 2 ^ 64 /\ (1 <= length (put p.1) <= 4)%nat /\
    (bool_decide (coin p.2 = TOWNFORGE) = true \/ ~ 155 <= hd 0 (put p.1) <= 161))) tags).
  { apply (bool_decide_unpack _). vm_compute. exact I. }
  assert (H2 : Forall (fun p => tagInfo p.1 = p.2) tags) by (repeat constructor).
  intros Hin. rewrite Forall_forall in H, H2. destruct (H _ Hin) as (H3 & H4 & H5).
  split; [exact H3|]. split; [exact H4|]. split; [|exact (H2 _ Hin)].
  intros Hn. destruct H5 as [H5|H5]; [apply bool_decide_eq_true in H5; contradiction | exact H5].
Qed.

Lemma no_prefix s : hd 0 s <> 84 -> tf_prefix s = Some (0, s).
Proof.
  intros Hs. unfold tf_prefix. rewrite bool_decide_eq_false_2, andb_false_r; [reflexivity|].
  destruct s as [|c s]; [discriminate|]. intros [= -> _]. apply Hs. reflexivity.
Qed.

Lemma prefix_app p tf_tag s : length p = 4%nat -> tf_tag <> 0 -> tf_prefix p = Some (tf_tag, []) -> tf_prefix (p ++ s) = Some (tf_tag, s).
Proof.
  intros Hl Hnz. destruct p as [|c1 [|c2 [|c3 [|c4 [|]]]]]; try discriminate. unfold tf_prefix. cbn [length app Nat.leb take lookup_total list_lookup_total drop andb].
  destruct (bool_decide _); [|intros [= _ E]; discriminate E]. intros E. apply bind_inv in E as (v & Ev & E).
  rewrite (bind_Some_eq _ _ _ Ev). apply bind_inv in E as (n & En & E). rewrite (bind_Some_eq _ _ _ En).
  injection E as <-. reflexivity.
Qed.

Lemma address_prefix tag info spend view payment :
  (tag, info) ∈ tags -> coin info <> TOWNFORGE -> bytes_of 32 spend -> bytes_of 32 view -> is_bytes payment ->
  tf_prefix (address_of tag spend view payment) = Some (0, address_of tag spend view payment).
Proof.
  intros Hin Hcoin [Hs Ls] [Hv Lv] Hp. destruct (tags_first tag info Hin) as (Ht & Hlt & Hf & _). specialize (Hf Hcoin).
  apply no_prefix. unfold address_of, address_body. destruct (put tag) as [|b s] eqn:E; [cbn in Hlt; lia|].
  apply (encode_first b); [| rewrite !length_app; lia | exact Hf].
  pose proof (checksum_bytes ((b :: s) ++ spend ++ view ++ payment)) as [Hc _].
  assert (Hb : is_bytes (b :: s)) by (rewrite <- E; apply varint_bytes, Ht).
  change (is_bytes (((b :: s) ++ spend ++ view ++ payment) ++ checksum ((b :: s) ++ spend ++ view ++ payment))).
  repeat (apply Forall_app; split); assumption.
Qed.

Lemma decode_own_address `{Mul128} char_signed tag info spend view payment w :
  (tag, info) ∈ tags -> coin info <> TOWNFORGE -> bytes_of 32 spend -> bytes_of 32 view -> is_bytes payment ->
  (length payment <= 114)%nat ->
  decode char_signed (address_of tag spend view payment) w =
  Ok (true, MkWalletAddress (address_of tag spend view payment) tag (checksum (address_body tag spend view payment)) spend view).
Proof.
  intros Hin Hcoin Hs Hv Hp Hl. destruct (tags_first tag info Hin) as (Ht & Hlt & _).
  apply (decode_address_of char_signed [] 0); try assumption; [|constructor | lia].
  exact (address_prefix tag info spend view payment Hin Hcoin Hs Hv Hp).
Qed.

(** C25: the address of any keys under any tag of the table is decoded to the
    tag, the keys and the checksum it was made of, whatever follows the keys up
    to 114 bytes, and names its network; those of TOWNFORGE stand behind a
    prefix: the tag is then the one of the prefix, and the string kept is the
    one without it. *)
Theorem address_roundtrip `{Mul128} char_signed tag info spend view payment w :
  (tag, info) ∈ tags -> bytes_of 32 spend -> bytes_of 32 view -> is_bytes payment -> (length payment <= 114)%nat ->
  let a := address_of tag spend view payment in
  let sum := checksum (address_body tag spend view payment) in
  (coin info <> TOWNFORGE -> decode char_signed a w = Ok (true, MkWalletAddress a tag sum spend view)) /\
  tagInfo tag = info /\
  forall p tf_tag, length p = 4%nat -> tf_tag <> 0 -> tf_prefix p = Some (tf_tag, []) -> Forall is_ascii p ->
    decode char_signed (p ++ a) w = Ok (true, MkWalletAddress a tf_tag sum spend view).
Proof.
  intros Hin Hs Hv Hp Hl a sum. destruct (tags_first tag info Hin) as (Ht & Hlt & _ & Ei). split; [|split; [exact Ei|]].
  - intros Hcoin. exact (decode_own_address char_signed tag info spend view payment w Hin Hcoin Hs Hv Hp Hl).
  - intros p tf_tag Lp Hnz Hp4 Hpa. unfold a, sum. rewrite (decode_address_of char_signed p tf_tag) by (assumption || lia || apply prefix_app; assumption).
    rewrite (proj2 (Z.eqb_neq _ _) Hnz). reflexivity.
Qed.

(** ** Second spellings *)

Lemma blocks_bytes_last full n s t t' :
  length s = (11 * full)%nat -> block_bytes n t = block_bytes n t' -> blocks_bytes full n (s ++ t) = blocks_bytes full n (s ++ t').
Proof.
  revert s. induction full as [|full IH]; intros s Hl E; cbn [blocks_bytes].
  - destruct s; [exact E | discriminate].
  - rewrite !take_app_le, !drop_app_le, (IH (drop 11 s)) by (rewrite ?length_drop; lia || exact E). reflexivity.
Qed.

Lemma blocks_bytes_value full n s t b :
  length s = (11 * full)%nat -> blocks_bytes full n (s ++ t) = Some b -> is_Some (value58 t).
Proof.
  revert s b. induction full as [|full IH]; intros s b Hl; cbn [blocks_bytes].
  - destruct s; [|discriminate]. intros E. apply bind_inv in E as (v & E & _). exists v. exact E.
  - rewrite drop_app_le by lia. intros E. apply bind_inv in E as (c & _ & E). apply bind_inv in E as (d & E & _).
    apply (IH (drop 11 s) d); [rewrite length_drop; lia | exact E].
Qed.

(** Adding or subtracting 2^40 changes the last seven digits and not their five
    bytes. *)
Lemma respell_block t v :
  length t = 7%nat -> value58 t = Some v ->
  exists t', length t' = 7%nat /\ Forall is_ascii t' /\ t' <> t /\ block_bytes 5 t' = block_bytes 5 t.
Proof.
  intros Hl Hv. pose proof (value58_range t v Hv) as Hr. rewrite Hl in Hr.
  set (v' := if v <? 2 ^ 40 then v + 2 ^ 40 else v - 2 ^ 40).
  assert (Hv' : 0 <= v' < 58 ^ Z.of_nat 7 /\ v' <> v /\ v' mod 2 ^ 40 = v mod 2 ^ 40).
  { unfold v'. destruct (Z.ltb_spec v (2 ^ 40)).
    - split; [lia|]. split; [lia|]. rewrite <- (Z.mul_1_l (2 ^ 40)) at 1. apply Z.mod_add. lia.
    - split; [lia|]. split; [lia|]. replace (v - 2 ^ 40) with (v + (-1) * 2 ^ 40) by ring. apply Z.mod_add. lia. }
  destruct Hv' as (H1 & H2 & H3). exists (digits 7 v'). split; [apply digits_length|]. split; [apply digits_ascii|].
  pose proof (digits_value 7 v' H1) as Ed. split; [intros E; congruence|].
  unfold block_bytes. rewrite Ed, Hv. cbn [mbind option_bind]. rewrite !(proj2 (Z.ltb_lt _ _)) by lia.
  unfold be_bytes. rewrite (le_bytes_mod 5 v' v H3). reflexivity.
Qed.

(** The last block of an address is not checked to be canonical, so every
    accepted address of the standard length has another spelling that is
    accepted with the same tag, keys and checksum. *)
Theorem addresses_respelled `{Mul128} char_signed s w w' :
  Forall (indexable char_signed) s -> length s = 95%nat -> take 2 s <> chars "TF" ->
  decode char_signed s w = Ok (true, w') ->
  exists s', s' <> s /\ length s' = 95%nat /\ decode char_signed s' w = Ok (true, set_data s' w').
Proof.
  intros Hs Hl Hp. assert (Hpre : forall x, take 2 x <> chars "TF" -> tf_prefix x = Some (0, x)).
  { intros x Hx. unfold tf_prefix. rewrite bool_decide_eq_false_2, andb_false_r by exact Hx. reflexivity. }
  rewrite decode_decoded by exact Hs. unfold decoded. rewrite (Hpre s Hp).
  destruct (base58_bytes s) as [data|] eqn:Ed; [|discriminate].
  assert (Hb58 : forall x, length x = 95%nat -> base58_bytes x = blocks_bytes 8 5 x)
    by (intros x Hx; unfold base58_bytes; rewrite Hx; reflexivity).
  assert (La : length (take 88 s) = (11 * 8)%nat) by (rewrite length_take; lia).
  pose proof Ed as Ed1. rewrite (Hb58 s Hl) in Ed. rewrite <- (take_drop 88 s) in Ed.
  destruct (blocks_bytes_value 8 5 _ _ _ La Ed) as [v Hv].
  destruct (respell_block (drop 88 s) v) as (t' & Lt' & Hat' & Ht' & Eb); [rewrite length_drop; lia | exact Hv|].
  set (s' := take 88 s ++ t'). assert (Ls' : length s' = 95%nat) by (unfold s'; rewrite length_app; lia).
  assert (Ed' : base58_bytes s' = Some data) by (rewrite (Hb58 s' Ls'), <- Ed; apply blocks_bytes_last; [exact La | exact Eb]).
  intros E. exists s'. split; [|split; [exact Ls'|]].
  - intros E'. apply Ht'. rewrite <- E' at 1. unfold s'. rewrite drop_app_length' by lia. reflexivity.
  - rewrite decode_decoded by (apply Forall_app; split; [apply Forall_take, Hs | apply indexable_ascii, Hat']).
    unfold decoded. rewrite Hpre, Ed' by (unfold s'; rewrite take_app_le, take_take by lia; exact Hp).
    destruct (getVarint data (start data)) as [[tag ar]| | |]; try discriminate. injection E as E. f_equal.
    unfold members in *. destruct (_ <=? _); [|case_match; discriminate].
    case_bool_decide; [|discriminate]. injection E as <-. reflexivity.
Qed.

(** ** Characters outside the table *)

(** A character from 128 on, here at the end of the first block, is a
    negative index into the table of the digits where char is signed; where it
    is not, the address is refused. *)
Theorem signed_char_reads_outside `{Mul128} s w c n :
  95 <= Z.of_nat (length s) <= 256 -> size_index block_sizes (length s mod 11) 0 = Some n ->
  69 <= Z.of_nat (length s / 11 * 8 + n) -> take 2 s <> chars "TF" -> s !! 10%nat = Some c -> 128 <= c < 256 ->
  decode true s w = Fault ReadOutside /\ decode false s w = Ok (false, w).
Proof.
  intros Hl Hn Hd Hp Hc Hr.
  assert (Ep : tf_prefix s = Some (0, s)) by (unfold tf_prefix; rewrite bool_decide_eq_false_2, andb_false_r by exact Hp; reflexivity).
  pose proof (Nat.Div0.div_le_mono 11 (length s) 11 ltac:(lia)) as Hf. change (11 / 11)%nat with 1%nat in Hf.
  unfold decode. rewrite Ep. unfold decode_base58, full_block, kMinSize, kMaxSize, kMinDataSize. cbv zeta.
  rewrite !(proj2 (Z.ltb_ge _ _)), Hn, !(proj2 (Z.ltb_ge _ _)) by lia. cbn [orb].
  destruct (length s / 11)%nat as [|full]; [lia|]. cbn [decode_blocks]. unfold full_block. cbn [decode_block]. rewrite Hc.
  assert (Hi : to_i8 c = c - 256) by (unfold to_i8; rewrite <- (Z.mod_unique (c + 128) 256 1 (c - 128)); lia).
  unfold reverse_digit. rewrite Hi, (proj2 (Z.ltb_lt _ _)), (proj2 (Z.ltb_ge _ _)) by lia. split; [reflexivity|].
  assert (H0 : forallb (fun n => bool_decide (reverse_alphabet !! n = Some (-1))) (seq 128 128) = true) by eval_closed.
  rewrite forallb_forall in H0. specialize (H0 (Z.to_nat c)). rewrite in_seq in H0.
  apply bool_decide_eq_true in H0; [|lia]. rewrite H0. reflexivity.
Qed.

(** ** Witnesses *)

Lemma decode_accepts_witness :
  let H := mul128_portable in
  (decode true sample_address new_address = Fault OverlongShift \/
   exists b w', decode true sample_address new_address = Ok (b, w') /\ wallet_ok w' /\
     if b : bool then isValid w' = negb (m_tag w' =? 0)
     else m_data w' = m_data new_address /\ (w' = new_address \/ isValid w' = false)) /\
  decode true sample_address new_address = Ok (true, sample_wallet).
Proof.
  destruct (@decode_accepts mul128_portable true sample_address new_address) as [H1 _];
    [apply indexable_ascii; apply (bool_decide_unpack _); vm_compute; exact I | exact new_address_ok|].
  split; [exact H1|]. vm_compute. reflexivity.
Defined.

Lemma address_roundtrip_witness :
  let H := mul128_int128 in
  let a := address_of 0x12 (repeat 7 32) (repeat 9 32) [] in
  let sum := checksum (address_body 0x12 (repeat 7 32) (repeat 9 32) []) in
  (MONERO <> TOWNFORGE -> decode true a new_address = Ok (true, MkWalletAddress a 0x12 sum (repeat 7 32) (repeat 9 32))) /\
  tagInfo 0x12 = MkTagInfo MONERO MAINNET PUBLIC 18081 18082 /\
  forall p tf_tag, length p = 4%nat -> tf_tag <> 0 -> tf_prefix p = Some (tf_tag, []) -> Forall is_ascii p ->
    decode true (p ++ a) new_address = Ok (true, MkWalletAddress a tf_tag sum (repeat 7 32) (repeat 9 32)).
Proof.
  apply (@address_roundtrip mul128_int128 true 0x12 (MkTagInfo MONERO MAINNET PUBLIC 18081 18082) (repeat 7 32) (repeat 9 32) [] new_address).
  - left.
  - split; [apply (bool_decide_unpack _); vm_compute; exact I | reflexivity].
  - split; [apply (bool_decide_unpack _); vm_compute; exact I | reflexivity].
  - constructor.
  - apply Nat.leb_le. reflexivity.
Defined.

Lemma addresses_respelled_witness :
  let H := mul128_portable in
  exists s', s' <> sample_address /\ length s' = 95%nat /\
    decode true s' new_address = Ok (true, set_data s' sample_wallet).
Proof.
  apply (@addresses_respelled mul128_portable true sample_address new_address sample_wallet);
    [| reflexivity | discriminate | vm_compute; reflexivity].
  apply indexable_ascii. apply (bool_decide_unpack _). vm_compute. exact I.
Defined.

Lemma signed_char_reads_outside_witness :
  let H := mul128_portable in let s := repeat 200 95 in
  decode true s new_address = Fault ReadOutside /\ decode false s new_address = Ok (false, new_address).
Proof.
  apply (@signed_char_reads_outside mul128_portable (repeat 200 95) new_address 200 5); try reflexivity; try discriminate; cbn; lia.
Defined.
