(* ===== verification/MinerSignature.v ===== *)
(** * The signature of the miner

    Blocks of WOWNERO carry a signature by the one-time key their reward goes
    to.  parseJob of base/net/stratum/DaemonClient.cpp derives that key from the
    template, the wallet's address and its secret key; Job::generateMinerSignature
    (base/net/stratum/Job.cpp) signs a blob, RandomX workers
    (backend/cpu/CpuWorker.cpp) sign every blob they hash, and submit of
    DaemonClient.cpp writes nonce and signature into the template. *)

From stdpp Require Import functions.
From S2P Require Import Prelude.
From S2P Require Import CInt.
From S2P Require Import Bytes.
From S2P Require Import Cvt.
From S2P Require Import Signatures.
From S2P Require Import BlobReader.
From S2P Require Import BlockTemplate.
From S2P Require Import Umul128.
From S2P Require Import WalletAddress.
From S2P Require Import Job.

(** ** The keys *)

(** What [parseJob] reports, in the order of its tests. *)
Inductive job_error :=
  | SpendKeyNotSet | SpendKeyLength | SpendKeyHex | SpendKeyInvalid | ViewKeyInvalid
  | NoDerivation | InvalidAddress | SpendKeyMismatch | ViewKeyMismatch.

(** The members of a [Job] that [setEphemeralKeys] sets. *)
Record ephemeral := Ephemeral { m_ephPublicKey : list Z; m_ephSecretKey : list Z }.

Section MinerSignature.
Context `{Digest32} `{Mul128}.
Variable char_signed : bool.

(** A step that is undefined where the option is [None]. *)
Definition need {A} (c : option A) : result A := match c with Some a => Ok a | None => Fault ReadOutside end.

Definition blob_at (t : BlockTemplate) (o : Offset) (n : Z) : result (list Z) := read_mem (BlockTemplate.m_blob t) (m_offsets t o) n.

(** The branch of [parseJob] for templates with a signature: an error, or the
    keys given to the job, with the address decoded by the way.  [buf] is the
    memory of [secret_spendkey]. *)
Definition derive_keys (t : BlockTemplate) (spendSecretKey user buf : list Z) (w : WalletAddress) :
    result ((job_error + ephemeral) * WalletAddress) :=
  let jobError e w := Ok (inl e, w) in
  if (length spendSecretKey =? 0)%nat then jobError SpendKeyNotSet w
  else if negb (length spendSecretKey =? 64)%nat then jobError SpendKeyLength w
  else
    let '(secret_spendkey, ok) := fromHex_into buf (take 64 spendSecretKey) in
    if negb ok then jobError SpendKeyHex w
    else
      public_spendkey ← need (secret_key_to_public_key secret_spendkey);
      match public_spendkey with
      | None => jobError SpendKeyInvalid w
      | Some public_spendkey =>
          secret_viewkey ← need (derive_view_secret_key secret_spendkey);
          public_viewkey ← need (secret_key_to_public_key secret_viewkey);
          match public_viewkey with
          | None => jobError ViewKeyInvalid w
          | Some public_viewkey =>
              pubkey ← blob_at t TX_PUBKEY_OFFSET 32;
              derivation ← need (generate_key_derivation pubkey secret_viewkey false);
              match derivation with
              | None => jobError NoDerivation w
              | Some (derivation, _) =>
                  p ← decode char_signed user w; let '(ok, w) := p in
                  if negb ok then jobError InvalidAddress w
                  else if negb (bool_decide (m_publicSpendKey w = public_spendkey)) then jobError SpendKeyMismatch w
                  else if negb (bool_decide (m_publicViewKey w = public_viewkey)) then jobError ViewKeyMismatch w
                  else
                    eph_secret_key ← need (derive_secret_key derivation 0 secret_spendkey);
                    eph_public_key ← blob_at t EPH_PUBLIC_KEY_OFFSET 32;
                    Ok (inr (Ephemeral eph_public_key eph_secret_key), w)
              end
          end
      end.

(** [None] in the job: it has no miner signature. *)
Definition parse_job_keys (t : BlockTemplate) (spendSecretKey user buf : list Z) (w : WalletAddress) :
    result ((job_error + option ephemeral) * WalletAddress) :=
  if hasMinerSignature t then
    p ← derive_keys t spendSecretKey user buf w;
    Ok (match p.1 with inl e => inl e | inr k => inr (Some k) end, p.2)
  else Ok (inr None, w).

(** ** The signature *)

Definition sig_offset (job : Job) : nat := (nonceOffset job + nonceSize job)%nat.

(** [tmp] after [memcpy] and [memset]; [None] if the blob does not fit it. *)
Definition without_signature (job : Job) (tmp blob : list Z) (size : nat) : option (list Z) :=
  if ((length tmp <? size) || (length blob <? size) || (length tmp <? sig_offset job + 64))%nat then None
  else
    let tmp := memcpy tmp 0 (take size blob) in
    Some (memcpy tmp (sig_offset job) (repeat 0 64)).

(** [tmp] is the array of [kMaxBlobSize] bytes, [out_sig] what the output
    holds before. *)
Definition generateMinerSignature (job : Job) (keys : ephemeral) (tmp blob : list Z) (size : nat)
    (draws : list (list Z)) (out_sig : signature) : option signature :=
  tmp ← without_signature job tmp blob size;
  prefix_hash ← digest (take size tmp);
  generate_signature draws prefix_hash (m_ephPublicKey keys) (m_ephSecretKey keys) out_sig.

(** ** The worker *)

(** The 64 bytes at [miner_signature_ptr], which is also the output. *)
Definition signature_bytes (job : Job) (blob : list Z) : list Z := take 64 (drop (sig_offset job) blob).
Definition signature_of (bytes : list Z) : signature := Sig (take 32 bytes) (drop 32 bytes).

Definition sign_blob (job : Job) (keys : option ephemeral) (tmp blob : list Z) (draws : list (list Z)) :
    option (list Z) :=
  match keys with
  | None => Some blob
  | Some keys =>
      sig ← generateMinerSignature job keys tmp blob (m_size job) draws (signature_of (signature_bytes job blob));
      Some (memcpy blob (sig_offset job) (sig_c sig ++ sig_r sig))
  end.

(** A turn of the loop for RandomX, where [nextRound] is the write of the next
    nonce: the blob whose hash [randomx_calculate_hash_next] returns, the
    signature saved for the submission, and the blob of the next turn, whose
    hash has been started. *)
Definition randomx_turn (job : Job) (keys : option ephemeral) (first : bool) (draws draws' : list (list Z))
    (tmp : list Z) (next_nonce : Z) (blob : list Z) : option (list Z * list Z * list Z) :=
  blob ← (if first then sign_blob job keys tmp blob draws else Some blob);
  let next := writeUnaligned blob (nonceOffset job) next_nonce in
  let miner_signature_saved := signature_bytes job next in
  next ← sign_blob job keys tmp next draws';
  Some (blob, miner_signature_saved, next).

(** ** Submission *)

(** The template in hexadecimal that [submit] sends. *)
Definition submit_template (job : Job) (t : BlockTemplate) (data : list Z) (nonce : Z) (minerSignature : list Z) :
    option (list Z) :=
  h ← cvt_bin2hex 8 (le_bytes 4 nonce);
  let data := memcpy data (nonceOffset job * 2) h in
  if hasMinerSignature t then
    h ← cvt_bin2hex 128 minerSignature;
    Some (memcpy data (sig_offset job * 2) h)
  else Some data.

End MinerSignature.
