(* ===== verification/MinerSignatureSpec.v ===== *)
(** * The signature of the miner: the properties

    The keys derived from a template are the ones its reward goes to, every
    blob a RandomX worker hashes carries a signature valid for itself, and the
    template submitted is the block with that nonce and signature. *)

From stdpp Require Import functions strings.
From S2P Require Import Prelude.
From S2P Require Import CInt.
From S2P Require Import Bytes.
From S2P Require Import Limbs.
From S2P Require Import Scalar.
From S2P Require Import ScalarOps.
From S2P Require Import Group.
From S2P Require Import Curve.
From S2P Require Import Ge.
From S2P Require Import ScalarSpec.
From S2P Require Import CurveSpec.
From S2P Require Import Decode.
From S2P Require Import Tables.
From S2P Require Import Vartime.
From S2P Require Import Order.
From S2P Require Import Cvt.
From S2P Require Import Signatures.
From S2P Require Import SignaturesOk.
From S2P Require Import SignaturesSpec.
From S2P Require Import KeccakDigest.
From S2P Require Import Nonce.
From S2P Require Import BlobReader.
From S2P Require Import BlockTemplate.
From S2P Require Import BlockTemplateOk.
From S2P Require Import BlockFormat.
From S2P Require Import BlockTemplateSpec.
From S2P Require Import Umul128.
From S2P Require Import WalletAddress.
From S2P Require Import Base58.
From S2P Require Import WalletSpec.
From S2P Require Import Job.
From S2P Require Import JobSpec.
From S2P Require Import MinerSignature.

Section Keys.
Context `{Digest32} `{Mul128}.

(** ** Keys *)

Lemma public_of_secret s : reduced s -> secret_key_to_public_key s = Some (Some (public (le_val s))).
Proof.
  intros [Hs Hl]. destruct (secret_key_to_public_key_correct s Hs) as [-> _]. rewrite (proj2 (Z.ltb_lt _ _) Hl). reflexivity.
Qed.

(** The view key is always reduced: the error for an invalid one is never
    reported. *)
Lemma view_key_reduced s : is_bytes s -> returns (derive_view_secret_key s) reduced.
Proof.
  intros Hs. unfold derive_view_secret_key. eapply returns_bind; [apply digest_bytes, Hs|]. intros d [Hd Hl].
  rewrite sc_reduce32_ok by assumption. apply returns_Some, reduced_residue.
Qed.

Lemma derive_secret_key_ok derivation ix base s :
  bytes_of 32 base -> derivation_to_scalar derivation ix = Some s -> reduced s ->
  exists sec, derive_secret_key derivation ix base = Some sec /\ reduced sec /\ le_val sec = (le_val base + le_val s) mod l.
Proof.
  intros Hb Es Hs. unfold derive_secret_key. rewrite Es. cbn [mbind option_bind]. rewrite sc_add_ok by (exact Hb || apply Hs).
  eexists. split; [reflexivity|]. apply reduced_residue.
Qed.

(** The secret key from a derivation belongs to the public one. *)
Lemma derived_pair derivation base :
  bytes_of 32 derivation -> bytes_of 32 base ->
  exists sec, derive_secret_key derivation 0 base = Some sec /\ reduced sec /\
    derive_public_key derivation 0 (public (le_val base)) = Some (Some (public (le_val sec))).
Proof.
  intros Hd Hb. destruct (derivation_to_scalar_ok derivation 0 Hd ltac:(lia)) as (s & Es & Hs).
  destruct (derive_secret_key_ok derivation 0 base s Hb Es Hs) as (sec & E & Hr & Ev). exists sec. split; [exact E|]. split; [exact Hr|].
  unfold public at 1. rewrite (derive_public_key_ok derivation 0 _ s Es Hs). do 2 f_equal.
  unfold public. rewrite Ev, gmul_base_mod, gmul_add. reflexivity.
Qed.

Lemma shared_derivation a b :
  scalar a -> scalar b ->
  exists D, bytes_of 32 D /\
    generate_key_derivation (public (le_val b)) a false = Some (Some (D, None)) /\
    generate_key_derivation (public (le_val a)) b false = Some (Some (D, None)).
Proof.
  intros Ha Hb. exists (public (8 * (le_val a * le_val b))). split; [apply public_bytes|].
  assert (E : forall s k, gmul (8 * s) (gmul k base_point) = gmul (8 * (s * k)) base_point)
    by (intros s k; rewrite <- gmul_mul; f_equal; ring).
  unfold public. rewrite !generate_key_derivation_eq, !E by assumption.
  split; [reflexivity | rewrite (Z.mul_comm (le_val b)); reflexivity].
Qed.

(** What stands at an offset is what the code reads there. *)
Lemma stands_read blob t o s :
  BlockTemplate.m_blob t = blob -> stands blob (m_offsets t o) s -> length s = 32%nat -> blob_at t o 32 = Ok s.
Proof.
  intros Eb (H1 & H2 & H3) Hl. unfold blob_at. rewrite Eb, read_mem_ok by lia. change (Z.to_nat 32) with 32%nat.
  rewrite <- Hl, H3. reflexivity.
Qed.

Lemma fromHex_into_all buf hex v :
  is_bytes hex -> hex_bytes hex = Some v -> (0 < length v)%nat -> length v = length buf -> fromHex_into buf hex = (v, true).
Proof.
  intros Hb Hv Hne Hl. pose proof (hex_bytes_length hex v Hv). rewrite (fromHex_into_ok buf hex v) by (try assumption; try lia; intros ->; cbn in *; lia).
  rewrite drop_ge, app_nil_r by lia. reflexivity.
Qed.

(** The whole branch, for a wallet that decodes to its own keys. *)
Lemma derive_keys_ok char_signed t hex user buf w spend view w' txsec D P :
  is_bytes hex -> hex_bytes hex = Some spend -> reduced spend -> length buf = 32%nat ->
  derive_view_secret_key spend = Some view -> scalar txsec ->
  blob_at t TX_PUBKEY_OFFSET 32 = Ok (public (le_val txsec)) -> blob_at t EPH_PUBLIC_KEY_OFFSET 32 = Ok P ->
  generate_key_derivation (public (le_val view)) txsec false = Some (Some (D, None)) ->
  derive_public_key D 0 (public (le_val spend)) = Some (Some P) ->
  decode char_signed user w = Ok (true, w') ->
  m_publicSpendKey w' = public (le_val spend) -> m_publicViewKey w' = public (le_val view) ->
  exists keys, derive_keys char_signed t hex user buf w = Ok (inr keys, w') /\
    m_ephPublicKey keys = P /\ reduced (m_ephSecretKey keys) /\ P = public (le_val (m_ephSecretKey keys)).
Proof.
  intros Hx Hv [Hs Hsl] Hbuf Ev Hr Etx Eeph ED EP Ew Ek1 Ek2.
  destruct (view_key_reduced spend (proj1 Hs)) as (view' & Ev' & Hview). assert (view' = view) as -> by congruence.
  destruct (shared_derivation txsec view Hr (reduced_scalar view Hview)) as (D' & HD & E1 & E2).
  assert (D' = D) as -> by congruence.
  destruct (derived_pair D spend HD Hs) as (sec & Esec & Hsec & Epub). rewrite EP in Epub. injection Epub as ->.
  assert (Hl : length hex = 64%nat) by (rewrite (hex_bytes_length hex spend Hv), (proj2 Hs); reflexivity).
  exists (Ephemeral (public (le_val sec)) sec). split; [|split; [reflexivity | split; [exact Hsec | reflexivity]]].
  unfold derive_keys. rewrite Hl, take_ge by lia. cbn [Nat.eqb negb].
  rewrite (fromHex_into_all buf hex spend) by (try assumption; rewrite (proj2 Hs); lia). cbn [negb].
  rewrite (public_of_secret spend (conj Hs Hsl)). cbn [need mbind result_bind]. rewrite Ev. cbn [need mbind result_bind].
  rewrite (public_of_secret view Hview). cbn [need mbind result_bind]. rewrite Etx. cbn [mbind result_bind].
  rewrite E2. cbn [need mbind result_bind]. rewrite Ew. cbn [mbind result_bind negb].
  rewrite !bool_decide_eq_true_2 by assumption. cbn [negb]. rewrite Esec. cbn [need mbind result_bind]. rewrite Eeph. reflexivity.
Qed.

(** The keys [derive_keys] gives, and all it has checked. *)
Definition keys_checked (char_signed : bool) (t : BlockTemplate) (hex user : list Z) (w w' : WalletAddress)
    (keys : ephemeral) : Prop :=
  exists spend view txkey D,
    hex_bytes hex = Some spend /\ reduced spend /\ derive_view_secret_key spend = Some view /\
    decode char_signed user w = Ok (true, w') /\
    m_publicSpendKey w' = public (le_val spend) /\ m_publicViewKey w' = public (le_val view) /\
    blob_at t TX_PUBKEY_OFFSET 32 = Ok txkey /\ generate_key_derivation txkey view false = Some (Some D) /\
    derive_secret_key (fst D) 0 spend = Some (m_ephSecretKey keys) /\
    blob_at t EPH_PUBLIC_KEY_OFFSET 32 = Ok (m_ephPublicKey keys).

Lemma derive_keys_inv char_signed t hex user buf w keys w' :
  is_bytes hex -> length buf = 32%nat ->
  derive_keys char_signed t hex user buf w = Ok (inr keys, w') -> keys_checked char_signed t hex user w w' keys.
Proof.
  intros Hx Hbuf. unfold derive_keys.
  destruct (Nat.eqb_spec (length hex) 0); [discriminate|]. destruct (Nat.eqb_spec (length hex) 64) as [H64|]; [|discriminate].
  cbn [negb]. rewrite take_ge by lia. destruct (hex_bytes hex) as [spend|] eqn:Eh.
  2:{ pose proof (fromHex_into_refuses buf hex Hx Eh) as Hr. destruct (fromHex_into buf hex). cbn [snd] in Hr. subst. discriminate. }
  pose proof (hex_bytes_length hex spend Eh). rewrite (fromHex_into_all buf hex spend Hx Eh) by lia. cbn [negb].
  assert (Hs : bytes_of 32 spend) by (split; [exact (fromHex_bytes hex spend Hx Eh) | lia]).
  rewrite (proj1 (secret_key_to_public_key_correct spend Hs)).
  destruct (Z.ltb_spec (le_val spend) l) as [Hl|]; cbn [need mbind result_bind]; [|discriminate].
  destruct (view_key_reduced spend (proj1 Hs)) as (view & Ev & Hview). rewrite Ev. cbn [need mbind result_bind].
  rewrite (public_of_secret view Hview). cbn [need mbind result_bind].
  destruct (blob_at t TX_PUBKEY_OFFSET 32) as [txkey| |u|] eqn:Et; cbn [mbind result_bind]; [|discriminate..].
  destruct (generate_key_derivation txkey view false) as [[[D o]|]|] eqn:ED; cbn [need mbind result_bind]; [|discriminate..].
  destruct (decode char_signed user w) as [[[|] w1]| |u|] eqn:Ew; cbn [mbind result_bind negb]; [|discriminate..].
  destruct (bool_decide (m_publicSpendKey w1 = public (le_val spend))) eqn:E1; cbn [negb]; [|discriminate].
  destruct (bool_decide (m_publicViewKey w1 = public (le_val view))) eqn:E2; cbn [negb]; [|discriminate].
  apply bool_decide_eq_true_1 in E1, E2.
  destruct (derive_secret_key D 0 spend) as [sec|] eqn:Es; cbn [need mbind result_bind]; [|discriminate].
  destruct (blob_at t EPH_PUBLIC_KEY_OFFSET 32) as [P| |u|] eqn:Ep; cbn [mbind result_bind]; [|discriminate..].
  intros [= <- <-]. exists spend, view, txkey, (D, o). split; [exact Eh|]. split; [split; assumption|]. auto 10.
Qed.

(** An address that does not decode, or to other keys, is refused. *)
Lemma derive_keys_refuses char_signed t hex user buf w spend view txkey D ok w' :
  is_bytes hex -> length buf = 32%nat -> hex_bytes hex = Some spend -> reduced spend ->
  derive_view_secret_key spend = Some view -> blob_at t TX_PUBKEY_OFFSET 32 = Ok txkey ->
  generate_key_derivation txkey view false = Some (Some D) -> decode char_signed user w = Ok (ok, w') ->
  ~ (ok = true /\ m_publicSpendKey w' = public (le_val spend) /\ m_publicViewKey w' = public (le_val view)) ->
  derive_keys char_signed t hex user buf w =
    Ok (inl (if negb ok then InvalidAddress
             else if bool_decide (m_publicSpendKey w' = public (le_val spend)) then ViewKeyMismatch
             else SpendKeyMismatch), w').
Proof.
  intros Hx Hbuf Eh Hs Ev Et ED Ew Hno. pose proof (hex_bytes_length hex spend Eh) as Hl. pose proof Hs as [[Hs1 Hs2] _].
  destruct (view_key_reduced spend Hs1) as (view' & Ev' & Hview). assert (view' = view) as -> by congruence.
  unfold derive_keys. rewrite (proj2 (Nat.eqb_neq (length hex) 0)), (proj2 (Nat.eqb_eq (length hex) 64)) by lia. cbn [negb].
  rewrite take_ge, (fromHex_into_all buf hex spend Hx Eh) by lia. cbn [negb].
  rewrite (public_of_secret spend Hs). cbn [need mbind result_bind]. rewrite Ev. cbn [need mbind result_bind].
  rewrite (public_of_secret view Hview). cbn [need mbind result_bind]. rewrite Et. cbn [mbind result_bind].
  rewrite ED. cbn [need mbind result_bind]. destruct D as [D o]. rewrite Ew. cbn [mbind result_bind].
  destruct ok; cbn [negb]; [|reflexivity].
  destruct (bool_decide (m_publicSpendKey w' = public (le_val spend))) eqn:E1; cbn [negb]; [|reflexivity].
  apply bool_decide_eq_true_1 in E1. rewrite (bool_decide_eq_false_2 (m_publicViewKey w' = _)) by tauto. reflexivity.
Qed.

End Keys.

(** ** Blobs with a signature *)

Section Signing.
Context `{HD : Digest32}.
Variables (job : Job) (tmp : list Z).
Hypothesis Htmp : bytes_of kMaxBlobSize tmp.

Lemma sig_offset_max : (sig_offset job <= 155)%nat.
Proof. unfold sig_offset, nonceOffset, nonceSize. repeat case_match; lia. Qed.

(** A blob of the job, with room for the signature. *)
Definition blob_fits (blob : list Z) : Prop :=
  is_bytes blob /\ (m_size job <= length blob)%nat /\ (m_size job <= kMaxBlobSize)%nat /\ (sig_offset job + 64 <= length blob)%nat.

(** The hash that is signed. *)
Definition signed_hash (blob : list Z) : option (list Z) :=
  t ← without_signature job tmp blob (m_size job); digest (take (m_size job) t).

Definition blob_valid (pub blob : list Z) : Prop :=
  blob_fits blob /\ exists h, signed_hash blob = Some h /\
    check_signature h pub (signature_of (signature_bytes job blob)) = Some true.

Lemma without_signature_ok blob :
  blob_fits blob -> exists t, without_signature job tmp blob (m_size job) = Some t /\ is_bytes t /\
    forall i, t !! i = if decide (sig_offset job <= i < sig_offset job + 64)%nat then Some 0
                       else if decide (i < m_size job)%nat then blob !! i else tmp !! i.
Proof.
  intros (Hb & Hs & Hs' & Hl). destruct Htmp as [Tb Tl]. pose proof sig_offset_max. unfold kMaxBlobSize in *. unfold without_signature.
  rewrite (proj2 (Nat.ltb_ge _ _)), (proj2 (Nat.ltb_ge _ _)), (proj2 (Nat.ltb_ge _ _)) by lia. cbn [orb].
  assert (Lt : length (take (m_size job) blob) = m_size job) by (rewrite length_take; lia).
  eexists. split; [reflexivity|]. split.
  - apply memcpy_bytes; [apply memcpy_bytes; [exact Tb | apply Forall_take, Hb]|]. apply (bool_decide_unpack _). vm_compute. exact I.
  - intros i. rewrite memcpy_lookup by (rewrite memcpy_length, repeat_length by lia; lia). rewrite repeat_length.
    destruct (decide (sig_offset job <= i < sig_offset job + 64)%nat).
    { assert (Hi : (i - sig_offset job < 64)%nat) by lia. revert Hi. generalize (i - sig_offset job)%nat. intros k Hk.
      do 64 (destruct k as [|k]; [reflexivity|]). lia. }
    rewrite memcpy_lookup, Lt by lia. destruct (decide (i < m_size job)%nat).
    + rewrite decide_True, Nat.sub_0_r, lookup_take_lt by lia. reflexivity.
    + rewrite decide_False by lia. reflexivity.
Qed.

Lemma signed_hash_ok blob : blob_fits blob -> returns (signed_hash blob) (bytes_of 32).
Proof.
  intros Hf. destruct (without_signature_ok blob Hf) as (t & E & Ht & _). unfold signed_hash. rewrite E. cbn [mbind option_bind].
  apply digest_bytes, Forall_take, Ht.
Qed.

(** Bytes written over the signature do not change the hash. *)
Lemma signed_hash_over blob s :
  blob_fits blob -> bytes_of 64 s ->
  blob_fits (memcpy blob (sig_offset job) s) /\ signed_hash (memcpy blob (sig_offset job) s) = signed_hash blob /\
  signature_bytes job (memcpy blob (sig_offset job) s) = s.
Proof.
  intros Hf [Hs Ls]. pose proof Hf as (Hb & Hsz & Hsz' & Hl).
  assert (Hf' : blob_fits (memcpy blob (sig_offset job) s)).
  { unfold blob_fits. rewrite memcpy_length by lia. split; [apply memcpy_bytes; assumption | auto]. }
  split; [exact Hf'|]. split.
  - destruct (without_signature_ok blob Hf) as (t & E & _ & Ht), (without_signature_ok _ Hf') as (t' & E' & _ & Ht').
    unfold signed_hash. rewrite E, E'. cbn [mbind option_bind]. replace t' with t; [reflexivity|].
    apply list_eq. intros i. rewrite Ht, Ht', memcpy_lookup, Ls by lia.
    destruct (decide (sig_offset job <= i < sig_offset job + 64)%nat); reflexivity.
  - unfold signature_bytes. replace (sig_offset job) with (sig_offset job + 0)%nat at 1 by lia.
    rewrite memcpy_inside by lia. rewrite drop_0, take_ge by lia. reflexivity.
Qed.

Lemma signature_of_app c r : length c = 32%nat -> signature_of (c ++ r) = Sig c r.
Proof. intros Hc. unfold signature_of. rewrite take_app_length', drop_app_length' by (symmetry; exact Hc). reflexivity. Qed.

Lemma signature_bytes_ok blob : blob_fits blob -> bytes_of 64 (signature_bytes job blob).
Proof.
  intros (Hb & _ & _ & Hl). split; [apply Forall_take, Forall_drop, Hb|]. unfold signature_bytes. rewrite length_take, length_drop. lia.
Qed.

(** Signing writes a signature of the blob and nothing else. *)
Lemma sign_blob_ok keys blob draws h :
  bytes_of 32 (m_ephSecretKey keys) -> m_ephPublicKey keys = public (le_val (m_ephSecretKey keys)) ->
  blob_fits blob -> signed_hash blob = Some h -> usable h (m_ephSecretKey keys) draws ->
  exists s, sign_blob job (Some keys) tmp blob draws = Some (memcpy blob (sig_offset job) s) /\ bytes_of 64 s /\
    blob_valid (m_ephPublicKey keys) (memcpy blob (sig_offset job) s).
Proof.
  intros Hsec Epub Hf Eh Hu. destruct (signed_hash_ok blob Hf) as (h' & Eh' & Hh). assert (h' = h) as -> by congruence.
  destruct (signature_bytes_ok blob Hf) as [Sb Sl].
  destruct (generate_accepted draws h (m_ephSecretKey keys) (signature_of (signature_bytes job blob)) (proj1 Hh) Hsec) as (sig & E1 & E2 & [Hc Lc] & [Hr Lr]);
    [split; [apply Forall_drop, Sb | cbn [sig_r signature_of]; rewrite length_drop; lia] | exact Hu|].
  exists (sig_c sig ++ sig_r sig).
  assert (Hs : bytes_of 64 (sig_c sig ++ sig_r sig)) by (split; [apply Forall_app; auto | rewrite length_app; lia]).
  destruct (signed_hash_over blob _ Hf Hs) as (Hf' & Ehash & Esig). split; [|split; [exact Hs|]].
  - unfold signed_hash in Eh. apply bind_inv in Eh as (t & Et & Ed).
    unfold sign_blob, generateMinerSignature. rewrite Et. cbn [mbind option_bind]. rewrite Ed. cbn [mbind option_bind].
    rewrite Epub, E1. reflexivity.
  - split; [exact Hf'|]. exists h. split; [rewrite Ehash; exact Eh|]. rewrite Esig, signature_of_app by exact Lc.
    rewrite Epub. destruct sig as [c r]. exact E2.
Qed.

(** Writing the nonce keeps the place of the signature. *)
Lemma next_fits blob n :
  nonceSize job = 4%nat -> blob_fits blob ->
  blob_fits (writeUnaligned blob (nonceOffset job) n) /\
  signature_bytes job (writeUnaligned blob (nonceOffset job) n) = signature_bytes job blob.
Proof.
  intros Hn (Hb & H1 & H2 & H3). assert (Ho : (nonceOffset job + 4 = sig_offset job)%nat) by (unfold sig_offset; lia).
  split.
  - unfold blob_fits. rewrite write_length by lia. split; [apply write_bytes, Hb | auto].
  - unfold signature_bytes. apply write_away; lia.
Qed.

End Signing.

(** ** Hexadecimal templates *)

Lemma hex_bytes_app a b u v : hex_bytes a = Some u -> hex_bytes b = Some v -> hex_bytes (a ++ b) = Some (u ++ v).
Proof.
  revert u. induction a as [a IH] using (induction_ltof1 _ (@length Z)). intros u. destruct a as [|x [|y a]]; cbn [hex_bytes app].
  - intros [= <-] Hb. exact Hb.
  - discriminate.
  - intros Ha Hb. apply bind_inv in Ha as (p & -> & Ha). apply bind_inv in Ha as (q & -> & Ha). apply bind_inv in Ha as (r & Er & Ha).
    injection Ha as <-. cbn [mbind option_bind]. rewrite (IH a) with (u := r); [reflexivity | unfold ltof; cbn; lia | exact Er | exact Hb].
Qed.

Lemma hex_bytes_split n d v :
  hex_bytes d = Some v -> (n <= length v)%nat -> hex_bytes (take (2 * n) d) = Some (take n v) /\ hex_bytes (drop (2 * n) d) = Some (drop n v).
Proof.
  revert d v. induction n as [|n IH]; intros d v Hd Hn; [split; [reflexivity | rewrite !drop_0; exact Hd]|].
  destruct d as [|x [|y d]]; [cbn in Hd; injection Hd as <-; cbn in Hn; lia | discriminate|]. cbn [hex_bytes] in Hd.
  apply bind_inv in Hd as (p & Ep & Hd). apply bind_inv in Hd as (q & Eq & Hd). apply bind_inv in Hd as (r & Er & Hd).
  injection Hd as <-. destruct (IH d r Er ltac:(cbn in Hn; lia)) as [H1 H2].
  replace (2 * S n)%nat with (S (S (2 * n))) by lia. cbn [take drop hex_bytes]. rewrite Ep, Eq, H1. split; [reflexivity | exact H2].
Qed.

(** Writing the digits of [s] at twice an offset writes [s] at the offset. *)
Lemma hex_bytes_memcpy d v o s :
  hex_bytes d = Some v -> is_bytes s -> (o + length s <= length v)%nat ->
  hex_bytes (memcpy d (o * 2) (concat (map hex_pair s))) = Some (memcpy v o s).
Proof.
  intros Hd Hs Hl. unfold memcpy. rewrite hex_pairs_length. rewrite (Nat.mul_comm o).
  replace (2 * o + 2 * length s)%nat with (2 * (o + length s))%nat by lia.
  destruct (hex_bytes_split o d v Hd ltac:(lia)) as [H1 _], (hex_bytes_split (o + length s) d v Hd Hl) as [_ H2].
  apply hex_bytes_app; [exact H1|]. apply hex_bytes_app; [apply hex_bytes_pairs, Hs | exact H2].
Qed.

Lemma bin2hex_exact s n : is_bytes s -> n = 2 * Z.of_nat (length s) -> Z.of_nat (length s) < 2 ^ 62 ->
  cvt_bin2hex n s = Some (concat (map hex_pair s)).
Proof.
  intros Hs -> Hl. unfold cvt_bin2hex. replace (SIZE_MAX / 2) with (2 ^ 63 - 1) by reflexivity.
  rewrite (proj2 (Z.leb_gt _ _)), (proj2 (Z.ltb_ge _ _)) by lia. cbn [orb]. rewrite (proj2 (Z.ltb_ge _ _)) by lia. reflexivity.
Qed.

(** The block with another nonce and another signature. *)
Definition mined (b : block) (nonce sig : list Z) : block :=
  MkBlock (b_major b) (b_minor b) (b_timestamp b) (b_prevId b) nonce sig (b_vote b) (b_pricing b)
    (b_txVersion b) (b_unlockTime b) (b_height b) (b_outputType b) (b_output b) (b_outputs b) (b_extra b) (b_prices b) (b_hashes b).


Lemma memcpy_at (a s s' b : list Z) o : o = length a -> length s' = length s -> memcpy (a ++ s ++ b) o s' = a ++ s' ++ b.
Proof.
  intros -> Hl. unfold memcpy. rewrite take_app_length. f_equal. f_equal.
  rewrite app_assoc, Hl, <- length_app. apply drop_app_length.
Qed.

(** ** Properties *)

(** C8: what [parseJob] checks before it gives a job its one-time keys.  Keys
    given come from a spend key of 64 digits below the group order, its view key
    and the template's transaction key, and the configured address decodes to
    the public keys of these two; an address that does not decode or has another
    spend or view key is refused with the error for it.  For a template whose
    reward goes to the wallet no error is reported and the keys belong together:
    the public one is the output key of the block, and the secret one belongs to
    it. *)
Theorem miner_keys_match `{Digest32} `{Mul128} char_signed :
  (forall t hex user buf w w' keys, is_bytes hex -> length buf = 32%nat ->
    parse_job_keys char_signed t hex user buf w = Ok (inr (Some keys), w') ->
    hasMinerSignature t = true /\ keys_checked char_signed t hex user w w' keys) /\
  (forall t hex user buf w spend view txkey D ok w', hasMinerSignature t = true ->
    is_bytes hex -> length buf = 32%nat -> hex_bytes hex = Some spend -> reduced spend ->
    derive_view_secret_key spend = Some view -> blob_at t TX_PUBKEY_OFFSET 32 = Ok txkey ->
    generate_key_derivation txkey view false = Some (Some D) -> decode char_signed user w = Ok (ok, w') ->
    ~ (ok = true /\ m_publicSpendKey w' = public (le_val spend) /\ m_publicViewKey w' = public (le_val view)) ->
    parse_job_keys char_signed t hex user buf w =
      Ok (inl (if negb ok then InvalidAddress
               else if bool_decide (m_publicSpendKey w' = public (le_val spend)) then ViewKeyMismatch
               else SpendKeyMismatch), w')) /\
  (forall alloc fuel b t0 spend view hex buf tag info payment txsec D w,
    block_ok WOWNERO b -> counts_ok fuel b -> Z.of_nat (length (serialize WOWNERO b)) < 2 ^ 31 -> 0 <= m_number t0 extraSize ->
    18 <= b_major b -> reduced spend -> derive_view_secret_key spend = Some view ->
    is_bytes hex -> hex_bytes hex = Some spend -> length buf = 32%nat ->
    (tag, info) ∈ tags -> coin info <> TOWNFORGE -> is_bytes payment -> (length payment <= 114)%nat ->
    scalar txsec -> first_pubkey (b_extra b) = Some (public (le_val txsec)) ->
    generate_key_derivation (public (le_val view)) txsec false = Some (Some (D, None)) ->
    derive_public_key D 0 (public (le_val spend)) = Some (Some (o_key (b_output b))) ->
    let user := address_of tag (public (le_val spend)) (public (le_val view)) payment in
    exists t' w' keys,
      parse wraps alloc fuel (serialize WOWNERO b) WOWNERO false t0 = Ok (true, t') /\
      parse_job_keys char_signed t' hex user buf w = Ok (inr (Some keys), w') /\
      m_ephPublicKey keys = o_key (b_output b) /\ reduced (m_ephSecretKey keys) /\
      o_key (b_output b) = public (le_val (m_ephSecretKey keys))).
Proof.
  split; [|split].
  { intros t hex user buf w w' keys Hx Hbuf. unfold parse_job_keys. destruct (hasMinerSignature t); [|discriminate].
    destruct (derive_keys char_signed t hex user buf w) as [[[e|ks] w1]| |u|] eqn:E; [discriminate| |discriminate..].
    intros [= <- <-]. split; [reflexivity | exact (derive_keys_inv _ _ _ _ _ _ _ _ Hx Hbuf E)]. }
  { intros t hex user buf w spend view txkey D ok w' Hsig Hx Hbuf Eh Hs Ev Et ED Ew Hno. unfold parse_job_keys. rewrite Hsig.
    rewrite (derive_keys_refuses _ _ _ _ _ _ _ _ _ _ _ _ Hx Hbuf Eh Hs Ev Et ED Ew Hno). reflexivity. }
  intros alloc fuel b t0 spend view hex buf tag info payment txsec D w.
  intros Hb Hc Hl Hs Hmaj Hspend Ev Hx Hhex Hbuf Hin Hcoin Hpay Lpay Htx Epub ED EP user.
  destruct (parse_serialized alloc fuel WOWNERO b t0 Hb Hc Hl Hs) as (t' & Eparse & Eb & ((Hh & Hbeg & _) & (Hx1 & _) & _)).
  rewrite Epub in Hx1. destruct Hh as (_ & _ & _ & _ & _ & _ & Hsig & _), Hbeg as (_ & _ & _ & _ & _ & _ & _ & _ & _ & Hkey).
  assert (Esig : signed WOWNERO b = true) by (unfold signed; rewrite bool_decide_eq_true_2 by reflexivity; apply Z.leb_le, Hmaj). destruct (Hsig Esig) as [Espan _].
  assert (Lkey : length (o_key (b_output b)) = 32%nat) by apply Hb.
  assert (Lpk : forall k, length (public k) = 32%nat) by (intros k; apply public_bytes).
  pose proof (decode_own_address char_signed tag info _ _ payment w Hin Hcoin (public_bytes (le_val spend)) (public_bytes (le_val view)) Hpay Lpay) as Ew.
  destruct (derive_keys_ok char_signed t' hex user buf w spend view _ txsec D (o_key (b_output b)) Hx Hhex Hspend Hbuf Ev Htx
    (stands_read _ t' TX_PUBKEY_OFFSET _ Eb Hx1 (Lpk _)) (stands_read _ t' EPH_PUBLIC_KEY_OFFSET _ Eb Hkey Lkey)
    ED EP Ew eq_refl eq_refl) as (keys & Ek & Hk).
  eexists t', _, keys. split; [exact Eparse|]. split; [|exact Hk].
  unfold parse_job_keys, hasMinerSignature. rewrite Espan. cbn [snd Z.eqb negb]. rewrite Ek. reflexivity.
Qed.

(** C9: a RandomX worker with a matching key pair keeps this invariant: the
    blob whose hash it has started carries a signature that [check_signature]
    accepts for the blob itself with the signature zeroed.  In every turn the
    signature saved for the submission is that of the blob whose hash the turn
    returns, with the nonce read at its start; and the next blob has the new
    nonce and a valid signature of its own. *)
Theorem worker_signs_what_it_hashes `{Digest32} job tmp keys first draws draws' n blob :
  bytes_of kMaxBlobSize tmp -> nonceSize job = 4%nat -> 0 <= n < 2 ^ 32 ->
  bytes_of 32 (m_ephSecretKey keys) -> m_ephPublicKey keys = public (le_val (m_ephSecretKey keys)) ->
  blob_fits job blob -> (first = false -> blob_valid job tmp (m_ephPublicKey keys) blob) ->
  (forall h, signed_hash job tmp blob = Some h -> usable h (m_ephSecretKey keys) draws) ->
  (forall h, signed_hash job tmp (writeUnaligned blob (nonceOffset job) n) = Some h -> usable h (m_ephSecretKey keys) draws') ->
  exists hashed saved next, randomx_turn job (Some keys) first draws draws' tmp n blob = Some (hashed, saved, next) /\
    blob_valid job tmp (m_ephPublicKey keys) hashed /\ saved = signature_bytes job hashed /\
    readUnaligned hashed (nonceOffset job) = readUnaligned blob (nonceOffset job) /\
    blob_valid job tmp (m_ephPublicKey keys) next /\ readUnaligned next (nonceOffset job) = n.
Proof.
  intros Ht Hns Hn Hsec Epub Hf Hv Hd Hd'. pose proof Hf as (Hb & Hs1 & Hs2 & Hl).
  assert (Ho : (nonceOffset job + 4 = sig_offset job)%nat) by (unfold sig_offset; lia).
  assert (Hfirst : exists s, (if first then sign_blob job (Some keys) tmp blob draws else Some blob) = Some (memcpy blob (sig_offset job) s) /\
    bytes_of 64 s /\ blob_valid job tmp (m_ephPublicKey keys) (memcpy blob (sig_offset job) s)).
  { destruct first.
    - destruct (signed_hash_ok job tmp Ht blob Hf) as (h & Eh & _).
      exact (sign_blob_ok job tmp Ht keys blob draws h Hsec Epub Hf Eh (Hd h Eh)).
    - exists (signature_bytes job blob). assert (E : memcpy blob (sig_offset job) (signature_bytes job blob) = blob).
      { destruct (signature_bytes_ok job blob Hf) as [_ Ls]. apply list_eq. intros i. rewrite memcpy_lookup by lia.
        destruct (decide _); [|reflexivity]. unfold signature_bytes. rewrite lookup_take_lt, lookup_drop by lia. f_equal. lia. }
      rewrite E. split; [reflexivity|]. split; [apply signature_bytes_ok, Hf | exact (Hv eq_refl)]. }
  destruct Hfirst as (s & E1 & Hs & Hvalid). destruct (signed_hash_over job tmp Ht blob s Hf Hs) as (Hf1 & Eh1 & Es1).
  set (hashed := memcpy blob (sig_offset job) s) in *.
  destruct (next_fits job hashed n Hns Hf1) as [Hf2 Es2]. set (next := writeUnaligned hashed (nonceOffset job) n) in *.
  assert (Ecomm : next = memcpy (writeUnaligned blob (nonceOffset job) n) (sig_offset job) s).
  { unfold next, hashed, writeUnaligned. destruct Hs as [_ Ls]. pose proof (le_bytes_length 4 n) as Ln. apply list_eq. intros i.
    rewrite !memcpy_lookup by (rewrite ?memcpy_length by lia; lia). rewrite Ls, Ln.
    repeat case_decide; try reflexivity; lia. }
  destruct (next_fits job blob n Hns Hf) as [Hf3 _]. destruct (signed_hash_over job tmp Ht _ s Hf3 Hs) as (_ & Eh2 & _).
  rewrite <- Ecomm in Eh2. destruct (signed_hash_ok job tmp Ht _ Hf2) as (h' & Eh' & _). rewrite Eh' in Eh2.
  destruct (sign_blob_ok job tmp Ht keys next draws' h' Hsec Epub Hf2 Eh' (Hd' h' (eq_sym Eh2))) as (s' & E2 & Hs' & Hvalid').
  exists hashed, (signature_bytes job next), (memcpy next (sig_offset job) s').
  split; [unfold randomx_turn; rewrite E1; cbn [mbind option_bind]; fold next; rewrite E2; reflexivity|].
  split; [exact Hvalid|]. split; [exact Es2|]. destruct Hs as [_ Ls], Hs' as [_ Ls'], Hf2 as (_ & _ & _ & Hl2).
  split; [|split; [exact Hvalid'|]]; unfold readUnaligned.
  - unfold hashed. rewrite memcpy_away by lia. reflexivity.
  - rewrite memcpy_away by lia. apply read_write; [|exact Hn]. destruct Hf1 as (_ & _ & _ & Hl1). lia.
Qed.

(** C27: for a signed block whose header puts the nonce where the job has it,
    which takes a timestamp of five bytes, [submit] sends the block with the
    nonce and the signature of the result, and nothing else changed. *)
Theorem submit_sends_mined_block job t b data nonce sig :
  block_ok WOWNERO b -> 18 <= b_major b -> hasMinerSignature t = true ->
  nonceOffset job = 39%nat -> nonceSize job = 4%nat -> length (put (b_timestamp b)) = 5%nat ->
  hex_bytes data = Some (serialize WOWNERO b) -> bytes_of 64 sig ->
  exists data', submit_template job t data nonce sig = Some data' /\
    hex_bytes data' = Some (serialize WOWNERO (mined b (le_bytes 4 nonce) sig)) /\
    block_ok WOWNERO (mined b (le_bytes 4 nonce) sig).
Proof.
  intros Hb Hmaj Ht Eo En Lt Hd [Hs Ls]. pose proof (serialize_length WOWNERO b Hb) as Hlen.
  pose proof (le_bytes_bytes 4 nonce) as Hn. pose proof (le_bytes_length 4 nonce) as Ln.
  assert (Hok : block_ok WOWNERO (mined b (le_bytes 4 nonce) sig)).
  { unfold block_ok in *. cbn [mined b_timestamp b_prevId b_nonce b_signature b_vote b_pricing b_txVersion b_unlockTime b_height b_outputType b_output b_outputs b_extra b_prices].
    tauto. }
  set (rest := put_prefix WOWNERO b (0 :: put (Z.of_nat (length (b_hashes b))) ++ concat (b_hashes b))).
  set (pre := b_major b :: b_minor b :: put (b_timestamp b) ++ b_prevId b).
  assert (Lpre : length pre = 39%nat) by (unfold pre; cbn [length]; rewrite length_app, Lt; destruct Hb as (_ & -> & _); reflexivity).
  assert (Es : forall n s, serialize WOWNERO (mined b n s) = pre ++ n ++ s ++ b_vote b ++ rest).
  { intros n s. unfold serialize, put_header, signed, zephyr. cbn [mined b_major b_minor b_timestamp b_prevId b_nonce b_signature b_vote b_pricing b_hashes].
    rewrite bool_decide_eq_true_2, (proj2 (Z.leb_le _ _) Hmaj), bool_decide_eq_false_2 by (discriminate || reflexivity).
    cbn [andb only app]. unfold pre. rewrite <- !app_comm_cons, <- !app_assoc. reflexivity. }
  assert (Eb : serialize WOWNERO b = pre ++ b_nonce b ++ b_signature b ++ b_vote b ++ rest)
    by (rewrite <- Es; destruct b; reflexivity).
  assert (Lns : length (b_nonce b) = 4%nat /\ length (b_signature b) = 64%nat) by (unfold block_ok in Hb; split_hyps; auto).
  destruct Lns as [Lbn Lbs].
  assert (Lser : (107 <= length (serialize WOWNERO b))%nat) by (rewrite Eb, !length_app; lia).
  unfold submit_template, sig_offset. rewrite Ht, Eo, En.
  rewrite (bin2hex_exact (le_bytes 4 nonce)) by (try exact Hn; rewrite Ln; reflexivity).
  rewrite (bin2hex_exact sig) by (try exact Hs; rewrite Ls; reflexivity). cbn [mbind option_bind].
  eexists. split; [reflexivity|]. split; [|exact Hok].
  rewrite (hex_bytes_memcpy _ (memcpy (serialize WOWNERO b) 39 (le_bytes 4 nonce)));
    [| apply hex_bytes_memcpy; [exact Hd | exact Hn | rewrite Ln; lia] | exact Hs | rewrite memcpy_length; lia].
  f_equal. rewrite Es, Eb. rewrite memcpy_at by lia. rewrite app_assoc, memcpy_at by (rewrite ?length_app; lia).
  rewrite <- app_assoc. reflexivity.
Qed.

(** ** Witnesses *)

(** A block of WOWNERO with a given output key and transaction key. *)
Definition sample_signed (key txkey : list Z) : block :=
  MkBlock 18 16 1700000000 (repeat 7 32) [1; 2; 3; 4] (repeat 0 64) [0; 0] (repeat 0 120) 2 60 3000000 3
    (MkOutput 600000000000 key [] 77) [] [Pubkey txkey; ExtraNonce [1; 2; 3; 4]] (0, 0, 0) [].

Lemma sample_signed_ok key txkey : length key = 32%nat -> length txkey = 32%nat ->
  block_ok WOWNERO (sample_signed key txkey) /\ Z.of_nat (length (serialize WOWNERO (sample_signed key txkey))) < 2 ^ 31.
Proof.
  intros H1 H2. do 32 (destruct key as [|? key]; [discriminate H1|]). destruct key; [|discriminate H1].
  do 32 (destruct txkey as [|? txkey]; [discriminate H2|]). destruct txkey; [|discriminate H2].
  split; [|vm_compute; reflexivity]. repeat split; try (cbn; lia); try (right; reflexivity); repeat constructor.
Qed.

Lemma constant_scalar v s : 0 <= v < l -> is_bytes s -> @hash_to_scalar (constant_digest v) s = Some (le_bytes 32 v).
Proof.
  intros Hv Hs. destruct (@challenge_ok (constant_digest v) s Hs) as [E Hr]. rewrite E. f_equal.
  apply reduced_inj; [exact Hr | | ].
  - destruct (reduced_residue v) as [H _]. rewrite Z.mod_small in H by exact Hv. exact H.
  - rewrite constant_challenge by exact Hv. destruct (reduced_residue v) as [_ H]. rewrite Z.mod_small in H by exact Hv. exact (eq_sym H).
Qed.

Lemma miner_keys_match_witness :
  let H := constant_digest 7 in let HM := mul128_int128 in
  let spend := small_scalar 3 in let view := small_scalar 7 in let txsec := small_scalar 5 in
  let b := sample_signed (public 10) (public (le_val txsec)) in
  let user := address_of 0x1032 (public (le_val spend)) (public (le_val view)) [] in
  exists t' w' keys,
    parse wraps (fun _ => true) 3 (serialize WOWNERO b) WOWNERO false new_template = Ok (true, t') /\
    parse_job_keys true t' (concat (map hex_pair spend)) user (repeat 0 32) new_address = Ok (inr (Some keys), w') /\
    m_ephPublicKey keys = public 10 /\ reduced (m_ephSecretKey keys) /\ public 10 = public (le_val (m_ephSecretKey keys)).
Proof.
  assert (Hlt : forall n, 0 <= n < 100 -> 0 <= n < l) by (intros n Hn; split; [lia|]; assert (100 < l) by reflexivity; lia).
  assert (Hsc : forall n, 0 <= n < 100 -> reduced (small_scalar n) /\ le_val (small_scalar n) = n).
  { intros n Hn. destruct (reduced_residue n) as [H1 H2]. rewrite Z.mod_small in H1, H2 by (apply Hlt, Hn). exact (conj H1 H2). }
  destruct (@shared_derivation (constant_digest 7) (small_scalar 5) (small_scalar 7)) as (D & HD & ED & _);
    [apply reduced_scalar, Hsc; lia | apply reduced_scalar, Hsc; lia|].
  destruct (sample_signed_ok (public 10) (public (le_val (small_scalar 5)))) as [Hb Hlen]; [apply public_bytes | apply public_bytes|].
  destruct (@miner_keys_match (constant_digest 7) mul128_int128 true) as (_ & _ & Hpays).
  apply (Hpays (fun _ => true) 3%nat
    (sample_signed (public 10) (public (le_val (small_scalar 5)))) new_template (small_scalar 3) (small_scalar 7)
    (concat (map hex_pair (small_scalar 3))) (repeat 0 32) 0x1032 (MkTagInfo WOWNERO MAINNET PUBLIC 34568 34569) [] (small_scalar 5) D new_address Hb).
  - repeat split; cbn; lia.
  - exact Hlen.
  - cbn. lia.
  - cbn. lia.
  - apply Hsc. lia.
  - apply (constant_scalar 7 (small_scalar 3)); [apply Hlt; lia | apply Hsc; lia].
  - apply hex_pairs_bytes, Hsc. lia.
  - apply hex_bytes_pairs, Hsc. lia.
  - reflexivity.
  - apply (list_elem_of_lookup_2 _ 24%nat). reflexivity.
  - discriminate.
  - constructor.
  - cbn. lia.
  - apply reduced_scalar, Hsc. lia.
  - reflexivity.
  - exact ED.
  - assert (Es : @derivation_to_scalar (constant_digest 7) D 0 = Some (small_scalar 7)).
    { change (@hash_to_scalar (constant_digest 7) (D ++ [0]) = Some (small_scalar 7)).
      apply (constant_scalar 7); [apply Hlt; lia|]. apply Forall_app. split; [apply HD | repeat constructor; unfold is_byte; lia]. }
    pose proof (@derive_public_key_ok (constant_digest 7) D 0 (gmul 3 base_point) _ Es (proj1 (Hsc 7 ltac:(lia)))) as E.
    rewrite (proj2 (Hsc 7 ltac:(lia))), <- gmul_add in E. rewrite (proj2 (Hsc 3 ltac:(lia))). exact E.
Defined.

Lemma constant_usable h : @usable (constant_digest 7) h (small_scalar 3) [small_scalar 1].
Proof.
  assert (E1 : le_val (small_scalar 1) mod l = 1) by reflexivity.
  assert (Hc : forall s, le_val (@challenge (constant_digest 7) s) = 7) by (intros s; apply constant_challenge; split; [lia | reflexivity]).
  split.
  - constructor; [|constructor]. split; [apply small_scalar_scalar; split; [discriminate | reflexivity]|]. split.
    + rewrite E1, gmul_1. apply base_point_nonzero.
    + rewrite Hc. discriminate.
  - constructor. unfold response. rewrite Hc, E1. discriminate.
Qed.

Lemma worker_signs_what_it_hashes_witness :
  let H := constant_digest 7 in
  let job := with_blob (new_job false RX_WOW None) false 141 (repeat 0 408) in
  let keys := Ephemeral (public (le_val (small_scalar 3))) (small_scalar 3) in
  exists hashed saved next,
    randomx_turn job (Some keys) true [small_scalar 1] [small_scalar 1] (repeat 0 408) 8 (repeat 0 408) = Some (hashed, saved, next) /\
    blob_valid job (repeat 0 408) (m_ephPublicKey keys) hashed /\ saved = signature_bytes job hashed /\
    readUnaligned hashed (nonceOffset job) = readUnaligned (repeat 0 408) (nonceOffset job) /\
    blob_valid job (repeat 0 408) (m_ephPublicKey keys) next /\ readUnaligned next (nonceOffset job) = 8.
Proof.
  apply (@worker_signs_what_it_hashes (constant_digest 7)).
  - split; [apply (bool_decide_unpack _); vm_compute; exact I | reflexivity].
  - reflexivity.
  - lia.
  - apply small_scalar_scalar. split; [discriminate | reflexivity].
  - reflexivity.
  - split; [apply (bool_decide_unpack _); vm_compute; exact I|]. repeat split; apply Nat.leb_le; reflexivity.
  - discriminate.
  - intros h _. apply constant_usable.
  - intros h _. apply constant_usable.
Defined.

Lemma submit_sends_mined_block_witness :
  let b := sample_signed (repeat 9 32) (repeat 5 32) in
  let data := concat (map hex_pair (serialize WOWNERO b)) in
  let t := with_span minerSignature (43, 64) new_template in
  exists data', submit_template (new_job false RX_WOW None) t data 77 (repeat 6 64) = Some data' /\
    hex_bytes data' = Some (serialize WOWNERO (mined b (le_bytes 4 77) (repeat 6 64))) /\
    block_ok WOWNERO (mined b (le_bytes 4 77) (repeat 6 64)).
Proof.
  apply (submit_sends_mined_block (new_job false RX_WOW None) (with_span minerSignature (43, 64) new_template)
    (sample_signed (repeat 9 32) (repeat 5 32))).
  - apply sample_signed_ok; reflexivity.
  - cbn. lia.
  - reflexivity.
  - reflexivity.
  - reflexivity.
  - reflexivity.
  - apply hex_bytes_pairs. apply (bool_decide_unpack _). vm_compute. exact I.
  - split; [apply (bool_decide_unpack _); vm_compute; exact I | reflexivity].
Defined.
