(* ===== verification/Reciprocal.v ===== *)
(** * Reciprocals of RandomX

    crypto/randomx/reciprocal.c: the instruction IMUL_RCP multiplies by a
    scaled reciprocal, computed by long division. *)

From S2P Require Import Prelude.
From S2P Require Import CInt.
From S2P Require Import BlobReader.

(** [for (uint64_t bit = divisor; bit > 0; bit >>= 1) bsr++]. *)
Fixpoint bsr_loop (fuel : nat) (bit bsr : Z) : option Z :=
  match fuel with
  | O => None
  | S fuel => if 0 <? bit then bsr_loop fuel (Z.shiftr bit 1) (bsr + 1) else Some bsr
  end.

(** [n] turns of the division, a bit each. *)
Fixpoint rcp_loop (n : nat) (divisor quotient remainder : Z) : Z * Z :=
  match n with
  | O => (quotient, remainder)
  | S n =>
      if to_u64 (divisor - remainder) <=? remainder
      then rcp_loop n divisor (to_u64 (to_u64 (quotient * 2) + 1)) (to_u64 (to_u64 (remainder * 2) - divisor))
      else rcp_loop n divisor (to_u64 (quotient * 2)) (to_u64 (remainder * 2))
  end.

(** [None] is a division by zero. *)
Definition randomx_reciprocal (divisor : Z) : option Z :=
  if divisor =? 0 then None
  else
    let p2exp63 := 2 ^ 63 in
    bsr ← bsr_loop 65 divisor 0;
    Some (fst (rcp_loop (Z.to_nat bsr) divisor (p2exp63 / divisor) (p2exp63 mod divisor))).

Definition randomx_reciprocal_fast (divisor : Z) : option Z := randomx_reciprocal divisor.

(** ** The number of bits *)

Lemma bsr_loop_ok fuel bit bsr :
  0 <= bit < 2 ^ (Z.of_nat fuel - 1) -> (0 < fuel)%nat ->
  bsr_loop fuel bit bsr = Some (bsr + if bit =? 0 then 0 else Z.log2 bit + 1).
Proof.
  revert bit bsr. induction fuel as [|fuel IH]; intros bit bsr Hb Hf; [lia|]. cbn [bsr_loop].
  destruct (Z.ltb_spec 0 bit) as [Hp|Hp]; [|replace bit with 0 by lia; cbn; f_equal; lia].
  rewrite (proj2 (Z.eqb_neq bit 0)) by lia.
  assert (Hs : 1 <= Z.of_nat fuel).
  { destruct fuel; [cbn in Hb; lia | lia]. }
  replace (Z.of_nat (S fuel) - 1) with (Z.succ (Z.of_nat fuel - 1)) in Hb by lia. rewrite Z.pow_succ_r in Hb by lia.
  rewrite IH; [| rewrite Z.shiftr_div_pow2 by lia; split; [apply Z.div_pos | apply Z.div_lt_upper_bound]; lia | lia].
  f_equal. rewrite Z.shiftr_div_pow2 by lia. change (2 ^ 1) with 2.
  destruct (Z.eqb_spec (bit / 2) 0) as [E|E].
  - assert (bit = 1) as -> by (pose proof (Z.div_mod bit 2); pose proof (Z.mod_pos_bound bit 2); lia). cbn. lia.
  - assert (H2 : 2 <= bit) by (pose proof (Z.div_mod bit 2); pose proof (Z.mod_pos_bound bit 2); lia).
    replace (bit / 2) with (Z.shiftr bit 1) by (apply Z.shiftr_div_pow2; lia). rewrite Z.log2_shiftr by lia.
    assert (1 <= Z.log2 bit) by (apply Z.log2_le_pow2; lia). lia.
Qed.

(** ** The division *)

Lemma rcp_loop_ok n divisor quotient remainder :
  0 < divisor < 2 ^ 64 -> 0 <= remainder < divisor -> 0 <= quotient ->
  exists q, fst (rcp_loop n divisor (to_u64 quotient) remainder) = to_u64 q /\
    q = (quotient * divisor + remainder) * 2 ^ Z.of_nat n / divisor.
Proof.
  revert quotient remainder. induction n as [|n IH]; intros q r Hd Hr Hq; cbn [rcp_loop].
  - exists q. split; [reflexivity|]. rewrite Z.mul_1_r. symmetry. rewrite Z.add_comm, Z.div_add, Z.div_small by lia. lia.
  - rewrite (to_u64_id (divisor - r)) by lia. rewrite Nat2Z.inj_succ, Z.pow_succ_r by lia.
    assert (Eq : to_u64 (to_u64 q * 2) = to_u64 (2 * q))
      by (unfold to_u64; rewrite Z.mul_mod_idemp_l, Z.mul_comm by lia; reflexivity).
    rewrite Eq. destruct (Z.leb_spec (divisor - r) r).
    + assert (Er : to_u64 (to_u64 (r * 2) - divisor) = 2 * r - divisor)
        by (unfold to_u64; rewrite Zminus_mod_idemp_l; rewrite Z.mod_small; lia).
      assert (Eq1 : to_u64 (to_u64 (2 * q) + 1) = to_u64 (2 * q + 1)) by (unfold to_u64; rewrite Z.add_mod_idemp_l by lia; reflexivity).
      rewrite Er, Eq1. destruct (IH (2 * q + 1) (2 * r - divisor)) as (q' & E & ->); [lia | lia | lia|].
      eexists. split; [exact E|]. f_equal. ring.
    + rewrite (to_u64_id (r * 2)) by lia. destruct (IH (2 * q) (r * 2)) as (q' & E & ->); [lia | lia | lia|].
      eexists. split; [exact E|]. f_equal. ring.
Qed.

(** ** Properties *)

(** C29: for every divisor that is neither 0 nor a power of two the reciprocal
    is 2^x / divisor, rounded down, with the highest x for which it fits 64
    bits, and it has its top bit set; for a power of two the same quotient is
    2^64, and 0 is returned. *)
Theorem randomx_reciprocal_correct divisor :
  0 < divisor < 2 ^ 64 ->
  let x := 64 + Z.log2 divisor in
  if divisor =? 2 ^ Z.log2 divisor then randomx_reciprocal divisor = Some 0 /\ 2 ^ x / divisor = 2 ^ 64
  else randomx_reciprocal divisor = Some (2 ^ x / divisor) /\ 2 ^ 63 <= 2 ^ x / divisor < 2 ^ 64 /\ 2 ^ 64 <= 2 ^ (x + 1) / divisor.
Proof.
  intros Hd x. pose proof (Z.log2_spec divisor ltac:(lia)) as Hl. pose proof (Z.log2_nonneg divisor) as Hn.
  rewrite Z.pow_succ_r in Hl by exact Hn. set (p := 2 ^ Z.log2 divisor) in *.
  assert (Ex : 2 ^ x = 2 ^ 64 * p) by (unfold x, p; apply Z.pow_add_r; lia).
  assert (Er : randomx_reciprocal divisor = Some (to_u64 (2 ^ x / divisor))).
  { unfold randomx_reciprocal. rewrite (proj2 (Z.eqb_neq _ _)) by lia.
    rewrite bsr_loop_ok by (cbn; lia). cbn [mbind option_bind]. rewrite (proj2 (Z.eqb_neq _ _)) by lia. f_equal.
    pose proof (Z.mod_pos_bound (2 ^ 63) divisor ltac:(lia)) as Hm. pose proof (Z.div_mod (2 ^ 63) divisor ltac:(lia)) as Em.
    assert (Hq : 0 <= 2 ^ 63 / divisor <= 2 ^ 63) by (split; [apply Z.div_pos | apply Z.div_le_upper_bound]; nia).
    rewrite <- (to_u64_id (2 ^ 63 / divisor)) by lia.
    destruct (rcp_loop_ok (Z.to_nat (0 + (Z.log2 divisor + 1))) divisor (2 ^ 63 / divisor) (2 ^ 63 mod divisor) Hd Hm (proj1 Hq)) as (q & -> & ->).
    rewrite Z2Nat.id by lia. f_equal. f_equal. rewrite (Z.mul_comm (2 ^ 63 / divisor)), <- Em.
    rewrite <- Z.pow_add_r by lia. f_equal. unfold x. lia. }
  rewrite Er, Ex. destruct (Z.eqb_spec divisor p) as [E|E].
  - rewrite <- E, Z.div_mul by lia. split; reflexivity.
  - assert (Hq : 2 ^ 63 <= 2 ^ 64 * p / divisor < 2 ^ 64)
      by (split; [apply Z.div_le_lower_bound | apply Z.div_lt_upper_bound]; lia).
    rewrite to_u64_id by lia. split; [reflexivity|]. split; [exact Hq|].
    rewrite Z.pow_add_r, Ex by (unfold x; lia). change (2 ^ 1) with 2. apply Z.div_le_lower_bound; lia.
Qed.

Lemma randomx_reciprocal_correct_witness :
  randomx_reciprocal 3 = Some (2 ^ 65 / 3) /\ 2 ^ 63 <= 2 ^ 65 / 3 < 2 ^ 64 /\ 2 ^ 64 <= 2 ^ (65 + 1) / 3.
Proof. apply (randomx_reciprocal_correct 3). lia. Defined.
