(* ===== verification/Blocks.v ===== *)
(** * Messages in blocks

    A message as whole blocks and what is left of it, and a buffer of one block
    that data is appended to: what the incremental hashes share. *)

From S2P Require Import Prelude.
From S2P Require Import CInt.
From S2P Require Import Bytes.
From S2P Require Import Job.
From S2P Require Import Nonce.

(** ** Blocks of [w] bytes *)

(** The first [n] blocks. *)
Fixpoint chunks (w n : nat) (p : list Z) : list (list Z) :=
  match n with O => [] | S n => take w p :: chunks w n (drop w p) end.

Definition blocks_of (w : nat) (bs : list (list Z)) : Prop := Forall (bytes_of w) bs.

Lemma chunks_length w n p : length (chunks w n p) = n.
Proof. revert p. induction n as [|n IH]; intros p; cbn; auto. Qed.

Lemma concat_chunks w n p : concat (chunks w n p) = take (w * n) p.
Proof.
  revert p. induction n as [|n IH]; intros p; [rewrite Nat.mul_0_r; reflexivity|]. cbn [chunks concat]. rewrite IH.
  replace (w * S n)%nat with (w + w * n)%nat by lia. apply take_take_drop.
Qed.

Lemma chunks_blocks w n p : is_bytes p -> (w * n <= length p)%nat -> blocks_of w (chunks w n p).
Proof.
  revert p. induction n as [|n IH]; intros p Hp Hl; [constructor|]. cbn [chunks]. constructor.
  - split; [apply Forall_take; assumption | rewrite length_take; lia].
  - apply IH; [apply Forall_drop; assumption | rewrite length_drop; lia].
Qed.

Lemma blocks_length w bs : blocks_of w bs -> length (concat bs) = (w * length bs)%nat.
Proof. induction 1 as [|b bs [_ Hb] _ IH]; [cbn; lia|]. cbn [concat]. rewrite length_app, IH. cbn [length]. lia. Qed.

Lemma chunks_concat w bs p : blocks_of w bs -> chunks w (length bs) (concat bs ++ p) = bs.
Proof.
  induction 1 as [|b bs [_ Hb] _ IH]; [reflexivity|]. cbn [length chunks concat]. rewrite <- app_assoc.
  rewrite take_app_length', drop_app_length', IH by lia. reflexivity.
Qed.

Lemma zeros_bytes n : is_bytes (repeat 0 n).
Proof. induction n as [|n IH]; constructor; [split; lia | exact IH]. Qed.

(** ** A buffer *)

(** [buf] starts with the bytes [tail]. *)
Definition in_buffer (w : nat) (buf tail : list Z) : Prop := is_bytes tail /\ bytes_of w buf /\ take (length tail) buf = tail.

Lemma buffer_append w buf tail d : in_buffer w buf tail -> is_bytes d -> (length tail + length d <= w)%nat ->
  in_buffer w (memcpy buf (length tail) d) (tail ++ d).
Proof.
  intros (Ht & [Hb Hl] & Hp) Hd Hn. split_and!; [apply Forall_app; auto| |].
  - split; [apply memcpy_bytes; assumption | rewrite memcpy_length; lia].
  - unfold memcpy. rewrite Hp, app_assoc. apply take_app_length.
Qed.

(** A full buffer is a block. *)
Lemma buffer_full w buf tail : in_buffer w buf tail -> length tail = w -> buf = tail /\ bytes_of w tail.
Proof. intros (Ht & [Hb Hl] & Hp) E. rewrite E, take_ge in Hp by lia. subst buf. split; [reflexivity | split; assumption]. Qed.
