(* ===== verification/WordMatrix.v ===== *)
(** * Words in a matrix of four rows and columns

    What the hash functions of the BLAKE family share: words of [w] bits, the
    mixing of four words, a round on the columns of a 4x4 matrix and on its
    diagonals; and what a macro that updates four words of an array, called on
    columns and diagonals, does to the matrix the array holds. *)

From S2P Require Import Prelude.
From S2P Require Import CInt.
From S2P Require Import Bytes.

(** ** Words *)

Definition uw (w x : Z) : Prop := 0 <= x < 2 ^ w.
Definition addw (w x y : Z) : Z := (x + y) mod 2 ^ w.

(** Rotation to the right. *)
Definition rotr (w x n : Z) : Z := x / 2 ^ n + x mod 2 ^ n * 2 ^ (w - n).

Lemma lxor_range n x y : 0 <= n -> 0 <= x < 2 ^ n -> 0 <= y < 2 ^ n -> 0 <= Z.lxor x y < 2 ^ n.
Proof.
  intros Hn Hx Hy. split; [apply Z.lxor_nonneg; lia|].
  destruct (Z.eq_dec (Z.lxor x y) 0) as [->|Hz]; [apply Z.pow_pos_nonneg; lia|].
  assert (Hl : 0 <= Z.lxor x y) by (apply Z.lxor_nonneg; lia).
  apply Z.log2_lt_pow2; [lia|]. eapply Z.le_lt_trans; [apply Z.log2_lxor; lia|].
  assert (H : forall z, 0 <= z < 2 ^ n -> Z.log2 z < n \/ z = 0 /\ Z.log2 z = 0).
  { intros z Hz'. destruct (Z.eq_dec z 0) as [->|]; [right; auto | left; apply Z.log2_lt_pow2; lia]. }
  assert (0 < n) by (destruct (Z.eq_dec n 0) as [->|]; [|lia]; change (2 ^ 0) with 1 in *; assert (x = 0) as -> by lia; assert (y = 0) as -> by lia; contradiction).
  destruct (H x Hx) as [?|[_ ?]], (H y Hy) as [?|[_ ?]]; lia.
Qed.

Lemma addw_range w x y : 0 <= w -> uw w (addw w x y).
Proof. intros Hw. apply Z.mod_pos_bound, Z.pow_pos_nonneg; lia. Qed.

Lemma rotr_range w x n : uw w x -> 0 < n < w -> uw w (rotr w x n).
Proof.
  unfold uw, rotr. intros Hx Hn. pose proof (Z.mod_pos_bound x (2 ^ n) ltac:(apply Z.pow_pos_nonneg; lia)).
  assert (E : 2 ^ w = 2 ^ n * 2 ^ (w - n)) by (rewrite <- Z.pow_add_r by lia; f_equal; lia).
  assert (0 <= x / 2 ^ n < 2 ^ (w - n)) by (split; [apply Z.div_pos | apply Z.div_lt_upper_bound]; lia). nia.
Qed.

(** The two shifts that make a rotation. *)
Lemma rotr_shifts w x n : uw w x -> 0 < n < w -> Z.lor (Z.shiftl x (w - n) mod 2 ^ w) (Z.shiftr x n) = rotr w x n.
Proof.
  intros Hx Hn. unfold rotr. rewrite Z.shiftr_div_pow2 by lia.
  assert (E : 2 ^ w = 2 ^ n * 2 ^ (w - n)) by (rewrite <- Z.pow_add_r by lia; f_equal; lia).
  assert (Ed : 0 <= x / 2 ^ n < 2 ^ (w - n)) by (unfold uw in Hx; split; [apply Z.div_pos | apply Z.div_lt_upper_bound]; lia).
  assert (Em : Z.shiftl x (w - n) mod 2 ^ w = Z.shiftl (x mod 2 ^ n) (w - n)).
  { rewrite (Z.shiftl_mul_pow2 x), (Z.shiftl_mul_pow2 (x mod _)), E by lia.
    rewrite Z.mul_mod_distr_r by (apply Z.pow_nonzero; lia). reflexivity. }
  rewrite Em, Z.lor_comm, lor_shiftl_add by (assumption || lia). reflexivity.
Qed.

Lemma lxor_pairs h v w s : Z.lxor (Z.lxor (Z.lxor h v) w) s = Z.lxor (Z.lxor h s) (Z.lxor v w).
Proof. apply Z.bits_inj'. intros n Hn. rewrite !Z.lxor_spec. repeat destruct (Z.testbit _ _); reflexivity. Qed.

(** ** Mixing *)

Definition quad : Type := Z * Z * Z * Z.

(** Two words [x] and [y] of the message are mixed into four; [ns] are the
    distances of the rotations. *)
Definition mix (w : Z) (ns : quad) (x y : Z) (q : quad) : quad :=
  let '(n1, n2, n3, n4) := ns in
  let '(a, b, c, d) := q in
  let a := addw w (addw w a b) x in
  let d := rotr w (Z.lxor d a) n1 in
  let c := addw w c d in
  let b := rotr w (Z.lxor b c) n2 in
  let a := addw w (addw w a b) y in
  let d := rotr w (Z.lxor d a) n3 in
  let c := addw w c d in
  (a, rotr w (Z.lxor b c) n4, c, d).

(** The same with other additions and rotations. *)
Definition mix_with (add3 : Z -> Z -> Z -> Z) (add2 rot : Z -> Z -> Z) (ns : quad) (x y : Z) (q : quad) : quad :=
  let '(n1, n2, n3, n4) := ns in
  let '(a, b, c, d) := q in
  let a := add3 a b x in
  let d := rot (Z.lxor d a) n1 in
  let c := add2 c d in
  let b := rot (Z.lxor b c) n2 in
  let a := add3 a b y in
  let d := rot (Z.lxor d a) n3 in
  let c := add2 c d in
  (a, rot (Z.lxor b c) n4, c, d).

(** A matrix by its rows. *)
Record matrix := Matrix { row_a : list Z; row_b : list Z; row_c : list Z; row_d : list Z }.
Definition column (v : matrix) (j : nat) : quad := (row_a v !!! j, row_b v !!! j, row_c v !!! j, row_d v !!! j).
Definition of_columns (q : nat -> quad) : matrix :=
  let js := [0; 1; 2; 3]%nat in
  Matrix (map (fun j => (q j).1.1.1) js) (map (fun j => (q j).1.1.2) js) (map (fun j => (q j).1.2) js) (map (fun j => (q j).2) js).

Definition turn_row (k : nat) (l : list Z) : list Z := drop k l ++ take k l.
Definition diagonals (v : matrix) : matrix :=
  Matrix (row_a v) (turn_row 1 (row_b v)) (turn_row 2 (row_c v)) (turn_row 3 (row_d v)).
Definition undiagonals (v : matrix) : matrix :=
  Matrix (row_a v) (turn_row 3 (row_b v)) (turn_row 2 (row_c v)) (turn_row 1 (row_d v)).

Definition words (v : matrix) : list Z := row_a v ++ row_b v ++ row_c v ++ row_d v.

(** ** Predicates of all words *)

Definition alls (P : Z -> Prop) (n : nat) (l : list Z) : Prop := Forall P l /\ length l = n.
Definition matrix_all (P : Z -> Prop) (v : matrix) : Prop :=
  alls P 4 (row_a v) /\ alls P 4 (row_b v) /\ alls P 4 (row_c v) /\ alls P 4 (row_d v).
Definition quad_all (P : Z -> Prop) (q : quad) : Prop := P q.1.1.1 /\ P q.1.1.2 /\ P q.1.2 /\ P q.2.

Lemma mix_all w ns x y q : quad_all (fun n => 0 < n < w) ns -> quad_all (uw w) q -> quad_all (uw w) (mix w ns x y q).
Proof.
  destruct q as [[[a b] c] d], ns as [[[n1 n2] n3] n4]. intros (? & ? & ? & ?) (Ha & Hb & Hc & Hd). cbn in *.
  assert (0 <= w) by lia. repeat split; cbn; repeat first [apply rotr_range | apply lxor_range | apply addw_range | assumption].
Qed.

Lemma mix_with_ok w add3 add2 rot ns x y q :
  (forall a b z, add3 a b z = addw w (addw w a b) z) -> (forall a b, add2 a b = addw w a b) ->
  (forall z n, uw w z -> 0 < n < w -> rot z n = rotr w z n) ->
  quad_all (fun n => 0 < n < w) ns -> quad_all (uw w) q -> mix_with add3 add2 rot ns x y q = mix w ns x y q.
Proof.
  intros H3 H2 Hr. destruct q as [[[a b] c] d], ns as [[[n1 n2] n3] n4]. intros (N1 & N2 & N3 & N4) (Ha & Hb & Hc & Hd).
  cbn in N1, N2, N3, N4, Ha, Hb, Hc, Hd. assert (Hw : 0 <= w) by lia. unfold mix_with, mix. rewrite !H3.
  set (a1 := addw w (addw w a b) x). assert (Ha1 : uw w a1) by (apply addw_range; exact Hw).
  rewrite (Hr (Z.lxor d a1)) by (try apply lxor_range; assumption).
  set (d1 := rotr w (Z.lxor d a1) n1). assert (Hd1 : uw w d1) by (apply rotr_range; [apply lxor_range|]; assumption).
  rewrite (H2 c). set (c1 := addw w c d1). assert (Hc1 : uw w c1) by (apply addw_range; exact Hw).
  rewrite (Hr (Z.lxor b c1)) by (try apply lxor_range; assumption).
  set (b1 := rotr w (Z.lxor b c1) n2). assert (Hb1 : uw w b1) by (apply rotr_range; [apply lxor_range|]; assumption).
  set (a2 := addw w (addw w a1 b1) y). assert (Ha2 : uw w a2) by (apply addw_range; exact Hw).
  rewrite (Hr (Z.lxor d1 a2)) by (try apply lxor_range; assumption).
  set (d2 := rotr w (Z.lxor d1 a2) n3). assert (Hd2 : uw w d2) by (apply rotr_range; [apply lxor_range|]; assumption).
  rewrite !H2, Hr by (try apply lxor_range; try apply addw_range; assumption). reflexivity.
Qed.

Lemma alls_zip_lxor w n l l' : 0 <= w -> alls (uw w) n l -> alls (uw w) n l' -> alls (uw w) n (zip_with Z.lxor l l').
Proof.
  intros Hw [H E] [H' E']. split; [|rewrite length_zip_with; lia]. clear E E'. revert l' H'. induction H; intros l' H'; [constructor|].
  destruct H'; constructor; [apply lxor_range; assumption | auto].
Qed.

Lemma alls_app P n k l l' : alls P n l -> alls P k l' -> alls P (n + k) (l ++ l').
Proof. intros [H E] [H' E']. split; [apply Forall_app; auto|]. rewrite length_app. lia. Qed.

Lemma alls_take P n k l : (k <= n)%nat -> alls P n l -> alls P k (take k l).
Proof. intros Hk [H E]. split; [apply Forall_take; exact H | rewrite length_take; lia]. Qed.

Lemma alls_drop P n k l : alls P n l -> alls P (n - k) (drop k l).
Proof. intros [H E]. split; [apply Forall_drop; exact H | rewrite length_drop; lia]. Qed.

(** The four words of a macro call, and the others. *)
Definition put_quad (a b c d : nat) (q : quad) (v : list Z) : list Z :=
  <[a := q.1.1.1]> (<[b := q.1.1.2]> (<[c := q.1.2]> (<[d := q.2]> v))).

Lemma let_step {A B} (e e' : A) (f : A -> B) y : e = e' -> f e' = y -> (let x := e in f x) = y.
Proof. intros -> <-. reflexivity. Qed.

Section call.
Context (v : list Z) (a b c d : nat) (Hnd : NoDup [a; b; c; d]) (Hlen : Forall (fun j => (j < length v)%nat) [a; b; c; d]).

Ltac distinct :=
  rewrite !NoDup_cons, !not_elem_of_cons in Hnd; rewrite !Forall_cons in Hlen;
  destruct Hnd as ((? & ? & ? & _) & (? & ? & _) & (? & _) & _); destruct Hlen as (? & ? & ? & ? & _).

Lemma put_lookup p q r s (w := put_quad a b c d (p, q, r, s) v) :
  w !!! a = p /\ w !!! b = q /\ w !!! c = r /\ w !!! d = s.
Proof.
  subst w. distinct. unfold put_quad. cbn [fst snd].
  repeat split; rewrite ?list_lookup_total_insert, !length_insert; repeat case_decide; reflexivity || lia.
Qed.

Lemma put_insert p q r s x (w := put_quad a b c d (p, q, r, s) v) :
  <[a := x]> w = put_quad a b c d (x, q, r, s) v /\ <[b := x]> w = put_quad a b c d (p, x, r, s) v /\
  <[c := x]> w = put_quad a b c d (p, q, x, s) v /\ <[d := x]> w = put_quad a b c d (p, q, r, x) v.
Proof.
  subst w. distinct. unfold put_quad. cbn [fst snd]. repeat split.
  - rewrite list_insert_insert_eq. reflexivity.
  - rewrite (list_insert_insert_ne _ b a), list_insert_insert_eq by auto. reflexivity.
  - rewrite (list_insert_insert_ne _ c a), (list_insert_insert_ne _ c b), list_insert_insert_eq by auto. reflexivity.
  - rewrite (list_insert_insert_ne _ d a), (list_insert_insert_ne _ d b), (list_insert_insert_ne _ d c), list_insert_insert_eq by auto.
    reflexivity.
Qed.
End call.

(** Rewrite the words a macro reads, then the word its next step writes. *)
Ltac put_lookups v a b c d Hnd Hlen :=
  let L := constr:(put_lookup v a b c d Hnd Hlen) in
  rewrite ?(fun p q r s => proj1 (L p q r s)), ?(fun p q r s => proj1 (proj2 (L p q r s))),
    ?(fun p q r s => proj1 (proj2 (proj2 (L p q r s)))), ?(fun p q r s => proj2 (proj2 (proj2 (L p q r s)))).
Ltac put_step v a b c d Hnd Hlen :=
  lazymatch goal with |- (let w := ?e in @?f w) = ?y => refine (let_step e _ f y _ _) end;
  [put_lookups v a b c d Hnd Hlen; apply (put_insert v a b c d Hnd Hlen) | cbv beta].

(** ** Rounds *)

Inductive rows : matrix -> Prop :=
| rows_intro a0 a1 a2 a3 b0 b1 b2 b3 c0 c1 c2 c3 d0 d1 d2 d3 :
    rows (Matrix [a0; a1; a2; a3] [b0; b1; b2; b3] [c0; c1; c2; c3] [d0; d1; d2; d3]).

Lemma of_columns_rows q : rows (of_columns q).
Proof. constructor. Qed.

Lemma of_columns_all P q : (forall j, (j < 4)%nat -> quad_all P (q j)) -> matrix_all P (of_columns q).
Proof.
  intros H. pose proof (H 0%nat ltac:(lia)) as (?&?&?&?). pose proof (H 1%nat ltac:(lia)) as (?&?&?&?).
  pose proof (H 2%nat ltac:(lia)) as (?&?&?&?). pose proof (H 3%nat ltac:(lia)) as (?&?&?&?).
  unfold matrix_all, alls, of_columns. cbn [map row_a row_b row_c row_d length]. rewrite !Forall_cons, !Forall_nil. tauto.
Qed.

Lemma column_all P v j : matrix_all P v -> (j < 4)%nat -> quad_all P (column v j).
Proof.
  intros (Ha & Hb & Hc & Hd) Hj.
  assert (H : forall l, alls P 4 l -> P (l !!! j)).
  { intros l [Hl El]. rewrite Forall_lookup in Hl. apply (Hl j), list_lookup_lookup_total_lt. lia. }
  repeat split; apply H; assumption.
Qed.

Lemma turn_row_all P k l : (k <= 4)%nat -> alls P 4 l -> alls P 4 (turn_row k l).
Proof.
  intros Hk [H E]. split; [apply Forall_app; split; [apply Forall_drop | apply Forall_take]; assumption|].
  unfold turn_row. rewrite length_app, length_drop, length_take. lia.
Qed.

Lemma diagonals_all P v : matrix_all P v -> matrix_all P (diagonals v).
Proof. intros (? & ? & ? & ?). split_and!; [assumption | apply turn_row_all..]; assumption || lia. Qed.

Lemma undiagonals_all P v : matrix_all P v -> matrix_all P (undiagonals v).
Proof. intros (? & ? & ? & ?). split_and!; [assumption | apply turn_row_all..]; assumption || lia. Qed.

Lemma matrix_all_rows P v : matrix_all P v -> rows v.
Proof.
  intros ([_ Ha] & [_ Hb] & [_ Hc] & [_ Hd]). destruct v as [a b c d]. cbn in *.
  destruct a as [|? [|? [|? [|? [|]]]]], b as [|? [|? [|? [|? [|]]]]]; try discriminate.
  destruct c as [|? [|? [|? [|? [|]]]]], d as [|? [|? [|? [|? [|]]]]]; try discriminate. constructor.
Qed.

Lemma of_columns_ext q q' : (forall j, (j < 4)%nat -> q j = q' j) -> of_columns q = of_columns q'.
Proof. intros H. unfold of_columns. cbn [map]. rewrite !H by lia. reflexivity. Qed.
(** A round: the columns, then the diagonals, mixed by [f]. *)
Definition round_of (f : nat -> quad -> quad) (v : matrix) : matrix :=
  let v := of_columns (fun j => f j (column v j)) in
  undiagonals (of_columns (fun j => f (4 + j)%nat (column (diagonals v) j))).

Lemma round_all P f v : (forall i q, quad_all P q -> quad_all P (f i q)) -> matrix_all P v -> matrix_all P (round_of f v).
Proof.
  intros Hf Hv. unfold round_of. apply undiagonals_all, of_columns_all. intros j Hj. apply Hf, column_all; [|exact Hj].
  apply diagonals_all, of_columns_all. intros i Hi. apply Hf, column_all; assumption.
Qed.

Lemma rounds_all P (f : nat -> nat -> quad -> quad) rs v : (forall r i q, quad_all P q -> quad_all P (f r i q)) -> matrix_all P v ->
  matrix_all P (foldl (fun v r => round_of (f r) v) v rs).
Proof. intros Hf. revert v. induction rs as [|r rs IH]; intros v Hv; [exact Hv|]. cbn [foldl]. apply IH, round_all; auto. Qed.

(** Calls of macro [i] on four indices, which mixes them by [g i]. *)
Section calls.
Context (call : list Z -> nat * (nat * nat * nat * nat) -> list Z) (g : nat -> quad -> quad).
Hypothesis call_put : forall v i a b c d q,
  NoDup [a; b; c; d] -> Forall (fun j => (j < length v)%nat) [a; b; c; d] ->
  call (put_quad a b c d q v) (i, (a, b, c, d)) = put_quad a b c d (g i q) v.

Lemma call_next v i a b c d l :
  NoDup [a; b; c; d] -> Forall (fun j => (j < length v)%nat) [a; b; c; d] ->
  foldl call v ((i, (a, b, c, d)) :: l) = foldl call (put_quad a b c d (g i (v !!! a, v !!! b, v !!! c, v !!! d)) v) l.
Proof.
  intros Hnd Hlen. rewrite <- call_put by assumption. cbn [foldl]. f_equal. f_equal.
  rewrite !Forall_cons in Hlen. destruct Hlen as (? & ? & ? & ? & _). unfold put_quad. cbn [fst snd].
  do 4 (rewrite (list_insert_id v) by (apply list_lookup_lookup_total_lt; assumption)). reflexivity.
Qed.

Ltac next_call i a b c d q :=
  rewrite (fun v => call_next v i a b c d) by (apply (bool_decide_unpack _); reflexivity);
  cbv beta iota delta [put_quad lookup_total list_lookup_total insert list_insert]; cbn [fst snd];
  set (q := g i _).

Lemma call_columns v : rows v ->
  foldl call (words v) [(0, (0, 4, 8, 12)); (1, (1, 5, 9, 13)); (2, (2, 6, 10, 14)); (3, (3, 7, 11, 15))]%nat =
  words (of_columns (fun j => g j (column v j))).
Proof.
  intros []. cbn [words row_a row_b row_c row_d app].
  cbv beta iota delta [of_columns map words row_a row_b row_c row_d app column lookup_total list_lookup_total].
  next_call 0%nat 0%nat 4%nat 8%nat 12%nat q0. next_call 1%nat 1%nat 5%nat 9%nat 13%nat q1.
  next_call 2%nat 2%nat 6%nat 10%nat 14%nat q2. next_call 3%nat 3%nat 7%nat 11%nat 15%nat q3. reflexivity.
Qed.

(** The diagonals, in any of two orders. *)
Lemma call_diagonals v : rows v ->
  let v' := words (undiagonals (of_columns (fun j => g (4 + j)%nat (column (diagonals v) j)))) in
  foldl call (words v) [(4, (0, 5, 10, 15)); (5, (1, 6, 11, 12)); (6, (2, 7, 8, 13)); (7, (3, 4, 9, 14))]%nat = v' /\
  foldl call (words v) [(7, (3, 4, 9, 14)); (6, (2, 7, 8, 13)); (4, (0, 5, 10, 15)); (5, (1, 6, 11, 12))]%nat = v'.
Proof.
  intros [] v'. subst v'. cbn [words row_a row_b row_c row_d app].
  cbv beta iota delta [undiagonals diagonals turn_row take drop of_columns map words row_a row_b row_c row_d app column
    lookup_total list_lookup_total Nat.add].
  split.
  - next_call 4%nat 0%nat 5%nat 10%nat 15%nat q4. next_call 5%nat 1%nat 6%nat 11%nat 12%nat q5.
    next_call 6%nat 2%nat 7%nat 8%nat 13%nat q6. next_call 7%nat 3%nat 4%nat 9%nat 14%nat q7. reflexivity.
  - next_call 7%nat 3%nat 4%nat 9%nat 14%nat q7. next_call 6%nat 2%nat 7%nat 8%nat 13%nat q6.
    next_call 4%nat 0%nat 5%nat 10%nat 15%nat q4. next_call 5%nat 1%nat 6%nat 11%nat 12%nat q5. reflexivity.
Qed.

Definition column_calls : list (nat * (nat * nat * nat * nat)) :=
  [(0, (0, 4, 8, 12)); (1, (1, 5, 9, 13)); (2, (2, 6, 10, 14)); (3, (3, 7, 11, 15))]%nat.
Definition diagonal_calls : list (nat * (nat * nat * nat * nat)) :=
  [(4, (0, 5, 10, 15)); (5, (1, 6, 11, 12)); (6, (2, 7, 8, 13)); (7, (3, 4, 9, 14))]%nat.
Definition diagonal_calls' : list (nat * (nat * nat * nat * nat)) :=
  [(7, (3, 4, 9, 14)); (6, (2, 7, 8, 13)); (4, (0, 5, 10, 15)); (5, (1, 6, 11, 12))]%nat.

(** A round of calls is the round of their mixing [f]. *)
Lemma call_round P f v l :
  (forall i q, quad_all P q -> g i q = f i q) -> (forall i q, quad_all P q -> quad_all P (f i q)) -> matrix_all P v ->
  l = diagonal_calls \/ l = diagonal_calls' ->
  foldl call (words v) (column_calls ++ l) = words (round_of f v).
Proof.
  intros Hg Hf Hv Hl. rewrite foldl_app. unfold column_calls. rewrite call_columns by (apply (matrix_all_rows P); assumption).
  rewrite (of_columns_ext _ (fun j => f j (column v j))) by (intros; apply Hg, column_all; assumption). unfold round_of.
  set (w := of_columns _). assert (Hw : matrix_all P w) by (apply of_columns_all; intros; apply Hf, column_all; assumption). clearbody w.
  pose proof (diagonals_all P w Hw) as Hd. destruct (call_diagonals w (matrix_all_rows P w Hw)) as [E E'].
  rewrite (of_columns_ext _ (fun j => f (4 + j)%nat (column (diagonals w) j))) in E by (intros; apply Hg, column_all; assumption).
  rewrite (of_columns_ext _ (fun j => f (4 + j)%nat (column (diagonals w) j))) in E' by (intros; apply Hg, column_all; assumption).
  destruct Hl as [->| ->]; assumption.
Qed.
End calls.

(** ** Permutations *)

(** The ten permutations of sixteen words in the specification of BLAKE and in
    RFC 7693. *)
Definition spec_sigma : list (list nat) := [
  [ 0;  1;  2;  3;  4;  5;  6;  7;  8;  9; 10; 11; 12; 13; 14; 15];
  [14; 10;  4;  8;  9; 15; 13;  6;  1; 12;  0;  2; 11;  7;  5;  3];
  [11;  8; 12;  0;  5;  2; 15; 13; 10; 14;  3;  6;  7;  1;  9;  4];
  [ 7;  9;  3;  1; 13; 12; 11; 14;  2;  6;  5; 10;  4;  0; 15;  8];
  [ 9;  0;  5;  7;  2;  4; 10; 15; 14;  1; 11; 12;  6;  8;  3; 13];
  [ 2; 12;  6; 10;  0; 11;  8;  3;  4; 13;  7;  5; 15; 14;  1;  9];
  [12;  5;  1; 15; 14; 13;  4; 10;  0;  7;  6;  3;  9;  2;  8; 11];
  [13; 11;  7; 14; 12;  1;  3;  9;  5;  0; 15;  4;  8;  6;  2; 10];
  [ 6; 15; 14;  9; 11;  3;  0;  8; 12;  2; 13;  7;  1;  4; 10;  5];
  [10;  2;  8;  4;  7;  6;  1;  5; 15; 11;  9; 14;  3; 12; 13;  0]]%nat.
