(* ===== verification/Blake256.v ===== *)
(** * BLAKE-256 and BLAKE-224

    crypto/cn/c_blake256.h and c_blake256.c: the compression function, the
    incremental hash over a buffer of one block, and HMAC over both hashes.
    Lengths are in bits where the code has them in bits. *)

From S2P Require Import Prelude.
From S2P Require Import WordMatrix.
From S2P Require Import CInt.
From S2P Require Import Bytes.
From S2P Require Import Job.

(** ** Words *)

(** [U8TO32(p + i)]. *)
Definition U8TO32 (p : list Z) (i : nat) : Z :=
  Z.lor (Z.lor (Z.lor (Z.shiftl (p !!! i) 24) (Z.shiftl (p !!! (i + 1)%nat) 16)) (Z.shiftl (p !!! (i + 2)%nat) 8)) (p !!! (i + 3)%nat).

Definition U32TO8 (v : Z) : list Z := [to_u8 (Z.shiftr v 24); to_u8 (Z.shiftr v 16); to_u8 (Z.shiftr v 8); to_u8 v].

Definition ROT (x n : Z) : Z := Z.lor (to_u32 (Z.shiftl x (32 - n))) (Z.shiftr x n).

(** ** Constants *)

Definition sigma : list (list nat) :=
  [[0; 1; 2; 3; 4; 5; 6; 7; 8; 9; 10; 11; 12; 13; 14; 15];
   [14; 10; 4; 8; 9; 15; 13; 6; 1; 12; 0; 2; 11; 7; 5; 3];
   [11; 8; 12; 0; 5; 2; 15; 13; 10; 14; 3; 6; 7; 1; 9; 4];
   [7; 9; 3; 1; 13; 12; 11; 14; 2; 6; 5; 10; 4; 0; 15; 8];
   [9; 0; 5; 7; 2; 4; 10; 15; 14; 1; 11; 12; 6; 8; 3; 13];
   [2; 12; 6; 10; 0; 11; 8; 3; 4; 13; 7; 5; 15; 14; 1; 9];
   [12; 5; 1; 15; 14; 13; 4; 10; 0; 7; 6; 3; 9; 2; 8; 11];
   [13; 11; 7; 14; 12; 1; 3; 9; 5; 0; 15; 4; 8; 6; 2; 10];
   [6; 15; 14; 9; 11; 3; 0; 8; 12; 2; 13; 7; 1; 4; 10; 5];
   [10; 2; 8; 4; 7; 6; 1; 5; 15; 11; 9; 14; 3; 12; 13; 0];
   [0; 1; 2; 3; 4; 5; 6; 7; 8; 9; 10; 11; 12; 13; 14; 15];
   [14; 10; 4; 8; 9; 15; 13; 6; 1; 12; 0; 2; 11; 7; 5; 3];
   [11; 8; 12; 0; 5; 2; 15; 13; 10; 14; 3; 6; 7; 1; 9; 4];
   [7; 9; 3; 1; 13; 12; 11; 14; 2; 6; 5; 10; 4; 0; 15; 8]]%nat.

Definition cst : list Z :=
  [0x243F6A88; 0x85A308D3; 0x13198A2E; 0x03707344; 0xA4093822; 0x299F31D0; 0x082EFA98; 0xEC4E6C89;
   0x452821E6; 0x38D01377; 0xBE5466CF; 0x34E90C6C; 0xC0AC29B7; 0xC97C50DD; 0x3F84D5B5; 0xB5470917].

Definition padding : list Z := 0x80 :: repeat 0 63.

(** ** State *)

Record state := State {
  st_h : list Z;
  st_s : list Z;
  st_t0 : Z;
  st_t1 : Z;
  buflen : Z;
  nullt : Z;
  st_buf : list Z
}.

Definition set_h (h : list Z) (S : state) : state := State h (st_s S) (st_t0 S) (st_t1 S) (buflen S) (nullt S) (st_buf S).
Definition set_t0 (t : Z) (S : state) : state := State (st_h S) (st_s S) t (st_t1 S) (buflen S) (nullt S) (st_buf S).
Definition set_nullt (n : Z) (S : state) : state := State (st_h S) (st_s S) (st_t0 S) (st_t1 S) (buflen S) n (st_buf S).
Definition set_buf (n : Z) (b : list Z) (S : state) : state := State (st_h S) (st_s S) (st_t0 S) (st_t1 S) n (nullt S) b.

(** ** Compression *)

(** The macro [G(a, b, c, d, e)] in round [i]. *)
Definition G (m : list Z) (i : nat) (v : list Z) (args : nat * nat * nat * nat * nat) : list Z :=
  let '(a, b, c, d, e) := args in
  let s := sigma !!! i in
  let v := <[a := to_u32 (v !!! a + to_u32 (Z.lxor (m !!! (s !!! e)) (cst !!! (s !!! (e + 1)%nat)) + v !!! b))]> v in
  let v := <[d := ROT (Z.lxor (v !!! d) (v !!! a)) 16]> v in
  let v := <[c := to_u32 (v !!! c + v !!! d)]> v in
  let v := <[b := ROT (Z.lxor (v !!! b) (v !!! c)) 12]> v in
  let v := <[a := to_u32 (v !!! a + to_u32 (Z.lxor (m !!! (s !!! (e + 1)%nat)) (cst !!! (s !!! e)) + v !!! b))]> v in
  let v := <[d := ROT (Z.lxor (v !!! d) (v !!! a)) 8]> v in
  let v := <[c := to_u32 (v !!! c + v !!! d)]> v in
  <[b := ROT (Z.lxor (v !!! b) (v !!! c)) 7]> v.

Definition round_args : list (nat * nat * nat * nat * nat) :=
  [(0, 4, 8, 12, 0); (1, 5, 9, 13, 2); (2, 6, 10, 14, 4); (3, 7, 11, 15, 6);
   (3, 4, 9, 14, 14); (2, 7, 8, 13, 12); (0, 5, 10, 15, 8); (1, 6, 11, 12, 10)]%nat.

Definition blake_round (m v : list Z) (i : nat) : list Z := foldl (G m i) v round_args.

(** The words of [v] before the rounds. *)
Definition initial_v (S : state) : list Z :=
  let v := take 8 (st_h S) ++
    [Z.lxor (st_s S !!! 0%nat) 0x243F6A88; Z.lxor (st_s S !!! 1%nat) 0x85A308D3;
     Z.lxor (st_s S !!! 2%nat) 0x13198A2E; Z.lxor (st_s S !!! 3%nat) 0x03707344;
     0xA4093822; 0x299F31D0; 0x082EFA98; 0xEC4E6C89] in
  if nullt S =? 0 then
    let v := <[12%nat := Z.lxor (v !!! 12%nat) (st_t0 S)]> v in
    let v := <[13%nat := Z.lxor (v !!! 13%nat) (st_t0 S)]> v in
    let v := <[14%nat := Z.lxor (v !!! 14%nat) (st_t1 S)]> v in
    <[15%nat := Z.lxor (v !!! 15%nat) (st_t1 S)]> v
  else v.

Definition blake256_compress (S : state) (block : list Z) : state :=
  let m := map (fun i => U8TO32 block (i * 4)) (seq 0 16) in
  let v := foldl (blake_round m) (initial_v S) (seq 0 14) in
  let h := foldl (fun h i => <[(i mod 8)%nat := Z.lxor (h !!! (i mod 8)%nat) (v !!! i)]> h) (st_h S) (seq 0 16) in
  let h := foldl (fun h i => <[i := Z.lxor (h !!! i) (st_s S !!! (i mod 4)%nat)]> h) h (seq 0 8) in
  set_h h S.

(** ** The incremental hash *)

Definition blake_init (h buf : list Z) : state := State h [0; 0; 0; 0] 0 0 0 0 buf.

(** [buf] is what the memory of the buffer holds. *)
Definition blake256_init (buf : list Z) : state :=
  blake_init [0x6A09E667; 0xBB67AE85; 0x3C6EF372; 0xA54FF53A; 0x510E527F; 0x9B05688C; 0x1F83D9AB; 0x5BE0CD19] buf.
Definition blake224_init (buf : list Z) : state :=
  blake_init [0xC1059ED8; 0x367CD507; 0x3070DD17; 0xF70E5939; 0xFFC00B31; 0x68581511; 0x64F98FA7; 0xBEFA4FA4] buf.

(** The counter before a block. *)
Definition count_block (S : state) : state :=
  let t0 := to_u32 (st_t0 S + 512) in
  State (st_h S) (st_s S) t0 (if t0 =? 0 then to_u32 (st_t1 S + 1) else st_t1 S) (buflen S) (nullt S) (st_buf S).

(** [while (datalen >= 512)]; [None]: a read past the data. *)
Fixpoint update_blocks (fuel : nat) (S : state) (data : list Z) (datalen : Z) : option (state * list Z * Z) :=
  match fuel with
  | O => None
  | S fuel =>
      if 512 <=? datalen then
        if (length data <? 64)%nat then None
        else update_blocks fuel (blake256_compress (count_block S) data) (drop 64 data) (datalen - 512)
      else Some (S, data, datalen)
  end.

(** What the loop leaves goes to the buffer. *)
Definition update_rest (S : state) (left : Z) (data : list Z) (datalen : Z) : option state :=
  if 0 <? datalen then
    let n := Z.shiftr datalen 3 in
    if (Z.of_nat (length data) <? n) || (64 <? left + n) then None
    else Some (set_buf (Z.shiftl left 3 + datalen) (memcpy (st_buf S) (Z.to_nat left) (take (Z.to_nat n) data)) S)
  else Some (set_buf 0 (st_buf S) S).

Definition blake256_update (S : state) (data : list Z) (datalen : Z) : option state :=
  let left := Z.shiftr (buflen S) 3 in
  let fill := 64 - left in
  '(S, data, datalen, left) ←
    (if negb (left =? 0) && (fill <=? Z.land (Z.shiftr datalen 3) 0x3F) then
       if (Z.of_nat (length data) <? fill) || (fill <? 0) then None
       else
         let S := set_buf (buflen S) (memcpy (st_buf S) (Z.to_nat left) (take (Z.to_nat fill) data)) S in
         let S := count_block S in
         Some (blake256_compress S (st_buf S), drop (Z.to_nat fill) data, to_u64 (datalen - Z.shiftl fill 3), 0)
     else Some (S, data, datalen, left));
  '(S, data, datalen) ← update_blocks (1 + length data) S data datalen;
  update_rest S left data datalen.

Definition blake224_update (S : state) (data : list Z) (datalen : Z) : option state := blake256_update S data datalen.

Definition sub_t0 (n : Z) (S : state) : state := set_t0 (to_u32 (st_t0 S - n)) S.

(** The padding up to the length. *)
Definition blake_pad (S : state) (pa pb : Z) : option state :=
  if buflen S =? 440 then blake256_update (sub_t0 8 S) [pa] 8
  else
    S ← (if buflen S <? 440 then
           let S := if buflen S =? 0 then set_nullt 1 S else S in
           blake256_update (sub_t0 (440 - buflen S) S) padding (440 - buflen S)
         else
           S ← blake256_update (sub_t0 (512 - buflen S) S) padding (512 - buflen S);
           S ← blake256_update (sub_t0 440 S) (drop 1 padding) 440;
           Some (set_nullt 1 S));
    S ← blake256_update S [pb] 8;
    Some (sub_t0 8 S).

Definition blake256_final_h (S : state) (pa pb : Z) : option (list Z) :=
  let lo := to_u32 (st_t0 S + buflen S) in
  let hi := if lo <? buflen S then to_u32 (st_t1 S + 1) else st_t1 S in
  let msglen := U32TO8 hi ++ U32TO8 lo in
  S ← blake_pad S pa pb;
  S ← blake256_update (sub_t0 64 S) msglen 64;
  Some (concat (map (fun i => U32TO8 (st_h S !!! i)) (seq 0 8))).

Definition blake256_final (S : state) : option (list Z) := blake256_final_h S 0x81 0x01.
Definition blake224_final (S : state) : option (list Z) := blake256_final_h S 0x80 0x00.

Definition blake256_hash (buf s : list Z) : option (list Z) :=
  S ← blake256_update (blake256_init buf) s (to_u64 (Z.of_nat (length s) * 8)); blake256_final S.
Definition blake224_hash (buf s : list Z) : option (list Z) :=
  S ← blake224_update (blake224_init buf) s (to_u64 (Z.of_nat (length s) * 8)); blake224_final S.

(** ** HMAC *)

Record hmac_state := Hmac { inner : state; outer : state }.

(** The pad after the loop over the key. *)
Definition key_pad (c : Z) (key : list Z) (keylen : nat) : list Z :=
  foldl (fun pad i => <[i := Z.lxor (pad !!! i) (key !!! i)]> pad) (repeat c 64) (seq 0 keylen).

(** [buf] and [buf'] are the memory of the two buffers. *)
Definition hmac_blake256_init (buf buf' key : list Z) : option hmac_state :=
  '(key, keylen) ← (if (64 <? length key)%nat then keyhash ← blake256_hash buf key; Some (keyhash, 32%nat)
                    else Some (key, length key));
  inner ← blake256_update (blake256_init buf) (key_pad 0x36 key keylen) 512;
  outer ← blake256_update (blake256_init buf') (key_pad 0x5c key keylen) 512;
  Some (Hmac inner outer).

Definition hmac_blake224_init (buf buf' key : list Z) : option hmac_state :=
  '(key, keylen) ← (if (64 <? length key)%nat then keyhash ← blake256_hash buf key; Some (keyhash, 28%nat)
                    else Some (key, length key));
  inner ← blake224_update (blake224_init buf) (key_pad 0x36 key keylen) 512;
  outer ← blake224_update (blake224_init buf') (key_pad 0x5c key keylen) 512;
  Some (Hmac inner outer).

Definition hmac_blake256_update (S : hmac_state) (data : list Z) (datalen : Z) : option hmac_state :=
  inner ← blake256_update (inner S) data datalen; Some (Hmac inner (outer S)).
Definition hmac_blake224_update (S : hmac_state) (data : list Z) (datalen : Z) : option hmac_state :=
  inner ← blake224_update (inner S) data datalen; Some (Hmac inner (outer S)).

Definition hmac_blake256_final (S : hmac_state) : option (list Z) :=
  ihash ← blake256_final (inner S);
  outer ← blake256_update (outer S) ihash 256;
  blake256_final outer.
Definition hmac_blake224_final (S : hmac_state) : option (list Z) :=
  ihash ← blake224_final (inner S);
  outer ← blake224_update (outer S) ihash 224;
  blake224_final outer.

Definition hmac_blake256_hash (buf buf' key s : list Z) : option (list Z) :=
  S ← hmac_blake256_init buf buf' key;
  S ← hmac_blake256_update S s (to_u64 (Z.of_nat (length s) * 8));
  hmac_blake256_final S.
Definition hmac_blake224_hash (buf buf' key s : list Z) : option (list Z) :=
  S ← hmac_blake224_init buf buf' key;
  S ← hmac_blake224_update S s (to_u64 (Z.of_nat (length s) * 8));
  hmac_blake224_final S.

(** * The specification of BLAKE-256, and the compression function

    The rounds as a step on the columns of a 4x4 matrix and one on its
    diagonals (WordMatrix.v), the padding, and the counter of message bits; the
    compression of Blake256.v computes the specified one. *)

(** ** Words of 32 bits *)

Definition u32 (x : Z) : Prop := 0 <= x < 2 ^ 32.
Definition u32s : nat -> list Z -> Prop := alls u32.
Definition matrix_ok : matrix -> Prop := matrix_all u32.
Definition quad_ok : quad -> Prop := quad_all u32.

Definition be_word (p : list Z) : Z := le_val (rev p).
Definition word_bytes (x : Z) : list Z := rev (le_bytes 4 x).

Lemma to_u32_range x : u32 (to_u32 x).
Proof. apply Z.mod_pos_bound. lia. Qed.

Lemma ROT_ok x n : u32 x -> 0 < n < 32 -> ROT x n = rotr 32 x n.
Proof. apply (rotr_shifts 32). Qed.

(** ** The specified rounds *)

(** [x] and [y] are the message words mixed with the constants. *)
Definition mix_rotations : quad := (16, 12, 8, 7).
Definition spec_G (x y : Z) (q : quad) : quad := mix 32 mix_rotations x y q.

(** The sum of the series of the arc tangent of 1/n, of [terms] terms from the
    [k]th on; [power] is n^-(2k+1) in the scale. *)
Fixpoint arctan (terms : nat) (n power k : Z) : Z :=
  match terms with
  | O => 0
  | S terms => power / (2 * k + 1) - arctan terms n (power / (n * n)) (k + 1)
  end.

(** Pi to 560 bits after the point, by the formula of Machin. *)
Definition scaled_pi : Z :=
  let one := 2 ^ 560 in 4 * (4 * arctan 130 5 (one / 5) 0 - arctan 40 239 (one / 239) 0).

(** The constants of the specification: the first 512 bits of the fractional
    part of pi. *)
Definition pi_words : list Z := map (fun i => scaled_pi / 2 ^ (560 - 32 * (Z.of_nat i + 1)) mod 2 ^ 32) (seq 0 16).

(** The permutations repeat after ten rounds. *)
Definition mixed (m : list Z) (r k k' : nat) : Z :=
  let s := spec_sigma !!! (r mod 10)%nat in Z.lxor (m !!! (s !!! k)) (pi_words !!! (s !!! k')).
Definition spec_Gi (m : list Z) (r i : nat) : quad -> quad :=
  spec_G (mixed m r (2 * i) (2 * i + 1)) (mixed m r (2 * i + 1) (2 * i)).

Definition spec_round (m : list Z) (v : matrix) (r : nat) : matrix := round_of (spec_Gi m r) v.

(** The counter of the message bits up to the end of the block is below 2^64. *)
Definition spec_compress (h s : list Z) (t : Z) (block : list Z) : list Z :=
  let m := map (fun i => be_word (take 4 (drop (4 * i) block))) (seq 0 16) in
  let t0 := t mod 2 ^ 32 in let t1 := t / 2 ^ 32 in
  let v := Matrix (take 4 h) (drop 4 h) (zip_with Z.lxor s (take 4 pi_words))
    (zip_with Z.lxor (take 4 (drop 4 pi_words)) [t0; t0; t1; t1]) in
  let v := foldl (spec_round m) v (seq 0 14) in
  zip_with Z.lxor (zip_with Z.lxor h (s ++ s)) (zip_with Z.lxor (row_a v ++ row_b v) (row_c v ++ row_d v)).

(** ** A round *)

Lemma rotations_ok : quad_all (fun n => 0 < n < 32) mix_rotations.
Proof. repeat split. Qed.

Lemma spec_G_ok x y q : quad_ok q -> quad_ok (spec_G x y q).
Proof. apply (mix_all 32), rotations_ok. Qed.

(** The macro on four words, with its wrap-around. *)
Definition code_G (x y : Z) : quad -> quad :=
  mix_with (fun a b z => to_u32 (a + to_u32 (z + b))) (fun a b => to_u32 (a + b)) ROT mix_rotations x y.

Lemma code_G_ok x y q : quad_ok q -> code_G x y q = spec_G x y q.
Proof.
  apply (mix_with_ok 32); [|reflexivity | exact ROT_ok | exact rotations_ok]. intros a b z.
  unfold to_u32, addw. change 4294967296 with (2 ^ 32). rewrite Z.add_mod_idemp_r, Z.add_mod_idemp_l by lia. f_equal. ring.
Qed.

(** The macro [i] of round [r] on a quadruple. *)
Definition code_Gi (m : list Z) (r i : nat) : quad -> quad :=
  let s := sigma !!! r in
  code_G (Z.lxor (m !!! (s !!! (2 * i)%nat)) (cst !!! (s !!! (2 * i + 1)%nat)))
    (Z.lxor (m !!! (s !!! (2 * i + 1)%nat)) (cst !!! (s !!! (2 * i)%nat))).

(** A macro call updates its four words. *)
Definition call_G (m : list Z) (r : nat) (v : list Z) (args : nat * (nat * nat * nat * nat)) : list Z :=
  let '(i, (a, b, c, d)) := args in G m r v (a, b, c, d, 2 * i)%nat.

Lemma G_put m r v i a b c d q (Hnd : NoDup [a; b; c; d]) (Hlen : Forall (fun j => (j < length v)%nat) [a; b; c; d]) :
  call_G m r (put_quad a b c d q v) (i, (a, b, c, d)) = put_quad a b c d (code_Gi m r i q) v.
Proof.
  destruct q as [[[p q] x] y]. cbv beta iota delta [call_G G code_Gi code_G mix_with mix_rotations].
  lazymatch goal with |- (let w := ?e in @?f w) = ?y => refine (let_step e _ f y eq_refl _); cbv beta end.
  do 7 put_step v a b c d Hnd Hlen. put_lookups v a b c d Hnd Hlen. cbv zeta. apply (put_insert v a b c d Hnd Hlen).
Qed.

(** The constants are those of the specification, and so are the permutations
    of the fourteen rounds. *)
Lemma cst_pi : pi_words = cst.
Proof. vm_compute. reflexivity. Qed.

Lemma sigma_repeats r : (r < 14)%nat -> sigma !!! r = spec_sigma !!! (r mod 10)%nat.
Proof. intros H. do 14 (destruct r as [|r]; [reflexivity|]). lia. Qed.

Lemma code_Gi_ok m r i q : (r < 14)%nat -> quad_ok q -> code_Gi m r i q = spec_Gi m r i q.
Proof. intros Hr Hq. unfold code_Gi, spec_Gi, mixed. rewrite cst_pi, sigma_repeats, code_G_ok by assumption. reflexivity. Qed.

Definition round_arg (x : nat * (nat * nat * nat * nat)) : nat * nat * nat * nat * nat :=
  let '(i, (a, b, c, d)) := x in (a, b, c, d, 2 * i)%nat.

Lemma blake_round_calls m v r : blake_round m v r = foldl (call_G m r) v (column_calls ++ diagonal_calls').
Proof.
  unfold blake_round. replace round_args with (map round_arg (column_calls ++ diagonal_calls')) by reflexivity.
  generalize (column_calls ++ diagonal_calls'). intros l. revert v. induction l as [|[i [[[a b] c] d]] l IH]; intros v; [reflexivity|].
  apply IH.
Qed.

Lemma blake_round_ok m v r : (r < 14)%nat -> matrix_ok v ->
  blake_round m (words v) r = words (spec_round m v r) /\ matrix_ok (spec_round m v r).
Proof.
  intros Hr Hv. split; [|apply round_all; [intros; apply spec_G_ok; assumption | exact Hv]].
  rewrite blake_round_calls.
  apply (call_round _ (code_Gi m r) (G_put m r) u32); auto using code_Gi_ok, spec_G_ok.
  intros i q. apply spec_G_ok.
Qed.

(** ** The compression *)

Lemma U8TO32_ok block i : is_bytes block -> (i + 4 <= length block)%nat ->
  U8TO32 block i = be_word (take 4 (drop i block)).
Proof.
  intros Hb Hl. unfold U8TO32. 
  assert (E : forall k, block !!! (i + k)%nat = drop i block !!! k)
    by (intros; rewrite !list_lookup_total_alt, lookup_drop; reflexivity).
  rewrite <- (Nat.add_0_r i) at 1. rewrite !E.
  assert (Hb' : is_bytes (drop i block)) by (apply Forall_drop; assumption).
  destruct (drop_4 (drop i block)) as (b0 & b1 & b2 & b3 & t & Ed); [rewrite length_drop; lia|].
  rewrite Ed in *. change (be_word _) with (le_val [b3; b2; b1; b0]). unfold is_bytes in Hb'. rewrite !Forall_cons in Hb'. destruct Hb' as (H0 & H1 & H2 & H3 & _).
  unfold is_byte in *. cbn [lookup_total list_lookup_total le_val].
  rewrite (Z.lor_comm _ b3), (Z.lor_comm _ (Z.shiftl b2 8)), (Z.lor_comm _ (Z.shiftl b1 16)), !Z.lor_assoc.
  rewrite (lor_shiftl_add b3), (lor_shiftl_add _ b1), (lor_shiftl_add _ b0); lia.
Qed.

Lemma blake_rounds_ok m v : matrix_ok v ->
  foldl (blake_round m) (words v) (seq 0 14) = words (foldl (spec_round m) v (seq 0 14)) /\
  matrix_ok (foldl (spec_round m) v (seq 0 14)).
Proof.
  assert (H : forall rs w, Forall (fun r => (r < 14)%nat) rs -> matrix_ok w ->
    foldl (blake_round m) (words w) rs = words (foldl (spec_round m) w rs) /\ matrix_ok (foldl (spec_round m) w rs)).
  { induction rs as [|r rs IH]; intros w Hrs Hw; [auto|]. apply Forall_cons in Hrs as [Hr Hrs].
    destruct (blake_round_ok m w r Hr Hw) as [E Hok]. cbn [foldl]. rewrite E. apply IH; assumption. }
  intros Hv. apply H; [apply (bool_decide_unpack _); reflexivity | exact Hv].
Qed.

(** What the code counts: the bits of the message, and nothing in a block of
    padding alone. *)
Definition counts (S : state) (t : Z) : Prop :=
  if nullt S =? 0 then u32 (st_t0 S) /\ u32 (st_t1 S) /\ t = st_t0 S + 2 ^ 32 * st_t1 S else t = 0.

Lemma initial_ok S t : u32s 8 (st_h S) -> u32s 4 (st_s S) -> counts S t ->
  let t0 := t mod 2 ^ 32 in let t1 := t / 2 ^ 32 in
  let v := Matrix (take 4 (st_h S)) (drop 4 (st_h S)) (zip_with Z.lxor (st_s S) (take 4 cst))
    (zip_with Z.lxor (take 4 (drop 4 cst)) [t0; t0; t1; t1]) in
  initial_v S = words v /\ matrix_ok v.
Proof.
  intros [Hh Lh] [Hs Ls] Ht t0 t1 v.
  assert (Ht2 : u32 t0 /\ u32 t1 /\
    initial_v S = take 8 (st_h S) ++ zip_with Z.lxor (st_s S) (take 4 cst) ++ zip_with Z.lxor (take 4 (drop 4 cst)) [t0; t0; t1; t1]).
  { destruct S as [h [|s0 [|s1 [|s2 [|s3 [|]]]]] k0 k1 n z buf]; try discriminate. unfold counts, initial_v in *.
    cbn [st_h st_s st_t0 st_t1 nullt] in *.
    destruct h as [|h0 [|h1 [|h2 [|h3 [|h4 [|h5 [|h6 [|h7 [|]]]]]]]]]; try discriminate.
    destruct (z =? 0); [|subst t; repeat split; cbv; congruence].
    destruct Ht as (H0 & H1 & ->). unfold u32 in *.
    assert (t0 = k0) as ->; [|assert (t1 = k1) as ->; [|split_and!; try lia; reflexivity]]. 
    - subst t0. rewrite Z.mul_comm, Z.mod_add, Z.mod_small by lia. reflexivity.
    - subst t1. rewrite Z.mul_comm, Z.div_add, Z.div_small by lia. reflexivity. }
  destruct Ht2 as (H0 & H1 & ->). clearbody t0 t1. 
  assert (Hc : Forall u32 cst) by (unfold cst, u32; repeat (apply Forall_cons; split; [lia|]); apply Forall_nil; exact I).
  subst v. rewrite (take_ge _ 8) by lia. split.
  - unfold words. cbn [row_a row_b row_c row_d]. rewrite (app_assoc (take 4 _)), take_drop. reflexivity.
  - split_and!; cbn [row_a row_b row_c row_d]; [apply (alls_take _ 8); [lia | split; assumption] | apply (alls_drop _ 8); split; assumption |..];
      apply (alls_zip_lxor 32); try lia.
    + split; assumption.
    + split; [apply Forall_take; exact Hc | reflexivity].
    + split; [apply Forall_take, Forall_drop; exact Hc | reflexivity].
    + split; [auto | reflexivity].
Qed.

Lemma compress_ok S block t : u32s 8 (st_h S) -> u32s 4 (st_s S) -> counts S t -> is_bytes block -> (64 <= length block)%nat ->
  blake256_compress S block = set_h (spec_compress (st_h S) (st_s S) t block) S /\
  u32s 8 (spec_compress (st_h S) (st_s S) t block).
Proof.
  intros Hh Hs Ht Hb Hl. destruct (initial_ok S t Hh Hs Ht) as [Ev Hv]. unfold blake256_compress, spec_compress. rewrite cst_pi.
  assert (Em : map (fun i => U8TO32 block (i * 4)) (seq 0 16) = map (fun i => be_word (take 4 (drop (4 * i) block))) (seq 0 16)).
  { apply map_ext_in. intros i Hi%in_seq. rewrite U8TO32_ok by (assumption || lia). rewrite Nat.mul_comm. reflexivity. }
  rewrite Em, Ev. clear Em Ev. cbv zeta. set (m := map _ _). cbv zeta in Hv. set (v := Matrix _ _ _ _) in *. clearbody m v.
  destruct (blake_rounds_ok m v Hv) as [-> Hw]. set (w := foldl _ _ _) in *. clearbody w.
  destruct S as [h [|s0 [|s1 [|s2 [|s3 [|]]]]] k0 k1 n z buf]; try (destruct Hs; discriminate). cbn [st_h st_s] in *.
  destruct h as [|h0 [|h1 [|h2 [|h3 [|h4 [|h5 [|h6 [|h7 [|]]]]]]]]]; try (destruct Hh; discriminate).
  split; [|destruct Hw as (? & ? & ? & ?); repeat apply (alls_zip_lxor 32); try lia; try apply (alls_app _ 4 4); assumption].
  f_equal. destruct (matrix_all_rows u32 w Hw). cbn. rewrite !lxor_pairs. reflexivity.
Qed.

(** Only the first 64 bytes count. *)
Lemma spec_compress_take h s t block : spec_compress h s t block = spec_compress h s t (take 64 block).
Proof.
  assert (E : map (fun i => be_word (take 4 (drop (4 * i) block))) (seq 0 16) =
    map (fun i => be_word (take 4 (drop (4 * i) (take 64 block)))) (seq 0 16)).
  { apply map_ext_in. intros i Hi%in_seq. rewrite !take_drop_commute, take_take. do 3 f_equal. lia. }
  unfold spec_compress. rewrite <- E. reflexivity.
Qed.
