(* ===== verification/BlakeHash.v ===== *)
(** * BLAKE-256: the hash of a message

    The specified padding and counters, what a state of the incremental hash
    holds of its message, and what the update and the end of the hash do to it. *)

From S2P Require Import Prelude.
From S2P Require Import CInt.
From S2P Require Import Bytes.
From S2P Require Import Job.
From S2P Require Import Nonce.
From S2P Require Import Blocks.
From S2P Require Import Blake256.

(** ** The specified hash *)

(** No salt is used. *)
Definition salt : list Z := [0; 0; 0; 0].
Definition absorb (h : list Z) (tbs : list (Z * list Z)) : list Z := foldl (fun h tb => spec_compress h salt tb.1 tb.2) h tbs.
Definition numbered (t : nat -> Z) (bs : list (list Z)) : list (Z * list Z) := zip (map t (seq 0 (length bs))) bs.

(** A one, zeros up to byte 55 of a block, a bit that tells BLAKE-256 from
    BLAKE-224, and the length. *)
Definition pad_bytes (one : Z) (n : nat) : list Z :=
  let r := (n mod 64)%nat in
  if decide (r = 55%nat) then [0x80 + one]
  else 0x80 :: repeat 0 ((54 + 64 - r) mod 64) ++ [one].
Definition be64 (x : Z) : list Z := rev (le_bytes 8 x).
Definition padded (one : Z) (m : list Z) : list Z := m ++ pad_bytes one (length m) ++ be64 (8 * Z.of_nat (length m)).

(** The bits of the message up to the end of a block, when it holds any. *)
Definition counter (n i : nat) : Z :=
  if (64 * i <? n)%nat then Z.min (512 * Z.of_nat (S i)) (8 * Z.of_nat n) else 0.

Definition spec_blake (h : list Z) (one : Z) (m : list Z) : list Z :=
  let p := padded one m in
  concat (map word_bytes (absorb h (numbered (counter (length m)) (chunks 64 (length p / 64) p)))).

(** ** Blocks *)

Lemma numbered_snoc t bs b : numbered t (bs ++ [b]) = numbered t bs ++ [(t (length bs), b)].
Proof.
  unfold numbered. rewrite length_app, seq_app, map_app, zip_with_app by (rewrite length_map, length_seq; reflexivity).
  reflexivity.
Qed.

Lemma numbered_ext t t' bs : (forall i, (i < length bs)%nat -> t i = t' i) -> numbered t bs = numbered t' bs.
Proof. intros H. unfold numbered. f_equal. apply map_ext_in. intros i Hi%in_seq. apply H. lia. Qed.

(** ** What a state holds *)

Definition full_count (i : nat) : Z := 512 * Z.of_nat (S i).

(** Whole blocks are absorbed. *)
Record absorbed (h : list Z) (S : state) (bs : list (list Z)) : Prop := {
  ab_blocks : blocks_of 64 bs;
  ab_h : st_h S = absorb h (numbered full_count bs);
  ab_u32 : u32s 8 (st_h S);
  ab_s : st_s S = salt;
  ab_null : nullt S = 0;
  ab_t0 : u32 (st_t0 S);
  ab_t1 : u32 (st_t1 S);
  ab_t : st_t0 S + 2 ^ 32 * st_t1 S = 512 * Z.of_nat (length bs)
}.

(** Less than a block is in the buffer. *)
Record buffered (S : state) (tail : list Z) : Prop := {
  bf_short : (length tail < 64)%nat;
  bf_len : buflen S = 8 * Z.of_nat (length tail);
  bf_buf : in_buffer 64 (st_buf S) tail
}.

(** ** Small updates *)

Lemma update_blocks_short fuel S data n : n < 512 -> update_blocks (1 + fuel) S data n = Some (S, data, n).
Proof. intros H. cbn [update_blocks Nat.add]. destruct (Z.leb_spec 512 n); [lia | reflexivity]. Qed.

Lemma bits_to_bytes n : Z.shiftr (8 * Z.of_nat n) 3 = Z.of_nat n.
Proof. rewrite Z.shiftr_div_pow2 by lia. change (2 ^ 3) with 8. rewrite Z.mul_comm, Z.div_mul; lia. Qed.

Lemma low_six_bits n : Z.land (Z.of_nat n) 0x3F = Z.of_nat (n mod 64).
Proof. change 0x3F with (Z.ones 6). rewrite Z.land_ones by lia. change (2 ^ 6) with (Z.of_nat 64). rewrite Nat2Z.inj_mod. reflexivity. Qed.

(** What the buffer holds after the rest of an update; nothing, when there is no rest. *)
Definition rest_tail (tail : list Z) (d : list Z) : list Z := if decide (d = []) then [] else tail ++ d.
Definition put_rest (S : state) (tail d : list Z) : state :=
  set_buf (8 * Z.of_nat (length (rest_tail tail d))) (if decide (d = []) then st_buf S else memcpy (st_buf S) (length tail) d) S.

Lemma update_rest_ok S tail data n :
  in_buffer 64 (st_buf S) tail -> is_bytes data -> (n <= length data)%nat -> (length tail + n < 64)%nat ->
  update_rest S (Z.of_nat (length tail)) data (8 * Z.of_nat n) = Some (put_rest S tail (take n data)) /\
  buffered (put_rest S tail (take n data)) (rest_tail tail (take n data)).
Proof.
  intros Hb Hd Hn Hs. pose proof (length_take data n) as Hl.
  unfold update_rest, put_rest, rest_tail. rewrite bits_to_bytes, !Nat2Z.id.
  destruct (Z.ltb_spec 0 (8 * Z.of_nat n)) as [Hp|Hz].
  - rewrite !decide_False by (intros E; rewrite E in Hl; cbn in Hl; lia). rewrite length_app, Hl, Nat.min_l by lia. split.
    + destruct (_ || _) eqn:E. { apply orb_true_iff in E as [E%Z.ltb_lt|E%Z.ltb_lt]; lia. }
      do 2 f_equal. rewrite Z.shiftl_mul_pow2 by lia. lia.
    + constructor; cbn [set_buf buflen st_buf]; rewrite ?length_app, ?Hl, ?Nat.min_l by lia; [lia | reflexivity |].
      apply buffer_append; [assumption | apply Forall_take; assumption | lia].
  - replace n with 0%nat by lia. rewrite take_0. cbn [decide]. rewrite !decide_True by reflexivity. split; [reflexivity|].
    constructor; cbn [set_buf buflen st_buf length]; [lia | reflexivity|]. destruct Hb as (_ & Hb & _). split_and!; [constructor | exact Hb | reflexivity].
Qed.

(** Data that does not fill the buffer. *)
Lemma no_fill_update S tail data n : buffered S tail -> tail = [] \/ (n mod 64 < 64 - length tail)%nat ->
  blake256_update S data (8 * Z.of_nat n) =
    ('(S, data, datalen) ← update_blocks (1 + length data) S data (8 * Z.of_nat n);
     update_rest S (Z.of_nat (length tail)) data datalen).
Proof.
  intros [Hsh Hlen Hbuf] Hn. unfold blake256_update. rewrite Hlen, !bits_to_bytes, low_six_bits.
  destruct (_ && _) eqn:E; [|reflexivity]. apply andb_true_iff in E as [E1%negb_true_iff%Z.eqb_neq E2%Z.leb_le].
  destruct Hn as [->|Hn]; [cbn in E1; lia | lia].
Qed.

Lemma small_update S tail data n :
  buffered S tail -> is_bytes data -> (n <= length data)%nat -> (length tail + n < 64)%nat ->
  blake256_update S data (8 * Z.of_nat n) = Some (put_rest S tail (take n data)) /\
  buffered (put_rest S tail (take n data)) (rest_tail tail (take n data)).
Proof.
  intros Hbf Hd Hn Hs. rewrite (no_fill_update S tail) by (auto; right; rewrite Nat.mod_small; lia).
  rewrite update_blocks_short by lia. cbn [mbind option_bind]. destruct Hbf. apply update_rest_ok; assumption.
Qed.

(** Data that fills the buffer, and then some. *)
Lemma fill_update S tail data n :
  buffered S tail -> tail <> [] -> is_bytes data -> (n <= length data)%nat -> 8 * Z.of_nat n < 2 ^ 64 ->
  let fill := (64 - length tail)%nat in
  (fill <= n mod 64)%nat ->
  let b := tail ++ take fill data in
  blake256_update S data (8 * Z.of_nat n) =
    ('(S, data, datalen) ← update_blocks (1 + length (drop fill data)) (blake256_compress (count_block (set_buf (buflen S) b S)) b)
       (drop fill data) (8 * Z.of_nat (n - fill));
     update_rest S 0 data datalen) /\ bytes_of 64 b.
Proof.
  intros [Hsh Hlen Hbuf] Htl Hd Hn Hlt fill Hf b. assert (0 < length tail)%nat by (destruct tail; [contradiction | cbn; lia]).
  pose proof (Nat.Div0.mod_le n 64) as Hm. pose proof (length_take data fill) as Hl.
  destruct (buffer_append 64 (st_buf S) tail (take fill data)) as (Hbb & [_ Hl'] & Ht'); [assumption | apply Forall_take; assumption | lia|].
  fold b in Hbb, Ht'. assert (Lb : length b = 64%nat) by (unfold b; rewrite length_app; lia).
  rewrite Lb, take_ge in Ht' by lia. split; [|split; assumption].
  unfold blake256_update. rewrite Hlen, !bits_to_bytes, low_six_bits.
  destruct (_ && _) eqn:E.
  2:{ apply andb_false_iff in E as [E%negb_false_iff%Z.eqb_eq|E%Z.leb_gt]; lia. }
  destruct (_ || _) eqn:E2. { apply orb_true_iff in E2 as [E2%Z.ltb_lt|E2%Z.ltb_lt]; lia. }
  cbn [mbind option_bind]. replace (64 - Z.of_nat (length tail)) with (Z.of_nat fill) by lia.
  rewrite !Nat2Z.id, Ht'. replace (to_u64 _) with (8 * Z.of_nat (n - fill)); [|rewrite Z.shiftl_mul_pow2 by lia; unfold to_u64; rewrite Z.mod_small; lia].
  reflexivity.
Qed.

(** ** Whole blocks *)

Lemma count_block_ok h S bs : absorbed h S bs -> 512 * Z.of_nat (1 + length bs) < 2 ^ 64 ->
  let S' := count_block S in
  counts S' (full_count (length bs)) /\ u32 (st_t0 S') /\ u32 (st_t1 S') /\
  st_t0 S' + 2 ^ 32 * st_t1 S' = full_count (length bs).
Proof.
  intros Ha Hlt. destruct Ha as [_ _ _ _ Hnull Ht0 Ht1 Ht].
  assert (H : u32 (st_t0 (count_block S)) /\ u32 (st_t1 (count_block S)) /\
    st_t0 (count_block S) + 2 ^ 32 * st_t1 (count_block S) = full_count (length bs)).
  { unfold full_count, count_block, u32, to_u32 in *. cbn [st_t0 st_t1].
    destruct (Z.eqb_spec ((st_t0 S + 512) mod 4294967296) 0); Z.to_euclidean_division_equations; lia. }
  cbv zeta. split; [|exact H]. unfold counts. cbn [count_block nullt]. rewrite Hnull. rewrite Z.eqb_refl. destruct H as (? & ? & ->). auto.
Qed.

Lemma blake_absorb_block h S bs block :
  absorbed h S bs -> is_bytes block -> (64 <= length block)%nat -> 512 * Z.of_nat (1 + length bs) < 2 ^ 64 ->
  absorbed h (blake256_compress (count_block S) block) (bs ++ [take 64 block]).
Proof.
  intros Ha Hb Hl Hlt. destruct (count_block_ok h S bs Ha Hlt) as (Hc & Hu0 & Hu1 & Ht).
  destruct Ha as [Hbs Hh Hu Hs Hnull _ _ _].
  destruct (compress_ok (count_block S) block (full_count (length bs))) as [-> Hu']; try assumption.
  { cbn [count_block st_s]. rewrite Hs. split; [|reflexivity]. repeat (apply Forall_cons; split; [unfold u32; lia|]); apply Forall_nil; exact I. }
  constructor; cbn [set_h count_block st_h st_s nullt st_t0 st_t1] in *; try assumption.
  - apply Forall_app; split; [assumption|]. repeat constructor; [apply Forall_take; assumption | rewrite length_take; lia].
  - rewrite numbered_snoc. unfold absorb in *. rewrite foldl_app, <- Hh. cbn [foldl fst snd]. rewrite Hs.
    apply spec_compress_take.
  - rewrite length_app. cbn [length]. rewrite Nat.add_comm. exact Ht.
Qed.

Lemma update_blocks_ok h : forall fuel data S bs n,
  absorbed h S bs -> is_bytes data -> (n <= length data)%nat -> (n < fuel)%nat ->
  512 * Z.of_nat (length bs) + 8 * Z.of_nat n < 2 ^ 64 ->
  exists S', update_blocks fuel S data (8 * Z.of_nat n) = Some (S', drop (64 * (n / 64)) data, 8 * Z.of_nat (n mod 64)) /\
    absorbed h S' (bs ++ chunks 64 (n / 64) data) /\ buflen S' = buflen S /\ st_buf S' = st_buf S.
Proof.
  induction fuel as [|fuel IH]; intros data S bs n Ha Hb Hn Hf Hlt; [lia|]. cbn [update_blocks].
  destruct (Z.leb_spec 512 (8 * Z.of_nat n)).
  - destruct (Nat.ltb_spec (length data) 64); [lia|].
    assert (Hq : (n / 64 = 1 + (n - 64) / 64 /\ n mod 64 = (n - 64) mod 64)%nat).
    { replace n with ((n - 64) + 1 * 64)%nat at 1 3 by lia. rewrite Nat.div_add, Nat.Div0.mod_add by lia. lia. }
    destruct Hq as [-> ->].
    destruct (IH (drop 64 data) (blake256_compress (count_block S) data) (bs ++ [take 64 data]) (n - 64)%nat) as (S' & E & Ha' & El & Eb);
      rewrite ?length_drop, ?length_app; cbn [length]; try lia.
    { apply blake_absorb_block; try assumption; lia. }
    { apply Forall_drop. assumption. }
    exists S'. rewrite drop_drop in E. replace (8 * Z.of_nat n - 512) with (8 * Z.of_nat (n - 64)) by lia.
    rewrite E. rewrite <- app_assoc in Ha'. split_and!; [do 4 f_equal; lia | exact Ha' | exact El | exact Eb].
  - rewrite Nat.div_small, Nat.mod_small by lia. exists S. cbn [chunks]. rewrite app_nil_r, drop_0. auto.
Qed.

(** ** An update *)

(** The whole blocks and the rest after an update. *)
Definition after_update (bs : list (list Z)) (tail d : list Z) : list (list Z) * list Z :=
  let fill := (64 - length tail)%nat in
  if decide (tail = [] \/ (length d mod 64 < fill)%nat) then
    (bs ++ chunks 64 (length d / 64) d, rest_tail tail (drop (64 * (length d / 64)) d))
  else
    let d' := drop fill d in
    (bs ++ [tail ++ take fill d] ++ chunks 64 (length d' / 64) d', drop (64 * (length d' / 64)) d').

Record holds (h : list Z) (S : state) (bs : list (list Z)) (tail : list Z) : Prop := {
  ho_absorbed : absorbed h S bs;
  ho_buffered : buffered S tail
}.

Lemma absorbed_put_rest h S bs tail d : absorbed h S bs -> absorbed h (put_rest S tail d) bs.
Proof. intros []. constructor; assumption. Qed.

Lemma rest_tail_nil d : rest_tail [] d = d.
Proof. unfold rest_tail. case_decide; [congruence | reflexivity]. Qed.

(** The loop and what follows it. *)
Lemma loop_ok h S bs tail d :
  absorbed h S bs -> in_buffer 64 (st_buf S) tail -> is_bytes d -> (length tail + length d mod 64 < 64)%nat ->
  512 * Z.of_nat (length bs) + 8 * Z.of_nat (length d) < 2 ^ 64 ->
  exists S', ('(S, data, datalen) ← update_blocks (1 + length d) S d (8 * Z.of_nat (length d));
      update_rest S (Z.of_nat (length tail)) data datalen) = Some S' /\
    holds h S' (bs ++ chunks 64 (length d / 64) d) (rest_tail tail (drop (64 * (length d / 64)) d)).
Proof.
  intros Ha Hb Hd Hl Hlt.
  destruct (update_blocks_ok h (1 + length d) d S bs (length d)) as (S' & -> & Ha' & _ & Eb); [assumption..|lia|lia|assumption|].
  cbn [mbind option_bind]. set (rest := drop _ _). 
  assert (Lr : length rest = (length d mod 64)%nat) by (unfold rest; rewrite length_drop; pose proof (Nat.div_mod_eq (length d) 64); lia).
  rewrite <- Eb in Hb. rewrite <- Lr in Hl |- *.
  destruct (update_rest_ok S' tail rest (length rest)) as [E Hbf]; [assumption|apply Forall_drop; assumption|lia|lia|].
  rewrite take_ge in E, Hbf by lia. rewrite E. eexists. split; [reflexivity|]. split; [apply absorbed_put_rest; assumption | assumption].
Qed.

Lemma update_ok h S bs tail d :
  holds h S bs tail -> is_bytes d -> 512 * Z.of_nat (1 + length bs) + 8 * Z.of_nat (length d) < 2 ^ 64 ->
  exists S', blake256_update S d (8 * Z.of_nat (length d)) = Some S' /\ holds h S' (after_update bs tail d).1 (after_update bs tail d).2.
Proof.
  intros [Ha Hbf] Hd Hlt. pose proof (Nat.mod_upper_bound (length d) 64 ltac:(lia)) as Hm. unfold after_update. case_decide as Hc.
  - rewrite (no_fill_update S tail) by assumption. apply loop_ok; [assumption | apply Hbf | assumption | | lia].
    destruct Hc as [->|Hc]; cbn [length]; lia.
  - apply Decidable.not_or in Hc as [Hne Hc]. assert (Hc' : (64 - length tail <= length d mod 64)%nat) by lia.
    destruct (fill_update S tail d (length d) Hbf Hne Hd) as [-> Hb]; [lia | lia | exact Hc' |].
    pose proof (Nat.Div0.mod_le (length d) 64). set (fill := (64 - length tail)%nat) in *. set (b := tail ++ take fill d) in *.
    replace (length d - fill)%nat with (length (drop fill d)) by (rewrite length_drop; reflexivity).
    assert (Ha' : absorbed h (blake256_compress (count_block (set_buf (buflen S) b S)) b) (bs ++ [take 64 b])).
    { destruct Hb. apply blake_absorb_block; [destruct Ha; constructor; assumption | assumption | lia | lia]. }
    rewrite take_ge in Ha' by (destruct Hb; lia).
    destruct (loop_ok h (blake256_compress (count_block (set_buf (buflen S) b S)) b) (bs ++ [b]) [] (drop fill d)) as (S' & E & Ho).
    + assumption.
    + split_and!; [constructor | exact Hb | reflexivity].
    + apply Forall_drop. assumption.
    + cbn [length]. apply Nat.mod_upper_bound. lia.
    + rewrite length_app, length_drop. cbn [length]. lia.
    + exists S'. split; [exact E|]. rewrite rest_tail_nil, <- app_assoc in Ho. exact Ho.
Qed.

(** * BLAKE-256: the end of the hash

    The padding of what a state holds, with the counters the code sets back. *)

(** ** Words and lengths *)

Lemma U32TO8_ok v : U32TO8 v = word_bytes v.
Proof.
  unfold U32TO8, word_bytes, to_u8. rewrite !Z.shiftr_div_pow2 by lia. cbn [le_bytes rev app].
  rewrite !Z.div_div by lia. reflexivity.
Qed.

Lemma be64_ok lo hi : u32 lo -> U32TO8 hi ++ U32TO8 lo = be64 (lo + 2 ^ 32 * hi).
Proof.
  intros Hlo. rewrite !U32TO8_ok. unfold word_bytes, be64. rewrite <- rev_app_distr. f_equal.
  rewrite (le_bytes_add 4 4). change (2 ^ (8 * Z.of_nat 4)) with (2 ^ 32). unfold u32 in Hlo. f_equal.
  - apply le_bytes_mod. change (2 ^ (8 * Z.of_nat 4)) with (2 ^ 32). rewrite Z.mul_comm, Z.mod_add by lia. reflexivity.
  - f_equal. rewrite Z.mul_comm, Z.div_add, Z.div_small; lia.
Qed.

(** ** States that differ in the counter *)

Record near (S : state) (k z : Z) (S' : state) (tail : list Z) : Prop := {
  nr_h : st_h S' = st_h S;
  nr_s : st_s S' = st_s S;
  nr_t1 : st_t1 S' = st_t1 S;
  nr_null : nullt S' = z;
  nr_t0 : st_t0 S' = to_u32 (st_t0 S - k);
  nr_buffered : buffered S' tail
}.

Lemma near_sub S k z S' tail n : near S k z S' tail -> near S (k + n) z (sub_t0 n S') tail.
Proof.
  intros [? ? ? ? Ht []]. constructor; try assumption; [|constructor; assumption].
  cbn [sub_t0 set_t0 st_t0]. rewrite Ht. unfold to_u32. rewrite Zminus_mod_idemp_l. f_equal. lia.
Qed.

Lemma near_null S k z S' tail z' : near S k z S' tail -> near S k z' (set_nullt z' S') tail.
Proof. intros [? ? ? ? ? []]. constructor; try assumption; [reflexivity | constructor; assumption]. Qed.

Lemma near_small S k z S' tail data n :
  near S k z S' tail -> is_bytes data -> (0 < n <= length data)%nat -> (length tail + n < 64)%nat ->
  exists S'', blake256_update S' data (8 * Z.of_nat n) = Some S'' /\ near S k z S'' (tail ++ take n data).
Proof.
  intros [? ? ? ? ? Hb] Hd Hn Hs. destruct (small_update S' tail data n Hb Hd) as [E Hb']; [lia | assumption |].
  eexists. split; [exact E|]. unfold rest_tail in Hb'. rewrite decide_False in Hb'.
  2:{ intros Et. apply (f_equal length) in Et. rewrite length_take in Et. cbn in Et. lia. }
  constructor; assumption.
Qed.

(** Filling the buffer. *)
Lemma near_fill S k z S' tail data n t :
  near S k z S' tail -> (0 < length tail)%nat -> is_bytes data -> (0 < n <= length data)%nat -> (length tail + n = 64)%nat ->
  u32s 8 (st_h S) -> st_s S = salt -> counts (count_block S') t ->
  exists S'', blake256_update S' data (8 * Z.of_nat n) = Some S'' /\
    st_h S'' = spec_compress (st_h S) salt t (tail ++ take n data) /\ u32s 8 (st_h S'') /\ st_s S'' = salt /\
    near S'' 0 (nullt S'') S'' [].
Proof.
  intros [Eh Es _ _ _ Hb] Htl Hd Hn Hs Hu Esalt Hc.
  destruct (fill_update S' tail data n Hb) as [E Hbb]; [intros ->; cbn in Htl; lia | assumption | lia | lia | rewrite Nat.mod_small; lia |].
  replace (64 - length tail)%nat with n in * by lia. set (b := tail ++ take n data) in *.
  rewrite Nat.sub_diag, update_blocks_short in E by lia. cbn [mbind option_bind] in E.
  destruct (compress_ok (count_block (set_buf (buflen S') b S')) b t) as [Ec Hu']; cbn [count_block set_buf st_h st_s]; rewrite ?Eh, ?Es, ?Esalt;
    try assumption; try apply Hbb; try (destruct Hbb; lia).
  { split; [|reflexivity]. repeat (apply Forall_cons; split; [unfold u32; lia|]); apply Forall_nil; exact I. }
  cbn [count_block set_buf st_h st_s] in Ec, Hu'. rewrite Eh, Es, Esalt in Ec, Hu'. rewrite Ec in E.
  eexists. split; [exact E|]. split_and!; [reflexivity | assumption | cbn; congruence |].
  constructor; try reflexivity.
  - rewrite Z.sub_0_r. symmetry. apply Z.mod_small, to_u32_range.
  - constructor; [cbn; lia | reflexivity | split_and!; [constructor | exact Hbb | reflexivity]].
Qed.

Lemma near_refl h S bs tail : holds h S bs tail -> near S 0 0 S tail.
Proof.
  intros [[] Hb]. constructor; try reflexivity; try assumption. unfold to_u32. rewrite Z.sub_0_r. symmetry. apply Z.mod_small. assumption.
Qed.

(** The code sets the counter back by what the padding adds to it. *)
Lemma near_counts h S bs (tail : list Z) k S' tail' :
  absorbed h S bs -> near S k 0 S' tail' -> (0 < length tail < 64)%nat -> k + 8 * Z.of_nat (length tail) = 512 ->
  counts (count_block S') (512 * Z.of_nat (length bs) + 8 * Z.of_nat (length tail)).
Proof.
  intros [_ _ _ _ _ H0 H1 Ht] [_ _ E1 En E0 _] Htl Hk. unfold counts. cbn [count_block nullt]. rewrite En, Z.eqb_refl.
  assert (Hr : to_u32 (to_u32 (st_t0 S - k) + 512) = st_t0 S + 8 * Z.of_nat (length tail)).
  { unfold to_u32, u32 in *. rewrite Z.add_mod_idemp_l by lia. rewrite Z.mod_small; lia. }
  cbn [count_block st_t0 st_t1]. rewrite E0, Hr, E1. unfold u32 in *.
  destruct (Z.eqb_spec (st_t0 S + 8 * Z.of_nat (length tail)) 0); lia.
Qed.

Lemma counts_null S t : nullt S <> 0 -> t = 0 -> counts (count_block S) t.
Proof. intros Hn ->. unfold counts. cbn [count_block nullt]. destruct (Z.eqb_spec (nullt S) 0); [contradiction | reflexivity]. Qed.

(** ** The padding *)

(** All blocks but the last, which lacks the length, are absorbed. *)
Definition padded_to (h m : list Z) (one : Z) (S' : state) : Prop :=
  exists S k z tail bs,
    near S k z S' tail /\ length tail = 56%nat /\ u32s 8 (st_h S) /\ st_s S = salt /\ blocks_of 64 bs /\
    st_h S = absorb h (numbered (counter (length m)) bs) /\
    counts (count_block (sub_t0 64 S')) (counter (length m) (length bs)) /\
    m ++ pad_bytes one (length m) = concat bs ++ tail.

Lemma take_repeat n k (x : Z) : take n (repeat x k) = repeat x (n `min` k).
Proof. revert n. induction k as [|k IH]; intros [|n]; cbn; rewrite ?IH; reflexivity. Qed.

Section pad.
Context (h : list Z) (S : state) (bs : list (list Z)) (tail : list Z) (one : Z).
Context (Hh : holds h S bs tail) (Hone : is_byte (0x80 + one) /\ is_byte one).

Let m := concat bs ++ tail.

Lemma message_length : length m = (64 * length bs + length tail)%nat.
Proof. unfold m. rewrite length_app, (blocks_length 64) by apply Hh. reflexivity. Qed.

Lemma message_rest : (length m mod 64 = length tail)%nat.
Proof.
  destruct Hh as [_ []]. rewrite message_length, Nat.mul_comm, Nat.add_comm, Nat.Div0.mod_add. apply Nat.mod_small. assumption.
Qed.

Lemma absorbed_counter : st_h S = absorb h (numbered (counter (length m)) bs).
Proof.
  destruct Hh as [[_ -> _ _ _ _ _ _] _]. f_equal. apply numbered_ext. intros i Hi. unfold counter, full_count.
  rewrite message_length. destruct (Nat.ltb_spec (64 * i) (64 * length bs + length tail)); lia.
Qed.

Lemma last_counter : tail <> [] -> counter (length m) (length bs) = 512 * Z.of_nat (length bs) + 8 * Z.of_nat (length tail).
Proof.
  intros Hne. destruct Hh as [_ []]. assert (0 < length tail)%nat by (destruct tail; [contradiction | cbn; lia]).
  unfold counter. rewrite message_length. destruct (Nat.ltb_spec (64 * length bs) (64 * length bs + length tail)); lia.
Qed.

Lemma null_counter k : (length m <= 64 * k)%nat -> counter (length m) k = 0.
Proof. intros H. unfold counter. destruct (Nat.ltb_spec (64 * k) (length m)); lia. Qed.

(** One byte of padding. *)
Lemma pad_one : length tail = 55%nat -> exists S', blake_pad S (0x80 + one) one = Some S' /\ padded_to h m one S'.
Proof.
  intros Hl. pose proof message_rest as Hr. unfold blake_pad. destruct Hh as [Ha Hb]. rewrite (bf_len _ _ Hb), Hl. cbn [Z.eqb].
  destruct (near_small S (0 + 8) 0 (sub_t0 8 S) tail [0x80 + one] 1) as (S' & E & Hn).
  { apply near_sub, (near_refl h S bs), Hh. }
  { repeat constructor; apply Hone. } { cbn; lia. } { lia. }
  exists S'. split; [exact E|]. exists S, 8, 0, (tail ++ [0x80 + one]), bs.
  split_and!; [exact Hn | rewrite length_app; cbn; lia | apply Ha | apply Ha | apply Ha | apply absorbed_counter | |].
  - rewrite last_counter by (intros ->; discriminate). apply (near_counts h S bs tail 72 _ (tail ++ [0x80 + one])); [exact Ha | apply (near_sub S 8 0 S' _ 64 Hn) | lia | lia].
  - unfold pad_bytes. rewrite Hr, Hl, decide_True by reflexivity. symmetry. apply app_assoc.
Qed.

Lemma padding_bytes k : is_bytes (drop k padding).
Proof. apply Forall_drop. apply (bool_decide_unpack _). reflexivity. Qed.

(** The zeros and the last bit, in the block of the end of the message. *)
Lemma pad_short : (length tail < 55)%nat -> exists S', blake_pad S (0x80 + one) one = Some S' /\ padded_to h m one S'.
Proof.
  intros Hl. pose proof message_rest as Hr. unfold blake_pad. destruct Hh as [Ha Hb]. rewrite (bf_len _ _ Hb).
  destruct (Z.eqb_spec (8 * Z.of_nat (length tail)) 440); [lia|]. destruct (Z.ltb_spec (8 * Z.of_nat (length tail)) 440); [|lia].
  set (z := if decide (tail = []) then 1 else 0).
  set (S0 := if 8 * Z.of_nat (length tail) =? 0 then set_nullt 1 S else S).
  assert (Hn0 : near S 0 z S0 tail).
  { pose proof (near_refl h S bs tail Hh) as Hn. subst S0 z. destruct (Z.eqb_spec (8 * Z.of_nat (length tail)) 0).
    - rewrite decide_True by (apply length_zero_iff_nil; lia). apply (near_null S 0 0), Hn.
    - rewrite decide_False by (intros ->; cbn in *; lia). exact Hn. }
  rewrite (bf_len _ _ (nr_buffered _ _ _ _ _ Hn0)). replace (440 - 8 * Z.of_nat (length tail)) with (8 * Z.of_nat (55 - length tail)) by lia.
  set (k := 8 * Z.of_nat (55 - length tail)).
  destruct (near_small S (0 + k) z (sub_t0 k S0) tail padding (55 - length tail)) as (S1 & E1 & Hn1).
  { apply near_sub, Hn0. } { apply (padding_bytes 0). } { change (length padding) with 64%nat. lia. } { lia. }
  fold k in E1. rewrite E1. cbn [mbind option_bind]. set (t1 := tail ++ take (55 - length tail) padding) in *.
  assert (L1 : length t1 = 55%nat) by (unfold t1; rewrite length_app, length_take; change (length padding) with 64%nat; lia).
  destruct (near_small S (0 + k) z S1 t1 [one] 1) as (S2 & E2 & Hn2);
    [exact Hn1 | repeat constructor; apply Hone | cbn; lia | lia |].
  change (8 * Z.of_nat 1) with 8 in E2. rewrite E2. cbn [mbind option_bind].
  exists (sub_t0 8 S2). split; [reflexivity|]. exists S, (0 + k + 8), z, (t1 ++ [one]), bs.
  pose proof (near_sub S (0 + k) z S2 _ 8 Hn2) as Hn3.
  split_and!; [exact Hn3 | rewrite length_app; cbn; lia | apply Ha | apply Ha | apply Ha | apply absorbed_counter | |].
  - pose proof (near_sub S (0 + k + 8) z _ _ 64 Hn3) as Hn4. unfold z in Hn4. case_decide as Hc.
    + rewrite null_counter by (rewrite message_length, Hc; cbn [length]; lia). apply counts_null; [rewrite (nr_null _ _ _ _ _ Hn4); lia | reflexivity].
    + rewrite last_counter by assumption. assert (0 < length tail)%nat by (destruct tail; [contradiction | cbn; lia]).
      eapply (near_counts h S bs tail _ _ _ Ha Hn4); unfold k; lia.
  - unfold pad_bytes. rewrite Hr, decide_False by lia. unfold m, t1. rewrite <- !app_assoc. do 2 f_equal.
    replace ((54 + 64 - length tail) mod 64)%nat with (54 - length tail)%nat
      by (replace (54 + 64 - length tail)%nat with ((54 - length tail) + 1 * 64)%nat by lia; rewrite Nat.Div0.mod_add, Nat.mod_small; lia).
    replace (55 - length tail)%nat with (1 + (54 - length tail))%nat by lia. cbn [Nat.add take padding app]. f_equal. f_equal.
    rewrite take_repeat. f_equal. lia.
Qed.

(** The message ends a block before the last. *)
Lemma pad_long : (55 < length tail)%nat -> exists S', blake_pad S (0x80 + one) one = Some S' /\ padded_to h m one S'.
Proof.
  intros Hl. pose proof message_rest as Hr. unfold blake_pad. destruct Hh as [Ha Hb]. pose proof (bf_short _ _ Hb). rewrite (bf_len _ _ Hb).
  destruct (Z.eqb_spec (8 * Z.of_nat (length tail)) 440) as [|_]; [lia|]. destruct (Z.ltb_spec (8 * Z.of_nat (length tail)) 440) as [|_]; [lia|].
  replace (512 - 8 * Z.of_nat (length tail)) with (8 * Z.of_nat (64 - length tail)) by lia.
  set (k := 8 * Z.of_nat (64 - length tail)). set (n := (64 - length tail)%nat) in *.
  assert (Hne : tail <> []) by (intros ->; cbn in Hl; lia).
  pose proof (near_sub S 0 0 S tail k (near_refl h S bs tail Hh)) as Hn0.
  destruct (near_fill S (0 + k) 0 (sub_t0 k S) tail padding n (counter (length m) (length bs))) as (S1 & E1 & Eh1 & Hu1 & Es1 & Hn1);
    [exact Hn0 | lia | apply (padding_bytes 0) | change (length padding) with 64%nat; lia | lia | apply Ha | apply Ha | |].
  { rewrite last_counter by assumption. apply (near_counts h S bs tail _ _ _ Ha Hn0); unfold k; lia. }
  fold k in E1. rewrite E1. cbn [mbind option_bind].
  destruct (near_small S1 (0 + 440) (nullt S1) (sub_t0 440 S1) [] (drop 1 padding) 55) as (S2 & E2 & Hn2);
    [apply near_sub, Hn1 | apply padding_bytes | cbn; lia | cbn; lia |].
  change (8 * Z.of_nat 55) with 440 in E2. rewrite E2. cbn [mbind option_bind app] in *.
  pose proof (near_null _ _ _ _ _ 1 Hn2) as Hn3.
  destruct (near_small S1 (0 + 440) 1 (set_nullt 1 S2) (take 55 (drop 1 padding)) [one] 1) as (S3 & E3 & Hn4);
    [exact Hn3 | repeat constructor; apply Hone | cbn; lia | cbn; lia |].
  change (8 * Z.of_nat 1) with 8 in E3. rewrite E3. cbn [mbind option_bind].
  exists (sub_t0 8 S3). split; [reflexivity|]. set (b := tail ++ take n padding) in *.
  exists S1, (0 + 440 + 8), 1, (take 55 (drop 1 padding) ++ [one]), (bs ++ [b]).
  pose proof (near_sub _ _ _ _ _ 8 Hn4) as Hn5.
  split_and!; [exact Hn5 | reflexivity | exact Hu1 | exact Es1 | | | |].
  - apply Forall_app; split; [apply Ha|]. repeat constructor; [apply Forall_app; split; [apply Hb | apply (Forall_take _ n _ (padding_bytes 0))]|].
    unfold b. rewrite length_app, length_take. change (length padding) with 64%nat. lia.
  - rewrite Eh1, numbered_snoc. unfold absorb. rewrite foldl_app. cbn [foldl fst snd]. f_equal. apply absorbed_counter.
  - rewrite null_counter by (rewrite message_length, length_app; cbn [length]; lia).
    apply counts_null; [rewrite (nr_null _ _ _ _ _ (near_sub _ _ _ _ _ 64 Hn5)); lia | reflexivity].
  - unfold pad_bytes. rewrite Hr, decide_False by lia. unfold m, b. rewrite concat_app. cbn [concat]. rewrite app_nil_r, <- !app_assoc. do 2 f_equal.
    replace ((54 + 64 - length tail) mod 64)%nat with ((63 - length tail) + 55)%nat by (rewrite Nat.mod_small; lia).
    unfold n. replace (64 - length tail)%nat with (1 + (63 - length tail))%nat by lia. cbn [Nat.add take padding app]. f_equal.
    rewrite take_repeat, repeat_app, <- app_assoc. f_equal. f_equal. lia.
Qed.

Lemma pad_ok : exists S', blake_pad S (0x80 + one) one = Some S' /\ padded_to h m one S'.
Proof.
  destruct (lt_eq_lt_dec (length tail) 55) as [[Hl|Hl]|Hl]; [apply pad_short | apply pad_one | apply pad_long]; exact Hl.
Qed.
End pad.

(** ** The digest *)

(** The message a state holds. *)
Definition represents (h : list Z) (S : state) (m : list Z) : Prop :=
  exists bs tail, m = concat bs ++ tail /\ holds h S bs tail.

Lemma spec_blake_blocks h one m bs : blocks_of 64 bs -> padded one m = concat bs ->
  spec_blake h one m = concat (map word_bytes (absorb h (numbered (counter (length m)) bs))).
Proof.
  intros Hbs E. unfold spec_blake. cbv zeta. rewrite E, (blocks_length 64), Nat.mul_comm, Nat.div_mul by (assumption || lia).
  rewrite <- (app_nil_r (concat bs)), chunks_concat by assumption. reflexivity.
Qed.

Lemma digest_ok h : length h = 8%nat -> concat (map (fun i => U32TO8 (h !!! i)) (seq 0 8)) = concat (map word_bytes h).
Proof.
  intros Hl. do 8 (destruct h as [|? h]; [discriminate|]). destruct h; [|discriminate].
  cbn [seq map lookup_total list_lookup_total]. rewrite !U32TO8_ok. reflexivity.
Qed.

Lemma be64_bytes x : is_bytes (be64 x).
Proof. apply Forall_rev, le_bytes_bytes. Qed.

Lemma final_ok h S m one : represents h S m -> is_byte (0x80 + one) /\ is_byte one ->
  blake256_final_h S (0x80 + one) one = Some (spec_blake h one m).
Proof.
  intros (bs & tail & -> & Hh) Hone. destruct (pad_ok h S bs tail one Hh Hone) as (S' & E & Hp).
  pose proof (message_length h S bs tail Hh) as Hlen. set (m := concat bs ++ tail) in *. unfold blake256_final_h.
  destruct Hh as [[_ _ _ _ _ H0 H1 Ht] [Hs Hl _]]. unfold u32 in H0, H1.
  assert (Elo : to_u32 (st_t0 S + buflen S) = st_t0 S + buflen S) by (unfold to_u32; apply Z.mod_small; lia).
  rewrite Elo. destruct (Z.ltb_spec (st_t0 S + buflen S) (buflen S)); [lia|].
  rewrite be64_ok by (unfold u32; lia). replace (st_t0 S + buflen S + 2 ^ 32 * st_t1 S) with (8 * Z.of_nat (length m)) by lia.
  rewrite E. cbn [mbind option_bind]. destruct Hp as (S0 & k & z & t & cs & Hn & Lt & Hu & Es & Hcs & Eh & Hc & Em).
  destruct (near_fill S0 (k + 64) z (sub_t0 64 S') t (be64 (8 * Z.of_nat (length m))) 8 (counter (length m) (length cs)))
    as (S'' & E' & Eh' & Hu' & _);
    [apply near_sub, Hn | lia | apply be64_bytes | unfold be64; rewrite length_rev, le_bytes_length; lia | lia | assumption..|].
  change (8 * Z.of_nat 8) with 64 in E'. rewrite E'. cbn [mbind option_bind]. rewrite digest_ok by apply Hu'. f_equal.
  rewrite take_ge in Eh' by (unfold be64; rewrite length_rev, le_bytes_length; lia).
  rewrite (spec_blake_blocks h one m (cs ++ [t ++ be64 (8 * Z.of_nat (length m))])).
  - rewrite Eh', Eh, numbered_snoc. unfold absorb. rewrite foldl_app. reflexivity.
  - apply Forall_app; split; [assumption|]. repeat constructor.
    + apply Forall_app; split; [apply (nr_buffered _ _ _ _ _ Hn) | apply be64_bytes].
    + rewrite length_app. unfold be64. rewrite length_rev, le_bytes_length. lia.
  - unfold padded. rewrite app_assoc, Em, concat_app. cbn [concat]. rewrite app_nil_r, app_assoc. reflexivity.
Qed.

(** ** Messages and updates *)

(** What an update leaves of the message: the bytes of the buffer are
    overtaken by whole blocks of the data, and are lost when no byte remains. *)
Definition appended (m d : list Z) : list Z :=
  let left := (length m mod 64)%nat in let r := (length d mod 64)%nat in
  if decide (left = 0 \/ 64 - left <= r \/ 0 < length d < 64)%nat then m ++ d
  else take (length m - left) m ++ take (length d - r) d ++
    (if decide (r = 0%nat) then [] else drop (length m - left) m ++ drop (length d - r) d).

Lemma next_appended h S bs tail d : holds h S bs tail ->
  concat (after_update bs tail d).1 ++ (after_update bs tail d).2 = appended (concat bs ++ tail) d.
Proof.
  intros Hh. pose proof (message_length h S bs tail Hh) as Hlen. pose proof (message_rest h S bs tail Hh) as Hrest.
  cbv zeta in Hlen, Hrest.
  assert (Hd : (length d - length d mod 64 = 64 * (length d / 64))%nat) by (pose proof (Nat.div_mod_eq (length d) 64); lia).
  unfold after_update, appended. rewrite Hrest, Hlen, Hd. replace (64 * length bs + length tail - length tail)%nat with (length (concat bs))
    by (rewrite (blocks_length 64) by apply Hh; lia). rewrite take_app_length, drop_app_length.
  case_decide as Hc; cbn [fst snd].
  - rewrite concat_app, concat_chunks, <- app_assoc. unfold rest_tail.
    assert (Hr : drop (64 * (length d / 64)) d = [] <-> (length d mod 64 = 0)%nat).
    { rewrite <- length_zero_iff_nil, length_drop, <- Hd. pose proof (Nat.Div0.mod_le (length d) 64). lia. }
    destruct (decide (_ \/ _ \/ _)) as [Ho|Ho].
    + case_decide as He.
      * apply Hr in He. pose proof (Nat.div_mod_eq (length d) 64).
        assert (Ht : tail = []) by (apply length_zero_iff_nil; destruct (ho_buffered _ _ _ _ Hh); destruct Hc as [->|]; [reflexivity|]; destruct (Nat.lt_trichotomy (length d) 64) as [?|[?|?]]; [rewrite Nat.mod_small in He by lia | |]; lia).
        rewrite Ht, !app_nil_r, take_ge by lia. reflexivity.
      * pose proof (Nat.div_mod_eq (length d) 64). destruct Hc as [->|Hc].
        -- rewrite app_nil_r. cbn [app]. rewrite take_drop. reflexivity.
        -- destruct (decide (tail = [])) as [->|Hne]; [rewrite app_nil_r; cbn [app]; rewrite take_drop; reflexivity|].
           assert (length tail <> 0%nat) by (rewrite length_zero_iff_nil; exact Hne).
           rewrite Nat.div_small by lia. cbn [Nat.mul]. rewrite drop_0, take_0, <- app_assoc. reflexivity.
    + f_equal. f_equal. destruct (decide (drop _ d = [])) as [He|He], (decide (length d mod 64 = 0)%nat); try reflexivity; tauto.
  - rewrite decide_True by (destruct (decide (length d mod 64 < 64 - length tail)%nat); [tauto | lia]).
    rewrite concat_app. cbn [concat app]. rewrite concat_chunks, <- !app_assoc. do 2 f_equal. rewrite take_drop. apply take_drop.
Qed.
