(* ===== verification/BlakeSpec.v ===== *)
(** * BLAKE-256 and HMAC: properties

    The hashes are the specified ones; the incremental update keeps the message
    in some cases only; what HMAC computes over both hashes. *)

From S2P Require Import Prelude.
From S2P Require Import CInt.
From S2P Require Import Bytes.
From S2P Require Import Job.
From S2P Require Import Blocks.
From S2P Require Import Blake256.
From S2P Require Import WordMatrix.
From S2P Require Import BlakeHash.

(** ** The hashes *)

(** The fractional parts of the square roots of the first eight primes, and the
    second words of those of the next eight. *)
Definition iv256 : list Z := map (fun p => Z.sqrt (p * 2 ^ 64) mod 2 ^ 32) [2; 3; 5; 7; 11; 13; 17; 19].
Definition iv224 : list Z := map (fun p => Z.sqrt (p * 2 ^ 128) mod 2 ^ 32) [23; 29; 31; 37; 41; 43; 47; 53].

Definition spec_blake256 : list Z -> list Z := spec_blake iv256 1.
(** The digest of BLAKE-224 is the chaining value without its last word. *)
Definition chain224 : list Z -> list Z := spec_blake iv224 0.
Definition spec_blake224 (m : list Z) : list Z := take 28 (chain224 m).

Lemma init_represents h buf : u32s 8 h -> bytes_of 64 buf -> represents h (blake_init h buf) [].
Proof.
  intros Hh Hb. exists [], []. split; [reflexivity|]. split.
  - constructor; try reflexivity; try (split; [|reflexivity]); try (cbn; lia); [constructor | exact Hh].
  - constructor; [cbn; lia | reflexivity | split_and!; [constructor | exact Hb | reflexivity]].
Qed.

Lemma iv256_ok buf : blake256_init buf = blake_init iv256 buf /\ u32s 8 iv256.
Proof. split; [reflexivity|]. split; [apply (bool_decide_unpack _); vm_compute; exact I | reflexivity]. Qed.

Lemma iv224_ok buf : blake224_init buf = blake_init iv224 buf /\ u32s 8 iv224.
Proof. split; [reflexivity|]. split; [apply (bool_decide_unpack _); vm_compute; exact I | reflexivity]. Qed.

(** The data of an update follows the message. *)
Lemma update_represents h S m d : represents h S m -> is_bytes d -> 8 * Z.of_nat (length m + length d) + 512 < 2 ^ 64 ->
  exists S', blake256_update S d (8 * Z.of_nat (length d)) = Some S' /\ represents h S' (appended m d).
Proof.
  intros (bs & tail & -> & Hh) Hd Hlt. pose proof (message_length h S bs tail Hh) as Hl. cbv zeta in Hl.
  destruct (update_ok h S bs tail d Hh Hd) as (S' & E & Hh'); [lia|].
  exists S'. split; [exact E|]. exists (after_update bs tail d).1, (after_update bs tail d).2. split; [|exact Hh'].
  symmetry. apply (next_appended h S), Hh.
Qed.

Lemma appended_whole m d : (length m mod 64 = 0)%nat -> appended m d = m ++ d.
Proof. intros H. unfold appended. rewrite decide_True by auto. reflexivity. Qed.

(** The first bytes of the data, after whole blocks. *)
Lemma update_prefix h S m d n : represents h S m -> (length m mod 64 = 0)%nat -> is_bytes d -> (n <= length d)%nat -> (n < 64)%nat ->
  exists S', blake256_update S d (8 * Z.of_nat n) = Some S' /\ represents h S' (m ++ take n d).
Proof.
  intros (bs & tail & -> & Hh) Hm Hd Hn H64. pose proof (message_rest h S bs tail Hh) as Hr. cbv zeta in Hr. rewrite Hr in Hm.
  apply length_zero_iff_nil in Hm as ->. destruct Hh as [Ha Hb].
  destruct (small_update S [] d n Hb Hd Hn) as [E Hb']; [cbn [length]; lia|]. rewrite rest_tail_nil in Hb'.
  eexists. split; [exact E|]. exists bs, (take n d). split; [rewrite app_nil_r; reflexivity|].
  split; [apply absorbed_put_rest; exact Ha | exact Hb'].
Qed.

Lemma bits_of n : 8 * Z.of_nat n < 2 ^ 64 -> to_u64 (Z.of_nat n * 8) = 8 * Z.of_nat n.
Proof. intros H. unfold to_u64. rewrite Z.mod_small; lia. Qed.

Lemma pad_bytes_256 : is_byte (0x80 + 1) /\ is_byte 1.
Proof. unfold is_byte. lia. Qed.
Lemma pad_bytes_224 : is_byte (0x80 + 0) /\ is_byte 0.
Proof. unfold is_byte. lia. Qed.

Lemma final_bytes S pa pb d : blake256_final_h S pa pb = Some d -> bytes_of 32 d.
Proof.
  unfold blake256_final_h. intros H. destruct (blake_pad S pa pb); [|discriminate]. cbn [mbind option_bind] in H.
  destruct (blake256_update _ _ 64) as [S'|]; [|discriminate]. cbn [mbind option_bind] in H. injection H as <-. split; [|reflexivity].
  cbn [seq map concat]. unfold U32TO8, to_u8. repeat (apply Forall_cons; split; [apply Z.mod_pos_bound; lia|]). constructor.
Qed.

Lemma hash256 buf s : bytes_of 64 buf -> is_bytes s -> 8 * Z.of_nat (length s) + 512 < 2 ^ 64 ->
  blake256_hash buf s = Some (spec_blake256 s).
Proof.
  intros Hb Hs Hl. unfold blake256_hash. destruct (iv256_ok buf) as [-> Hu]. rewrite bits_of by lia.
  destruct (update_represents _ _ [] s (init_represents _ _ Hu Hb) Hs) as (S' & -> & Hr); [cbn [length]; lia|].
  rewrite appended_whole in Hr by reflexivity. exact (final_ok _ _ _ 1 Hr pad_bytes_256).
Qed.

Lemma hash224 buf s : bytes_of 64 buf -> is_bytes s -> 8 * Z.of_nat (length s) + 512 < 2 ^ 64 ->
  blake224_hash buf s = Some (chain224 s).
Proof.
  intros Hb Hs Hl. unfold blake224_hash, blake224_update. destruct (iv224_ok buf) as [-> Hu]. rewrite bits_of by lia.
  destruct (update_represents _ _ [] s (init_represents _ _ Hu Hb) Hs) as (S' & -> & Hr); [cbn [length]; lia|].
  rewrite appended_whole in Hr by reflexivity. exact (final_ok _ _ _ 0 Hr pad_bytes_224).
Qed.

(** C28: [blake256_hash] returns the specified digest: the message padded to
    whole blocks, each compressed by fourteen rounds on the columns and the
    diagonals of the matrix, with the ten permutations and the constants of pi,
    and the counter of the bits of the message so far, zero for a block of padding
    alone; whatever the memory of the buffer holds.  [blake224_hash] writes the
    digest of 28 bytes and after it four bytes more, the last word of its chaining
    value. *)
Theorem blake_hash_correct buf s :
  bytes_of 64 buf -> is_bytes s -> 8 * Z.of_nat (length s) + 512 < 2 ^ 64 ->
  blake256_hash buf s = Some (spec_blake256 s) /\ length (spec_blake256 s) = 32%nat /\
  blake224_hash buf s = Some (spec_blake224 s ++ drop 28 (chain224 s)) /\ length (spec_blake224 s) = 28%nat /\
  length (drop 28 (chain224 s)) = 4%nat.
Proof.
  intros Hb Hs Hl. pose proof (hash256 buf s Hb Hs Hl) as E256. pose proof (hash224 buf s Hb Hs Hl) as E224.
  assert (L256 : length (spec_blake256 s) = 32%nat).
  { unfold blake256_hash in E256. destruct (blake256_update _ _ _) as [S|]; [|discriminate]. apply (final_bytes S 0x81 0x01), E256. }
  assert (L224 : length (chain224 s) = 32%nat).
  { unfold blake224_hash in E224. destruct (blake224_update _ _ _) as [S|]; [|discriminate]. apply (final_bytes S 0x80 0x00), E224. }
  unfold spec_blake224. rewrite take_drop, length_take, length_drop, L224. auto.
Qed.

Lemma blake_hash_correct_witness :
  bytes_of 64 (repeat 0xAA 64) /\ spec_blake256 [0] =
    [0x0c; 0xe8; 0xd4; 0xef; 0x4d; 0xd7; 0xcd; 0x8d; 0x62; 0xdf; 0xde; 0xd9; 0xd4; 0xed; 0xb0; 0xa7;
     0x74; 0xae; 0x6a; 0x41; 0x92; 0x9a; 0x74; 0xda; 0x23; 0x10; 0x9e; 0x8f; 0x11; 0x13; 0x9c; 0x87] /\
  spec_blake224 [0] =
    [0x45; 0x04; 0xcb; 0x03; 0x14; 0xfb; 0x2a; 0x4f; 0x7a; 0x69; 0x2e; 0x69; 0x6e; 0x48; 0x79; 0x12;
     0xfe; 0x3f; 0x24; 0x68; 0xfe; 0x31; 0x2c; 0x73; 0xa5; 0x27; 0x8e; 0xc5] /\
  blake256_hash (repeat 0xAA 64) [0] = Some (spec_blake256 [0]) /\
  blake224_hash (repeat 0xAA 64) [0] = Some (spec_blake224 [0] ++ drop 28 (chain224 [0])).
Proof.
  assert (Hb : bytes_of 64 (repeat 0xAA 64)) by (split; [apply (bool_decide_unpack _); vm_compute; exact I | reflexivity]).
  split; [exact Hb|]. split; [vm_compute; reflexivity|]. split; [vm_compute; reflexivity|].
  destruct (blake_hash_correct (repeat 0xAA 64) [0]) as (H1 & _ & H2 & _);
    [exact Hb | apply (bool_decide_unpack _); vm_compute; exact I | cbn; lia | exact (conj H1 H2)].
Defined.

(** ** Updates *)

(** What a state holds after an update, on every branch: the data follows
    the message when the buffer is empty, when the data fills it within its last
    part of a block, or when there is less than a block of it; otherwise the
    whole blocks of the data come first, the buffered bytes after them, and they
    are lost when the data ends with a block. Finishing the state gives the hash
    of that message. *)
Theorem blake256_update_message h S m d :
  represents h S m -> is_bytes d -> 8 * Z.of_nat (length m + length d) + 512 < 2 ^ 64 ->
  exists S', blake256_update S d (8 * Z.of_nat (length d)) = Some S' /\ represents h S' (appended m d) /\
    blake256_final S' = Some (spec_blake h 1 (appended m d)).
Proof.
  intros Hr Hd Hl. destruct (update_represents h S m d Hr Hd Hl) as (S' & E & Hr').
  exists S'. split; [exact E|]. split; [exact Hr' | exact (final_ok _ _ _ 1 Hr' pad_bytes_256)].
Qed.

(** The sixty-four bytes of an update after one byte: the byte is lost. *)
Lemma blake256_update_message_witness :
  exists S S', blake256_update (blake256_init (repeat 0 64)) [7] 8 = Some S /\ represents iv256 S [7] /\
    appended [7] (repeat 9 64) = repeat 9 64 /\
    blake256_update S (repeat 9 64) 512 = Some S' /\ blake256_final S' = Some (spec_blake256 (repeat 9 64)).
Proof.
  destruct (update_represents iv256 (blake256_init (repeat 0 64)) [] [7]) as (S & E & Hr).
  { apply init_represents; [apply (iv256_ok []) |]. split; [apply (bool_decide_unpack _); vm_compute; exact I | reflexivity]. }
  { apply (bool_decide_unpack _); vm_compute; exact I. } { cbn; lia. }
  destruct (blake256_update_message iv256 S [7] (repeat 9 64)) as (S' & E' & Hr' & Ef).
  { exact Hr. } { apply (bool_decide_unpack _); vm_compute; exact I. } { cbn; lia. }
  exists S, S'. split; [exact E|]. split; [exact Hr|]. split; [reflexivity|]. split; [exact E' | exact Ef].
Defined.

(** ** HMAC *)

(** A block of the key and a constant. *)
Definition keyed (c : Z) (key : list Z) : list Z := map (Z.lxor c) (key ++ repeat 0 (64 - length key)).

Definition spec_hmac256 (key s : list Z) : list Z :=
  let key := if decide (length key <= 64)%nat then key else spec_blake256 key in
  spec_blake256 (keyed 0x5c key ++ spec_blake256 (keyed 0x36 key ++ s)).

(** Long keys are hashed by BLAKE-256 and cut. *)
Definition code_hmac224 (key s : list Z) : list Z :=
  let key := if decide (length key <= 64)%nat then key else take 28 (spec_blake256 key) in
  chain224 (keyed 0x5c key ++ spec_blake224 (keyed 0x36 key ++ s)).

Lemma key_pad_ok c key n : (n <= length key)%nat -> (n <= 64)%nat -> key_pad c key n = keyed c (take n key).
Proof.
  intros Hn H64. unfold key_pad, keyed.
  assert (H : forall k, (k <= n)%nat ->
    foldl (fun pad i => <[i := Z.lxor (pad !!! i) (key !!! i)]> pad) (repeat c 64) (seq 0 k) =
    map (Z.lxor c) (take k key) ++ repeat c (64 - k)).
  { induction k as [|k IH]; intros Hk; [reflexivity|]. rewrite seq_S, foldl_app, IH by lia. cbn [foldl Nat.add].
    assert (Lk : length (map (Z.lxor c) (take k key)) = k) by (rewrite length_map, length_take; lia).
    rewrite insert_app_r_alt, lookup_total_app_r, Lk, Nat.sub_diag by lia.
    replace (64 - k)%nat with (Datatypes.S (64 - Datatypes.S k)) by lia. cbn [repeat insert list_insert lookup_total list_lookup_total].
    destruct (lookup_lt_is_Some_2 key k) as [x Ex]; [lia|]. rewrite (take_S_r _ _ x Ex), map_app, <- app_assoc. cbn [map app].
    rewrite (list_lookup_total_correct _ _ _ Ex). reflexivity. }
  rewrite H by lia. rewrite map_app, length_take, Nat.min_l by lia. f_equal.
  induction (64 - n)%nat as [|k IH]; [reflexivity|]. cbn [repeat map]. rewrite Z.lxor_0_r, IH. reflexivity.
Qed.

Lemma keyed_bytes c key : is_byte c -> is_bytes key -> (length key <= 64)%nat -> bytes_of 64 (keyed c key).
Proof.
  intros Hc Hk Hl. split.
  - apply Forall_map, Forall_app. split; [eapply Forall_impl; [exact Hk|]; intros x Hx; apply (lxor_range 8); unfold is_byte in *; lia|].
    apply Forall_forall. intros x Hx%list_elem_of_In%repeat_spec. subst x. rewrite Z.lxor_0_r. exact Hc.
  - unfold keyed. rewrite length_map, length_app, repeat_length. lia.
Qed.

(** The keyed state of an HMAC. *)
Lemma keyed_state h buf c key n : u32s 8 h -> bytes_of 64 buf -> is_byte c -> is_bytes key -> (n <= length key)%nat -> (n <= 64)%nat ->
  exists S, blake256_update (blake_init h buf) (key_pad c key n) 512 = Some S /\ represents h S (keyed c (take n key)) /\
    bytes_of 64 (keyed c (take n key)).
Proof.
  intros Hh Hb Hc Hk Hn H64. rewrite key_pad_ok by assumption.
  assert (Hkd : bytes_of 64 (keyed c (take n key))) by (apply keyed_bytes; [assumption | apply Forall_take; assumption | rewrite length_take; lia]).
  destruct (update_represents h (blake_init h buf) [] (keyed c (take n key))) as (S & E & Hr);
    [apply init_represents; assumption | apply Hkd | destruct Hkd; cbn [length]; lia |].
  rewrite appended_whole in Hr by reflexivity. exists S. destruct Hkd as [Hkb Hkl]. rewrite Hkl in E. split_and!; [exact E | exact Hr | split; assumption].
Qed.

(** The message after the inner key, and the digest after the outer key. *)
Lemma hmac_rest h one inner outer k k' s n :
  is_byte (0x80 + one) /\ is_byte one -> represents h inner k -> bytes_of 64 k -> represents h outer k' -> bytes_of 64 k' ->
  is_bytes s -> 8 * Z.of_nat (length s) + 1024 < 2 ^ 64 -> (n <= 32)%nat ->
  (inner ← blake256_update inner s (to_u64 (Z.of_nat (length s) * 8));
   ihash ← blake256_final_h inner (0x80 + one) one;
   outer ← blake256_update outer ihash (8 * Z.of_nat n);
   blake256_final_h outer (0x80 + one) one) =
  Some (spec_blake h one (k' ++ take n (spec_blake h one (k ++ s)))) /\ length (spec_blake h one (k ++ s)) = 32%nat.
Proof.
  intros Hone Hi [Hkb Hkl] Ho [Hkb' Hkl'] Hs Hlt Hn. rewrite bits_of by lia.
  destruct (update_represents h inner k s Hi Hs) as (S & -> & Hr); [lia|]. cbn [mbind option_bind].
  rewrite appended_whole in Hr by (rewrite Hkl; reflexivity). pose proof (final_ok h S _ one Hr Hone) as Ef. rewrite Ef. cbn [mbind option_bind].
  apply final_bytes in Ef as [Hfb Hfl].
  destruct (update_prefix h outer k' _ n Ho ltac:(rewrite Hkl'; reflexivity) Hfb) as (S' & -> & Hr'); [lia | lia |]. cbn [mbind option_bind].
  split; [exact (final_ok h S' _ one Hr' Hone) | exact Hfl].
Qed.

(** HMAC over BLAKE-256 is that of RFC 2104. Over BLAKE-224 it is too for
    keys of a block at most; a longer key is hashed by BLAKE-256, and its first 28
    bytes are the key. *)
Theorem hmac_blake_correct buf buf' key s :
  bytes_of 64 buf -> bytes_of 64 buf' -> is_bytes key -> is_bytes s ->
  8 * Z.of_nat (length key) + 512 < 2 ^ 64 -> 8 * Z.of_nat (length s) + 1024 < 2 ^ 64 ->
  hmac_blake256_hash buf buf' key s = Some (spec_hmac256 key s) /\
  hmac_blake224_hash buf buf' key s = Some (code_hmac224 key s).
Proof.
  intros Hb Hb' Hk Hs Hkl Hsl. pose proof (hash256 buf key Hb Hk Hkl) as Eh. 
  assert (Hkh : bytes_of 32 (spec_blake256 key)).
  { unfold blake256_hash in Eh. destruct (blake256_update _ _ _) as [S|]; [|discriminate]. apply (final_bytes S 0x81 0x01), Eh. }
  assert (Hkey : forall n, (n <= 32)%nat -> exists key1 m,
    (if (64 <? length key)%nat then keyhash ← blake256_hash buf key; Some (keyhash, n) else Some (key, length key)) = Some (key1, m) /\
    take m key1 = (if decide (length key <= 64)%nat then key else take n (spec_blake256 key)) /\
    is_bytes key1 /\ (m <= length key1)%nat /\ (m <= 64)%nat).
  { intros n Hn. destruct Hkh. destruct (Nat.ltb_spec 64 (length key)).
    - rewrite Eh, decide_False by lia. exists (spec_blake256 key), n. split_and!; try reflexivity; assumption || lia.
    - rewrite decide_True by lia. exists key, (length key). rewrite take_ge by lia. split_and!; try reflexivity; assumption || lia. }
  split.
  - destruct (Hkey 32%nat) as (key1 & m & E & Ek & Hk1 & Hm & Hm64); [lia|]. rewrite (take_ge (spec_blake256 key)) in Ek by (destruct Hkh; lia).
    unfold hmac_blake256_hash, hmac_blake256_init. rewrite E. cbn [mbind option_bind].
    destruct (iv256_ok buf) as [-> Hu]. destruct (iv256_ok buf') as [-> _].
    destruct (keyed_state iv256 buf 0x36 key1 m Hu Hb) as (S & -> & Hr & Hkd); [unfold is_byte; lia | assumption..|].
    destruct (keyed_state iv256 buf' 0x5c key1 m Hu Hb') as (S' & -> & Hr' & Hkd'); [unfold is_byte; lia | assumption..|].
    cbn [mbind option_bind]. destruct (hmac_rest iv256 1 S S' _ _ s 32 pad_bytes_256 Hr Hkd Hr' Hkd' Hs Hsl ltac:(lia)) as [Er El].
    unfold spec_hmac256, spec_blake256 in *. rewrite Ek, take_ge in Er by (rewrite <- Ek; lia).
    unfold hmac_blake256_update, hmac_blake256_final. cbn [inner outer]. 
    destruct (blake256_update S s _); [exact Er | discriminate].
  - destruct (Hkey 28%nat) as (key1 & m & E & Ek & Hk1 & Hm & Hm64); [lia|].
    unfold hmac_blake224_hash, hmac_blake224_init, blake224_update. rewrite E. cbn [mbind option_bind].
    destruct (iv224_ok buf) as [-> Hu]. destruct (iv224_ok buf') as [-> _].
    destruct (keyed_state iv224 buf 0x36 key1 m Hu Hb) as (S & -> & Hr & Hkd); [unfold is_byte; lia | assumption..|].
    destruct (keyed_state iv224 buf' 0x5c key1 m Hu Hb') as (S' & -> & Hr' & Hkd'); [unfold is_byte; lia | assumption..|].
    cbn [mbind option_bind]. destruct (hmac_rest iv224 0 S S' _ _ s 28 pad_bytes_224 Hr Hkd Hr' Hkd' Hs Hsl ltac:(lia)) as [Er _].
    unfold code_hmac224, spec_blake224, chain224 in *. rewrite Ek in Er.
    unfold hmac_blake224_update, hmac_blake224_final, blake224_update. cbn [inner outer].
    destruct (blake256_update S s _); [exact Er | discriminate].
Qed.

Lemma hmac_blake_correct_witness :
  let key := repeat 3 65 in
  hmac_blake256_hash (repeat 0 64) (repeat 0 64) key [1] = Some (spec_hmac256 key [1]) /\
  hmac_blake224_hash (repeat 0 64) (repeat 0 64) key [1] = Some (code_hmac224 key [1]).
Proof.
  intros key.
  apply (hmac_blake_correct (repeat 0 64) (repeat 0 64) key [1]);
    try (split; [|reflexivity]); try (apply (bool_decide_unpack _); vm_compute; exact I); cbn; lia.
Defined.
