(* ===== verification/RandomMath.v ===== *)
(** * The random programs of CryptoNight-R

    crypto/cn/r/variant4_random_math.h: the generator, which turns the height of
    a block into a program of 60 to 70 instructions for an abstract processor, and
    the interpreter of these programs.  [None] is a read or a write outside an
    array, or a case the code declares unreachable. *)

From S2P Require Import Prelude.
From S2P Require Import CInt.
From S2P Require Import Bytes.
From S2P Require Import Job.
From S2P Require Import Blake256.

(** ** Instructions *)

Definition TOTAL_LATENCY : Z := 15 * 3.
Definition NUM_INSTRUCTIONS_MIN : nat := 60.
Definition NUM_INSTRUCTIONS_MAX : nat := 70.
Definition ALU_COUNT_MUL : nat := 1.
Definition ALU_COUNT : nat := 3.

Definition MUL : Z := 0.
Definition ADD : Z := 1.
Definition SUB : Z := 2.
Definition ROR : Z := 3.
Definition ROL : Z := 4.
Definition XOR : Z := 5.
Definition RET : Z := 6.

Record V4_Instruction := Instr { opcode : Z; dst_index : nat; src_index : nat; C : Z }.

(** ** The interpreter *)

(** [V4_EXEC] on registers of [w] bits; [true]: return. *)
Definition V4_EXEC (w : Z) (op : V4_Instruction) (r : list Z) : option (bool * list Z) :=
  src ← r !! src_index op;
  dst ← r !! dst_index op;
  let put x := Some (false, <[dst_index op := x mod 2 ^ w]> r) in
  if opcode op =? MUL then put (dst * src)
  else if opcode op =? ADD then put (dst + (src + C op))
  else if opcode op =? SUB then put (dst - src)
  else if opcode op =? ROR then
    let shift := src mod w in put (Z.lor (Z.shiftr dst shift) (Z.shiftl dst ((w - shift) mod w)))
  else if opcode op =? ROL then
    let shift := src mod w in put (Z.lor (Z.shiftl dst shift) (Z.shiftr dst ((w - shift) mod w)))
  else if opcode op =? XOR then put (Z.lxor dst src)
  else if opcode op =? RET then Some (true, r)
  else None.

(** The unrolled instructions from [i] on. *)
Fixpoint V4_EXEC_from (n i : nat) (w : Z) (code : list V4_Instruction) (r : list Z) : option (list Z) :=
  match n with
  | O => Some r
  | S n =>
      op ← code !! i;
      p ← V4_EXEC w op r;
      if (p.1 : bool) then Some p.2 else V4_EXEC_from n (S i) w code p.2
  end.

Definition v4_random_math (w : Z) (code : list V4_Instruction) (r : list Z) : option (list Z) := V4_EXEC_from 70 0 w code r.

(** ** Random bytes *)

(** [data] and [data_index]; the bytes are those of the array of int8_t. *)
Record source := Source { data : list Z; data_index : nat }.

Section generator.
(** What the memory of the hash state holds. *)
Context (stack : list Z).

Definition check_data (bytes_needed : nat) (s : source) : option source :=
  if (length (data s) <? data_index s + bytes_needed)%nat then
    h ← blake256_hash stack (data s); Some (Source h 0)
  else Some s.

(** A byte, at [data_index++]. *)
Definition next_byte (s : source) : option (Z * source) :=
  s ← check_data 1 s;
  c ← data s !! data_index s;
  Some (c, Source (data s) (S (data_index s))).

(** ** The abstract processor *)

Definition op_latency : list Z := [3; 2; 1; 2; 2; 1].
Definition asic_op_latency : list Z := [3; 1; 1; 1; 1; 1].
Definition op_ALUs : list nat := [ALU_COUNT_MUL; ALU_COUNT; ALU_COUNT; ALU_COUNT; ALU_COUNT; ALU_COUNT].
Definition is_rotation (opcode : Z) : bool := (opcode =? ROR) || (opcode =? ROL).

(** The variables of one attempt, with the program and the random bytes. *)
Record gen := Gen {
  latency : list Z;
  asic_latency : list Z;
  inst_data : list Z;
  alu_busy : list (list bool);
  rotated : list bool;
  rotate_count : Z;
  num_retries : Z;
  total_iterations : Z;
  r8_used : bool;
  code : list V4_Instruction;
  code_size : nat;
  random : source
}.

Definition new_gen (mem : list V4_Instruction) (s : source) : gen :=
  Gen (repeat 0 9) (repeat 0 9) [0; 1; 2; 3; 0xFFFFFF; 0xFFFFFF; 0xFFFFFF; 0xFFFFFF; 0xFFFFFF]
    (repeat (repeat false 3) 46) (repeat false 4) 0 0 0 false mem 0 s.

Definition set_random (s : source) (g : gen) : gen :=
  Gen (latency g) (asic_latency g) (inst_data g) (alu_busy g) (rotated g) (rotate_count g) (num_retries g) (total_iterations g)
    (r8_used g) (code g) (code_size g) s.
Definition count_iteration (g : gen) : gen :=
  Gen (latency g) (asic_latency g) (inst_data g) (alu_busy g) (rotated g) (rotate_count g) (num_retries g) (total_iterations g + 1)
    (r8_used g) (code g) (code_size g) (random g).
Definition count_retry (g : gen) : gen :=
  Gen (latency g) (asic_latency g) (inst_data g) (alu_busy g) (rotated g) (rotate_count g) (num_retries g + 1) (total_iterations g)
    (r8_used g) (code g) (code_size g) (random g).

(** An element of an array at an [int]. *)
Definition at_int {A} (l : list A) (i : Z) : option A := if i <? 0 then None else l !! Z.to_nat i.

(** A write; [None] outside the array. *)
Definition store {A} (l : list A) (i : nat) (x : A) : option (list A) :=
  if (i <? length l)%nat then Some (<[i := x]> l) else None.
Definition store_busy (busy : list (list bool)) (t : Z) (alu : Z) : option (list (list bool)) :=
  row ← at_int busy t;
  if (alu <? 0) || (Z.of_nat (length row) <=? alu) then None else Some (<[Z.to_nat t := <[Z.to_nat alu := true]> row]> busy).

(** The byte [c] as an instruction, and the bytes after it. *)
Definition pick_opcode (c : Z) (s : source) : option (Z * source) :=
  let opcode := Z.land c (Z.shiftl 1 3 - 1) in
  if opcode =? 5 then
    '(d, s) ← next_byte s; Some (if d <? 128 then ROR else ROL, s)
  else if 6 <=? opcode then Some (XOR, s)
  else Some (if opcode <=? 2 then MUL else opcode - 2, s).

(** ALU numbers from [n - 1] down to 0; [Some None]: none is free. *)
Fixpoint scan_alus (n : nat) (g : gen) (opcode lat : Z) (next_latency : Z) : option (option nat) :=
  match n with
  | O => Some None
  | S i =>
      row ← at_int (alu_busy g) next_latency;
      busy ← row !! i;
      if (busy : bool) then scan_alus i g opcode lat next_latency
      else
        skip ← (if opcode =? ADD then row' ← at_int (alu_busy g) (next_latency + 1); row' !! i else Some false);
        if (skip : bool) then scan_alus i g opcode lat next_latency
        else if is_rotation opcode && (next_latency <? rotate_count g * lat) then scan_alus i g opcode lat next_latency
        else Some (Some i)
  end.

(** [while (next_latency < TOTAL_LATENCY)]: the cycle, and the ALU or -1. *)
Fixpoint find_alu (fuel : nat) (g : gen) (opcode lat : Z) (alus : nat) (next_latency : Z) : option (Z * Z) :=
  match fuel with
  | O => None
  | S fuel =>
      if next_latency <? TOTAL_LATENCY then
        alu ← scan_alus alus g opcode lat next_latency;
        match alu with
        | Some i => Some (next_latency, Z.of_nat i)
        | None => find_alu fuel g opcode lat alus (next_latency + 1)
        end
      else Some (next_latency, -1)
  end.

(** ** An attempt *)

(** The constant of an ADD. *)
Definition pick_constant (opcode : Z) (s : source) : option (Z * source) :=
  if opcode =? ADD then
    s ← check_data 4 s;
    if (length (data s) <? data_index s + 4)%nat then None
    else Some (le_val (take 4 (drop (data_index s) (data s))), Source (data s) (data_index s + 4))
  else Some (0, s).

(** The instruction is taken: it starts at cycle [start]. *)
Definition emit_instruction (g : gen) (opcode : Z) (a b src : nat) (lat start alu : Z) : option gen :=
  alu_busy ← store_busy (alu_busy g) start alu;
  latency ← store (latency g) a (start + lat);
  la ← asic_latency g !! a; lb ← asic_latency g !! b;
  al ← at_int asic_op_latency opcode;
  asic_latency ← store (asic_latency g) a ((if lb <? la then la else lb) + al);
  rotated ← store (rotated g) a (is_rotation opcode);
  vb ← inst_data g !! b;
  inst_data ← store (inst_data g) a (to_u32 (Z.of_nat (code_size g) + Z.shiftl opcode 8 + Z.shiftl (Z.land vb 255) 16));
  alu_busy ← (if opcode =? ADD then store_busy alu_busy (start + 1) alu else Some alu_busy);
  '(c, s) ← pick_constant opcode (random g);
  code ← store (code g) (code_size g) (Instr opcode a src c);
  Some (Gen latency asic_latency inst_data alu_busy rotated (rotate_count g + if is_rotation opcode then 1 else 0) (num_retries g)
    (total_iterations g) (r8_used g || (src =? 8)%nat) code (S (code_size g)) s).

(** A turn of the loop, after the count of iterations. *)
Definition try_instruction (g : gen) : option gen :=
  '(c, s) ← next_byte (random g);
  '(opcode, s) ← pick_opcode c s;
  let g := set_random s g in
  let a := Z.to_nat (Z.land (Z.shiftr c 3) (Z.shiftl 1 2 - 1)) in
  let src := Z.to_nat (Z.land (Z.shiftr c (3 + 2)) (Z.shiftl 1 3 - 1)) in
  let b := if ((opcode =? ADD) || (opcode =? SUB) || (opcode =? XOR)) && (a =? src)%nat then 8%nat else src in
  ra ← rotated g !! a;
  if is_rotation opcode && ra then Some g
  else
    ia ← inst_data g !! a; ib ← inst_data g !! b;
    if negb (opcode =? MUL) && (Z.land ia 0xFFFF00 =? Z.shiftl opcode 8 + Z.shiftl (Z.land ib 255) 16) then Some g
    else
      la ← latency g !! a; lb ← latency g !! b;
      lat ← at_int op_latency opcode;
      alus ← at_int op_ALUs opcode;
      '(start, alu) ← find_alu 46 g opcode lat alus (if lb <? la then la else lb);
      if la + 7 <? start then Some g
      else if start + lat <=? TOTAL_LATENCY then emit_instruction g opcode a b b lat start alu
      else Some (count_retry g).

Definition below_latency (l : list Z) : option (list bool) := mapM (fun i => x ← l !! i; Some (x <? TOTAL_LATENCY)) [0; 1; 2; 3]%nat.

(** The first loop; it counts 257 iterations at most. *)
Fixpoint fill_loop (fuel : nat) (g : gen) : option gen :=
  match fuel with
  | O => None
  | S fuel =>
      below ← below_latency (latency g);
      if existsb id below && (num_retries g <? 64) then
        let g := count_iteration g in
        if 256 <? total_iterations g then Some g
        else
          g' ← try_instruction g;
          if (code_size g <? code_size g')%nat && (NUM_INSTRUCTIONS_MIN <=? code_size g')%nat then Some g'
          else fill_loop fuel g'
      else Some g
  end.

(** The indices of the least and the greatest of four. *)
Definition min_max (l : list Z) : option (nat * nat) :=
  foldl (fun p i =>
    '(mn, mx) ← p; x ← l !! i; xn ← l !! mn; xx ← l !! mx;
    Some (if x <? xn then i else mn, if xx <? x then i else mx)) (Some (0, 0)%nat) [1; 2; 3]%nat.

(** The second loop: instructions that depend on one another. *)
Fixpoint depth_loop (fuel : nat) (prev_code_size : nat) (g : gen) : option gen :=
  match fuel with
  | O => None
  | S fuel =>
      below ← below_latency (asic_latency g);
      if (code_size g <? NUM_INSTRUCTIONS_MAX)%nat && forallb id below then
        '(min_idx, max_idx) ← min_max (asic_latency g);
        opcode ← [ROR; MUL; MUL] !! ((code_size g - prev_code_size) mod 3)%nat;
        lat ← at_int op_latency opcode; al ← at_int asic_op_latency opcode;
        lx ← latency g !! max_idx; ax ← asic_latency g !! max_idx;
        latency ← store (latency g) min_idx (lx + lat);
        asic_latency ← store (asic_latency g) min_idx (ax + al);
        code ← store (code g) (code_size g) (Instr opcode min_idx max_idx 0);
        depth_loop fuel prev_code_size
          (Gen latency asic_latency (inst_data g) (alu_busy g) (rotated g) (rotate_count g) (num_retries g) (total_iterations g)
            (r8_used g) code (S (code_size g)) (random g))
      else Some g
  end.

Definition attempt (mem : list V4_Instruction) (s : source) : option gen :=
  g ← fill_loop 258 (new_gen mem s);
  depth_loop 71 (code_size g) g.

(** The attempts; [Some None]: more than [fuel] were needed. *)
Fixpoint attempts (fuel : nat) (mem : list V4_Instruction) (s : source) : option (option gen) :=
  match fuel with
  | O => Some None
  | S fuel =>
      g ← attempt mem s;
      if negb (r8_used g) || (code_size g <? NUM_INSTRUCTIONS_MIN)%nat || (NUM_INSTRUCTIONS_MAX <? code_size g)%nat
      then attempts fuel (code g) (random g) else Some (Some g)
  end.

(** The bytes before the first hash; [cn_r]: the algorithm is [CN_R]. *)
Definition seed_bytes (cn_r : bool) (height : Z) : list Z :=
  let data := memcpy (repeat 0 32) 0 (le_bytes 8 height) in
  if cn_r then <[20%nat := 218]> data else data.

Definition v4_random_math_init (fuel : nat) (cn_r : bool) (mem : list V4_Instruction) (height : Z) :
    option (option (nat * list V4_Instruction)) :=
  g ← attempts fuel mem (Source (seed_bytes cn_r height) 32);
  match g with
  | None => Some None
  | Some g =>
      code ← store (code g) (code_size g) (Instr RET 0 0 0);
      Some (Some (code_size g, code))
  end.

End generator.

