(* ===== verification/RandomProgram.v ===== *)
(** * The programs of CryptoNight-R: what they are

    Well-formed instructions, the depth of their dependencies, schedules on the
    abstract processor, redundancy, and the meaning of an instruction; the
    generator and the interpreter of RandomMath.v against these. *)

From S2P Require Import Prelude.
From S2P Require Import Job.
From S2P Require Import Blake256.
From S2P Require Import BlakeHash.
From S2P Require Import BlakeSpec.
From S2P Require Import CInt.
From S2P Require Import Bytes.
From S2P Require Import RandomMath.

(** ** Instructions *)

Definition is_op (o : Z) : Prop := 0 <= o <= 5.

(** Four registers are written, nine are read; only sums have a constant, and no
    register is added to, subtracted from or combined with itself. *)
Definition valid_instr (op : V4_Instruction) : Prop :=
  is_op (opcode op) /\ (dst_index op < 4)%nat /\ (src_index op < 9)%nat /\ 0 <= C op < 2 ^ 32 /\
  (opcode op <> ADD -> C op = 0) /\ (opcode op = ADD \/ opcode op = SUB \/ opcode op = XOR -> src_index op <> dst_index op).

Definition op_cycles (o : Z) : Z := if o =? MUL then 3 else if (o =? SUB) || (o =? XOR) then 1 else 2.
Definition asic_cycles (o : Z) : Z := if o =? MUL then 3 else 1.
Definition op_units (o : Z) : nat := if o =? MUL then 1 else 3.

Definition uses_r8 (prog : list V4_Instruction) : bool := existsb (fun op => (src_index op =? 8)%nat) prog.

(** The length of the longest chain of dependent instructions into a register. *)
Definition depth_step (d : list Z) (op : V4_Instruction) : list Z :=
  <[dst_index op := Z.max (d !!! dst_index op) (d !!! src_index op) + asic_cycles (opcode op)]> d.
Definition depths (prog : list V4_Instruction) : list Z := foldl depth_step (repeat 0 9) prog.

(** ** Schedules *)

(** The cycle an instruction starts at, and its unit. *)
Record slot := Slot { start : Z; unit_of : nat }.

(** An addition has two parts. *)
Definition occupies (p : V4_Instruction * slot) (t : Z) (u : nat) : Prop :=
  unit_of p.2 = u /\ (t = start p.2 \/ opcode p.1 = ADD /\ t = start p.2 + 1).

Definition finish (p : V4_Instruction * slot) : Z := start p.2 + op_cycles (opcode p.1).

(** The cycle from which a register can be read. *)
Definition ready_step (l : list Z) (p : V4_Instruction * slot) : list Z := <[dst_index p.1 := finish p]> l.
Definition ready (ps : list (V4_Instruction * slot)) : list Z := foldl ready_step (repeat 0 9) ps.

(** The rotations of a program, counted. *)
Definition rotation_count (prog : list V4_Instruction) : Z :=
  Z.of_nat (length (List.filter (fun op => is_rotation (opcode op)) prog)).

(** In-order dependencies, pipelined units, 45 cycles in all, and no register
    left alone for more than seven cycles.  A rotation starts no earlier than
    all the rotations before it would take one after the other from cycle 0 on;
    it may overlap with the one before it. *)
Inductive scheduled : list (V4_Instruction * slot) -> Prop :=
| scheduled_nil : scheduled []
| scheduled_snoc ps p :
    scheduled ps ->
    ready ps !!! dst_index p.1 <= start p.2 <= ready ps !!! dst_index p.1 + 7 ->
    ready ps !!! src_index p.1 <= start p.2 ->
    finish p <= 45 ->
    (unit_of p.2 < op_units (opcode p.1))%nat ->
    (forall q t u, q ∈ ps -> occupies q t u -> ~ occupies p t u) ->
    (is_rotation (opcode p.1) = true -> rotation_count (map fst ps) * op_cycles (opcode p.1) <= start p.2) ->
    scheduled (ps ++ [p]).

(** ** Redundancy *)

Definition last_write (prog : list V4_Instruction) (a i : nat) : Prop :=
  (exists op, prog !! i = Some op /\ dst_index op = a) /\
  forall k op, (i < k)%nat -> prog !! k = Some op -> dst_index op <> a.

(** The registers hold the same value at [i] and at the end: both are constant,
    or it is one register that is not written in between. *)
Definition same_value (prog : list V4_Instruction) (i r r' : nat) : Prop :=
  (4 <= r)%nat /\ (4 <= r')%nat \/ r = r' /\ forall k op, (i <= k)%nat -> prog !! k = Some op -> dst_index op <> r.

(** After [prog], [op] could be merged with the write before it to its register. *)
Definition mergeable (prog : list V4_Instruction) (op : V4_Instruction) : Prop :=
  exists i op', last_write prog (dst_index op) i /\ prog !! i = Some op' /\
    (is_rotation (opcode op') = true /\ is_rotation (opcode op) = true \/
     opcode op' = opcode op /\ opcode op <> MUL /\ same_value prog i (src_index op') (src_index op)).

Definition irredundant (prog : list V4_Instruction) : Prop :=
  forall prog1 op prog2, prog = prog1 ++ op :: prog2 -> ~ mergeable prog1 op.

(** ** Chains *)

(** The rest of a program lengthens the deepest chain of the four registers, into
    the register with the shortest one. *)
Definition deepened (prog tail : list V4_Instruction) : Prop :=
  forall tail1 op tail2, tail = tail1 ++ op :: tail2 ->
    let d := depths (prog ++ tail1) in
    opcode op = [ROR; MUL; MUL] !!! (length tail1 mod 3)%nat /\ C op = 0 /\
    forall i, (i < 4)%nat -> d !!! dst_index op <= d !!! i <= d !!! src_index op /\ d !!! i < 45.

(** What the generator promises. *)
Definition random_program (prog : list V4_Instruction) : Prop :=
  Forall valid_instr prog /\ (60 <= length prog <= 70)%nat /\ uses_r8 prog = true /\
  (length prog = 70%nat \/ exists i, (i < 4)%nat /\ 45 <= depths prog !!! i) /\
  exists ps tail, prog = map fst ps ++ tail /\ scheduled ps /\ irredundant (map fst ps) /\ deepened (map fst ps) tail.

(** ** Tables *)

Lemma is_op_cases o : is_op o -> o = MUL \/ o = ADD \/ o = SUB \/ o = ROR \/ o = ROL \/ o = XOR.
Proof. unfold is_op, MUL, ADD, SUB, ROR, ROL, XOR. lia. Qed.

Lemma op_tables o : is_op o ->
  at_int op_latency o = Some (op_cycles o) /\ at_int asic_op_latency o = Some (asic_cycles o) /\
  at_int op_ALUs o = Some (op_units o) /\ 1 <= op_cycles o <= 3 /\ 1 <= asic_cycles o <= 3 /\ (op_units o <= 3)%nat /\
  (o = ADD -> op_cycles o = 2).
Proof. intros H. destruct (is_op_cases o H) as [->|[->|[->|[->|[->| ->]]]]]; cbn; repeat split; lia || discriminate. Qed.

(** * The generator of CryptoNight-R: its invariant

    What holds of the variables of an attempt, and that every step keeps it. *)

(** ** Random bytes *)

Section generator.
Context (stack : list Z) (Hstack : bytes_of 64 stack).

Definition source_ok (s : source) : Prop := bytes_of 32 (data s) /\ (data_index s <= 32)%nat.

Lemma check_data_ok n s : source_ok s -> (n <= 32)%nat ->
  exists s', check_data stack n s = Some s' /\ source_ok s' /\ (data_index s' + n <= 32)%nat.
Proof.
  intros [[Hb Hl] Hi] Hn. unfold check_data. destruct (Nat.ltb_spec (length (data s)) (data_index s + n)).
  - pose proof (hash256 stack (data s) Hstack Hb ltac:(rewrite Hl; lia)) as Eh. rewrite Eh. cbn [mbind option_bind].
    eexists. split; [reflexivity|]. unfold blake256_hash in Eh. destruct (blake256_update _ _ _) as [S|]; [|discriminate].
    apply final_bytes in Eh. split; [split; [exact Eh | cbn; lia] | cbn; lia].
  - exists s. split; [reflexivity|]. split; [split; [split; assumption | assumption] | lia].
Qed.

Lemma next_byte_ok s : source_ok s -> exists c s', next_byte stack s = Some (c, s') /\ is_byte c /\ source_ok s'.
Proof.
  intros Hs. unfold next_byte. destruct (check_data_ok 1 s Hs) as (s' & -> & [[Hb Hl] Hi] & Hn); [lia|]. cbn [mbind option_bind].
  destruct (lookup_lt_is_Some_2 (data s') (data_index s')) as [c Ec]; [lia|]. rewrite Ec. cbn [mbind option_bind].
  eexists _, _. split; [reflexivity|]. unfold is_bytes in Hb. rewrite Forall_lookup in Hb. split; [exact (Hb _ _ Ec)|].
  split; [split; [apply Forall_lookup; exact Hb | exact Hl] | cbn; lia].
Qed.

Lemma pick_opcode_ok c s : is_byte c -> source_ok s -> exists o s', pick_opcode stack c s = Some (o, s') /\ is_op o /\ source_ok s'.
Proof.
  intros Hc Hs. unfold pick_opcode. change (Z.shiftl 1 3 - 1) with (Z.ones 3). rewrite Z.land_ones by lia. change (2 ^ 3) with 8.
  pose proof (Z.mod_pos_bound c 8 ltac:(lia)) as Hm. unfold is_op.
  destruct (Z.eqb_spec (c mod 8) 5).
  - destruct (next_byte_ok s Hs) as (d & s' & -> & _ & Hs'). cbn [mbind option_bind]. eexists _, _. split; [reflexivity|].
    split; [destruct (d <? 128); unfold ROR, ROL; lia | exact Hs'].
  - destruct (Z.leb_spec 6 (c mod 8)); [eexists _, _; split; [reflexivity | split; [unfold XOR; lia | exact Hs]]|].
    eexists _, _. split; [reflexivity|]. split; [destruct (Z.leb_spec (c mod 8) 2); unfold MUL; lia | exact Hs].
Qed.

Lemma pick_constant_ok o s : source_ok s ->
  exists c s', pick_constant stack o s = Some (c, s') /\ 0 <= c < 2 ^ 32 /\ (o <> ADD -> c = 0) /\ source_ok s'.
Proof.
  intros Hs. unfold pick_constant. destruct (Z.eqb_spec o ADD) as [->|]; [|exists 0, s; repeat split; lia || apply Hs].
  destruct (check_data_ok 4 s Hs) as (s' & -> & [[Hb Hl] Hi] & Hn); [lia|]. cbn [mbind option_bind].
  destruct (Nat.ltb_spec (length (data s')) (data_index s' + 4)); [lia|]. eexists _, _. split; [reflexivity|].
  assert (Hw : is_bytes (take 4 (drop (data_index s') (data s')))) by (apply Forall_take, Forall_drop; exact Hb).
  split; [|split; [contradiction | split; [split; assumption | cbn; lia]]].
  pose proof (le_val_range _ Hw) as Hr. rewrite length_take, length_drop in Hr.
  replace (4 `min` (length (data s') - data_index s'))%nat with 4%nat in Hr by lia. exact Hr.
Qed.

(** ** Arrays *)

Lemma at_int_Some {A} (l : list A) (i : Z) : 0 <= i < Z.of_nat (length l) -> exists x, at_int l i = Some x /\ l !! Z.to_nat i = Some x.
Proof.
  intros Hi. unfold at_int. destruct (Z.ltb_spec i 0); [lia|]. destruct (lookup_lt_is_Some_2 l (Z.to_nat i)) as [x Ex]; [lia|]. eauto.
Qed.

Lemma store_Some {A} (l : list A) i x : (i < length l)%nat -> store l i x = Some (<[i := x]> l).
Proof. intros Hi. unfold store. destruct (Nat.ltb_spec i (length l)); [reflexivity | lia]. Qed.

(** 46 cycles of three units. *)
Definition grid (b : list (list bool)) : Prop := length b = 46%nat /\ Forall (fun row => length row = 3%nat) b.

Definition cell (b : list (list bool)) (t : Z) (u : nat) : bool := (b !!! Z.to_nat t) !!! u.

Lemma grid_row b t : grid b -> 0 <= t <= 45 -> exists row, at_int b t = Some row /\ b !! Z.to_nat t = Some row /\ length row = 3%nat.
Proof.
  intros [Hl Hr] Ht. destruct (at_int_Some b t) as (row & E & El); [lia|]. exists row. rewrite Forall_lookup in Hr. eauto.
Qed.

Lemma cell_lookup b t u row x : b !! Z.to_nat t = Some row -> row !! u = Some x -> cell b t u = x.
Proof. intros Er Ex. unfold cell. rewrite (list_lookup_total_correct _ _ _ Er). apply list_lookup_total_correct, Ex. Qed.

Lemma store_busy_ok b t u : grid b -> 0 <= t <= 45 -> (u < 3)%nat ->
  exists b', store_busy b t (Z.of_nat u) = Some b' /\ grid b' /\
    forall t' u', 0 <= t' -> cell b' t' u' = (bool_decide (t' = t /\ u' = u)) || cell b t' u'.
Proof.
  intros Hg Ht Hu. destruct (grid_row b t Hg Ht) as (row & E & El & Lr). destruct Hg as [Hl Hr]. unfold store_busy. rewrite E. cbn [mbind option_bind].
  destruct (_ || _) eqn:Eo. { apply orb_true_iff in Eo as [Eo%Z.ltb_lt|Eo%Z.leb_le]; lia. }
  rewrite Nat2Z.id. eexists. split; [reflexivity|]. split.
  - split; [rewrite length_insert; exact Hl|]. apply Forall_insert; [exact Hr | rewrite length_insert; exact Lr].
  - intros t' u' Ht'. unfold cell. rewrite list_lookup_total_insert. case_decide as Ed.
    + destruct Ed as [Ed _]. assert (t' = t) as -> by lia. rewrite (list_lookup_total_correct _ _ _ El), list_lookup_total_insert, Lr.
      case_decide as Ed2; [destruct Ed2 as [-> _]; rewrite bool_decide_eq_true_2 by auto; reflexivity|].
      rewrite bool_decide_eq_false_2 by (intros [_ ->]; apply Ed2; auto). reflexivity.
    + rewrite bool_decide_eq_false_2; [reflexivity|]. intros [-> ->]. apply Ed. split; [reflexivity | lia].
Qed.

(** ** The search for a unit *)

Lemma scan_alus_ok g o t : grid (alu_busy g) -> 0 <= t < 45 -> forall n, (n <= 3)%nat ->
  exists r, scan_alus n g o (op_cycles o) t = Some r /\
    forall u, r = Some u -> (u < n)%nat /\ cell (alu_busy g) t u = false /\ (o = ADD -> cell (alu_busy g) (t + 1) u = false) /\
      (is_rotation o = true -> rotate_count g * op_cycles o <= t).
Proof.
  intros Hg Ht. induction n as [|i IH]; intros Hn; [exists None; split; [reflexivity | discriminate]|]. cbn [scan_alus].
  destruct (grid_row _ t Hg) as (row & -> & Er & Lr); [lia|]. destruct (grid_row _ (t + 1) Hg) as (row' & -> & Er' & Lr'); [lia|].
  destruct (lookup_lt_is_Some_2 row i) as [x Ex]; [lia|]. destruct (lookup_lt_is_Some_2 row' i) as [x' Ex']; [lia|].
  cbn [mbind option_bind]. rewrite Ex. cbn [mbind option_bind].
  destruct (IH ltac:(lia)) as (r & Ei & Hr).
  assert (Hrest : exists r, scan_alus i g o (op_cycles o) t = Some r /\
    forall u, r = Some u -> (u < S i)%nat /\ cell (alu_busy g) t u = false /\ (o = ADD -> cell (alu_busy g) (t + 1) u = false) /\
      (is_rotation o = true -> rotate_count g * op_cycles o <= t)).
  { exists r. split; [exact Ei|]. intros u Eu. destruct (Hr u Eu) as (? & ? & ? & ?). auto with lia. }
  assert (Hwait : is_rotation o && (t <? rotate_count g * op_cycles o) = false ->
    is_rotation o = true -> rotate_count g * op_cycles o <= t).
  { intros E Erot. rewrite Erot in E. apply Z.ltb_ge in E. exact E. }
  destruct x; [exact Hrest|]. destruct (Z.eqb_spec o ADD) as [->|Ho].
  - rewrite Ex'. cbn [mbind option_bind]. destruct x'; [exact Hrest|]. destruct (_ && _); [exact Hrest|].
    exists (Some i). split; [reflexivity|]. intros u [= <-]. split; [lia|]. split; [exact (cell_lookup _ _ _ _ _ Er Ex)|].
    split; [intros _; exact (cell_lookup _ _ _ _ _ Er' Ex') | intros Hadd; discriminate Hadd].
  - cbn [mbind option_bind]. destruct (_ && _) eqn:Ew; [exact Hrest|].
    exists (Some i). split; [reflexivity|]. intros u [= <-]. split; [lia|]. split; [exact (cell_lookup _ _ _ _ _ Er Ex)|].
    split; [intros ->; contradiction | exact (Hwait eq_refl)].
Qed.

Lemma find_alu_ok g o n : grid (alu_busy g) -> (n <= 3)%nat -> forall fuel t, 0 <= t <= 45 -> (45 - t < Z.of_nat fuel) ->
  exists start alu, find_alu fuel g o (op_cycles o) n t = Some (start, alu) /\ t <= start <= 45 /\
    (start < 45 -> exists u, alu = Z.of_nat u /\ (u < n)%nat /\ cell (alu_busy g) start u = false /\
      (o = ADD -> cell (alu_busy g) (start + 1) u = false) /\ (is_rotation o = true -> rotate_count g * op_cycles o <= start)).
Proof.
  intros Hg Hn. induction fuel as [|fuel IH]; intros t Ht Hf; [lia|]. cbn [find_alu]. unfold TOTAL_LATENCY. change (15 * 3) with 45.
  destruct (Z.ltb_spec t 45).
  - destruct (scan_alus_ok g o t Hg ltac:(lia) n Hn) as (r & -> & Hr). cbn [mbind option_bind]. destruct r as [u|].
    + eexists _, _. split; [reflexivity|]. split; [lia|]. intros _. exists u. destruct (Hr u eq_refl) as (? & ? & ? & ?). auto.
    + destruct (IH (t + 1)) as (start & alu & E & Hs & Hfree); [lia..|]. exists start, alu. split; [exact E|]. split; [lia | exact Hfree].
  - eexists _, _. split; [reflexivity|]. split; [lia|]. lia.
Qed.

(** ** What an attempt keeps *)

(** The number of the value in a register: the instruction that wrote it. *)
Definition value_number (l : list Z) (r : nat) : Z := Z.land (l !!! r) 255.

Record tracked (l : list Z) (prog : list V4_Instruction) : Prop := {
  tr_length : length l = 9%nat;
  tr_const : forall r, (4 <= r < 9)%nat -> l !!! r = 0xFFFFFF;
  tr_write : forall a i op, last_write prog a i -> prog !! i = Some op ->
    exists v, l !!! a = Z.of_nat i + opcode op * 2 ^ 8 + v * 2 ^ 16 /\ 0 <= v < 256 /\
      forall r, (r < 9)%nat -> same_value prog i (src_index op) r -> v = value_number l r
}.

Definition rotations (l : list bool) (prog : list V4_Instruction) : Prop :=
  length l = 4%nat /\ forall a i op, last_write prog a i -> prog !! i = Some op -> l !!! a = is_rotation (opcode op).

Record filling (g : gen) (ps : list (V4_Instruction * slot)) : Prop := {
  fl_random : source_ok (random g);
  fl_prog : take (code_size g) (code g) = map fst ps;
  fl_room : (code_size g <= 70 /\ 71 <= length (code g))%nat;
  fl_valid : Forall valid_instr (map fst ps);
  fl_scheduled : scheduled ps;
  fl_latency : latency g = ready ps;
  fl_grid : grid (alu_busy g);
  fl_busy : forall q t u, q ∈ ps -> occupies q t u -> cell (alu_busy g) t u = true;
  fl_asic : asic_latency g = depths (map fst ps);
  fl_r8 : r8_used g = uses_r8 (map fst ps);
  fl_tracked : tracked (inst_data g) (map fst ps);
  fl_rotations : rotations (rotated g) (map fst ps);
  fl_count : rotate_count g = rotation_count (map fst ps);
  fl_irredundant : irredundant (map fst ps)
}.

Lemma ready_length ps : length (ready ps) = 9%nat.
Proof.
  unfold ready. assert (H : forall l, length (foldl ready_step l ps) = length l); [|rewrite H; reflexivity].
  induction ps as [|p ps IH]; intros l; [reflexivity|]. cbn [foldl]. rewrite IH. apply length_insert.
Qed.

Lemma depths_length prog : length (depths prog) = 9%nat.
Proof.
  unfold depths. assert (H : forall l, length (foldl depth_step l prog) = length l); [|rewrite H; reflexivity].
  induction prog as [|p ps IH]; intros l; [reflexivity|]. cbn [foldl]. rewrite IH. apply length_insert.
Qed.

Lemma ready_snoc ps p : ready (ps ++ [p]) = <[dst_index p.1 := finish p]> (ready ps).
Proof. unfold ready. rewrite foldl_app. reflexivity. Qed.

Lemma depths_snoc prog op : depths (prog ++ [op]) = depth_step (depths prog) op.
Proof. unfold depths. rewrite foldl_app. reflexivity. Qed.

Lemma rotation_count_snoc prog op :
  rotation_count (prog ++ [op]) = rotation_count prog + if is_rotation (opcode op) then 1 else 0.
Proof.
  unfold rotation_count. rewrite List.filter_app, length_app. cbn [List.filter]. destruct (is_rotation _); cbn [length]; lia.
Qed.

Lemma scheduled_range ps : scheduled ps -> Forall valid_instr (map fst ps) -> forall r, (r < 9)%nat -> 0 <= ready ps !!! r <= 45.
Proof.
  intros Hs. induction Hs as [|ps p Hs IH Hd Hsrc Hf Hu Ho Hrt]; intros Hv r Hr.
  - do 9 (destruct r as [|r]; [cbn; lia|]). lia.
  - rewrite map_app, Forall_app in Hv. destruct Hv as [Hv Hp%Forall_inv]. destruct Hp as (Ho' & Hdst & _).
    rewrite ready_snoc, list_lookup_total_insert. case_decide; [|apply IH; assumption].
    destruct (op_tables _ Ho') as (_ & _ & _ & Hc & _). unfold finish in *. pose proof (IH Hv (dst_index p.1) ltac:(lia)). lia.
Qed.

Lemma scheduled_start ps q : scheduled ps -> Forall valid_instr (map fst ps) -> q ∈ ps -> 0 <= start q.2.
Proof.
  intros Hs. induction Hs as [|ps p Hs IH Hd Hsrc Hf Hu Ho Hrt]; intros Hv Hq; [apply elem_of_nil in Hq; contradiction|].
  rewrite map_app, Forall_app in Hv. destruct Hv as [Hv Hp%Forall_inv]. apply elem_of_app in Hq as [Hq|Hq%list_elem_of_singleton]; [auto|].
  subst q. destruct Hp as (_ & _ & Hp & _). pose proof (scheduled_range ps Hs Hv _ Hp). lia.
Qed.

Lemma last_write_snoc prog op a i : last_write (prog ++ [op]) a i ->
  dst_index op = a /\ i = length prog \/ dst_index op <> a /\ last_write prog a i /\ (i < length prog)%nat.
Proof.
  intros [(op' & E & Ed) Hlast]. destruct (decide (dst_index op = a)) as [He|He].
  - left. split; [exact He|]. apply lookup_snoc_Some in E as [[Hi E]|[-> _]]; [|reflexivity].
    exfalso. apply (Hlast (length prog) op); [lia | rewrite lookup_app_r, Nat.sub_diag by lia; reflexivity | exact He].
  - right. split; [exact He|]. apply lookup_snoc_Some in E as [[Hi E]|[-> ->]]; [|contradiction].
    split; [|exact Hi]. split; [eauto|]. intros k op2 Hk E2. apply (Hlast k op2 Hk). apply lookup_snoc_Some. left. split; [|exact E2].
    apply lookup_lt_is_Some. eauto.
Qed.

Lemma last_write_lt prog a i : last_write prog a i -> (i < length prog)%nat.
Proof. intros [(op & E & _) _]. apply lookup_lt_is_Some. eauto. Qed.

Lemma same_value_snoc prog op i r r' : (i <= length prog)%nat -> same_value (prog ++ [op]) i r r' ->
  same_value prog i r r' /\ ((4 <= r)%nat /\ (4 <= r')%nat \/ r = r' /\ dst_index op <> r).
Proof.
  intros Hi [Hc|[He Hw]]; [split; left; exact Hc|]. split; right; split; try exact He.
  - intros k op' Hk E. apply (Hw k op' Hk). apply lookup_snoc_Some. left. split; [apply lookup_lt_is_Some; eauto | exact E].
  - apply (Hw (length prog)); [exact Hi | rewrite lookup_app_r, Nat.sub_diag by lia; reflexivity].
Qed.

Lemma value_number_range l r : 0 <= value_number l r < 256.
Proof. unfold value_number. change 255 with (Z.ones 8). rewrite Z.land_ones by lia. apply Z.mod_pos_bound. lia. Qed.

(** The two high bytes of three. *)
Lemma land_high_bytes x y z : 0 <= x < 256 -> 0 <= y < 256 -> 0 <= z < 256 ->
  Z.land (x + y * 2 ^ 8 + z * 2 ^ 16) 0xFFFF00 = y * 2 ^ 8 + z * 2 ^ 16.
Proof.
  intros Hx Hy Hz. replace (x + y * 2 ^ 8 + z * 2 ^ 16) with (x + (y + z * 2 ^ 8) * 2 ^ 8) by ring.
  rewrite <- lor_shiftl_add by lia. rewrite Z.land_lor_distr_l.
  change 0xFFFF00 with (Z.shiftl 0xFFFF 8). rewrite <- Z.shiftl_land.
  change 0xFFFF with (Z.ones 16). rewrite Z.land_ones, Z.mod_small by lia.
  assert (E : Z.land x (Z.shiftl (Z.ones 16) 8) = 0).
  { apply Z.bits_inj'. intros n Hn. rewrite Z.land_spec, Z.bits_0. destruct (Z.ltb_spec n 8).
    - rewrite Z.shiftl_spec_low by assumption. apply andb_false_r.
    - rewrite (proj2 (Z.testbit_false x n Hn)); [reflexivity|]. rewrite Z.div_small; [reflexivity|]. split; [lia|].
      apply Z.lt_le_trans with (2 ^ 8); [lia | apply Z.pow_le_mono_r; lia]. }
  rewrite E, Z.lor_0_l, Z.shiftl_mul_pow2 by lia. ring.
Qed.

Lemma value_number_const l prog r : tracked l prog -> (4 <= r < 9)%nat -> value_number l r = 255.
Proof. intros H Hr. unfold value_number. rewrite (tr_const _ _ H r Hr). reflexivity. Qed.

Lemma tracked_nil : tracked [0; 1; 2; 3; 0xFFFFFF; 0xFFFFFF; 0xFFFFFF; 0xFFFFFF; 0xFFFFFF] [].
Proof.
  constructor; [reflexivity | | intros a i op [(? & E & _) _]; discriminate].
  intros r Hr. do 9 (destruct r as [|r]; [reflexivity || lia|]). lia.
Qed.

(** The numbers after an instruction from [b] to [a]. *)
Lemma tracked_snoc l prog op :
  tracked l prog -> valid_instr op -> (length prog < 256)%nat ->
  tracked (<[dst_index op := to_u32 (Z.of_nat (length prog) + Z.shiftl (opcode op) 8 + Z.shiftl (Z.land (l !!! src_index op) 255) 16)]> l)
    (prog ++ [op]).
Proof.
  intros Ht (Ho & Hd & Hs & _) Hlen. pose proof (value_number_range l (src_index op)) as Hv. unfold is_op in Ho.
  fold (value_number l (src_index op)). rewrite !Z.shiftl_mul_pow2 by lia.
  assert (E32 : to_u32 (Z.of_nat (length prog) + opcode op * 2 ^ 8 + value_number l (src_index op) * 2 ^ 16) =
    Z.of_nat (length prog) + opcode op * 2 ^ 8 + value_number l (src_index op) * 2 ^ 16) by (apply Z.mod_small; lia).
  rewrite E32. pose proof (value_number_const l prog) as Hconst. destruct Ht as [Hl Hc Hw].
  set (x := Z.of_nat (length prog) + opcode op * 2 ^ 8 + value_number l (src_index op) * 2 ^ 16).
  assert (Hkeep : forall r, (4 <= r)%nat \/ dst_index op <> r -> value_number (<[dst_index op := x]> l) r = value_number l r).
  { intros r Hr. unfold value_number. rewrite list_lookup_total_insert_ne by lia. reflexivity. }
  constructor.
  - rewrite length_insert. exact Hl.
  - intros r Hr. rewrite list_lookup_total_insert_ne by lia. apply Hc, Hr.
  - intros a i op0 Hlw E0. apply last_write_snoc in Hlw as [[Ha ->]|(Ha & Hlw & Hi)].
    + rewrite lookup_app_r, Nat.sub_diag in E0 by lia. injection E0 as <-. exists (value_number l (src_index op)). subst a.
      split; [rewrite list_lookup_total_insert_eq by lia; reflexivity|]. split; [exact Hv|]. intros r Hr Hsame.
      destruct (same_value_snoc prog op _ _ r (le_n _) Hsame) as [_ [[H1 H2]|[<- Hne]]].
      * rewrite Hkeep by auto. rewrite !Hconst; [reflexivity | split; assumption..].
      * symmetry. apply Hkeep. auto.
    + rewrite lookup_app_l in E0 by exact Hi. destruct (Hw a i op0 Hlw E0) as (v & El & Hvr & Hs').
      exists v. split; [rewrite list_lookup_total_insert_ne by exact Ha; exact El|]. split; [exact Hvr|]. intros r Hr Hsame.
      destruct (same_value_snoc prog op i _ r ltac:(lia) Hsame) as [Hsame' Hor]. rewrite Hkeep; [apply Hs'; assumption|].
      destruct Hor as [[_ ?]|[<- ?]]; auto.
Qed.

Lemma rotations_snoc l prog op : rotations l prog -> (dst_index op < 4)%nat ->
  rotations (<[dst_index op := is_rotation (opcode op)]> l) (prog ++ [op]).
Proof.
  intros [Hl Hr] Hd. split; [rewrite length_insert; exact Hl|]. intros a i op0 Hlw E0.
  apply last_write_snoc in Hlw as [[Ha ->]|(Ha & Hlw & Hi)].
  - rewrite lookup_app_r, Nat.sub_diag in E0 by lia. injection E0 as <-. subst a. apply list_lookup_total_insert_eq. lia.
  - rewrite lookup_app_l in E0 by exact Hi. rewrite list_lookup_total_insert_ne by exact Ha. exact (Hr a i op0 Hlw E0).
Qed.

Lemma irredundant_snoc prog op : irredundant prog -> ~ mergeable prog op -> irredundant (prog ++ [op]).
Proof.
  intros Hp Hm prog1 op1 prog2 E. destruct prog2 as [|op2 prog2 _] using rev_ind.
  - apply app_inj_tail in E as [<- <-]. exact Hm.
  - rewrite app_comm_cons, app_assoc in E. apply app_inj_tail in E as [-> _]. exact (Hp _ _ _ eq_refl).
Qed.

(** The checks of the generator exclude instructions that could be merged. *)
Lemma not_mergeable l rot prog op :
  tracked l prog -> rotations rot prog -> is_op (opcode op) -> (src_index op < 9)%nat -> (length prog < 256)%nat ->
  is_rotation (opcode op) && (rot !!! dst_index op) = false ->
  negb (opcode op =? MUL) && (Z.land (l !!! dst_index op) 0xFFFF00 =? Z.shiftl (opcode op) 8 + Z.shiftl (Z.land (l !!! src_index op) 255) 16) = false ->
  ~ mergeable prog op.
Proof.
  intros Ht Hr Ho Hs Hlen Hrot Hdup (i & op' & Hlw & E & [[H1 H2]|(Eo & Hne & Hsame)]).
  - rewrite H2, (proj2 Hr _ _ _ Hlw E), H1 in Hrot. discriminate.
  - destruct (tr_write _ _ Ht _ _ _ Hlw E) as (v & El & Hv & Hval). apply Z.eqb_neq in Hne. rewrite Hne in Hdup. cbn [negb andb] in Hdup.
    apply Z.eqb_neq in Hdup. apply Hdup. rewrite El, (Hval _ Hs Hsame), <- Eo. fold (value_number l (src_index op)).
    rewrite !Z.shiftl_mul_pow2 by lia. rewrite <- (Hval _ Hs Hsame).
    pose proof (last_write_lt _ _ _ Hlw). rewrite Eo in *. clear - Hv Ho Hlen H. unfold is_op in Ho.
    apply land_high_bytes; lia.
Qed.

(** ** The steps *)

Lemma uses_r8_snoc prog op : uses_r8 (prog ++ [op]) = uses_r8 prog || (src_index op =? 8)%nat.
Proof. unfold uses_r8. rewrite existsb_app. cbn [existsb]. rewrite orb_false_r. reflexivity. Qed.

Lemma store_total {A} `{Inhabited A} (l : list A) i : (i < length l)%nat -> l !! i = Some (l !!! i).
Proof. intros Hi. apply list_lookup_lookup_total_lt, Hi. Qed.

(** The cells of an instruction are marked. *)
Lemma mark_cells b t u o : grid b -> 0 <= t -> t + op_cycles o <= 45 -> is_op o -> (u < 3)%nat ->
  exists b1 b2, store_busy b t (Z.of_nat u) = Some b1 /\
    (if o =? ADD then store_busy b1 (t + 1) (Z.of_nat u) else Some b1) = Some b2 /\ grid b2 /\
    forall t' u', 0 <= t' -> cell b2 t' u' = true <-> cell b t' u' = true \/ u' = u /\ (t' = t \/ o = ADD /\ t' = t + 1).
Proof.
  intros Hg Ht Hf Ho Hu. destruct (op_tables o Ho) as (_ & _ & _ & Hc & _).
  destruct (store_busy_ok b t u Hg ltac:(lia) Hu) as (b1 & E1 & Hg1 & Hc1).
  destruct (Z.eqb_spec o ADD) as [->|Hne].
  - destruct (store_busy_ok b1 (t + 1) u Hg1 ltac:(lia) Hu) as (b2 & E2 & Hg2 & Hc2).
    exists b1, b2. split; [exact E1|]. split; [exact E2|]. split; [exact Hg2|]. intros t' u' Ht'. rewrite Hc2, Hc1 by exact Ht'.
    rewrite !orb_true_iff, !bool_decide_eq_true. tauto.
  - exists b1, b1. split; [exact E1|]. split; [reflexivity|]. split; [exact Hg1|]. intros t' u' Ht'. rewrite Hc1 by exact Ht'.
    rewrite orb_true_iff, bool_decide_eq_true. tauto.
Qed.

Lemma max_if x y : (if y <? x then x else y) = Z.max x y.
Proof. destruct (Z.ltb_spec y x); lia. Qed.

Lemma emit_instruction_ok g ps o a b t u :
  filling g ps -> (code_size g < 60)%nat -> is_op o -> (a < 4)%nat -> (b < 9)%nat ->
  (o = ADD \/ o = SUB \/ o = XOR -> b <> a) ->
  ready ps !!! a <= t <= ready ps !!! a + 7 -> ready ps !!! b <= t -> t + op_cycles o <= 45 -> (u < op_units o)%nat ->
  cell (alu_busy g) t u = false -> (o = ADD -> cell (alu_busy g) (t + 1) u = false) ->
  (is_rotation o = true -> rotate_count g * op_cycles o <= t) ->
  (forall c, ~ mergeable (map fst ps) (Instr o a b c)) ->
  exists g' p, emit_instruction stack g o a b b (op_cycles o) t (Z.of_nat u) = Some g' /\ filling g' (ps ++ [p]) /\
    code_size g' = S (code_size g) /\ total_iterations g' = total_iterations g /\ length (code g') = length (code g).
Proof.
  intros Hf Hsz Ho Ha Hb Hself Hta Htb Hfin Hu Hfree Hfree' Hwait Hmerge.
  pose proof Hf as [Hrand Hprog [Hroom Hmem] Hvalid Hsched Hlat Hgrid Hbusy Hasic Hr8 Htr Hrot Hcount Hirr].
  destruct (op_tables o Ho) as (El & Eal & Eun & Hc & Hac & Hun & _).
  assert (Ht0 : 0 <= t) by (pose proof (scheduled_range ps Hsched Hvalid b Hb); lia).
  destruct (mark_cells (alu_busy g) t u o Hgrid Ht0 Hfin Ho ltac:(lia)) as (b1 & b2 & E1 & E2 & Hg2 & Hcell).
  destruct (pick_constant_ok o (random g) Hrand) as (c & s' & Ec & Hcr & Hc0 & Hs').
  assert (Hlen : length (map fst ps) = code_size g) by (rewrite <- Hprog, length_take; lia).
  unfold emit_instruction. rewrite E1. cbn [mbind option_bind].
  rewrite (store_Some (latency g)) by (rewrite Hlat, ready_length; lia). cbn [mbind option_bind].
  rewrite Hasic, !(store_total (depths _)) by (rewrite depths_length; lia). cbn [mbind option_bind]. rewrite Eal. cbn [mbind option_bind].
  rewrite (store_Some (depths _)) by (rewrite depths_length; lia). cbn [mbind option_bind].
  rewrite (store_Some (rotated g)) by (rewrite (proj1 Hrot); lia). cbn [mbind option_bind].
  rewrite (store_total (inst_data g)) by (rewrite (tr_length _ _ Htr); lia). cbn [mbind option_bind].
  rewrite (store_Some (inst_data g)) by (rewrite (tr_length _ _ Htr); lia). cbn [mbind option_bind].
  rewrite E2. cbn [mbind option_bind]. rewrite Ec. cbn [mbind option_bind].
  rewrite (store_Some (code g)) by lia. cbn [mbind option_bind].
  set (op := Instr o a b c). set (p := (op, Slot t u)).
  assert (Hop : valid_instr op) by (unfold valid_instr; cbn; auto 10).
  eexists _, p. split; [reflexivity|]. split; [|cbn; rewrite length_insert; auto].
  assert (Emap : map fst (ps ++ [p]) = map fst ps ++ [op]) by (rewrite map_app; reflexivity).
  constructor; cbn [random code code_size latency alu_busy asic_latency r8_used inst_data rotated rotate_count]; rewrite ?Emap.
  - exact Hs'.
  - rewrite <- Hprog. rewrite (take_S_r _ _ op) by (apply list_lookup_insert_eq; lia). rewrite take_insert, decide_False by lia. reflexivity.
  - rewrite length_insert. lia.
  - apply Forall_app. auto.
  - constructor; cbn [p fst snd op start unit_of opcode dst_index src_index]; try assumption; [|rewrite <- Hcount; exact Hwait].
    intros q t' u' Hq Hocc [Hu' Hocc']. cbn [snd unit_of start fst opcode] in *.
    pose proof (Hbusy q t' u' Hq Hocc) as Hcb. subst u'. unfold p, op in Hocc'. cbn [snd unit_of start fst opcode] in Hocc'.
    destruct Hocc' as [->|[Eo ->]]; cbn [p snd unit_of] in Hcb; [congruence | rewrite Hfree' in Hcb by exact Eo; discriminate].
  - rewrite ready_snoc, Hlat. reflexivity.
  - exact Hg2.
  - intros q t' u' Hq Hocc. apply elem_of_app in Hq as [Hq|Hq%list_elem_of_singleton].
    + apply Hcell; [|left; exact (Hbusy q t' u' Hq Hocc)].
      pose proof (scheduled_start ps q Hsched Hvalid Hq). destruct Hocc as [_ [->|[_ ->]]]; lia.
    + subst q. destruct Hocc as [<- Hocc]. cbn [p snd fst start unit_of opcode op] in *. apply Hcell; [|right; auto].
      destruct Hocc as [->|[_ ->]]; lia.
  - rewrite depths_snoc. unfold depth_step. cbn [dst_index src_index opcode op]. rewrite max_if. reflexivity.
  - rewrite uses_r8_snoc, Hr8. reflexivity.
  - rewrite <- Hlen. apply (tracked_snoc _ _ op); [exact Htr | exact Hop | lia].
  - apply (rotations_snoc _ _ op); assumption.
  - rewrite rotation_count_snoc, Hcount. reflexivity.
  - apply irredundant_snoc; [exact Hirr | apply Hmerge].
Qed.

(** The variables that do not matter to the invariant. *)
Lemma filling_random g ps s : filling g ps -> source_ok s -> filling (set_random s g) ps.
Proof. intros [] Hs. constructor; assumption. Qed.
Lemma filling_retry g ps : filling g ps -> filling (count_retry g) ps.
Proof. intros []. constructor; assumption. Qed.
Lemma filling_iteration g ps : filling g ps -> filling (count_iteration g) ps.
Proof. intros []. constructor; assumption. Qed.

Lemma bits_below c i n : is_byte c -> 0 <= i -> 0 <= n -> (Z.to_nat (Z.land (Z.shiftr c i) (Z.shiftl 1 n - 1)) < Z.to_nat (2 ^ n))%nat.
Proof.
  intros Hc Hi Hn. replace (Z.shiftl 1 n - 1) with (Z.ones n) by (rewrite Z.ones_equiv, Z.shiftl_1_l; lia). rewrite Z.land_ones by lia.
  pose proof (Z.mod_pos_bound (Z.shiftr c i) (2 ^ n) ltac:(apply Z.pow_pos_nonneg; lia)). lia.
Qed.

(** A turn keeps the program or adds one instruction. *)
Definition turned (g g' : gen) (ps : list (V4_Instruction * slot)) : Prop :=
  total_iterations g' = total_iterations g /\ length (code g') = length (code g) /\
  (filling g' ps /\ code_size g' = code_size g \/ exists p, filling g' (ps ++ [p]) /\ code_size g' = S (code_size g)).

Lemma try_ok g ps : filling g ps -> (code_size g < 60)%nat -> exists g', try_instruction stack g = Some g' /\ turned g g' ps.
Proof.
  intros Hf Hsz. unfold try_instruction.
  destruct (next_byte_ok _ (fl_random _ _ Hf)) as (c & s1 & -> & Hc & Hs1). cbn [mbind option_bind].
  destruct (pick_opcode_ok c s1 Hc Hs1) as (o & s2 & -> & Ho & Hs2). cbn [mbind option_bind].
  pose proof (filling_random g ps s2 Hf Hs2) as Hf2. set (g2 := set_random s2 g) in *.
  pose proof (bits_below c 3 2 Hc ltac:(lia) ltac:(lia)) as Ha. pose proof (bits_below c (3 + 2) 3 Hc ltac:(lia) ltac:(lia)) as Hb.
  set (a := Z.to_nat (Z.land (Z.shiftr c 3) _)) in *. set (src := Z.to_nat (Z.land (Z.shiftr c (3 + 2)) _)) in *.
  change (Z.to_nat (2 ^ 2)) with 4%nat in Ha. change (Z.to_nat (2 ^ 3)) with 8%nat in Hb.
  set (b := if _ && _ then 8%nat else src). 
  assert (Hb9 : (b < 9)%nat /\ (o = ADD \/ o = SUB \/ o = XOR -> b <> a)).
  { unfold b. destruct (Nat.eqb_spec a src) as [->|Hne]; [|rewrite andb_false_r; split; [lia | auto]].
    rewrite andb_true_r. destruct (_ || _) eqn:E; [split; lia|]. apply orb_false_iff in E as [[E1%Z.eqb_neq E2%Z.eqb_neq]%orb_false_iff E3%Z.eqb_neq].
    split; [lia | tauto]. }
  destruct Hb9 as [Hb9 Hself]. clearbody b.
  assert (Hstay : forall g', filling g' ps -> total_iterations g' = total_iterations g -> code g' = code g -> code_size g' = code_size g -> turned g g' ps)
    by (intros g' ? ? Ec ?; unfold turned; rewrite Ec; auto).
  pose proof (fl_rotations _ _ Hf2) as Hrot. pose proof (fl_tracked _ _ Hf2) as Htr. pose proof (fl_latency _ _ Hf2) as Hlat.
  rewrite (store_total (rotated g2)) by (rewrite (proj1 Hrot); lia). cbn [mbind option_bind].
  destruct (is_rotation o && _) eqn:Erot; [exists g2; split; [reflexivity | apply Hstay; auto]|].
  rewrite !(store_total (inst_data g2)) by (rewrite (tr_length _ _ Htr); lia). cbn [mbind option_bind].
  destruct (negb (o =? MUL) && _) eqn:Edup; [exists g2; split; [reflexivity | apply Hstay; auto]|].
  rewrite Hlat, !(store_total (ready ps)) by (rewrite ready_length; lia). cbn [mbind option_bind].
  destruct (op_tables o Ho) as (-> & _ & -> & Hcy & _ & Hun & _). cbn [mbind option_bind]. rewrite max_if.
  pose proof (fl_scheduled _ _ Hf2) as Hsched. pose proof (fl_valid _ _ Hf2) as Hvalid.
  pose proof (scheduled_range ps Hsched Hvalid a ltac:(lia)). pose proof (scheduled_range ps Hsched Hvalid b Hb9).
  destruct (find_alu_ok g2 o (op_units o) (fl_grid _ _ Hf2) Hun 46 (Z.max (ready ps !!! a) (ready ps !!! b))) as (t & alu & -> & Ht & Hfree); [lia..|].
  cbn [mbind option_bind]. destruct (Z.ltb_spec (ready ps !!! a + 7) t); [exists g2; split; [reflexivity | apply Hstay; auto]|].
  unfold TOTAL_LATENCY. destruct (Z.leb_spec (t + op_cycles o) (15 * 3)); [|exists (count_retry g2); split; [reflexivity | apply Hstay; auto using filling_retry]].
  destruct (Hfree ltac:(lia)) as (u & -> & Hu & Hcell & Hcell' & Hwait).
  assert (Hlen : length (map fst ps) = code_size g2) by (rewrite <- (fl_prog _ _ Hf2), length_take; pose proof (fl_room _ _ Hf2); lia).
  destruct (emit_instruction_ok g2 ps o a b t u) as (g' & p & -> & Hf' & Esz & Eit & Elen); try assumption; try lia.
  { intros cst. apply (not_mergeable (inst_data g2) (rotated g2)); try assumption. rewrite Hlen. cbn [g2 set_random code_size]. lia. }
  exists g'. split; [reflexivity|]. split; [exact Eit|]. split; [exact Elen|]. right. exists p. split; [exact Hf' | exact Esz].
Qed.

(** ** The loops *)

Lemma below_latency_ok l : (4 <= length l)%nat ->
  below_latency l = Some (map (fun i => l !!! i <? 45) [0; 1; 2; 3]%nat).
Proof.
  intros Hl. do 4 (destruct l as [|? l]; [cbn in Hl; lia|]). reflexivity.
Qed.

Lemma filling_new mem s : (71 <= length mem)%nat -> source_ok s -> filling (new_gen mem s) [].
Proof.
  intros Hm Hs. constructor; try reflexivity; try assumption; [cbn; lia | constructor | constructor | | | exact tracked_nil | |].
  - split; [reflexivity|]. apply Forall_forall. intros row Hrow. apply list_elem_of_In, repeat_spec in Hrow as ->. reflexivity.
  - intros q t u Hq. apply elem_of_nil in Hq. contradiction.
  - split; [reflexivity|]. intros a i op [(? & E & _) _]. discriminate.
  - intros [|] ? ? E; discriminate.
Qed.

Lemma fill_ok fuel : forall g ps, filling g ps -> (code_size g < 60)%nat -> 0 <= total_iterations g <= 256 ->
  257 - total_iterations g < Z.of_nat fuel ->
  exists g' ps', fill_loop stack fuel g = Some g' /\ filling g' ps' /\ (code_size g' <= 60)%nat /\ length (code g') = length (code g).
Proof.
  induction fuel as [|fuel IH]; intros g ps Hf Hsz Hit Hfuel; [lia|]. cbn [fill_loop].
  rewrite below_latency_ok by (rewrite (fl_latency _ _ Hf), ready_length; lia). cbn [mbind option_bind].
  assert (Hstop : exists g' ps', Some g = Some g' /\ filling g' ps' /\ (code_size g' <= 60)%nat /\ length (code g') = length (code g))
    by (exists g, ps; auto with lia).
  destruct (_ && (num_retries g <? 64)); [|exact Hstop].
  destruct (Z.ltb_spec 256 (total_iterations (count_iteration g))) as [_|Hit'].
  { exists (count_iteration g), ps. split; [reflexivity|]. split; [apply filling_iteration, Hf | cbn; auto with lia]. }
  destruct (try_ok (count_iteration g) ps (filling_iteration _ _ Hf) Hsz) as (g' & -> & Eit & Elen & Hor). cbn [mbind option_bind].
  cbn [count_iteration total_iterations code code_size] in Eit, Elen, Hor, Hit'.
  assert (Hnext : forall ps', filling g' ps' -> (code_size g' < 60)%nat ->
    exists g2 ps2, fill_loop stack fuel g' = Some g2 /\ filling g2 ps2 /\ (code_size g2 <= 60)%nat /\ length (code g2) = length (code g)).
  { intros ps' Hf' Hsz'. destruct (IH g' ps' Hf' Hsz') as (g2 & ps2 & E & Hf2 & Hs2 & Hl2); [lia..|].
    exists g2, ps2. rewrite Hl2, Elen in *. auto. }
  cbn [count_iteration code_size]. destruct Hor as [[Hf' Es]|(p & Hf' & Es)].
  - rewrite Es, Nat.ltb_irrefl. cbn [andb]. apply (Hnext ps Hf'). lia.
  - rewrite Es. destruct (Nat.ltb_spec (code_size g) (S (code_size g))); [|lia]. cbn [andb]. unfold NUM_INSTRUCTIONS_MIN.
    destruct (Nat.leb_spec 60 (S (code_size g))); [exists g', (ps ++ [p]); split_and!; try assumption; [reflexivity | lia]|].
    apply (Hnext (ps ++ [p]) Hf'). lia.
Qed.

Lemma min_max_ok l : (4 <= length l)%nat -> exists mn mx, min_max l = Some (mn, mx) /\ (mn < 4)%nat /\ (mx < 4)%nat /\
  forall i, (i < 4)%nat -> l !!! mn <= l !!! i <= l !!! mx.
Proof.
  intros Hl. do 4 (destruct l as [|? l]; [cbn in Hl; lia|]). unfold min_max. cbn [foldl lookup list_lookup mbind option_bind].
  repeat (match goal with |- context [if ?x <? ?y then _ else _] => destruct (Z.ltb_spec x y) end; cbn [lookup list_lookup mbind option_bind]);
  eexists _, _; (split; [reflexivity|]); (split; [lia|]); (split; [lia|]); intros i Hi;
  (do 4 (destruct i as [|i]; [cbn; lia|])); lia.
Qed.

(** The second loop. *)
Record deepening (g : gen) (ps : list (V4_Instruction * slot)) (tail : list V4_Instruction) : Prop := {
  dp_random : source_ok (random g);
  dp_prog : take (code_size g) (code g) = map fst ps ++ tail;
  dp_room : (code_size g <= 70 /\ 71 <= length (code g))%nat;
  dp_valid : Forall valid_instr (map fst ps ++ tail);
  dp_scheduled : scheduled ps;
  dp_latency : length (latency g) = 9%nat;
  dp_asic : asic_latency g = depths (map fst ps ++ tail);
  dp_r8 : r8_used g = uses_r8 (map fst ps ++ tail);
  dp_irredundant : irredundant (map fst ps);
  dp_deepened : deepened (map fst ps) tail
}.

Lemma deepening_start g ps : filling g ps -> deepening g ps [].
Proof.
  intros []. constructor; rewrite ?app_nil_r; try assumption; [rewrite fl_latency0; apply ready_length|].
  intros [|] ? ? E; discriminate.
Qed.

Lemma deepened_snoc prog tail op : deepened prog tail ->
  opcode op = [ROR; MUL; MUL] !!! (length tail mod 3)%nat -> C op = 0 ->
  (forall i, (i < 4)%nat -> depths (prog ++ tail) !!! dst_index op <= depths (prog ++ tail) !!! i <= depths (prog ++ tail) !!! src_index op /\
    depths (prog ++ tail) !!! i < 45) ->
  deepened prog (tail ++ [op]).
Proof.
  intros Hd Ho Hc Hi tail1 op1 tail2 E. destruct tail2 as [|op2 tail2 _] using rev_ind.
  - apply app_inj_tail in E as [<- <-]. auto.
  - rewrite app_comm_cons, app_assoc in E. apply app_inj_tail in E as [-> _]. exact (Hd _ _ _ eq_refl).
Qed.

Lemma depth_ok fuel : forall g ps tail, deepening g ps tail -> (70 - code_size g < fuel)%nat ->
  exists g' tail', depth_loop fuel (length ps) g = Some g' /\ deepening g' ps tail' /\ length (code g') = length (code g) /\
    (code_size g' = 70%nat \/ exists i, (i < 4)%nat /\ 45 <= asic_latency g' !!! i).
Proof.
  induction fuel as [|fuel IH]; intros g ps tail Hd Hfuel; [lia|]. cbn [depth_loop].
  assert (Hlen : length (map fst ps ++ tail) = code_size g) by (rewrite <- (dp_prog _ _ _ Hd), length_take; pose proof (dp_room _ _ _ Hd); lia).
  assert (L9 : length (asic_latency g) = 9%nat) by (rewrite (dp_asic _ _ _ Hd); apply depths_length).
  rewrite below_latency_ok by lia. cbn [mbind option_bind].
  destruct ((code_size g <? NUM_INSTRUCTIONS_MAX)%nat && _) eqn:E.
  - apply andb_true_iff in E as [Esz%Nat.ltb_lt Ebelow]. unfold NUM_INSTRUCTIONS_MAX in Esz.
    assert (Hbelow : forall i, (i < 4)%nat -> asic_latency g !!! i < 45).
    { cbn in Ebelow. rewrite !andb_true_iff, !Z.ltb_lt in Ebelow. intros i Hi. do 4 (destruct i as [|i]; [tauto|]). lia. }
    destruct (min_max_ok (asic_latency g)) as (mn & mx & -> & Hmn & Hmx & Hext); [lia|]. cbn [mbind option_bind].
    assert (Etail : (code_size g - length ps)%nat = length tail) by (rewrite length_app, length_map in Hlen; lia). rewrite Etail.
    pose proof (Nat.mod_upper_bound (length tail) 3 ltac:(lia)) as Hm3.
    rewrite (store_total [ROR; MUL; MUL]) by (cbn; lia). cbn [mbind option_bind]. set (o := [ROR; MUL; MUL] !!! _) in *.
    assert (Ho : is_op o /\ (o = ROR \/ o = MUL)).
    { unfold o. destruct (length tail mod 3)%nat as [|[|[|]]]; cbn; unfold is_op, ROR, MUL; lia. }
    destruct Ho as [Ho Ho2]. destruct (op_tables o Ho) as (-> & -> & _ & _ & Hac & _). cbn [mbind option_bind].
    pose proof (dp_latency _ _ _ Hd) as Hll.
    rewrite (store_total (latency g)) by lia. cbn [mbind option_bind]. rewrite (store_total (asic_latency g)) by lia. cbn [mbind option_bind].
    rewrite (store_Some (latency g)) by lia. cbn [mbind option_bind].
    rewrite (store_Some (asic_latency g)) by lia. cbn [mbind option_bind].
    pose proof (dp_room _ _ _ Hd) as Hroom. rewrite (store_Some (code g)) by lia. cbn [mbind option_bind].
    set (op := Instr o mn mx 0).
    assert (Hop : valid_instr op) by (unfold valid_instr; cbn; split_and!; try assumption; unfold ADD, SUB, XOR, ROR, MUL in *; lia).
    match goal with |- context [depth_loop fuel _ ?x] => set (g1 := x) end.
    assert (Hd1 : deepening g1 ps (tail ++ [op])).
    { pose proof (dp_r8 _ _ _ Hd) as Er8. destruct Hd. constructor; cbn [g1 random code code_size latency asic_latency r8_used]; rewrite ?app_assoc; try assumption.
      - rewrite <- dp_prog0. rewrite (take_S_r _ _ op) by (apply list_lookup_insert_eq; lia). rewrite take_insert, decide_False by lia. reflexivity.
      - rewrite length_insert. lia.
      - apply Forall_app. auto.
      - rewrite length_insert. exact dp_latency0.
      - rewrite depths_snoc. unfold depth_step. cbn [op dst_index src_index opcode]. rewrite <- dp_asic0.
        rewrite Z.max_r by (apply Hext; assumption). reflexivity.
      - rewrite uses_r8_snoc, <- Er8. cbn [op src_index]. rewrite (proj2 (Nat.eqb_neq mx 8)) by lia. rewrite orb_false_r. reflexivity.
      - apply deepened_snoc; [assumption | reflexivity | reflexivity|]. rewrite <- dp_asic0. intros i Hi. split; [apply Hext, Hi | apply Hbelow, Hi]. }
    destruct (IH g1 ps _ Hd1) as (g' & tail' & -> & Hd' & El & Hend); [cbn [g1 code_size]; lia|].
    exists g', tail'. split; [reflexivity|]. split; [exact Hd'|]. split; [rewrite El; apply length_insert | exact Hend].
  - exists g, tail. split; [reflexivity|]. split; [exact Hd|]. split; [reflexivity|].
    apply andb_false_iff in E as [E%Nat.ltb_ge|E].
    + left. unfold NUM_INSTRUCTIONS_MAX in E. pose proof (dp_room _ _ _ Hd). lia.
    + right. cbn in E. rewrite !andb_false_iff, !Z.ltb_ge in E.
      destruct E as [?|[?|[?|[?|E]]]]; [exists 0%nat | exists 1%nat | exists 2%nat | exists 3%nat | discriminate E]; (split; [lia | assumption]).
Qed.

Lemma attempt_ok mem s : (71 <= length mem)%nat -> source_ok s ->
  exists g ps tail, attempt stack mem s = Some g /\ deepening g ps tail /\ length (code g) = length mem /\
    (code_size g = 70%nat \/ exists i, (i < 4)%nat /\ 45 <= asic_latency g !!! i).
Proof.
  intros Hm Hs. unfold attempt.
  destruct (fill_ok 258 (new_gen mem s) [] (filling_new mem s Hm Hs)) as (g & ps & -> & Hf & Hsz & El); [cbn; lia..|].
  cbn [mbind option_bind]. assert (Elen : code_size g = length ps) by (rewrite <- (length_map fst ps), <- (fl_prog _ _ Hf), length_take; pose proof (fl_room _ _ Hf); lia).
  rewrite Elen. destruct (depth_ok 71 g ps [] (deepening_start _ _ Hf)) as (g' & tail' & E & Hd & El' & Hend); [lia|].
  exists g', ps, tail'. rewrite El' , El. auto.
Qed.

Lemma attempts_ok fuel : forall mem s, (71 <= length mem)%nat -> source_ok s ->
  exists r, attempts stack fuel mem s = Some r /\
    forall g, r = Some g -> random_program (take (code_size g) (code g)) /\ (code_size g <= 70)%nat /\ length (code g) = length mem.
Proof.
  induction fuel as [|fuel IH]; intros mem s Hm Hs; [exists None; split; [reflexivity | discriminate]|]. cbn [attempts].
  destruct (attempt_ok mem s Hm Hs) as (g & ps & tail & -> & Hd & El & Hend). cbn [mbind option_bind].
  destruct (negb (r8_used g) || _ || _) eqn:E.
  - destruct (IH (code g) (random g)) as (r & Er & Hr); [lia | apply Hd|]. exists r. split; [exact Er|]. intros g' Eg.
    destruct (Hr g' Eg) as (? & ? & ?). split_and!; [assumption.. | lia].
  - apply orb_false_iff in E as [[E1%negb_false_iff E2%Nat.ltb_ge]%orb_false_iff E3%Nat.ltb_ge]. unfold NUM_INSTRUCTIONS_MIN, NUM_INSTRUCTIONS_MAX in *.
    exists (Some g). split; [reflexivity|]. intros g' [= <-]. split; [|split; [exact E3 | exact El]].
    assert (Hlen : length (take (code_size g) (code g)) = code_size g) by (rewrite length_take; lia).
    unfold random_program. rewrite Hlen, (dp_prog _ _ _ Hd), <- (dp_r8 _ _ _ Hd), <- (dp_asic _ _ _ Hd).
    split_and!; [apply Hd | lia | lia | exact E1 | exact Hend |]. exists ps, tail. split_and!; [reflexivity | apply Hd..].
Qed.

End generator.
