(* ===== verification/RandomMathSpec.v ===== *)
(** * CryptoNight-R: properties

    The generator ends each attempt inside its arrays, and the program it returns
    is what its comments promise; the interpreter runs it. *)

From S2P Require Import Prelude.
From S2P Require Import CInt.
From S2P Require Import Bytes.
From S2P Require Import Job.
From S2P Require Import Nonce.
From S2P Require Import WordMatrix.
From S2P Require Import Blake256.
From S2P Require Import RandomMath.
From S2P Require Import RandomProgram.

(** ** The generator *)

Lemma seed_ok cn_r height : source_ok (Source (seed_bytes cn_r height) 32).
Proof.
  assert (H : bytes_of 32 (memcpy (repeat 0 32) 0 (le_bytes 8 height))).
  { split; [apply memcpy_bytes; [apply (bool_decide_unpack _); reflexivity | apply le_bytes_bytes]|].
    rewrite memcpy_length; [reflexivity | rewrite le_bytes_length, repeat_length; lia]. }
  split; [|cbn; lia]. cbn [data]. unfold seed_bytes. destruct cn_r; [|exact H]. destruct H as [Hb Hl].
  split; [apply Forall_insert; [exact Hb | unfold is_byte; lia] | rewrite length_insert; exact Hl].
Qed.

Lemma init_ok stack fuel cn_r mem height : bytes_of 64 stack -> (71 <= length mem)%nat ->
  exists r, v4_random_math_init stack fuel cn_r mem height = Some r /\
    forall n code, r = Some (n, code) ->
      length code = length mem /\ random_program (take n code) /\ (n <= 70)%nat /\ code !! n = Some (Instr RET 0 0 0).
Proof.
  intros Hst Hm. unfold v4_random_math_init.
  destruct (attempts_ok stack Hst fuel mem (Source (seed_bytes cn_r height) 32) Hm (seed_ok cn_r height)) as (r & -> & Hr).
  cbn [mbind option_bind]. destruct r as [g|]; [|exists None; split; [reflexivity | discriminate]].
  destruct (Hr g eq_refl) as (Hprog & Hsz & Hlen). rewrite store_Some by lia. cbn [mbind option_bind].
  eexists. split; [reflexivity|]. intros n code [= <- <-]. rewrite length_insert, take_insert, decide_False by lia.
  split; [exact Hlen|]. split; [exact Hprog|]. split; [exact Hsz|]. apply list_lookup_insert_eq. lia.
Qed.

(** C14: for every height the generator stays inside its arrays and each of its
    attempts ends.  A program it returns has 60 to 70 instructions and a RET,
    uses the register R8, keeps its register numbers and constants in range, and
    is in two parts.  The first fits the units of the abstract processor in 45
    cycles, with no instruction that could be merged with an earlier one and no
    rotation before twice as many cycles as there are rotations before it (two
    rotations may overlap); the second lengthens the longest chain of dependent
    instructions and need not be scheduled.  A chain of 45 cycles results
    unless there are 70 instructions.  All this whatever the stack and the
    program array held before. *)
Theorem v4_random_math_init_correct stack fuel cn_r mem height :
  bytes_of 64 stack -> (71 <= length mem)%nat ->
  exists r, v4_random_math_init stack fuel cn_r mem height = Some r /\
    forall n code, r = Some (n, code) ->
      length code = length mem /\ random_program (take n code) /\ code !! n = Some (Instr RET 0 0 0).
Proof.
  intros Hst Hm. destruct (init_ok stack fuel cn_r mem height Hst Hm) as (r & E & Hr). exists r. split; [exact E|].
  intros n code En. destruct (Hr n code En) as (? & ? & _ & ?). auto.
Qed.

Lemma v4_random_math_init_correct_witness :
  exists code, v4_random_math_init (repeat 0 64) 2 true (repeat (Instr 9 0 0 0) 71) 1806260 = Some (Some (63%nat, code)) /\
    random_program (take 63 code) /\ code !! 63%nat = Some (Instr RET 0 0 0).
Proof.
  destruct (v4_random_math_init_correct (repeat 0 64) 2 true (repeat (Instr 9 0 0 0) 71) 1806260) as (r & E & Hr).
  { apply (bool_decide_unpack _). vm_compute. exact I. } { rewrite repeat_length. lia. }
  assert (En : match v4_random_math_init (repeat 0 64) 2 true (repeat (Instr 9 0 0 0) 71) 1806260 with
    Some (Some (n, _)) => (n =? 63)%nat | _ => false end = true) by (vm_compute; reflexivity).
  rewrite E in En |- *. destruct r as [[n code]|]; [|discriminate]. apply Nat.eqb_eq in En. subst n.
  exists code. split; [reflexivity|]. destruct (Hr 63%nat code eq_refl) as (_ & ? & ?). auto.
Defined.

(** ** The interpreter *)

(** Rotations of [w] bits by the numbers of their bits. *)
Definition rotated_right (w x s y : Z) : Prop :=
  0 <= y < 2 ^ w /\ forall i, 0 <= i < w -> Z.testbit y i = Z.testbit x ((i + s) mod w).

(** An instruction of registers of [w] bits. *)
Definition means (w : Z) (op : V4_Instruction) (dst src y : Z) : Prop :=
  (opcode op = MUL -> y = (dst * src) mod 2 ^ w) /\
  (opcode op = ADD -> y = (dst + src + C op) mod 2 ^ w) /\
  (opcode op = SUB -> y = (dst - src) mod 2 ^ w) /\
  (opcode op = ROR -> rotated_right w dst src y) /\
  (opcode op = ROL -> rotated_right w dst (- src) y) /\
  (opcode op = XOR -> forall i, 0 <= i -> Z.testbit y i = xorb (Z.testbit dst i) (Z.testbit src i)).

(** One instruction after the other, each writing one register. *)
Inductive runs (w : Z) : list V4_Instruction -> list Z -> list Z -> Prop :=
| runs_nil r : runs w [] r r
| runs_cons op prog r y r' :
    means w op (r !!! dst_index op) (r !!! src_index op) y ->
    runs w prog (<[dst_index op := y]> r) r' ->
    runs w (op :: prog) r r'.

Definition registers (w : Z) (r : list Z) : Prop := length r = 9%nat /\ Forall (fun x => 0 <= x < 2 ^ w) r.

(** A rotation from two shifts. *)
Lemma rotate_bits w x s : 0 < w -> 0 <= x < 2 ^ w -> 0 <= s < w ->
  rotated_right w x s (Z.lor (Z.shiftr x s) (Z.shiftl x ((w - s) mod w)) mod 2 ^ w).
Proof.
  intros Hw Hx Hs. split; [apply Z.mod_pos_bound, Z.pow_pos_nonneg; lia|]. intros i Hi.
  assert (Hhigh : forall n, w <= n -> Z.testbit x n = false).
  { intros n Hn. apply (proj2 (Z.testbit_false x n ltac:(lia))). rewrite Z.div_small; [reflexivity|]. split; [lia|].
    apply Z.lt_le_trans with (2 ^ w); [lia | apply Z.pow_le_mono_r; lia]. }
  rewrite Z.mod_pow2_bits_low, Z.lor_spec, Z.shiftr_spec, Z.shiftl_spec by lia.
  destruct (Z.eq_dec s 0) as [->|Hs0].
  - rewrite !Z.sub_0_r, Z.mod_same, Z.add_0_r, Z.sub_0_r, Z.mod_small by lia. apply orb_diag.
  - rewrite (Z.mod_small (w - s)) by lia. destruct (Z.ltb_spec (i + s) w).
    + rewrite (Z.mod_small (i + s)) by lia. rewrite (Z.testbit_neg_r x (i - (w - s))) by lia. apply orb_false_r.
    + rewrite (Hhigh (i + s)) by lia. cbn [orb]. f_equal. rewrite <- (Z.mod_unique (i + s) w 1 (i - (w - s))); lia.
Qed.

Lemma exec_ok w op r : 0 < w -> registers w r -> valid_instr op ->
  exists y, V4_EXEC w op r = Some (false, <[dst_index op := y]> r) /\ means w op (r !!! dst_index op) (r !!! src_index op) y /\ 0 <= y < 2 ^ w.
Proof.
  intros Hw [Hl Hr] (Ho & Hd & Hs & _). unfold V4_EXEC. rewrite !store_total by lia. cbn [mbind option_bind].
  set (dst := r !!! dst_index op). set (src := r !!! src_index op).
  assert (Hreg : forall i, (i < 9)%nat -> 0 <= r !!! i < 2 ^ w).
  { intros i Hi. rewrite Forall_lookup in Hr. apply (Hr i), list_lookup_lookup_total_lt. lia. }
  assert (Hdst : 0 <= dst < 2 ^ w) by (apply Hreg; lia). assert (Hsrc : 0 <= src < 2 ^ w) by (apply Hreg, Hs).
  assert (Hm : forall y, 0 <= y mod 2 ^ w < 2 ^ w) by (intros; apply Z.mod_pos_bound, Z.pow_pos_nonneg; lia).
  pose proof (Z.mod_pos_bound src w Hw) as Hsm. unfold means.
  destruct (is_op_cases _ Ho) as [E|[E|[E|[E|[E|E]]]]]; rewrite E; cbn [Z.eqb MUL ADD SUB ROR ROL XOR];
    (eexists; split; [reflexivity|]; split; [|apply Hm]); split_and!; intros E'; try discriminate E'.
  - reflexivity.
  - f_equal. ring.
  - reflexivity.
  - destruct (rotate_bits w dst (src mod w) Hw Hdst Hsm) as [Hy Hb]. split; [exact Hy|]. intros i Hi. rewrite Hb, Z.add_mod_idemp_r by lia. reflexivity.
  - pose proof (Z.mod_pos_bound (w - src mod w) w Hw) as Hs'.
    destruct (rotate_bits w dst ((w - src mod w) mod w) Hw Hdst Hs') as [Hy Hb].
    assert (Eback : (w - (w - src mod w) mod w) mod w = src mod w).
    { rewrite Zminus_mod_idemp_r. replace (w - (w - src mod w)) with (src mod w) by ring. apply Z.mod_mod. lia. }
    rewrite Eback, Z.lor_comm in Hy, Hb. split; [exact Hy|]. intros i Hi. rewrite Hb, Z.add_mod_idemp_r by lia. f_equal.
    replace (i + (w - src mod w)) with (i - src mod w + 1 * w) by ring. rewrite Z.mod_add, Zminus_mod_idemp_r by lia. reflexivity.
  - intros i Hi. rewrite Z.mod_small by (apply lxor_range; lia). apply Z.lxor_spec.
Qed.

Lemma registers_put w r a y : registers w r -> 0 <= y < 2 ^ w -> registers w (<[a := y]> r).
Proof. intros [Hl Hr] Hy. split; [rewrite length_insert; exact Hl | apply Forall_insert; assumption]. Qed.

Lemma exec_from_ok w : 0 < w -> forall prog n i code r,
  registers w r -> Forall valid_instr prog -> take (length prog) (drop i code) = prog ->
  n = length prog \/ (length prog < n)%nat /\ code !! (i + length prog)%nat = Some (Instr RET 0 0 0) ->
  exists r', V4_EXEC_from n i w code r = Some r' /\ runs w prog r r' /\ registers w r' /\ drop 4 r' = drop 4 r.
Proof.
  intros Hw. induction prog as [|op prog IH]; intros n i code r Hr Hv Hcode Hn.
  - exists r. split; [|split; [constructor | auto]]. destruct Hn as [->|[Hn Eret]]; [reflexivity|].
    destruct n as [|n]; [lia|]. cbn [V4_EXEC_from length] in *. rewrite Nat.add_0_r in Eret. rewrite Eret. cbn [mbind option_bind].
    destruct Hr as [Hl _]. unfold V4_EXEC. cbn [src_index dst_index opcode]. rewrite !store_total by lia. reflexivity.
  - apply Forall_cons in Hv as [Hop Hv]. destruct n as [|n]; [cbn [length] in Hn; lia|]. cbn [V4_EXEC_from].
    assert (Ei : code !! i = Some op).
    { pose proof (f_equal (fun l => l !! 0%nat) Hcode) as E. cbn [length] in E. rewrite lookup_take_lt, lookup_drop, Nat.add_0_r in E by lia. exact E. }
    rewrite Ei. cbn [mbind option_bind]. destruct (exec_ok w op r Hw Hr Hop) as (y & -> & Hmeans & Hy). cbn [mbind option_bind fst snd].
    destruct (IH n (S i) code (<[dst_index op := y]> r)) as (r' & E & Hruns & Hr' & Hdrop).
    + apply registers_put; assumption.
    + exact Hv.
    + rewrite (drop_S _ _ _ Ei) in Hcode. cbn [length take] in Hcode. injection Hcode as Hcode. exact Hcode.
    + cbn [length] in Hn. replace (S i + length prog)%nat with (i + S (length prog))%nat by lia. destruct Hn as [Hn|[Hn ?]]; [left; lia | right; split; [lia | assumption]].
    + exists r'. split; [exact E|]. split; [econstructor; eassumption|]. split; [exact Hr'|]. rewrite Hdrop.
      destruct Hop as (_ & Hd & _). apply drop_insert_lt. lia.
Qed.

(** C15: a generated program runs to its end: the interpreter reads no register
    outside the nine and no undefined case, executes the instructions one by one,
    with wrapping arithmetic and true rotations of the register width, changes only
    the first four registers, and ends with values of that width; what the program
    array holds after the RET does not matter. *)
Theorem v4_random_math_runs stack fuel cn_r mem height n code w r :
  bytes_of 64 stack -> (71 <= length mem)%nat ->
  v4_random_math_init stack fuel cn_r mem height = Some (Some (n, code)) ->
  0 < w -> registers w r ->
  exists r', v4_random_math w code r = Some r' /\ runs w (take n code) r r' /\ registers w r' /\ drop 4 r' = drop 4 r.
Proof.
  intros Hst Hm E Hw Hr. destruct (init_ok stack fuel cn_r mem height Hst Hm) as (res & E' & Hres).
  rewrite E in E'. injection E' as <-. destruct (Hres n code eq_refl) as (Hlen & Hprog & Hn & Eret).
  assert (Ltake : length (take n code) = n) by (rewrite length_take; lia).
  apply (exec_from_ok w Hw); [exact Hr | apply Hprog | rewrite Ltake, drop_0; reflexivity |]. rewrite Ltake.
  destruct (Nat.eq_dec n 70%nat) as [->|]; [left; reflexivity | right; split; [lia | exact Eret]].
Qed.

Lemma v4_random_math_runs_witness :
  exists n code r', v4_random_math_init (repeat 0 64) 2 true (repeat (Instr 9 0 0 0) 71) 1806260 = Some (Some (n, code)) /\
    v4_random_math 32 code [1; 2; 3; 4; 5; 6; 7; 8; 9] = Some r' /\ runs 32 (take n code) [1; 2; 3; 4; 5; 6; 7; 8; 9] r' /\
    drop 4 r' = [5; 6; 7; 8; 9].
Proof.
  assert (En : match v4_random_math_init (repeat 0 64) 2 true (repeat (Instr 9 0 0 0) 71) 1806260 with
    Some (Some _) => true | _ => false end = true) by (vm_compute; reflexivity).
  destruct (v4_random_math_init (repeat 0 64) 2 true (repeat (Instr 9 0 0 0) 71) 1806260) as [[[n code]|]|] eqn:E; try discriminate En.
  destruct (v4_random_math_runs (repeat 0 64) 2 true (repeat (Instr 9 0 0 0) 71) 1806260 n code 32 [1; 2; 3; 4; 5; 6; 7; 8; 9])
    as (r' & Er & Hruns & _ & Hd); [apply (bool_decide_unpack _); vm_compute; exact I | rewrite repeat_length; lia | exact E | lia | |].
  { split; [reflexivity|]. repeat (apply Forall_cons; split; [lia|]). apply Forall_nil. exact I. }
  exists n, code, r'. auto.
Defined.
