(* ===== verification/Blake2b.v ===== *)
(** * BLAKE2b and the variable-length hash of Argon2

    crypto/randomx/blake2/blake2b.c with blake2.h, blake2-impl.h and endian.h:
    the state and the parameter block, the portable compression, the incremental
    hash with and without a key, the hash of a message, and
    [rxa2_blake2b_long]; and crypto/randomx/blake2_generator.cpp, which draws
    bytes and words from a chain of hashes.  The function pointers
    [rx_blake2b_compress] and [rx_blake2b] stand for the portable versions.

    A null pointer is [None]; the outer [option] of a result is [None] where the
    code reads or writes outside of an array. *)

From S2P Require Import Prelude.
From S2P Require Import Blocks.
From S2P Require Import WordMatrix.
From S2P Require Import CInt.
From S2P Require Import Bytes.
From S2P Require Import Job.

(** ** Words *)

Definition load64 (p : list Z) (i : nat) : Z := le_val (take 8 (drop i p)).
Definition load32 (p : list Z) (i : nat) : Z := le_val (take 4 (drop i p)).
Definition store64 (w : Z) : list Z := le_bytes 8 w.
Definition store32 (w : Z) : list Z := le_bytes 4 w.

Definition rotr64 (w c : Z) : Z := Z.lor (Z.shiftr w c) (to_u64 (Z.shiftl w (64 - c))).

(** ** Constants *)

Definition BLAKE2B_BLOCKBYTES : Z := 128.
Definition BLAKE2B_OUTBYTES : Z := 64.
Definition BLAKE2B_KEYBYTES : Z := 64.

Definition blake2b_IV : list Z :=
  [0x6a09e667f3bcc908; 0xbb67ae8584caa73b; 0x3c6ef372fe94f82b; 0xa54ff53a5f1d36f1;
   0x510e527fade682d1; 0x9b05688c2b3e6c1f; 0x1f83d9abfb41bd6b; 0x5be0cd19137e2179].

Definition blake2b_sigma : list (list nat) :=
  [[0; 1; 2; 3; 4; 5; 6; 7; 8; 9; 10; 11; 12; 13; 14; 15];
   [14; 10; 4; 8; 9; 15; 13; 6; 1; 12; 0; 2; 11; 7; 5; 3];
   [11; 8; 12; 0; 5; 2; 15; 13; 10; 14; 3; 6; 7; 1; 9; 4];
   [7; 9; 3; 1; 13; 12; 11; 14; 2; 6; 5; 10; 4; 0; 15; 8];
   [9; 0; 5; 7; 2; 4; 10; 15; 14; 1; 11; 12; 6; 8; 3; 13];
   [2; 12; 6; 10; 0; 11; 8; 3; 4; 13; 7; 5; 15; 14; 1; 9];
   [12; 5; 1; 15; 14; 13; 4; 10; 0; 7; 6; 3; 9; 2; 8; 11];
   [13; 11; 7; 14; 12; 1; 3; 9; 5; 0; 15; 4; 8; 6; 2; 10];
   [6; 15; 14; 9; 11; 3; 0; 8; 12; 2; 13; 7; 1; 4; 10; 5];
   [10; 2; 8; 4; 7; 6; 1; 5; 15; 11; 9; 14; 3; 12; 13; 0];
   [0; 1; 2; 3; 4; 5; 6; 7; 8; 9; 10; 11; 12; 13; 14; 15];
   [14; 10; 4; 8; 9; 15; 13; 6; 1; 12; 0; 2; 11; 7; 5; 3]]%nat.

(** ** Data *)

Record blake2b_param := Blake2bParam {
  digest_length : Z;
  key_length : Z;
  fanout : Z;
  depth : Z;
  leaf_length : Z;
  node_offset : Z;
  node_depth : Z;
  inner_length : Z;
  reserved : list Z;
  p_salt : list Z;
  personal : list Z
}.

(** The structure is packed. *)
Definition param_bytes (P : blake2b_param) : list Z :=
  [digest_length P; key_length P; fanout P; depth P] ++ le_bytes 4 (leaf_length P) ++ le_bytes 8 (node_offset P) ++
  [node_depth P; inner_length P] ++ reserved P ++ p_salt P ++ personal P.

(** The arrays [t] and [f] have two words. *)
Record blake2b_state := Blake2bState {
  b_h : list Z;
  b_t0 : Z;
  b_t1 : Z;
  b_f0 : Z;
  b_f1 : Z;
  b_buf : list Z;
  b_buflen : Z;
  b_outlen : Z;
  last_node : Z
}.

Definition set_counter (t0 t1 : Z) (S : blake2b_state) : blake2b_state :=
  Blake2bState (b_h S) t0 t1 (b_f0 S) (b_f1 S) (b_buf S) (b_buflen S) (b_outlen S) (last_node S).
Definition set_flags (f0 f1 : Z) (S : blake2b_state) : blake2b_state :=
  Blake2bState (b_h S) (b_t0 S) (b_t1 S) f0 f1 (b_buf S) (b_buflen S) (b_outlen S) (last_node S).
Definition set_words (h : list Z) (S : blake2b_state) : blake2b_state :=
  Blake2bState h (b_t0 S) (b_t1 S) (b_f0 S) (b_f1 S) (b_buf S) (b_buflen S) (b_outlen S) (last_node S).
Definition set_buffer (buf : list Z) (n : Z) (S : blake2b_state) : blake2b_state :=
  Blake2bState (b_h S) (b_t0 S) (b_t1 S) (b_f0 S) (b_f1 S) buf n (b_outlen S) (last_node S).
Definition set_outlen (n : Z) (S : blake2b_state) : blake2b_state :=
  Blake2bState (b_h S) (b_t0 S) (b_t1 S) (b_f0 S) (b_f1 S) (b_buf S) (b_buflen S) n (last_node S).

Definition blake2b_set_lastnode (S : blake2b_state) : blake2b_state := set_flags (b_f0 S) (to_u64 (-1)) S.

Definition blake2b_set_lastblock (S : blake2b_state) : blake2b_state :=
  let S := if last_node S =? 0 then S else blake2b_set_lastnode S in
  set_flags (to_u64 (-1)) (b_f1 S) S.

Definition blake2b_increment_counter (S : blake2b_state) (inc : Z) : blake2b_state :=
  let t0 := to_u64 (b_t0 S + inc) in
  set_counter t0 (to_u64 (b_t1 S + (if t0 <? inc then 1 else 0))) S.

Definition blake2b_invalidate_state (S : blake2b_state) : blake2b_state := blake2b_set_lastblock S.

(** ** Compression *)

(** The macro [G(r, i, v[a], v[b], v[c], v[d])]. *)
Definition G (m : list Z) (r : nat) (v : list Z) (args : nat * (nat * nat * nat * nat)) : list Z :=
  let '(i, (a, b, c, d)) := args in
  let s := blake2b_sigma !!! r in
  let v := <[a := to_u64 (to_u64 (v !!! a + v !!! b) + m !!! (s !!! (2 * i + 0)%nat))]> v in
  let v := <[d := rotr64 (Z.lxor (v !!! d) (v !!! a)) 32]> v in
  let v := <[c := to_u64 (v !!! c + v !!! d)]> v in
  let v := <[b := rotr64 (Z.lxor (v !!! b) (v !!! c)) 24]> v in
  let v := <[a := to_u64 (to_u64 (v !!! a + v !!! b) + m !!! (s !!! (2 * i + 1)%nat))]> v in
  let v := <[d := rotr64 (Z.lxor (v !!! d) (v !!! a)) 16]> v in
  let v := <[c := to_u64 (v !!! c + v !!! d)]> v in
  <[b := rotr64 (Z.lxor (v !!! b) (v !!! c)) 63]> v.

Definition ROUND (m v : list Z) (r : nat) : list Z :=
  foldl (G m r) v
    [(0, (0, 4, 8, 12)); (1, (1, 5, 9, 13)); (2, (2, 6, 10, 14)); (3, (3, 7, 11, 15));
     (4, (0, 5, 10, 15)); (5, (1, 6, 11, 12)); (6, (2, 7, 8, 13)); (7, (3, 4, 9, 14))]%nat.

Definition rx_blake2b_compress_integer (S : blake2b_state) (block : list Z) : blake2b_state :=
  let m := map (fun i => load64 block (i * 8)) (seq 0 16) in
  let v := take 8 (b_h S) ++
    [blake2b_IV !!! 0%nat; blake2b_IV !!! 1%nat; blake2b_IV !!! 2%nat; blake2b_IV !!! 3%nat;
     Z.lxor (blake2b_IV !!! 4%nat) (b_t0 S); Z.lxor (blake2b_IV !!! 5%nat) (b_t1 S);
     Z.lxor (blake2b_IV !!! 6%nat) (b_f0 S); Z.lxor (blake2b_IV !!! 7%nat) (b_f1 S)] in
  let v := foldl (ROUND m) v (seq 0 12) in
  set_words (foldl (fun h i => <[i := Z.lxor (Z.lxor (h !!! i) (v !!! i)) (v !!! (i + 8)%nat)]> h) (b_h S) (seq 0 8)) S.

(** ** Initialisation *)

Definition blake2b_init0 (S : blake2b_state) : blake2b_state := Blake2bState blake2b_IV 0 0 0 0 (repeat 0 128) 0 0 0.

Definition rx_blake2b_init_param (S : option blake2b_state) (P : option blake2b_param) : Z * option blake2b_state :=
  match P, S with
  | Some P, Some st =>
      let st := blake2b_init0 st in
      let st := set_words (foldl (fun h i => <[i := Z.lxor (h !!! i) (load64 (param_bytes P) (i * 8))]> h) (b_h st) (seq 0 8)) st in
      (0, Some (set_outlen (digest_length P) st))
  | _, _ => (-1, S)
  end.

(** The parameter block of a hash of [outlen] bytes with a key of [keylen]. *)
Definition parameters (outlen keylen : Z) : blake2b_param :=
  Blake2bParam (to_u8 outlen) (to_u8 keylen) 1 1 0 0 0 0 (repeat 0 14) (repeat 0 16) (repeat 0 16).

Definition rx_blake2b_init (S : option blake2b_state) (outlen : Z) : Z * option blake2b_state :=
  match S with
  | None => (-1, None)
  | Some st =>
      if (outlen =? 0) || (BLAKE2B_OUTBYTES <? outlen) then (-1, Some (blake2b_invalidate_state st))
      else rx_blake2b_init_param (Some st) (Some (parameters outlen 0))
  end.

(** ** The incremental hash *)

(** [while (inlen > BLAKE2B_BLOCKBYTES)]. *)
Fixpoint compress_blocks (fuel : nat) (S : blake2b_state) (pin : list Z) (inlen : Z) : option (blake2b_state * list Z * Z) :=
  match fuel with
  | O => None
  | S fuel =>
      if BLAKE2B_BLOCKBYTES <? inlen then
        if (length pin <? 128)%nat then None
        else
          let S := blake2b_increment_counter S BLAKE2B_BLOCKBYTES in
          compress_blocks fuel (rx_blake2b_compress_integer S (take 128 pin)) (drop 128 pin) (inlen - BLAKE2B_BLOCKBYTES)
      else Some (S, pin, inlen)
  end.

(** The buffer is full, and more is to come. *)
Definition complete_block (S : blake2b_state) (pin : list Z) (inlen : Z) : option (blake2b_state * list Z * Z) :=
  let left := b_buflen S in
  let fill := BLAKE2B_BLOCKBYTES - left in
  if (fill <? 0) || (Z.of_nat (length pin) <? fill) then None
  else
    let n := Z.to_nat fill in
    let S := set_buffer (memcpy (b_buf S) (Z.to_nat left) (take n pin)) left S in
    let S := blake2b_increment_counter S BLAKE2B_BLOCKBYTES in
    let S := rx_blake2b_compress_integer S (b_buf S) in
    let S := set_buffer (b_buf S) 0 S in
    compress_blocks (1 + length pin) S (drop n pin) (to_u64 (inlen - fill)).

(** The rest is kept. *)
Definition keep_rest (S : blake2b_state) (pin : list Z) (inlen : Z) : option blake2b_state :=
  if (Z.of_nat (length pin) <? inlen) || (BLAKE2B_BLOCKBYTES <? b_buflen S + inlen) then None
  else Some (set_buffer (memcpy (b_buf S) (Z.to_nat (b_buflen S)) (take (Z.to_nat inlen) pin)) (to_u32 (b_buflen S + to_u32 inlen)) S).

Definition rx_blake2b_update (S : option blake2b_state) (pin : option (list Z)) (inlen : Z) : option (Z * option blake2b_state) :=
  if inlen =? 0 then Some (0, S) else
  match S, pin with
  | Some st, Some pin =>
      if negb (b_f0 st =? 0) then Some (-1, Some st) else
      '(st, pin, inlen) ←
        (if BLAKE2B_BLOCKBYTES <? to_u64 (b_buflen st + inlen) then complete_block st pin inlen else Some (st, pin, inlen));
      st ← keep_rest st pin inlen;
      Some (0, Some st)
  | _, _ => Some (-1, S)
  end.

Definition rx_blake2b_init_key (S : option blake2b_state) (outlen : Z) (key : option (list Z)) (keylen : Z) :
    option (Z * option blake2b_state) :=
  match S with
  | None => Some (-1, None)
  | Some st =>
      if (outlen =? 0) || (BLAKE2B_OUTBYTES <? outlen) then Some (-1, Some (blake2b_invalidate_state st)) else
      match key with
      | None => Some (-1, Some (blake2b_invalidate_state st))
      | Some key =>
          if (keylen =? 0) || (BLAKE2B_KEYBYTES <? keylen) then Some (-1, Some (blake2b_invalidate_state st)) else
          let '(ret, init) := rx_blake2b_init_param (Some st) (Some (parameters outlen keylen)) in
          if ret <? 0 then Some (-1, blake2b_invalidate_state <$> init)
          else if Z.of_nat (length key) <? keylen then None
          else
            let block := memcpy (repeat 0 128) 0 (take (Z.to_nat keylen) key) in
            '(_, keyed) ← rx_blake2b_update init (Some block) BLAKE2B_BLOCKBYTES;
            Some (0, keyed)
      end
  end.

(** The memory at [out] is part of the result. *)
Definition rx_blake2b_final (S : option blake2b_state) (out : option (list Z)) (outlen : Z) :
    option (Z * option blake2b_state * option (list Z)) :=
  match S, out with
  | Some st, Some out =>
      if outlen <? b_outlen st then Some (-1, Some st, Some out) else
      if negb (b_f0 st =? 0) then Some (-1, Some st, Some out) else
      let st := blake2b_increment_counter st (b_buflen st) in
      let st := blake2b_set_lastblock st in
      if BLAKE2B_BLOCKBYTES <? b_buflen st then None
      else
        let zeros := repeat 0 (Z.to_nat (BLAKE2B_BLOCKBYTES - b_buflen st)) in
        let st := set_buffer (memcpy (b_buf st) (Z.to_nat (b_buflen st)) zeros) (b_buflen st) st in
        let st := rx_blake2b_compress_integer st (b_buf st) in
        let buffer := concat (map store64 (take 8 (b_h st))) in
        if (BLAKE2B_OUTBYTES <? b_outlen st) || (Z.of_nat (length out) <? b_outlen st) then None
        else Some (0, Some st, Some (memcpy out 0 (take (Z.to_nat (b_outlen st)) buffer)))
  | _, _ => Some (-1, S, out)
  end.

(** ** The hash of a message *)

(** [blake_state] is what the memory of the local state holds. *)
Definition rx_blake2b_default (blake_state : blake2b_state) (out : option (list Z)) (outlen : Z) (pin : option (list Z)) (inlen : Z) :
    option (Z * option (list Z)) :=
  if match pin with None => 0 <? inlen | Some _ => false end then Some (-1, out) else
  if match out with None => true | Some _ => (outlen =? 0) || (BLAKE2B_OUTBYTES <? outlen) end then Some (-1, out) else
  let '(ret, st) := rx_blake2b_init (Some blake_state) outlen in
  if ret <? 0 then Some (-1, out) else
  '(ret, st) ← rx_blake2b_update st pin inlen;
  if ret <? 0 then Some (-1, out) else
  '(ret, st, out) ← rx_blake2b_final st out outlen;
  Some (ret, out).

(** [init], two updates and [final], each tried in turn: the hash of the
    length and the input. *)
Definition hash_prefixed (blake_state : blake2b_state) (out : option (list Z)) (outlen : Z)
    (outlen_bytes : list Z) (pin : option (list Z)) (inlen : Z) : option (Z * option (list Z)) :=
  let '(ret, st) := rx_blake2b_init (Some blake_state) outlen in
  if ret <? 0 then Some (ret, out) else
  '(ret, st) ← rx_blake2b_update st (Some outlen_bytes) 4;
  if ret <? 0 then Some (ret, out) else
  '(ret, st) ← rx_blake2b_update st pin inlen;
  if ret <? 0 then Some (ret, out) else
  '(ret, st, out) ← rx_blake2b_final st out outlen;
  Some (ret, out).

(** [memcpy(out, out_buffer, n)] at [pos]. *)
Definition copy_out (out : option (list Z)) (pos : nat) (src : list Z) : option (list Z) :=
  out ← out;
  if (length out <? pos + length src)%nat then None else Some (memcpy out pos src).

(** The loop that produces half a hash a turn, and the last hash. *)
Fixpoint produce (fuel : nat) (blake_state : blake2b_state) (out_buffer : list Z) (out : option (list Z)) (pos : nat) (toproduce : Z) :
    option (Z * option (list Z)) :=
  match fuel with
  | O => None
  | S fuel =>
      let in_buffer := out_buffer in
      if BLAKE2B_OUTBYTES <? toproduce then
        '(ret, buffer) ← rx_blake2b_default blake_state (Some out_buffer) BLAKE2B_OUTBYTES (Some in_buffer) BLAKE2B_OUTBYTES;
        if ret <? 0 then Some (ret, out) else
        out_buffer ← buffer;
        out ← copy_out out pos (take 32 out_buffer);
        produce fuel blake_state out_buffer (Some out) (pos + 32) (to_u32 (toproduce - BLAKE2B_OUTBYTES / 2))
      else
        '(ret, buffer) ← rx_blake2b_default blake_state (Some out_buffer) toproduce (Some in_buffer) BLAKE2B_OUTBYTES;
        if ret <? 0 then Some (ret, out) else
        out_buffer ← buffer;
        out ← copy_out out pos (take (Z.to_nat toproduce) out_buffer);
        Some (ret, Some out)
  end.

(** [buffer] is what the memory of [out_buffer] holds. *)
Definition rxa2_blake2b_long (blake_state : blake2b_state) (buffer : list Z) (pout : option (list Z)) (outlen : Z)
    (pin : option (list Z)) (inlen : Z) : option (Z * option (list Z)) :=
  if 4294967295 <? outlen then Some (-1, pout) else
  let outlen_bytes := store32 (to_u32 outlen) in
  if outlen <=? BLAKE2B_OUTBYTES then hash_prefixed blake_state pout outlen outlen_bytes pin inlen
  else
    '(ret, buffer) ← hash_prefixed blake_state (Some buffer) BLAKE2B_OUTBYTES outlen_bytes pin inlen;
    if ret <? 0 then Some (ret, pout) else
    out_buffer ← buffer;
    out ← copy_out pout 0 (take 32 out_buffer);
    produce (1 + Z.to_nat outlen) blake_state out_buffer (Some out) 32 (to_u32 (to_u32 outlen - BLAKE2B_OUTBYTES / 2)).

(** ** The generator of bytes *)

Record Blake2Generator := MkBlake2Generator { g_data : list Z; dataIndex : Z }.

Definition maxSeedSize : Z := 60.

(** The constructor; [nonce] is an [int]. *)
Definition new_Blake2Generator (seed : list Z) (seedSize nonce : Z) : option Blake2Generator :=
  let n := if maxSeedSize <? seedSize then maxSeedSize else seedSize in
  if Z.of_nat (length seed) <? n then None
  else
    let data := memcpy (repeat 0 64) 0 (take (Z.to_nat n) seed) in
    Some (MkBlake2Generator (memcpy data 60 (store32 (to_u32 nonce))) 64).

Definition checkData (blake_state : blake2b_state) (g : Blake2Generator) (bytesNeeded : Z) : option Blake2Generator :=
  if 64 <? dataIndex g + bytesNeeded then
    '(_, data) ← rx_blake2b_default blake_state (Some (g_data g)) 64 (Some (g_data g)) 64;
    data ← data;
    Some (MkBlake2Generator data 0)
  else Some g.

Definition generator_getByte (blake_state : blake2b_state) (g : Blake2Generator) : option (Z * Blake2Generator) :=
  g ← checkData blake_state g 1;
  b ← g_data g !! Z.to_nat (dataIndex g);
  Some (b, MkBlake2Generator (g_data g) (dataIndex g + 1)).

Definition getUInt32 (blake_state : blake2b_state) (g : Blake2Generator) : option (Z * Blake2Generator) :=
  g ← checkData blake_state g 4;
  if (length (g_data g) <? Z.to_nat (dataIndex g) + 4)%nat then None
  else Some (load32 (g_data g) (Z.to_nat (dataIndex g)), MkBlake2Generator (g_data g) (dataIndex g + 4)).

(** * The specification of BLAKE2b, and its compression

    The hash of RFC 7693 and the variable-length hash H' of RFC 9106; the
    compression of Blake2b.v computes the specified one. *)

(** ** The specification *)

Definition u64 (x : Z) : Prop := 0 <= x < 2 ^ 64.
Definition u64s : nat -> list Z -> Prop := alls u64.

(** The fractional parts of the square roots of the first eight primes. *)
Definition iv512 : list Z := map (fun p => Z.sqrt (p * 2 ^ 128) mod 2 ^ 64) [2; 3; 5; 7; 11; 13; 17; 19].

Definition distances : quad := (32, 24, 16, 63).

(** The permutations repeat after ten rounds. *)
Definition mix_words (m : list Z) (r i : nat) : quad -> quad :=
  let s := spec_sigma !!! (r mod 10)%nat in
  mix 64 distances (m !!! (s !!! (2 * i)%nat)) (m !!! (s !!! (2 * i + 1)%nat)).

(** [t] counts the bytes up to the end of the block; [last] inverts a word. *)
Definition spec_F (h block : list Z) (t : Z) (last : bool) : list Z :=
  let m := map (fun i => le_val (take 8 (drop (8 * i) block))) (seq 0 16) in
  let final := if last then 2 ^ 64 - 1 - iv512 !!! 6%nat else iv512 !!! 6%nat in
  let v := Matrix (take 4 h) (drop 4 h) (take 4 iv512)
    [Z.lxor (iv512 !!! 4%nat) (t mod 2 ^ 64); Z.lxor (iv512 !!! 5%nat) (t / 2 ^ 64); final; iv512 !!! 7%nat] in
  let v := foldl (fun v r => round_of (mix_words m r) v) v (seq 0 12) in
  zip_with Z.lxor h (zip_with Z.lxor (row_a v ++ row_b v) (row_c v ++ row_d v)).

(** The blocks before the last, [i] blocks after the first. *)
Fixpoint chain (h : list Z) (i : nat) (bs : list (list Z)) : list Z :=
  match bs with [] => h | b :: bs => chain (spec_F h b (128 * Z.of_nat (1 + i)) false) (1 + i) bs end.

Definition zero_padded (b : list Z) : list Z := b ++ repeat 0 (128 - length b).

(** The first word of the parameter block; the others are zero. *)
Definition first_state (outlen keylen : Z) : list Z :=
  <[0%nat := Z.lxor (iv512 !!! 0%nat) (0x01010000 + 256 * keylen + outlen)]> iv512.

(** The last block, which is not empty unless the data is, is padded. *)
Definition spec_digest (h : list Z) (outlen : nat) (d : list Z) : list Z :=
  let n := ((length d - 1) / 128)%nat in
  let h := spec_F (chain h 0 (chunks 128 n d)) (zero_padded (drop (128 * n) d)) (Z.of_nat (length d)) true in
  take outlen (concat (map (le_bytes 8) h)).

(** The key, when there is one, is a block of its own. *)
Definition spec_data (key m : list Z) : list Z := if decide (key = []) then m else zero_padded key ++ m.
Definition spec_blake2b (outlen : Z) (key m : list Z) : list Z :=
  spec_digest (first_state outlen (Z.of_nat (length key))) (Z.to_nat outlen) (spec_data key m).

(** H': the first halves of a chain of hashes, and a hash of the length that is left. *)
Fixpoint halves (r : nat) (v : list Z) (outlen : Z) : list Z :=
  match r with
  | O => spec_blake2b outlen [] v
  | S r => let v := spec_blake2b 64 [] v in take 32 v ++ halves r v (outlen - 32)
  end.
Definition spec_long (outlen : Z) (m : list Z) : list Z :=
  halves (Z.to_nat ((outlen + 31) / 32 - 2)) (le_bytes 4 outlen ++ m) outlen.

(** ** The compression *)

Lemma iv512_ok : blake2b_IV = iv512.
Proof. vm_compute. reflexivity. Qed.

Lemma iv512_u64s : u64s 8 blake2b_IV.
Proof. split; [|reflexivity]. unfold blake2b_IV, u64. repeat (apply Forall_cons; split; [lia|]). apply Forall_nil. exact I. Qed.

Lemma distances_ok : quad_all (fun n => 0 < n < 64) distances.
Proof. repeat split. Qed.

Lemma rotr64_ok x n : u64 x -> 0 < n < 64 -> rotr64 x n = rotr 64 x n.
Proof. intros Hx Hn. unfold rotr64. rewrite Z.lor_comm. apply (rotr_shifts 64); assumption. Qed.

(** The macro on four words, with its wrap-around. *)
Definition macro_words (m : list Z) (r i : nat) : quad -> quad :=
  let s := blake2b_sigma !!! r in
  mix_with (fun a b z => to_u64 (to_u64 (a + b) + z)) (fun a b => to_u64 (a + b)) rotr64 distances
    (m !!! (s !!! (2 * i + 0)%nat)) (m !!! (s !!! (2 * i + 1)%nat)).

Lemma sigma_period r : (r < 12)%nat -> blake2b_sigma !!! r = spec_sigma !!! (r mod 10)%nat.
Proof. intros H. do 12 (destruct r as [|r]; [reflexivity|]). lia. Qed.

Lemma macro_words_ok m r i q : (r < 12)%nat -> quad_all u64 q -> macro_words m r i q = mix_words m r i q.
Proof.
  intros Hr Hq. unfold macro_words, mix_words. rewrite Nat.add_0_r, sigma_period by assumption. cbv zeta.
  apply (mix_with_ok 64); [reflexivity | reflexivity | exact rotr64_ok | exact distances_ok | exact Hq].
Qed.

Lemma mix_words_all m r i q : quad_all u64 q -> quad_all u64 (mix_words m r i q).
Proof. apply (mix_all 64), distances_ok. Qed.

(** A macro call updates its four words. *)
Lemma macro_put m r v i a b c d q (Hnd : NoDup [a; b; c; d]) (Hlen : Forall (fun j => (j < length v)%nat) [a; b; c; d]) :
  G m r (put_quad a b c d q v) (i, (a, b, c, d)) = put_quad a b c d (macro_words m r i q) v.
Proof.
  destruct q as [[[p q] x] y]. cbv beta iota delta [G macro_words mix_with distances].
  lazymatch goal with |- (let w := ?e in @?f w) = ?y => refine (let_step e _ f y eq_refl _); cbv beta end.
  do 7 put_step v a b c d Hnd Hlen. put_lookups v a b c d Hnd Hlen. cbv zeta. apply (put_insert v a b c d Hnd Hlen).
Qed.

Lemma ROUND_ok m v r : (r < 12)%nat -> matrix_all u64 v -> ROUND m (words v) r = words (round_of (mix_words m r) v).
Proof.
  intros Hr Hv. unfold ROUND. apply (call_round (G m r) (macro_words m r) (macro_put m r) u64 _ _ diagonal_calls); auto.
  - intros i q. apply macro_words_ok, Hr.
  - intros i q. apply mix_words_all.
Qed.

Lemma ROUNDs_ok m : forall rs v, Forall (fun r => (r < 12)%nat) rs -> matrix_all u64 v ->
  foldl (ROUND m) (words v) rs = words (foldl (fun v r => round_of (mix_words m r) v) v rs).
Proof.
  induction rs as [|r rs IH]; intros v Hrs Hv; [reflexivity|]. apply Forall_cons in Hrs as [Hr Hrs]. cbn [foldl].
  rewrite ROUND_ok by assumption. apply IH; [exact Hrs|]. apply round_all; [intros; apply mix_words_all; assumption | exact Hv].
Qed.

(** The two words of the counter. *)
Definition counted (S : blake2b_state) (t : Z) : Prop := u64 (b_t0 S) /\ u64 (b_t1 S) /\ t = b_t0 S + 2 ^ 64 * b_t1 S.

Lemma counted_words S t : counted S t -> t mod 2 ^ 64 = b_t0 S /\ t / 2 ^ 64 = b_t1 S.
Proof.
  intros (H0 & H1 & ->). unfold u64 in *. rewrite Z.mul_comm, Z.mod_add, Z.div_add by lia.
  rewrite Z.mod_small, Z.div_small by lia. lia.
Qed.

(** What the flags say of a block. *)
Definition flagged (S : blake2b_state) (last : bool) : Prop := b_f0 S = (if last then 2 ^ 64 - 1 else 0) /\ b_f1 S = 0.

Lemma compress2b_ok S block t last : u64s 8 (b_h S) -> counted S t -> flagged S last ->
  rx_blake2b_compress_integer S block = set_words (spec_F (b_h S) block t last) S /\ u64s 8 (spec_F (b_h S) block t last).
Proof.
  intros Hh Ht [Hf0 Hf1]. destruct (counted_words S t Ht) as [Et0 Et1]. destruct Ht as (H0 & H1 & _).
  unfold rx_blake2b_compress_integer, spec_F. rewrite <- iv512_ok, Et0, Et1, Hf0, Hf1.
  replace (map (fun i => load64 block (i * 8)) (seq 0 16)) with (map (fun i => le_val (take 8 (drop (8 * i) block))) (seq 0 16))
    by (apply map_ext; intros i; rewrite Nat.mul_comm; reflexivity).
  cbv zeta. generalize (map (fun i => le_val (take 8 (drop (8 * i) block))) (seq 0 16)). intros m.
  set (v := Matrix _ _ _ _). set (vs := take 8 _ ++ _). pose proof iv512_u64s as Hiv.
  assert (Ev : vs = words v).
  { subst v vs. unfold words. cbn [row_a row_b row_c row_d]. rewrite (app_assoc (take 4 _)), take_drop, take_ge by (destruct Hh as [_ ->]; lia).
    destruct last; reflexivity. }
  assert (Hv : matrix_all u64 v).
  { split_and!; cbn [row_a row_b row_c row_d v]; [apply (alls_take _ 8); [lia | exact Hh] | apply (alls_drop _ 8); exact Hh | apply (alls_take _ 8); [lia | exact Hiv] |].
    split; [|reflexivity]. repeat apply Forall_cons_2; [apply (lxor_range 64); [lia | cbv; split; congruence | exact H0]
      | apply (lxor_range 64); [lia | cbv; split; congruence | exact H1] | destruct last; cbv; split; congruence | cbv; split; congruence | constructor]. }
  rewrite Ev, ROUNDs_ok by (try exact Hv; apply (bool_decide_unpack _); reflexivity).
  assert (Hw : matrix_all u64 (foldl (fun v r => round_of (mix_words m r) v) v (seq 0 12)))
    by (apply rounds_all; [intros; apply mix_words_all; assumption | exact Hv]).
  clear Ev Hv. clearbody vs v. set (w := foldl _ v _) in *. clearbody w.
  split; [|destruct Hw as (? & ? & ? & ?); repeat apply (alls_zip_lxor 64); try lia; try apply (alls_app _ 4 4); assumption].
  f_equal. destruct S as [h t0 t1 f0 f1 buf n o l]. cbn [b_h] in *.
  destruct h as [|h0 [|h1 [|h2 [|h3 [|h4 [|h5 [|h6 [|h7 [|]]]]]]]]]; try (destruct Hh; discriminate).
  destruct (matrix_all_rows u64 w Hw). cbn. rewrite !Z.lxor_assoc. reflexivity.
Qed.

(** Only the first 128 bytes count. *)
Lemma spec_F_take h block t last : spec_F h (take 128 block) t last = spec_F h block t last.
Proof.
  unfold spec_F. replace (map (fun i => le_val (take 8 (drop (8 * i) (take 128 block)))) (seq 0 16))
    with (map (fun i => le_val (take 8 (drop (8 * i) block))) (seq 0 16)); [reflexivity|].
  apply map_ext_in. intros i Hi%in_seq. rewrite !take_drop_commute, take_take. do 3 f_equal. lia.
Qed.
