(* ===== verification/Blake2bHash.v ===== *)
(** * BLAKE2b: the incremental hash

    What a state holds of its message: the blocks before the last are
    compressed, the last, full or not, waits in the buffer; what an update and
    the end of the hash do to it. *)

From S2P Require Import Prelude.
From S2P Require Import CInt.
From S2P Require Import Bytes.
From S2P Require Import Job.
From S2P Require Import Nonce.
From S2P Require Import Blocks.
From S2P Require Import WordMatrix.
From S2P Require Import Blake2b.

(** ** Compressed blocks *)

Record compressed (h : list Z) (S : blake2b_state) (bs : list (list Z)) : Prop := {
  co_blocks : blocks_of 128 bs;
  co_h : b_h S = chain h 0 bs;
  co_u64 : u64s 8 (b_h S);
  co_t : counted S (128 * Z.of_nat (length bs));
  co_flags : flagged S false
}.

(** What compression and counting leave alone. *)
Definition frame (S : blake2b_state) : list Z * Z * Z * Z := (b_buf S, b_buflen S, b_outlen S, last_node S).

Lemma increment_ok S t inc : counted S t -> 0 <= inc < 2 ^ 64 -> t + inc < 2 ^ 128 -> counted (blake2b_increment_counter S inc) (t + inc).
Proof.
  intros (H0 & H1 & ->) Hi Hlt. unfold counted, blake2b_increment_counter, to_u64, u64 in *. cbn [set_counter b_t0 b_t1].
  change 18446744073709551616 with (2 ^ 64). eval_pows_in Hlt. eval_pows_in Hi. eval_pows_in H0. eval_pows_in H1. eval_pows.
  destruct (Z.ltb_spec ((b_t0 S + inc) mod 18446744073709551616) inc); Z.to_euclidean_division_equations; lia.
Qed.

Lemma chain_snoc h b : forall bs i, chain h i (bs ++ [b]) = spec_F (chain h i bs) b (128 * Z.of_nat (1 + i + length bs)) false.
Proof.
  intros bs. revert h. induction bs as [|c bs IH]; intros h i; [rewrite Nat.add_0_r; reflexivity|].
  cbn [app chain length]. rewrite IH. replace (1 + (1 + i) + length bs)%nat with (1 + i + S (length bs))%nat by lia. reflexivity.
Qed.

Lemma compress_next h S bs block : compressed h S bs -> bytes_of 128 block -> 128 * Z.of_nat (1 + length bs) < 2 ^ 128 ->
  let S' := rx_blake2b_compress_integer (blake2b_increment_counter S 128) block in
  compressed h S' (bs ++ [block]) /\ frame S' = frame S.
Proof.
  intros [Hbs Hh Hu Ht Hf] Hb Hlt. 
  assert (Ht' : counted (blake2b_increment_counter S 128) (128 * Z.of_nat (1 + length bs))).
  { replace (128 * Z.of_nat (1 + length bs)) with (128 * Z.of_nat (length bs) + 128) by lia. apply increment_ok; [exact Ht | lia | lia]. }
  destruct (compress2b_ok (blake2b_increment_counter S 128) block _ false Hu Ht' Hf) as [E Hu']. cbv zeta. rewrite E. clear E.
  split; [|reflexivity]. constructor; cbn [set_words b_h].
  - apply Forall_app. split; [exact Hbs | repeat constructor; apply Hb].
  - rewrite chain_snoc, <- Hh. reflexivity.
  - exact Hu'.
  - rewrite length_app. cbn [length]. rewrite (Nat.add_comm _ 1). exact Ht'.
  - exact Hf.
Qed.

Lemma compress_blocks_ok h : forall fuel data S bs n,
  compressed h S bs -> is_bytes data -> (n <= length data)%nat -> (n < fuel)%nat -> 128 * Z.of_nat (length bs) + Z.of_nat n < 2 ^ 128 ->
  let q := ((n - 1) / 128)%nat in
  exists S', compress_blocks fuel S data (Z.of_nat n) = Some (S', drop (128 * q) data, Z.of_nat (n - 128 * q)) /\
    compressed h S' (bs ++ chunks 128 q data) /\ frame S' = frame S.
Proof.
  induction fuel as [|fuel IH]; intros data S bs n Hc Hd Hn Hf Hlt q; [lia|]. cbn [compress_blocks].
  change BLAKE2B_BLOCKBYTES with 128. destruct (Z.ltb_spec 128 (Z.of_nat n)) as [Hbig|Hsmall].
  - destruct (Nat.ltb_spec (length data) 128); [lia|].
    assert (Eq : q = (1 + (n - 128 - 1) / 128)%nat).
    { unfold q. replace (n - 1)%nat with ((n - 128 - 1) + 1 * 128)%nat by lia. rewrite Nat.div_add by lia. lia. }
    destruct (compress_next h S bs (take 128 data) Hc) as [Hc' Hfr].
    { split; [apply Forall_take; exact Hd | rewrite length_take; lia]. }
    { lia. }
    destruct (IH (drop 128 data) _ _ (n - 128)%nat Hc') as (S' & E & Hc2 & Hfr2); rewrite ?length_drop, ?length_app; cbn [length]; try lia.
    { apply Forall_drop. exact Hd. }
    exists S'. rewrite Eq. replace (Z.of_nat n - 128) with (Z.of_nat (n - 128)) by lia. rewrite E, drop_drop.
    cbn [chunks Nat.add]. rewrite <- app_assoc in Hc2. split_and!; [do 2 f_equal; [f_equal; f_equal; lia | lia] | exact Hc2 | congruence].
  - assert (q = 0%nat) as -> by (unfold q; apply Nat.div_small; lia). exists S. cbn [chunks]. rewrite app_nil_r, drop_0.
    split_and!; [do 2 f_equal; lia | exact Hc | reflexivity].
Qed.

(** ** The buffer *)

Record waiting (S : blake2b_state) (tail : list Z) : Prop := {
  wa_short : (length tail <= 128)%nat;
  wa_len : b_buflen S = Z.of_nat (length tail);
  wa_buf : in_buffer 128 (b_buf S) tail
}.

Lemma keep_rest_ok S tail data n : waiting S tail -> is_bytes data -> (n <= length data)%nat -> (length tail + n <= 128)%nat ->
  exists buf, keep_rest S data (Z.of_nat n) = Some (set_buffer buf (Z.of_nat (length tail + n)) S) /\
    waiting (set_buffer buf (Z.of_nat (length tail + n)) S) (tail ++ take n data).
Proof.
  intros [Hs Hl Hb] Hd Hn Hle. unfold keep_rest. change BLAKE2B_BLOCKBYTES with 128. rewrite Hl.
  destruct (_ || _) eqn:E. { apply orb_true_iff in E as [E%Z.ltb_lt|E%Z.ltb_lt]; lia. }
  rewrite !Nat2Z.id. exists (memcpy (b_buf S) (length tail) (take n data)). split.
  - do 3 f_equal. unfold to_u32. rewrite !Z.mod_small by (try rewrite Z.mod_small; lia). lia.
  - pose proof (length_take data n). constructor; cbn [set_buffer b_buf b_buflen]; rewrite ?length_app; [lia | lia|].
    apply buffer_append; [exact Hb | apply Forall_take, Hd | lia].
Qed.

(** ** A state and its message *)

Record hashing (h : list Z) (outlen : Z) (S : blake2b_state) (bs : list (list Z)) (tail : list Z) : Prop := {
  ha_compressed : compressed h S bs;
  ha_waiting : waiting S tail;
  ha_outlen : b_outlen S = outlen;
  ha_last : last_node S = 0
}.

Definition represents (h : list Z) (outlen : Z) (S : blake2b_state) (m : list Z) : Prop :=
  exists bs tail, m = concat bs ++ tail /\ (tail = [] -> bs = []) /\ hashing h outlen S bs tail.

Lemma represents_length bs tail : blocks_of 128 bs -> length (concat bs ++ tail) = (128 * length bs + length tail)%nat.
Proof. intros H. rewrite length_app, (blocks_length 128) by exact H. reflexivity. Qed.

(** The block that a longer message completes. *)
Lemma complete_block_ok h outlen S bs tail data n :
  hashing h outlen S bs tail -> is_bytes data -> (n <= length data)%nat -> (128 < length tail + n)%nat -> Z.of_nat n < 2 ^ 64 ->
  128 * Z.of_nat (length bs) + Z.of_nat (length tail + n) < 2 ^ 128 ->
  let fill := (128 - length tail)%nat in
  let q := ((n - fill - 1) / 128)%nat in
  exists S', complete_block S data (Z.of_nat n) = Some (S', drop (fill + 128 * q) data, Z.of_nat (n - fill - 128 * q)) /\
    hashing h outlen S' (bs ++ [tail ++ take fill data] ++ chunks 128 q (drop fill data)) [].
Proof.
  intros [Hc [Hs Hl Hb] Ho Hlast] Hd Hn Hbig Hn64 Hlt fill q. unfold complete_block. change BLAKE2B_BLOCKBYTES with 128. rewrite Hl.
  destruct (_ || _) eqn:E. { apply orb_true_iff in E as [E%Z.ltb_lt|E%Z.ltb_lt]; lia. } clear E.
  replace (128 - Z.of_nat (length tail)) with (Z.of_nat fill) by lia. rewrite !Nat2Z.id.
  pose proof (length_take data fill) as Lt.
  assert (Hfull : in_buffer 128 (memcpy (b_buf S) (length tail) (take fill data)) (tail ++ take fill data))
    by (apply buffer_append; [exact Hb | apply Forall_take, Hd | lia]).
  apply buffer_full in Hfull as [-> Hblock]; [|rewrite length_app; lia].
  cbn [set_buffer b_buf]. set (S1 := set_buffer (tail ++ take fill data) (Z.of_nat (length tail)) S).
  assert (Hc1 : compressed h S1 bs) by (destruct Hc; constructor; assumption).
  destruct (compress_next h S1 bs (tail ++ take fill data) Hc1 Hblock) as [Hc2 Hfr]; [lia|]. cbv zeta in Hc2, Hfr. 
  change (b_buf (blake2b_increment_counter S1 128)) with (tail ++ take fill data).
  set (S2 := rx_blake2b_compress_integer _ _) in *. clearbody S2. injection Hfr as Eb _ Eo El.
  set (S3 := set_buffer (b_buf S2) 0 S2). assert (Hc3 : compressed h S3 (bs ++ [tail ++ take fill data])) by (destruct Hc2; constructor; assumption).
  destruct (compress_blocks_ok h (1 + length data) (drop fill data) S3 _ (n - fill) Hc3) as (S' & E & Hc4 & Hfr);
    rewrite ?length_drop, ?length_app; cbn [length]; try lia.
  { apply Forall_drop, Hd. }
  fold q in E, Hc4. rewrite drop_drop in E.
  exists S'. split.
  - rewrite <- E. f_equal. unfold to_u64. rewrite Z.mod_small; lia.
  - injection Hfr as Eb' En' Eo' El'. rewrite <- app_assoc in Hc4. constructor; [exact Hc4 | | congruence | congruence].
    constructor; cbn [length]; [lia | rewrite En'; reflexivity|]. rewrite Eb'. split_and!; [constructor | | reflexivity].
    cbn [S3 set_buffer b_buf]. rewrite Eb. exact Hblock.
Qed.

Lemma hashing_set_buffer h outlen S bs tail buf n tail' :
  hashing h outlen S bs tail -> waiting (set_buffer buf n S) tail' -> hashing h outlen (set_buffer buf n S) bs tail'.
Proof. intros [[] ? ? ?] Hw. constructor; [constructor; assumption | exact Hw | assumption | assumption]. Qed.

(** An update appends its data. *)
Lemma update2b_ok h outlen S m data n :
  represents h outlen S m -> is_bytes data -> (n <= length data)%nat -> Z.of_nat n + 128 < 2 ^ 64 ->
  Z.of_nat (length m + n) < 2 ^ 128 ->
  exists S', rx_blake2b_update (Some S) (Some data) (Z.of_nat n) = Some (0, Some S') /\ represents h outlen S' (m ++ take n data).
Proof.
  intros (bs & tail & -> & Hne & Hh) Hd Hn Hn64 Hlt. unfold rx_blake2b_update.
  destruct (Z.eqb_spec (Z.of_nat n) 0) as [Hz|Hnz].
  { replace n with 0%nat by lia. rewrite take_0, app_nil_r. exists S. split; [reflexivity|]. exists bs, tail. auto. }
  pose proof Hh as [Hc [Hs Hl Hb] _ _]. rewrite represents_length in Hlt by apply Hc.
  destruct (co_flags _ _ _ Hc) as [-> _]. cbn [Z.eqb negb]. change BLAKE2B_BLOCKBYTES with 128. rewrite Hl.
  replace (to_u64 (Z.of_nat (length tail) + Z.of_nat n)) with (Z.of_nat (length tail + n)) by (unfold to_u64; rewrite Z.mod_small; lia).
  destruct (Z.ltb_spec 128 (Z.of_nat (length tail + n))) as [Hbig|Hsmall].
  - destruct (complete_block_ok h outlen S bs tail data n Hh Hd Hn) as (S1 & -> & Hh1); [lia | lia | lia|].
    cbn [mbind option_bind]. set (fill := (128 - length tail)%nat) in *. set (q := ((n - fill - 1) / 128)%nat) in *.
    assert (Hq : (128 * q < n - fill <= 128 * q + 128)%nat).
    { pose proof (Nat.div_mod_eq (n - fill - 1) 128) as E. pose proof (Nat.mod_upper_bound (n - fill - 1) 128). fold q in E. lia. }
    destruct (keep_rest_ok S1 [] (drop (fill + 128 * q) data) (n - fill - 128 * q)) as (buf & -> & Hw);
      [apply Hh1 | apply Forall_drop, Hd | rewrite length_drop; lia | cbn [length]; lia|].
    eexists. split; [reflexivity|]. eexists _, _. split; [|split; [|apply (hashing_set_buffer _ _ _ _ _ _ _ _ Hh1 Hw)]].
    + rewrite !concat_app. cbn [concat app]. rewrite concat_chunks, app_nil_r, <- !app_assoc. do 2 f_equal.
      rewrite <- drop_drop, take_take_drop, take_take_drop. f_equal. lia.
    + intros E. apply (f_equal length) in E. cbn [app length] in E. rewrite length_take, length_drop in E. lia.
  - cbn [mbind option_bind]. destruct (keep_rest_ok S tail data n) as (buf & -> & Hw); [constructor; assumption | exact Hd | exact Hn | lia|].
    eexists. split; [reflexivity|]. exists bs, (tail ++ take n data).
    split; [rewrite app_assoc; reflexivity | split; [|apply (hashing_set_buffer _ _ _ _ _ _ _ _ Hh Hw)]].
    intros E. apply (f_equal length) in E. cbn [length] in E. rewrite length_app, length_take in E. lia.
Qed.

(** ** The end of a hash *)

(** The blocks of a message. *)
Lemma message_blocks bs tail : blocks_of 128 bs -> (length tail <= 128)%nat -> (tail = [] -> bs = []) ->
  let d := concat bs ++ tail in let n := ((length d - 1) / 128)%nat in
  chunks 128 n d = bs /\ drop (128 * n) d = tail.
Proof.
  intros Hb Hl Hne d n. assert (Hd : length d = (128 * length bs + length tail)%nat) by (apply represents_length, Hb).
  assert (E : n = length bs).
  { unfold n. rewrite Hd. destruct tail as [|x tail]; [rewrite Hne by reflexivity; reflexivity|]. cbn [length] in *.
    replace (128 * length bs + S (length tail) - 1)%nat with (length tail + length bs * 128)%nat by lia.
    rewrite Nat.div_add, Nat.div_small by lia. reflexivity. }
  rewrite E. split; [apply chunks_concat, Hb|]. unfold d. rewrite <- (blocks_length 128) by exact Hb. apply drop_app_length.
Qed.

Lemma words_bytes_length n l : length (concat (map (le_bytes n) l)) = (n * length l)%nat.
Proof. induction l as [|x l IH]; [cbn; lia|]. cbn [map concat length]. rewrite length_app, le_bytes_length, IH. lia. Qed.

Definition finished (S : blake2b_state) : Prop := b_f0 S <> 0.

Lemma final2b_ok h outlen S m out n :
  represents h outlen S m -> Z.of_nat (length m) < 2 ^ 128 -> 0 <= outlen <= 64 -> outlen <= n -> (Z.to_nat outlen <= length out)%nat ->
  exists S', rx_blake2b_final (Some S) (Some out) n =
    Some (0, Some S', Some (spec_digest h (Z.to_nat outlen) m ++ drop (Z.to_nat outlen) out)) /\ finished S'.
Proof.
  intros (bs & tail & -> & Hne & [Hc [Hs Hl Hb] Ho Hlast]) Hlt Hout Hn Hmem.
  destruct (message_blocks bs tail (co_blocks _ _ _ Hc) Hs Hne) as [Ebs Etl]. unfold spec_digest. rewrite Ebs, Etl. clear Ebs Etl.
  pose proof (represents_length bs tail (co_blocks _ _ _ Hc)) as Hd. set (d := concat bs ++ tail) in *. clearbody d.
  destruct Hc as [Hbs Hh Hu Ht [Hf0 Hf1]]. unfold rx_blake2b_final. rewrite Ho, Hf0.
  destruct (Z.ltb_spec n outlen); [lia|]. cbn [Z.eqb negb].
  assert (Ht' : counted (blake2b_increment_counter S (b_buflen S)) (Z.of_nat (length d))).
  { rewrite Hl. replace (Z.of_nat (length d)) with (128 * Z.of_nat (length bs) + Z.of_nat (length tail)) by lia. apply increment_ok; [exact Ht | lia | lia]. }
  set (S1 := blake2b_increment_counter S (b_buflen S)) in *.
  assert (E1 : (b_h S1, frame S1, b_f1 S1) = (b_h S, frame S, 0)) by (rewrite <- Hf1; reflexivity). clearbody S1.
  injection E1 as Eh Ebuf En Eo El Ef1. unfold blake2b_set_lastblock. rewrite El, Hlast. cbn [Z.eqb].
  set (S2 := set_flags _ _ S1). change (b_buflen S2) with (b_buflen S1). change (b_buf S2) with (b_buf S1). rewrite En, Hl.
  change BLAKE2B_BLOCKBYTES with 128. destruct (Z.ltb_spec 128 (Z.of_nat (length tail))); [lia|].
  set (zeros := repeat 0 _). assert (Lz : length zeros = (128 - length tail)%nat) by (unfold zeros; rewrite repeat_length; lia).
  assert (Hz : in_buffer 128 (memcpy (b_buf S1) (length tail) zeros) (tail ++ zeros)).
  { apply buffer_append; [rewrite Ebuf; exact Hb | apply zeros_bytes | lia]. }
  apply buffer_full in Hz as [Ez Hblock]; [|rewrite length_app; lia]. rewrite Nat2Z.id, Ez.
  replace (tail ++ zeros) with (zero_padded tail) in * by (unfold zero_padded, zeros; do 2 f_equal; lia).
  set (S3 := set_buffer _ _ S2). change (b_buf S3) with (zero_padded tail).
  assert (Hu3 : u64s 8 (b_h S3)) by (change (b_h S3) with (b_h S1); rewrite Eh; exact Hu).
  assert (Ht3 : counted S3 (Z.of_nat (length d))) by exact Ht'.
  assert (Hf3 : flagged S3 true) by (split; [reflexivity | exact Ef1]).
  destruct (compress2b_ok S3 (zero_padded tail) _ true Hu3 Ht3 Hf3) as [-> Hu4].
  change (b_h S3) with (b_h S1) in *. rewrite Eh, Hh in *. cbn [set_words b_h b_outlen]. change (b_outlen S3) with (b_outlen S1). rewrite Eo, Ho.
  change BLAKE2B_OUTBYTES with 64. destruct (_ || _) eqn:E. { apply orb_true_iff in E as [E%Z.ltb_lt|E%Z.ltb_lt]; lia. }
  rewrite (take_ge _ 8) by (destruct Hu4 as [_ ->]; lia). eexists. split.
  - unfold memcpy. cbn [take app Nat.add]. rewrite length_take. change store64 with (le_bytes 8).
    rewrite (words_bytes_length 8), (proj2 Hu4), Nat.min_l by lia. reflexivity.
  - discriminate.
Qed.

(** ** Digests *)

Lemma spec_F_u64s h block t last : u64s 8 h -> 0 <= t < 2 ^ 128 -> u64s 8 (spec_F h block t last).
Proof.
  intros Hh Ht. set (S := Blake2bState h (t mod 2 ^ 64) (t / 2 ^ 64) (if last then 2 ^ 64 - 1 else 0) 0 [] 0 0 0).
  apply (compress2b_ok S); [exact Hh | | split; reflexivity].
  assert (0 <= t mod 2 ^ 64 < 2 ^ 64) by (apply Z.mod_pos_bound; lia).
  assert (0 <= t / 2 ^ 64 < 2 ^ 64) by (split; [apply Z.div_pos | apply Z.div_lt_upper_bound]; lia).
  split_and!; [assumption.. |]. cbn [S b_t0 b_t1]. rewrite (Z.div_mod t (2 ^ 64)) at 1 by lia. lia.
Qed.

Lemma chain_u64s : forall bs h i, u64s 8 h -> 128 * Z.of_nat (i + length bs) < 2 ^ 128 -> u64s 8 (chain h i bs).
Proof.
  induction bs as [|b bs IH]; intros h i Hh Hlt; [exact Hh|]. cbn [chain length] in *.
  apply IH; [apply spec_F_u64s; [exact Hh | lia] | lia].
Qed.

Lemma words_bytes n l : is_bytes (concat (map (le_bytes n) l)).
Proof. induction l as [|x l IH]; [constructor|]. cbn [map concat]. apply Forall_app. split; [apply le_bytes_bytes | exact IH]. Qed.

Lemma spec_digest_bytes h n d : u64s 8 h -> Z.of_nat (length d) < 2 ^ 128 -> (n <= 64)%nat -> bytes_of n (spec_digest h n d).
Proof.
  intros Hh Hd Hn. unfold spec_digest. pose proof (Nat.Div0.div_mul_le (length d - 1) 128) as Hq. 
  split; [apply Forall_take, words_bytes|]. rewrite length_take, (words_bytes_length 8).
  destruct (spec_F_u64s (chain h 0 (chunks 128 ((length d - 1) / 128) d)) (zero_padded (drop (128 * ((length d - 1) / 128)) d)) (Z.of_nat (length d)) true)
    as [_ ->]; [|lia | lia].
  apply chain_u64s; [exact Hh|]. rewrite chunks_length. pose proof (Nat.div_mod_eq (length d - 1) 128). lia.
Qed.
