(* ===== verification/Blake2bSpec.v ===== *)
(** * BLAKE2b: properties

    The hash of a message, with or without a key and in any pieces, is that of
    RFC 7693; the variable-length hash is H' of RFC 9106; what is refused; what
    the generator reads. *)

From S2P Require Import Prelude.
From S2P Require Import CInt.
From S2P Require Import Bytes.
From S2P Require Import Job.
From S2P Require Import Nonce.
From S2P Require Import Blocks.
From S2P Require Import WordMatrix.
From S2P Require Import Blake2b.
From S2P Require Import Blake2bHash.

(** ** The first state *)

Lemma param_words outlen keylen i : 0 <= outlen < 256 -> 0 <= keylen < 256 -> (i < 8)%nat ->
  load64 (param_bytes (parameters outlen keylen)) (i * 8) = if decide (i = 0)%nat then 0x01010000 + 256 * keylen + outlen else 0.
Proof.
  intros Ho Hk Hi. unfold parameters, param_bytes, to_u8. rewrite !Z.mod_small by assumption.
  cbn [digest_length key_length fanout depth leaf_length node_offset node_depth inner_length reserved p_salt personal].
  destruct i as [|i]; [|do 7 (destruct i as [|i]; [reflexivity|]); lia]. cbv -[Z.add Z.mul]. lia.
Qed.

Lemma first_state_u64s outlen keylen : 0 <= outlen < 256 -> 0 <= keylen < 256 -> u64s 8 (first_state outlen keylen).
Proof.
  intros Ho Hk. destruct iv512_u64s as [Hiv _]; rewrite iv512_ok in Hiv. unfold first_state. split; [|reflexivity].
  apply Forall_insert; [exact Hiv|]. apply (lxor_range 64); [lia | vm_compute; split; congruence | lia].
Qed.

Lemma start_represents outlen keylen S : 0 <= outlen < 256 -> 0 <= keylen < 256 ->
  exists S', rx_blake2b_init_param (Some S) (Some (parameters outlen keylen)) = (0, Some S') /\ represents (first_state outlen keylen) outlen S' [].
Proof.
  intros Ho Hk. pose proof (first_state_u64s outlen keylen Ho Hk) as Hu. pose proof (fun i => param_words outlen keylen i Ho Hk) as Hw.
  unfold rx_blake2b_init_param. cbn [foldl seq]. 
  rewrite (Hw 0%nat), (Hw 1%nat), (Hw 2%nat), (Hw 3%nat), (Hw 4%nat), (Hw 5%nat), (Hw 6%nat), (Hw 7%nat) by lia. cbn [decide decide_rel Nat.eq_dec].
  set (S' := set_outlen _ _). assert (E : b_h S' = first_state outlen keylen).
  { unfold S', first_state. rewrite <- iv512_ok. cbn. rewrite !Z.lxor_0_r. reflexivity. }
  assert (Eo : b_outlen S' = outlen) by (cbn; unfold to_u8; rewrite Z.mod_small; [reflexivity | exact Ho]).
  exists S'. split; [reflexivity|]. exists [], []. split; [reflexivity|]. split; [auto|]. constructor; [|constructor| exact Eo | reflexivity].
  - constructor; [constructor | exact E | rewrite E; exact Hu | | split; reflexivity]. repeat split; cbn; lia.
  - cbn; lia.
  - reflexivity.
  - split_and!; [constructor | split; [apply zeros_bytes | reflexivity] | reflexivity].
Qed.

Lemma init_represents2b outlen S : 0 < outlen <= 64 ->
  exists S', rx_blake2b_init (Some S) outlen = (0, Some S') /\ represents (first_state outlen 0) outlen S' [].
Proof.
  intros Ho. unfold rx_blake2b_init. change BLAKE2B_OUTBYTES with 64. destruct (_ || _) eqn:E.
  { apply orb_true_iff in E as [E%Z.eqb_eq|E%Z.ltb_lt]; lia. }
  apply start_represents; lia.
Qed.

Lemma init_key_represents outlen S key n : 0 < outlen <= 64 -> is_bytes key -> (0 < n <= 64)%nat -> (n <= length key)%nat ->
  exists S', rx_blake2b_init_key (Some S) outlen (Some key) (Z.of_nat n) = Some (0, Some S') /\
    represents (first_state outlen (Z.of_nat n)) outlen S' (zero_padded (take n key)).
Proof.
  intros Ho Hk Hn Hl. unfold rx_blake2b_init_key. change BLAKE2B_OUTBYTES with 64. change BLAKE2B_KEYBYTES with 64.
  destruct (_ || _) eqn:E. { apply orb_true_iff in E as [E%Z.eqb_eq|E%Z.ltb_lt]; lia. } clear E.
  destruct (_ || _) eqn:E. { apply orb_true_iff in E as [E%Z.eqb_eq|E%Z.ltb_lt]; lia. } clear E.
  destruct (start_represents outlen (Z.of_nat n) S) as (S1 & -> & Hr); [lia | lia|]. cbn [Z.ltb].
  destruct (Z.ltb_spec (Z.of_nat (length key)) (Z.of_nat n)); [lia|]. rewrite Nat2Z.id.
  pose proof (length_take key n) as Lt.
  assert (Eb : memcpy (repeat 0 128) 0 (take n key) = zero_padded (take n key)).
  { unfold memcpy, zero_padded. rewrite take_0. cbn [app Nat.add]. f_equal. rewrite Lt, Nat.min_l by lia.
    replace 128%nat with (n + (128 - n))%nat at 1 by lia. rewrite repeat_app. apply drop_app_length'. rewrite repeat_length. reflexivity. }
  rewrite Eb. assert (Lb : length (zero_padded (take n key)) = 128%nat) by (unfold zero_padded; rewrite length_app, repeat_length; lia).
  destruct (update2b_ok _ _ S1 [] (zero_padded (take n key)) 128 Hr) as (S2 & E & Hr2).
  { apply Forall_app. split; [apply Forall_take, Hk | apply zeros_bytes]. }
  { lia. }
  { lia. }
  { cbn; lia. }
  change (Z.of_nat 128) with BLAKE2B_BLOCKBYTES in E. rewrite E. exists S2. split; [reflexivity|].
  rewrite take_ge in Hr2 by lia. exact Hr2.
Qed.

Lemma spec_blake2b_bytes outlen m : 0 < outlen <= 64 -> Z.of_nat (length m) < 2 ^ 128 ->
  bytes_of (Z.to_nat outlen) (spec_blake2b outlen [] m).
Proof. intros Ho Hm. apply spec_digest_bytes; [apply first_state_u64s; cbn; lia | exact Hm | lia]. Qed.

(** ** The hash of a message *)

Lemma default2b_ok S outlen out data n :
  0 < outlen <= 64 -> (Z.to_nat outlen <= length out)%nat -> is_bytes data -> (n <= length data)%nat -> Z.of_nat n + 128 < 2 ^ 64 ->
  rx_blake2b_default S (Some out) outlen (Some data) (Z.of_nat n) =
  Some (0, Some (spec_blake2b outlen [] (take n data) ++ drop (Z.to_nat outlen) out)).
Proof.
  intros Ho Hout Hd Hn Hlt. unfold rx_blake2b_default. change BLAKE2B_OUTBYTES with 64.
  destruct (_ || _) eqn:E. { apply orb_true_iff in E as [E%Z.eqb_eq|E%Z.ltb_lt]; lia. }
  destruct (init_represents2b outlen S Ho) as (S1 & -> & Hr). cbn [Z.ltb Z.compare].
  destruct (update2b_ok _ _ S1 [] data n Hr Hd Hn Hlt) as (S2 & -> & Hr2); [cbn; lia|]. cbn [mbind option_bind Z.ltb Z.compare].
  destruct (final2b_ok _ _ S2 _ out outlen Hr2) as (S3 & -> & _); [cbn [app]; rewrite length_take; lia | lia | lia | exact Hout|].
  reflexivity.
Qed.

(** A hash of a hash, over itself or not. *)
Lemma rehash_ok S outlen out v : 0 < outlen <= 64 -> (Z.to_nat outlen <= length out)%nat -> bytes_of 64 v ->
  rx_blake2b_default S (Some out) outlen (Some v) 64 = Some (0, Some (spec_blake2b outlen [] v ++ drop (Z.to_nat outlen) out)).
Proof.
  intros Ho Hout [Hv Lv]. change 64 with (Z.of_nat 64) at 1. rewrite default2b_ok by (assumption || lia). rewrite take_ge by lia. reflexivity.
Qed.

Lemma hash_prefixed_ok S outlen out prefix data n :
  0 < outlen <= 64 -> (Z.to_nat outlen <= length out)%nat -> bytes_of 4 prefix -> is_bytes data -> (n <= length data)%nat ->
  Z.of_nat n + 128 < 2 ^ 64 ->
  hash_prefixed S (Some out) outlen prefix (Some data) (Z.of_nat n) =
  Some (0, Some (spec_blake2b outlen [] (prefix ++ take n data) ++ drop (Z.to_nat outlen) out)).
Proof.
  intros Ho Hout [Hp Lp] Hd Hn Hlt. unfold hash_prefixed.
  destruct (init_represents2b outlen S Ho) as (S1 & -> & Hr). cbn [Z.ltb Z.compare].
  destruct (update2b_ok _ _ S1 [] prefix 4 Hr Hp) as (S2 & E & Hr2); [lia | lia | cbn; lia|]. change (Z.of_nat 4) with 4 in E.
  rewrite E. cbn [mbind option_bind Z.ltb Z.compare]. clear E. rewrite take_ge in Hr2 by lia. cbn [app] in Hr2.
  destruct (update2b_ok _ _ S2 prefix data n Hr2 Hd Hn Hlt) as (S3 & -> & Hr3); [lia|]. cbn [mbind option_bind Z.ltb Z.compare].
  destruct (final2b_ok _ _ S3 _ out outlen Hr3) as (S4 & -> & _); [rewrite length_app, length_take; lia | lia | lia | exact Hout|].
  reflexivity.
Qed.

(** ** The variable-length hash *)

Lemma copy_out_ok out pos src : (pos + length src <= length out)%nat -> copy_out (Some out) pos src = Some (memcpy out pos src).
Proof. intros H. unfold copy_out. cbn [mbind option_bind]. destruct (Nat.ltb_spec (length out) (pos + length src)); [lia | reflexivity]. Qed.

Lemma copied out pos src n : (pos + length src <= length out)%nat ->
  take (pos + length src) (memcpy out pos src) = take pos out ++ src /\
  drop (pos + length src + n) (memcpy out pos src) = drop (pos + length src + n) out.
Proof.
  intros H. unfold memcpy. rewrite app_assoc. assert (L : length (take pos out ++ src) = (pos + length src)%nat) by (rewrite length_app, length_take; lia).
  split; [apply take_app_length'; symmetry; exact L|]. rewrite drop_app_ge, drop_drop, L by lia. f_equal. lia.
Qed.

(** The number of halves that are left. *)
Definition turns (toproduce : Z) : nat := Z.to_nat ((toproduce + 31) / 32 - 2).

Lemma turns_small n : n <= 64 -> turns n = 0%nat.
Proof. intros H. unfold turns. assert ((n + 31) / 32 < 3) by (apply Z.div_lt_upper_bound; lia). lia. Qed.

Lemma turns_next n : 64 < n -> turns n = S (turns (n - 32)).
Proof.
  intros H. unfold turns. replace (n + 31) with (n - 32 + 31 + 1 * 32) by lia. rewrite Z.div_add by lia.
  assert (2 <= (n - 32 + 31) / 32) by (apply Z.div_le_lower_bound; lia). lia.
Qed.

Lemma produce_ok S : forall fuel v out pos n,
  bytes_of 64 v -> 32 < n < 2 ^ 32 -> (pos + Z.to_nat n <= length out)%nat -> (Z.to_nat n < fuel)%nat ->
  produce fuel S v (Some out) pos n = Some (0, Some (take pos out ++ halves (turns n) v n ++ drop (pos + Z.to_nat n) out)).
Proof.
  induction fuel as [|fuel IH]; intros v out pos n Hv Hn Hout Hf; [lia|]. pose proof (proj2 Hv) as Lv.
  cbn [produce]. change BLAKE2B_OUTBYTES with 64.
  destruct (Z.ltb_spec 64 n) as [Hbig|Hsmall].
  - rewrite rehash_ok by (assumption || lia). rewrite drop_ge, app_nil_r by lia. cbn [mbind option_bind Z.ltb Z.compare].
    destruct (spec_blake2b_bytes 64 v) as [Hh Lh]; [lia | lia|]. change (Z.to_nat 64) with 64%nat in Lh.
    assert (L32 : length (take 32 (spec_blake2b 64 [] v)) = 32%nat) by (rewrite length_take; lia).
    rewrite copy_out_ok by lia. cbn [mbind option_bind]. rewrite turns_next by lia. cbn [halves]. change (64 / 2) with 32.
    replace (to_u32 (n - 32)) with (n - 32) by (unfold to_u32; rewrite Z.mod_small; lia).
    rewrite IH; [|split; assumption | lia | rewrite memcpy_length; lia | lia].
    do 2 f_equal. f_equal. destruct (copied out pos (take 32 (spec_blake2b 64 [] v)) (Z.to_nat (n - 32))) as [E1 E2]; [lia|].
    rewrite L32 in E1, E2. rewrite E1, E2, <- !app_assoc. do 4 f_equal. lia.
  - rewrite rehash_ok by (assumption || lia). cbn [mbind option_bind Z.ltb Z.compare].
    destruct (spec_blake2b_bytes n v) as [Hh Lh]; [lia | lia|].
    rewrite take_app_length' by (symmetry; exact Lh). rewrite copy_out_ok by lia. cbn [mbind option_bind]. rewrite turns_small by lia.
    unfold memcpy. rewrite Lh. reflexivity.
Qed.

Lemma long_ok S buffer outlen out data n :
  0 < outlen < 2 ^ 32 -> (Z.to_nat outlen <= length out)%nat -> length buffer = 64%nat -> is_bytes data -> (n <= length data)%nat ->
  Z.of_nat n + 128 < 2 ^ 64 ->
  rxa2_blake2b_long S buffer (Some out) outlen (Some data) (Z.of_nat n) =
  Some (0, Some (spec_long outlen (take n data) ++ drop (Z.to_nat outlen) out)).
Proof.
  intros Ho Hout Lb Hd Hn Hlt. unfold rxa2_blake2b_long. change BLAKE2B_OUTBYTES with 64.
  destruct (Z.ltb_spec 4294967295 outlen); [lia|]. replace (to_u32 outlen) with outlen by (unfold to_u32; rewrite Z.mod_small; lia).
  assert (Hp : bytes_of 4 (store32 outlen)) by (split; [apply le_bytes_bytes | apply le_bytes_length]).
  unfold spec_long. fold (turns outlen). change (le_bytes 4 outlen) with (store32 outlen).
  destruct (Z.leb_spec outlen 64).
  - rewrite hash_prefixed_ok, turns_small by (assumption || lia). reflexivity.
  - rewrite hash_prefixed_ok by (assumption || lia). rewrite drop_ge, app_nil_r by lia. cbn [mbind option_bind Z.ltb Z.compare].
    set (v := store32 outlen ++ take n data). assert (Lv : length v = (4 + n)%nat) by (unfold v; rewrite length_app, length_take, (proj2 Hp); lia).
    destruct (spec_blake2b_bytes 64 v) as [Hh Lh]; [lia | lia|]. change (Z.to_nat 64) with 64%nat in Lh.
    assert (L32 : length (take 32 (spec_blake2b 64 [] v)) = 32%nat) by (rewrite length_take; lia).
    rewrite copy_out_ok by lia. cbn [mbind option_bind]. change (64 / 2) with 32.
    replace (to_u32 (outlen - 32)) with (outlen - 32) by (unfold to_u32; rewrite Z.mod_small; lia).
    rewrite produce_ok; [|split; assumption | lia | rewrite memcpy_length; lia | lia]. rewrite (turns_next outlen) by lia. cbn [halves].
    do 2 f_equal. f_equal. destruct (copied out 0 (take 32 (spec_blake2b 64 [] v)) (Z.to_nat (outlen - 32))) as [E1 E2]; [lia|].
    rewrite L32 in E1, E2. change (0 + 32)%nat with 32%nat in E1, E2.
    rewrite E1, E2, take_0. replace (32 + Z.to_nat (outlen - 32))%nat with (Z.to_nat outlen) by lia. cbn [app]. rewrite <- app_assoc. reflexivity.
Qed.

(** ** Streams *)

(** A keyed or an unkeyed start. *)
Definition start_hash (S : blake2b_state) (outlen : Z) (key : list Z) : option (Z * option blake2b_state) :=
  if decide (key = []) then Some (rx_blake2b_init (Some S) outlen)
  else rx_blake2b_init_key (Some S) outlen (Some key) (Z.of_nat (length key)).

(** Updates, until one is refused. *)
Fixpoint updates (S : option blake2b_state) (ps : list (list Z)) : option (Z * option blake2b_state) :=
  match ps with
  | [] => Some (0, S)
  | p :: ps => '(ret, st) ← rx_blake2b_update S (Some p) (Z.of_nat (length p)); if ret <? 0 then Some (ret, st) else updates st ps
  end.

Definition hash_pieces (S : blake2b_state) (outlen : Z) (key : list Z) (ps : list (list Z)) (out : list Z) :
    option (Z * option blake2b_state * option (list Z)) :=
  '(ret, st) ← start_hash S outlen key;
  if ret <? 0 then Some (ret, st, Some out) else
  '(ret, st) ← updates st ps;
  if ret <? 0 then Some (ret, st, Some out) else
  rx_blake2b_final st (Some out) outlen.

Lemma updates_ok h outlen : forall ps S m, represents h outlen S m -> Forall is_bytes ps ->
  Forall (fun p => Z.of_nat (length p) + 128 < 2 ^ 64) ps -> Z.of_nat (length m + length (concat ps)) < 2 ^ 128 ->
  exists S', updates (Some S) ps = Some (0, Some S') /\ represents h outlen S' (m ++ concat ps).
Proof.
  induction ps as [|p ps IH]; intros S m Hr Hb Hl Hm; [exists S; rewrite app_nil_r; auto|].
  apply Forall_cons in Hb as [Hp Hb], Hl as [Lp Hl]. cbn [concat] in Hm. rewrite length_app in Hm.
  destruct (update2b_ok h outlen S m p (length p) Hr Hp) as (S1 & E & Hr1); [lia | lia | lia|]. cbn [updates concat]. rewrite E, app_assoc.
  cbn [mbind option_bind Z.ltb Z.compare]. rewrite take_ge in Hr1 by lia. apply IH; try assumption. rewrite length_app. lia.
Qed.

Lemma start_hash_ok outlen S key : 0 < outlen <= 64 -> is_bytes key -> (length key <= 64)%nat ->
  exists S', start_hash S outlen key = Some (0, Some S') /\
    represents (first_state outlen (Z.of_nat (length key))) outlen S' (spec_data key []).
Proof.
  intros Ho Hk Hl. unfold start_hash, spec_data. destruct (decide (key = [])) as [->|Hne].
  - destruct (init_represents2b outlen S Ho) as (S' & E & Hr). exists S'. rewrite E. auto.
  - assert (0 < length key)%nat by (destruct key; [contradiction | cbn; lia]).
    destruct (init_key_represents outlen S key (length key) Ho Hk) as (S' & E & Hr); [lia | lia|].
    exists S'. rewrite E, app_nil_r. rewrite take_ge in Hr by lia. auto.
Qed.

Lemma spec_data_app key m m' : spec_data key m ++ m' = spec_data key (m ++ m').
Proof. unfold spec_data. case_decide; [reflexivity | symmetry; apply app_assoc]. Qed.

(** C16: BLAKE2b of RFC 7693, keyed or not, in pieces.  For a digest of one to
    sixty-four bytes, a key of at most sixty-four bytes and any pieces of a
    message, starting (with [rx_blake2b_init], or [rx_blake2b_init_key] when
    there is a key), updating with each piece in turn and finishing succeeds,
    and writes the specified digest of the whole message to the output, leaving
    the memory behind it alone: the lazy treatment of the last block (a block
    that is exactly full is not compressed until more comes), the counter's
    carry and the key block do what the specification's padding says, whatever
    the state and the buffers held before.  The one-shot hash of the same bytes
    is the unkeyed digest. *)
Theorem blake2b_of_pieces S outlen key ps out :
  0 < outlen <= 64 -> (Z.to_nat outlen <= length out)%nat -> is_bytes key -> (length key <= 64)%nat -> Forall is_bytes ps ->
  Forall (fun p => Z.of_nat (length p) + 128 < 2 ^ 64) ps -> Z.of_nat (128 + length (concat ps)) < 2 ^ 128 ->
  (exists S', hash_pieces S outlen key ps out =
    Some (0, Some S', Some (spec_blake2b outlen key (concat ps) ++ drop (Z.to_nat outlen) out))) /\
  (Z.of_nat (length (concat ps)) + 128 < 2 ^ 64 ->
    rx_blake2b_default S (Some out) outlen (Some (concat ps)) (Z.of_nat (length (concat ps))) =
    Some (0, Some (spec_blake2b outlen [] (concat ps) ++ drop (Z.to_nat outlen) out))).
Proof.
  intros Ho Hout Hk Hl Hb Hp Hm. split.
  2:{ intros Hlt. rewrite default2b_ok by (try apply concat_bytes; assumption || lia). rewrite take_ge by lia. reflexivity. }
  unfold hash_pieces. destruct (start_hash_ok outlen S key Ho Hk Hl) as (S1 & -> & Hr).
  assert (Lk : (length (spec_data key []) <= 128)%nat)
    by (unfold spec_data; case_decide; [cbn; lia | unfold zero_padded; rewrite app_nil_r, length_app, repeat_length; lia]).
  cbn [mbind option_bind Z.ltb Z.compare].
  destruct (updates_ok _ _ ps S1 _ Hr Hb Hp) as (S2 & -> & Hr2); [lia|]. cbn [mbind option_bind Z.ltb Z.compare].
  destruct (final2b_ok _ _ S2 _ out outlen Hr2) as (S3 & -> & _); [rewrite length_app; lia | lia | lia | exact Hout|].
  rewrite spec_data_app. cbn [app]. eauto.
Qed.

Definition any_state : blake2b_state := Blake2bState [] 7 7 7 7 [] 7 7 7.

Lemma blake2b_of_pieces_witness :
  let key := [1; 2; 3] in let ps := [repeat 9 100; []; repeat 8 25; repeat 7 200] in
  0 < 20 <= 64 /\ (exists S', hash_pieces any_state 20 key ps (repeat 5 22) =
    Some (0, Some S', Some (spec_blake2b 20 key (concat ps) ++ [5; 5]))).
Proof.
  cbv zeta. split; [lia|].
  apply (blake2b_of_pieces any_state 20 [1; 2; 3] [repeat 9 100; []; repeat 8 25; repeat 7 200] (repeat 5 22));
    try (apply (bool_decide_unpack _); vm_compute; exact I).
Defined.

(** C17: the variable-length hash H' of RFC 9106.  For every length from one to
    2^32 - 1, [rxa2_blake2b_long] succeeds and writes the specified bytes to the
    output and nothing behind them: one hash of the length and the input when it
    is at most sixty-four, else the first halves of a chain of hashes, as many as
    leave between thirty-three and sixty-four bytes, and a last hash of exactly
    that length.  The loop ends, the length still to produce never wraps, and the
    uninitialised state and buffer on the stack are of no consequence. *)
Theorem rxa2_blake2b_long_is_H' S buffer outlen out data n :
  0 < outlen < 2 ^ 32 -> (Z.to_nat outlen <= length out)%nat -> length buffer = 64%nat -> is_bytes data -> (n <= length data)%nat ->
  Z.of_nat n + 128 < 2 ^ 64 ->
  rxa2_blake2b_long S buffer (Some out) outlen (Some data) (Z.of_nat n) =
  Some (0, Some (spec_long outlen (take n data) ++ drop (Z.to_nat outlen) out)).
Proof. apply long_ok. Qed.

Lemma rxa2_blake2b_long_is_H'_witness :
  rxa2_blake2b_long any_state (repeat 3 64) (Some (repeat 5 101)) 100 (Some [1; 2; 3; 4]) 3 =
  Some (0, Some (spec_long 100 [1; 2; 3] ++ [5])).
Proof.
  apply (rxa2_blake2b_long_is_H' any_state (repeat 3 64) 100 (repeat 5 101) [1; 2; 3; 4] 3);
    try (apply (bool_decide_unpack _); vm_compute; exact I).
Defined.

(** ** What is refused *)

Lemma bad_length outlen : outlen = 0 \/ 64 < outlen -> (outlen =? 0) || (BLAKE2B_OUTBYTES <? outlen) = true.
Proof. change BLAKE2B_OUTBYTES with 64. intros [->|H]; [reflexivity|]. apply orb_true_iff. right. apply Z.ltb_lt, H. Qed.

Lemma invalidated S : finished (blake2b_invalidate_state S).
Proof. unfold finished, blake2b_invalidate_state, blake2b_set_lastblock. cbn. discriminate. Qed.

Lemma finished_update S pin n : finished S -> n <> 0 -> rx_blake2b_update (Some S) pin n = Some (-1, Some S).
Proof.
  intros Hf Hn. unfold rx_blake2b_update. destruct (Z.eqb_spec n 0); [contradiction|]. destruct pin; [|reflexivity].
  destruct (Z.eqb_spec (b_f0 S) 0); [contradiction | reflexivity].
Qed.

Lemma finished_final S out n : finished S -> rx_blake2b_final (Some S) out n = Some (-1, Some S, out).
Proof.
  intros Hf. unfold rx_blake2b_final. destruct out; [|reflexivity]. destruct (n <? b_outlen S); [reflexivity|].
  destruct (Z.eqb_spec (b_f0 S) 0); [contradiction | reflexivity].
Qed.

Lemma compress_flag S block : b_f0 (rx_blake2b_compress_integer S block) = b_f0 S.
Proof. reflexivity. Qed.

Lemma final_finishes S out n st o : rx_blake2b_final (Some S) out n = Some (0, st, o) -> exists S', st = Some S' /\ finished S'.
Proof.
  unfold rx_blake2b_final. destruct out; [|discriminate]. destruct (n <? b_outlen S); [discriminate|].
  destruct (negb _); [discriminate|]. destruct (BLAKE2B_BLOCKBYTES <? _); [discriminate|].
  set (S' := rx_blake2b_compress_integer _ _). assert (Hf : finished S') by (unfold finished, S'; rewrite compress_flag; discriminate).
  clearbody S'. destruct (_ || _); [discriminate|]. intros [= <- _]. eauto.
Qed.

(** Pointers that a call finds null. *)
Lemma null_pointers S st pin out n :
  rx_blake2b_update st pin 0 = Some (0, st) /\
  (n <> 0 -> rx_blake2b_update None pin n = Some (-1, None) /\ rx_blake2b_update (Some S) None n = Some (-1, Some S)) /\
  rx_blake2b_final None out n = Some (-1, None, out) /\
  (n < b_outlen S \/ out = None -> rx_blake2b_final (Some S) out n = Some (-1, Some S, out)).
Proof.
  split; [reflexivity|]. split; [|split; [reflexivity|]].
  - intros H%Z.eqb_neq. unfold rx_blake2b_update. rewrite H. split; reflexivity.
  - unfold rx_blake2b_final. destruct out as [out|]; [|reflexivity]. intros [H%Z.ltb_lt|H]; [rewrite H; reflexivity | discriminate].
Qed.

(** The hash of the length stops at a null input, or at a null output. *)
Lemma prefixed_null S outlen out prefix n : 0 < outlen <= 64 -> bytes_of 4 prefix -> n <> 0 ->
  hash_prefixed S out outlen prefix None n = Some (-1, out).
Proof.
  intros Ho [Hp Lp] Hn. unfold hash_prefixed. destruct (init_represents2b outlen S Ho) as (S1 & -> & Hr). cbn [Z.ltb Z.compare].
  destruct (update2b_ok _ _ S1 [] prefix 4 Hr Hp) as (S2 & E & _); [lia | lia | cbn; lia|]. change (Z.of_nat 4) with 4 in E.
  rewrite E. cbn [mbind option_bind Z.ltb Z.compare]. rewrite (proj2 (proj1 (proj2 (null_pointers S2 None None None n)) Hn)). reflexivity.
Qed.

Lemma prefixed_no_output S outlen prefix data n : 0 < outlen <= 64 -> bytes_of 4 prefix -> is_bytes data -> (n <= length data)%nat ->
  Z.of_nat n + 128 < 2 ^ 64 -> hash_prefixed S None outlen prefix (Some data) (Z.of_nat n) = Some (-1, None).
Proof.
  intros Ho [Hp Lp] Hd Hn Hlt. unfold hash_prefixed. destruct (init_represents2b outlen S Ho) as (S1 & -> & Hr). cbn [Z.ltb Z.compare].
  destruct (update2b_ok _ _ S1 [] prefix 4 Hr Hp) as (S2 & E & Hr2); [lia | lia | cbn; lia|]. change (Z.of_nat 4) with 4 in E.
  rewrite E. cbn [mbind option_bind Z.ltb Z.compare]. rewrite take_ge in Hr2 by lia.
  destruct (update2b_ok _ _ S2 _ data n Hr2 Hd Hn Hlt) as (S3 & -> & _); [cbn [app]; lia|]. cbn [mbind option_bind Z.ltb Z.compare].
  rewrite (proj2 (proj2 (proj2 (null_pointers S3 None None None outlen)))) by auto. reflexivity.
Qed.

(** The variable-length hash of a null input, and to a null output: the latter
    is found out only while the digest is the output itself. *)
Lemma long_null S buffer outlen out n : 0 < outlen < 2 ^ 32 -> n <> 0 ->
  rxa2_blake2b_long S buffer out outlen None n = Some (-1, out).
Proof.
  intros Ho Hn. unfold rxa2_blake2b_long. change BLAKE2B_OUTBYTES with 64. destruct (Z.ltb_spec 4294967295 outlen); [lia|].
  assert (Hp : bytes_of 4 (store32 (to_u32 outlen))) by (split; [apply le_bytes_bytes | apply le_bytes_length]).
  destruct (Z.leb_spec outlen 64); rewrite prefixed_null by (assumption || lia); reflexivity.
Qed.

Lemma long_no_output S buffer outlen data n : 0 < outlen < 2 ^ 32 -> length buffer = 64%nat -> is_bytes data -> (n <= length data)%nat ->
  Z.of_nat n + 128 < 2 ^ 64 ->
  rxa2_blake2b_long S buffer None outlen (Some data) (Z.of_nat n) = if outlen <=? 64 then Some (-1, None) else None.
Proof.
  intros Ho Lb Hd Hn Hlt. unfold rxa2_blake2b_long. change BLAKE2B_OUTBYTES with 64. destruct (Z.ltb_spec 4294967295 outlen); [lia|].
  assert (Hp : bytes_of 4 (store32 (to_u32 outlen))) by (split; [apply le_bytes_bytes | apply le_bytes_length]).
  destruct (Z.leb_spec outlen 64); [apply prefixed_no_output; assumption || lia|].
  rewrite hash_prefixed_ok by (assumption || lia). reflexivity.
Qed.

(** C35: what BLAKE2b refuses, and what a refusal leaves behind.  A null state is
    refused by both initialisations, by [rx_blake2b_final] and by every update
    that is not empty.  A digest length of zero or above sixty-four, a null key,
    an empty key or one above sixty-four bytes make the initialisation fail and
    leave a state marked as finished.  An update that is not empty refuses a null
    input, [rx_blake2b_final] a null output and one shorter than the digest; a
    state marked as finished refuses both, and finishing a hash marks its state.
    These refusals keep the state and the output as they were.  An empty update
    succeeds and changes nothing, even on a null or a finished state.  The hash
    of a message refuses the same lengths, a null output and a null input of
    positive length.  The variable-length hash refuses a length of zero or one
    that does not fit 32 bits, and a null input of positive length; it refuses a
    null output for at most sixty-four bytes, and writes through it for more.
    The refusals of both hashes leave the output untouched. *)
Theorem blake2b_refuses S outlen :
  (rx_blake2b_init None outlen = (-1, None) /\ forall key pin out n,
    rx_blake2b_init_key None outlen key n = Some (-1, None) /\ rx_blake2b_final None out n = Some (-1, None, out) /\
    (n <> 0 -> rx_blake2b_update None pin n = Some (-1, None))) /\
  (outlen = 0 \/ 64 < outlen -> exists S', finished S' /\
    rx_blake2b_init (Some S) outlen = (-1, Some S') /\ forall key n, rx_blake2b_init_key (Some S) outlen key n = Some (-1, Some S')) /\
  (forall key n, key = None \/ n = 0 \/ 64 < n -> exists S', finished S' /\ rx_blake2b_init_key (Some S) outlen key n = Some (-1, Some S')) /\
  (forall pin n, n <> 0 -> finished S \/ pin = None -> rx_blake2b_update (Some S) pin n = Some (-1, Some S)) /\
  (forall out n, finished S \/ n < b_outlen S \/ out = None -> rx_blake2b_final (Some S) out n = Some (-1, Some S, out)) /\
  (forall out n st o, rx_blake2b_final (Some S) out n = Some (0, st, o) -> exists S', st = Some S' /\ finished S') /\
  (forall st pin, rx_blake2b_update st pin 0 = Some (0, st)) /\
  (forall out pin n, outlen = 0 \/ 64 < outlen \/ out = None \/ pin = None /\ 0 < n -> rx_blake2b_default S out outlen pin n = Some (-1, out)) /\
  (forall buffer out pin n, outlen = 0 \/ 2 ^ 32 <= outlen \/ 0 < outlen /\ pin = None /\ 0 < n ->
    rxa2_blake2b_long S buffer out outlen pin n = Some (-1, out)) /\
  (forall buffer data n, 0 < outlen < 2 ^ 32 -> length buffer = 64%nat -> is_bytes data -> (n <= length data)%nat -> Z.of_nat n + 128 < 2 ^ 64 ->
    rxa2_blake2b_long S buffer None outlen (Some data) (Z.of_nat n) = if outlen <=? 64 then Some (-1, None) else None).
Proof.
  split_and!.
  - reflexivity.
  - intros key pin out n. split_and!; [reflexivity..|]. apply (null_pointers S None pin out n).
  - intros H%bad_length. exists (blake2b_invalidate_state S). unfold rx_blake2b_init, rx_blake2b_init_key. rewrite H.
    split_and!; [apply invalidated | reflexivity..].
  - intros key n H. exists (blake2b_invalidate_state S). split; [apply invalidated|]. unfold rx_blake2b_init_key.
    destruct (_ || _); [reflexivity|]. destruct key as [key|]; [|reflexivity]. destruct H as [H|H%bad_length]; [discriminate|].
    change BLAKE2B_KEYBYTES with BLAKE2B_OUTBYTES. rewrite H. reflexivity.
  - intros pin n Hn [Hf| ->]; [apply finished_update; assumption | apply (null_pointers S None None None n), Hn].
  - intros out n [Hf|H]; [apply finished_final, Hf | apply (null_pointers S None None out n), H].
  - intros out n st o. apply final_finishes.
  - reflexivity.
  - intros out pin n H. unfold rx_blake2b_default. destruct (match pin with None => _ | Some _ => _ end) eqn:E; [reflexivity|].
    destruct out as [out|]; [|reflexivity]. rewrite (bad_length outlen); [reflexivity|].
    destruct H as [H|[H|[H|[-> H%Z.ltb_lt]]]]; [auto | auto | discriminate | congruence].
  - intros buffer out pin n H. destruct (Z.ltb_spec 4294967295 outlen) as [Hbig|Hfit].
    + unfold rxa2_blake2b_long. rewrite (proj2 (Z.ltb_lt _ _) Hbig). reflexivity.
    + destruct H as [->|[H|(Ho & -> & Hn)]]; [reflexivity | lia | apply long_null; lia].
  - intros buffer data n. apply long_no_output.
Qed.

(** A finished state, a refused key, and a null output. *)
Lemma blake2b_refuses_witness :
  rx_blake2b_update (Some any_state) (Some [1]) 1 = Some (-1, Some any_state) /\
  (exists S', finished S' /\ rx_blake2b_init_key (Some any_state) 32 None 0 = Some (-1, Some S')) /\
  rx_blake2b_final (Some any_state) (Some []) 6 = Some (-1, Some any_state, Some []) /\
  rxa2_blake2b_long any_state (repeat 0 64) None 32 (Some [1; 2]) 2 = Some (-1, None).
Proof.
  destruct (blake2b_refuses any_state 32) as (_ & _ & Hkey & Hup & Hfin & _ & _ & _ & _ & Hout). split_and!.
  - apply (Hup (Some [1]) 1); [discriminate | left; discriminate].
  - apply Hkey. left. reflexivity.
  - apply Hfin. right. left. reflexivity.
  - apply (Hout (repeat 0 64) [1; 2] 2%nat); try (apply (bool_decide_unpack _); vm_compute; exact I).
Defined.

(** ** The generator *)

(** A request is for a byte, or a word of four. *)
Definition request_size (word : bool) : nat := if word then 4 else 1.

Fixpoint requests (S : blake2b_state) (g : Blake2Generator) (ws : list bool) : option (list Z) :=
  match ws with
  | [] => Some []
  | w :: ws =>
      '(x, g) ← (if w : bool then getUInt32 S g else generator_getByte S g);
      xs ← requests S g ws;
      Some (x :: xs)
  end.

(** The chain of hashes of the seed block, as a stream of bytes. *)
Fixpoint link (v : list Z) (i : nat) : list Z := match i with O => v | S i => spec_blake2b 64 [] (link v i) end.
Definition stream (v : list Z) (p : nat) : Z := link v (1 + p / 64) !!! (p mod 64)%nat.

(** A request that does not fit what is left of a block skips to the next. *)
Definition aligned (p k : nat) : nat := if (64 <? p mod 64 + k)%nat then (64 * (1 + p / 64))%nat else p.
Fixpoint reads (v : list Z) (p : nat) (ws : list bool) : list Z :=
  match ws with
  | [] => []
  | w :: ws =>
      let k := request_size w in
      let q := aligned p k in
      le_val (map (stream v) (seq q k)) :: reads v (q + k) ws
  end.

(** The generator is at byte [p] of the stream. *)
Record reading (v : list Z) (p : nat) (g : Blake2Generator) : Prop := {
  re_data : exists j i, (i <= 64)%nat /\ (p + 64 = 64 * j + i)%nat /\ g = MkBlake2Generator (link v j) (Z.of_nat i)
}.

Lemma link_bytes v i : bytes_of 64 v -> bytes_of 64 (link v i).
Proof. intros Hv. induction i as [|i IH]; [exact Hv|]. 
  apply (spec_blake2b_bytes 64 (link v i)); [lia|]. destruct IH as [_ ->]. lia.
Qed.

(** The bytes of one block. *)
Lemma stream_block v j i k : bytes_of 64 v -> (i + k <= 64)%nat -> map (stream v) (seq (64 * j + i) k) = take k (drop i (link v (1 + j))).
Proof.
  intros Hv Hi. pose proof (proj2 (link_bytes v (1 + j) Hv)) as L. apply list_eq. intros n. rewrite list_lookup_fmap.
  destruct (decide (n < k)%nat) as [Hn|Hn].
  - rewrite lookup_seq_lt, lookup_take_lt, lookup_drop by exact Hn. cbn [fmap option_fmap option_map]. unfold stream.
    assert (E : ((64 * j + i + n) / 64 = j /\ (64 * j + i + n) mod 64 = i + n)%nat).
    { replace (64 * j + i + n)%nat with (i + n + j * 64)%nat by lia. rewrite Nat.div_add, Nat.Div0.mod_add by lia.
      rewrite Nat.div_small, Nat.mod_small by lia. lia. }
    destruct E as [-> ->]. symmetry. apply list_lookup_lookup_total_lt. lia.
  - rewrite lookup_seq_ge, lookup_take_ge by lia. reflexivity.
Qed.

Lemma checkData_ok S v p g k : bytes_of 64 v -> reading v p g -> (0 < k <= 64)%nat ->
  exists j i, checkData S g (Z.of_nat k) = Some (MkBlake2Generator (link v (1 + j)) (Z.of_nat i)) /\
    aligned p k = (64 * j + i)%nat /\ (i + k <= 64)%nat.
Proof.
  intros Hv [(j & i & Hi & Hp & ->)] Hk. unfold checkData, aligned. cbn [dataIndex g_data].
  pose proof (link_bytes v j Hv) as Hl. destruct (Z.ltb_spec 64 (Z.of_nat i + Z.of_nat k)) as [Hbig|Hfit].
  - rewrite rehash_ok by (try exact Hl; rewrite ?(proj2 Hl); lia). rewrite drop_ge, app_nil_r by (rewrite (proj2 Hl); lia).
    exists j, 0%nat. cbn [mbind option_bind]. split; [reflexivity|]. split; [|lia].
    destruct (decide (i = 64)%nat) as [->|Hne].
    + replace p with (0 + j * 64)%nat by lia. rewrite Nat.Div0.mod_add, Nat.mod_small by lia.
      destruct (Nat.ltb_spec 64 (0 + k)); lia.
    + assert (1 <= j)%nat by lia. replace p with (i + (j - 1) * 64)%nat by lia. rewrite Nat.Div0.mod_add, Nat.div_add by lia.
      rewrite Nat.mod_small, Nat.div_small by lia. destruct (Nat.ltb_spec 64 (i + k)); lia.
  - assert (1 <= j)%nat by lia. exists (j - 1)%nat, i. replace (1 + (j - 1))%nat with j by lia. split; [reflexivity|]. split; [|lia].
    replace p with (i + (j - 1) * 64)%nat by lia. rewrite Nat.Div0.mod_add.
    rewrite Nat.mod_small by lia. destruct (Nat.ltb_spec 64 (i + k)); lia.
Qed.

Lemma request_ok S v p g (w : bool) : bytes_of 64 v -> reading v p g ->
  let k := request_size w in let q := aligned p k in
  exists g', (if w then getUInt32 S g else generator_getByte S g) = Some (le_val (map (stream v) (seq q k)), g') /\ reading v (q + k) g'.
Proof.
  intros Hv Hr k q. destruct (checkData_ok S v p g k Hv Hr) as (j & i & E & Hq & Hk); [destruct w; cbn; lia|].
  pose proof (proj2 (link_bytes v (1 + j) Hv)) as L. unfold q. rewrite Hq, stream_block by assumption.
  exists (MkBlake2Generator (link v (1 + j)) (Z.of_nat (i + k))). split.
  2:{ constructor. exists (1 + j)%nat, (i + k)%nat. split_and!; [lia | lia | reflexivity]. }
  unfold k, request_size in *. destruct w.
  - unfold getUInt32. change 4 with (Z.of_nat 4). rewrite E. cbn [mbind option_bind g_data dataIndex]. rewrite Nat2Z.id.
    destruct (Nat.ltb_spec (length (link v (1 + j))) (i + 4)); [lia|]. do 3 f_equal. lia.
  - unfold generator_getByte. change 1 with (Z.of_nat 1). rewrite E. cbn [mbind option_bind g_data dataIndex]. rewrite Nat2Z.id.
    rewrite (list_lookup_lookup_total_lt _ i) by lia. cbn [mbind option_bind]. 
    rewrite (drop_S _ (link v (1 + j) !!! i)) by (apply list_lookup_lookup_total_lt; lia). rewrite firstn_cons, take_0. cbn [le_val].
    do 2 f_equal; [lia|]. f_equal. lia.
Qed.

Lemma requests_ok S v : bytes_of 64 v -> forall ws p g, reading v p g -> requests S g ws = Some (reads v p ws).
Proof.
  intros Hv. induction ws as [|w ws IH]; intros p g Hr; [reflexivity|]. cbn [requests reads].
  destruct (request_ok S v p g w Hv Hr) as (g' & -> & Hr'). cbn [mbind option_bind]. rewrite (IH _ _ Hr'). reflexivity.
Qed.

(** The first sixty bytes of the seed, padded, and the nonce. *)
Definition seed_block (seed : list Z) (nonce : Z) : list Z :=
  let s := take 60 seed in s ++ repeat 0 (60 - length s) ++ le_bytes 4 (nonce mod 2 ^ 32).

Lemma new_generator_ok seed n nonce : is_bytes seed -> (n <= length seed)%nat ->
  new_Blake2Generator seed (Z.of_nat n) nonce = Some (MkBlake2Generator (seed_block (take n seed) nonce) 64) /\
  bytes_of 64 (seed_block (take n seed) nonce).
Proof.
  intros Hs Hn. pose proof (length_take (take n seed) 60) as L. rewrite (length_take seed n) in L.
  assert (Hm : bytes_of 64 (seed_block (take n seed) nonce)).
  { split; [|unfold seed_block; rewrite !length_app, repeat_length, le_bytes_length; lia].
    repeat (apply Forall_app; split); [repeat apply Forall_take; exact Hs | apply zeros_bytes | apply le_bytes_bytes]. }
  split; [|exact Hm]. unfold new_Blake2Generator. change maxSeedSize with 60.
  set (c := if 60 <? Z.of_nat n then 60 else Z.of_nat n).
  assert (Ec : c = Z.of_nat (Nat.min 60 n)) by (unfold c; destruct (Z.ltb_spec 60 (Z.of_nat n)); lia). rewrite Ec.
  destruct (Z.ltb_spec (Z.of_nat (length seed)) (Z.of_nat (Nat.min 60 n))); [lia|]. rewrite Nat2Z.id. do 2 f_equal.
  unfold seed_block. rewrite take_take in *. set (s := take (Nat.min 60 n) seed) in *.
  assert (E : memcpy (repeat 0 64) 0 s = (s ++ repeat 0 (60 - length s)) ++ repeat 0 4).
  { unfold memcpy. rewrite take_0. cbn [app Nat.add]. rewrite <- app_assoc, <- repeat_app. f_equal.
    replace 64%nat with (length s + (60 - length s + 4))%nat at 1 by lia. rewrite repeat_app. apply drop_app_length'.
    rewrite repeat_length. reflexivity. }
  rewrite E. unfold memcpy. rewrite take_app_length' by (rewrite length_app, repeat_length; lia).
  rewrite drop_ge by (rewrite !length_app, !repeat_length; unfold store32; rewrite le_bytes_length; lia).
  rewrite app_nil_r, <- app_assoc. reflexivity.
Qed.

(** C34: the generator reads a chain of hashes.  Every generator can be made
    from a seed, of which sixty bytes count, and a nonce; whatever bytes and
    words are then asked for in whatever order, each request succeeds, and reads
    the next bytes of the stream made of the hash of the seed block, the hash of
    that hash, and so on, except that a word that would straddle two hashes
    skips the rest of the first: no byte is read before the first hash, past a
    block's end, or twice. *)
Theorem generator_reads_hash_chain S seed n nonce ws :
  is_bytes seed -> (n <= length seed)%nat ->
  exists g, new_Blake2Generator seed (Z.of_nat n) nonce = Some g /\
    requests S g ws = Some (reads (seed_block (take n seed) nonce) 0 ws).
Proof.
  intros Hs Hn. destruct (new_generator_ok seed n nonce Hs Hn) as [-> Hm]. eexists. split; [reflexivity|].
  apply requests_ok; [exact Hm|]. constructor. exists 0%nat, 64%nat. split_and!; [lia | lia | reflexivity].
Qed.

Lemma generator_reads_hash_chain_witness :
  let ws := [true; false; true] ++ repeat true 15 ++ [false; false] in
  exists g, new_Blake2Generator [1; 2; 3] 3 5 = Some g /\ requests any_state g ws = Some (reads (seed_block [1; 2; 3] 5) 0 ws).
Proof. apply (generator_reads_hash_chain any_state [1; 2; 3] 3 5); apply (bool_decide_unpack _); vm_compute; exact I. Defined.
