(* ===== verification/Aes.v ===== *)
(** * The rounds of AES

    FIPS 197: the field with 256 elements, the substitution box, the three
    transformations of a state and their inverses, and a round of encryption and
    of decryption as the AES instructions of processors have them.  A state is 16
    bytes, column after column: row [r] of column [c] is byte [r + 4 c]. *)

From S2P Require Import Prelude.
From S2P Require Import CInt.
From S2P Require Import Bytes.

(** ** The field *)

(** Polynomials over the field of two elements are the bits of an integer. *)
Definition clmul (a b : Z) : Z :=
  fold_right Z.lxor 0 (map (fun i => if Z.testbit b (Z.of_nat i) then Z.shiftl a (Z.of_nat i) else 0) (seq 0 8)).

(** The remainder modulo x^8 + x^4 + x^3 + x + 1 of a polynomial of degree at
    most 14. *)
Definition gf_mod (a : Z) : Z :=
  fold_right (fun i r => if Z.testbit r (Z.of_nat (8 + i)) then Z.lxor r (Z.shiftl 0x11b (Z.of_nat i)) else r) a (seq 0 7).

Definition gf_mul (a b : Z) : Z := gf_mod (clmul a b).

Definition all_bytes : list Z := map Z.of_nat (seq 0 256).

Fixpoint gf_pow (a : Z) (n : positive) : Z :=
  match n with
  | xH => a
  | xO n => let b := gf_pow a n in gf_mul b b
  | xI n => let b := gf_pow a n in gf_mul a (gf_mul b b)
  end.

(** The inverse ([gf_inv_ok]), and 0 for 0: the order of the units is 255. *)
Definition gf_inv (a : Z) : Z := gf_pow a 254.

(** ** The substitution box *)

Definition affine (b : Z) : Z :=
  fold_right Z.lxor 0 (map (fun i => if
    xorb (Z.testbit b i) (xorb (Z.testbit b ((i + 4) mod 8)) (xorb (Z.testbit b ((i + 5) mod 8))
      (xorb (Z.testbit b ((i + 6) mod 8)) (xorb (Z.testbit b ((i + 7) mod 8)) (Z.testbit 0x63 i)))))
    then 2 ^ i else 0) [0; 1; 2; 3; 4; 5; 6; 7]).

Definition SBox (b : Z) : Z := affine (gf_inv b).

(** The inverse box undoes the affine map first. *)
Definition inv_affine (b : Z) : Z :=
  fold_right Z.lxor 0 (map (fun i => if
    xorb (Z.testbit b ((i + 2) mod 8)) (xorb (Z.testbit b ((i + 5) mod 8)) (xorb (Z.testbit b ((i + 7) mod 8)) (Z.testbit 0x05 i)))
    then 2 ^ i else 0) [0; 1; 2; 3; 4; 5; 6; 7]).

Definition InvSBox (b : Z) : Z := gf_inv (inv_affine b).

(** ** The transformations *)

Definition SubBytes : list Z -> list Z := map SBox.
Definition InvSubBytes : list Z -> list Z := map InvSBox.

(** Row [r] moves by [r] columns. *)
Definition ShiftRows (st : list Z) : list Z :=
  map (fun i => st !!! (i mod 4 + 4 * ((i / 4 + i mod 4) mod 4))%nat) (seq 0 16).
Definition InvShiftRows (st : list Z) : list Z :=
  map (fun i => st !!! (i mod 4 + 4 * ((i / 4 + 4 - i mod 4) mod 4))%nat) (seq 0 16).

(** A column times the circulant matrix of the first row [k]. *)
Definition mix_column (k : list Z) (col : list Z) : list Z :=
  map (fun r => fold_left Z.lxor (map (fun j => gf_mul (k !!! ((j + 4 - r) mod 4)%nat) (col !!! j)) [1; 2; 3]%nat)
    (gf_mul (k !!! ((4 - r) mod 4)%nat) (col !!! 0%nat))) (seq 0 4).

Definition columns (st : list Z) : list (list Z) := map (fun c => take 4 (drop (4 * c) st)) (seq 0 4).

Definition MixColumns (st : list Z) : list Z := concat (map (mix_column [2; 3; 1; 1]) (columns st)).
Definition InvMixColumns (st : list Z) : list Z := concat (map (mix_column [0xe; 0xb; 0xd; 0x9]) (columns st)).

Definition AddRoundKey (st key : list Z) : list Z := zip_with Z.lxor st key.

(** ** The rounds *)

Definition AESENC (st key : list Z) : list Z := AddRoundKey (MixColumns (SubBytes (ShiftRows st))) key.
Definition AESDEC (st key : list Z) : list Z := AddRoundKey (InvMixColumns (InvSubBytes (InvShiftRows st))) key.

(** The words of the key schedule that AESKEYGENASSIST prepares: the
    substituted words 1 and 3, alone and rotated with the round constant. *)
Definition SubWord (w : list Z) : list Z := map SBox w.
Definition RotWord (w : list Z) : list Z := drop 1 w ++ take 1 w.
Definition AESKEYGENASSIST (key : list Z) (rcon : Z) : list Z :=
  let x1 := SubWord (take 4 (drop 4 key)) in
  let x3 := SubWord (take 4 (drop 12 key)) in
  x1 ++ zip_with Z.lxor (RotWord x1) [rcon; 0; 0; 0] ++ x3 ++ zip_with Z.lxor (RotWord x3) [rcon; 0; 0; 0].

(** The first round of the example of appendix B of FIPS 197. *)
Lemma appendix_B_round :
  AESENC [0x19;0x3d;0xe3;0xbe;0xa0;0xf4;0xe2;0x2b;0x9a;0xc6;0x8d;0x2a;0xe9;0xf8;0x48;0x08]
    [0xa0;0xfa;0xfe;0x17;0x88;0x54;0x2c;0xb1;0x23;0xa3;0x39;0x39;0x2a;0x6c;0x76;0x05] =
  [0xa4;0x9c;0x7f;0xf2;0x68;0x9f;0x35;0x2b;0x6b;0x5b;0xea;0x43;0x02;0x6a;0x50;0x49].
Proof. eval_closed. Qed.

(** A property of bytes that evaluation decides. *)
Lemma every_byte (P : Z -> bool) : forallb P all_bytes = true -> forall b, is_byte b -> P b = true.
Proof.
  intros H b Hb. rewrite forallb_forall in H. apply H. unfold all_bytes. apply in_map_iff.
  unfold is_byte in Hb. exists (Z.to_nat b). split; [lia | apply in_seq; lia].
Qed.

Lemma gf_inv_ok a : is_byte a -> a <> 0 -> gf_mul a (gf_inv a) = 1.
Proof.
  intros Ha Hn. assert (H : ((a =? 0) || (gf_mul a (gf_inv a) =? 1)) = true).
  { clear Hn. revert a Ha. apply every_byte. eval_closed. }
  lia.
Qed.

(** The inverse box undoes the box. *)
Lemma InvSBox_SBox b : is_byte b -> InvSBox (SBox b) = b.
Proof. intros Hb. apply Z.eqb_eq. revert b Hb. apply every_byte. eval_closed. Qed.
