(* ===== verification/SoftAes.v ===== *)
(** * AES in software

    intrin_portable.h: the 128-bit vectors; crypto/randomx/soft_aes.cpp and
    soft_aes.h: the tables made when the program starts and the two rounds that
    use them; crypto/cn/soft_aes.h: the tables made by macros, the round on words
    in memory and on a vector, and the step of the key schedule.

    A vector is its 16 bytes in memory.  The host is little-endian. *)

From S2P Require Import Prelude.
From S2P Require Import CInt.
From S2P Require Import Bytes.

(** ** Vectors *)

Definition rx_vec_i128 := list Z.

(** The members [u32[i]] and [u64[i]] of the union. *)
Definition vec_u32 (a : rx_vec_i128) (i : nat) : Z := le_val (take 4 (drop (4 * i) a)).
Definition vec_u64 (a : rx_vec_i128) (i : nat) : Z := le_val (take 8 (drop (8 * i) a)).
Definition of_u32 (w : list Z) : rx_vec_i128 := concat (map (le_bytes 4) w).
Definition of_u64 (w : list Z) : rx_vec_i128 := concat (map (le_bytes 8) w).

Definition rx_vec_i128_x (a : rx_vec_i128) : Z := to_i32 (vec_u32 a 0).
Definition rx_vec_i128_y (a : rx_vec_i128) : Z := to_i32 (vec_u32 a 1).
Definition rx_vec_i128_z (a : rx_vec_i128) : Z := to_i32 (vec_u32 a 2).
Definition rx_vec_i128_w (a : rx_vec_i128) : Z := to_i32 (vec_u32 a 3).

(** The arguments are of type [int]. *)
Definition rx_set_int_vec_i128 (i3 i2 i1 i0 : Z) : rx_vec_i128 :=
  of_u32 [to_u32 (to_i32 i0); to_u32 (to_i32 i1); to_u32 (to_i32 i2); to_u32 (to_i32 i3)].

Definition rx_xor_vec_i128 (a b : rx_vec_i128) : rx_vec_i128 :=
  of_u32 [Z.lxor (vec_u32 a 0) (vec_u32 b 0); Z.lxor (vec_u32 a 1) (vec_u32 b 1);
          Z.lxor (vec_u32 a 2) (vec_u32 b 2); Z.lxor (vec_u32 a 3) (vec_u32 b 3)].

Definition rx_and_vec_i128 (a b : rx_vec_i128) : rx_vec_i128 :=
  of_u64 [Z.land (vec_u64 a 0) (vec_u64 b 0); Z.land (vec_u64 a 1) (vec_u64 b 1)].

(** ** The tables of RandomX *)

(** One turn for each bit [k] of [c], from the first, while [j] is not 0. *)
Fixpoint mul_gf2_loop (fuel : nat) (s i j k : Z) : option Z :=
  match fuel with
  | O => None
  | S fuel =>
      if (k <? 0x100) && negb (j =? 0) then
        let '(s, j) := if negb (Z.land j k =? 0) then (Z.lxor s i, Z.lxor j k) else (s, j) in
        let i := to_u32 (Z.shiftl i 1) in
        let i := if negb (Z.land i 0x100 =? 0)
          then Z.lxor i (Z.lor (Z.lor (Z.lor (Z.lor (Z.shiftl 1 8) (Z.shiftl 1 4)) (Z.shiftl 1 3)) (Z.shiftl 1 1)) (Z.shiftl 1 0))
          else i in
        mul_gf2_loop fuel s i j (to_u32 (Z.shiftl k 1))
      else Some s
  end.

Definition mul_gf2 (b c : Z) : option Z := mul_gf2_loop 9 0 b c 1.

(** [x] is a [uint8_t]. *)
Definition ROTL8 (x shift : Z) : Z := Z.lor (to_u8 (Z.shiftl x shift)) (Z.shiftr x (8 - shift)).

Definition next_p (p : Z) : Z :=
  to_u8 (Z.lxor (Z.lxor p (Z.shiftl p 1)) (if negb (Z.land p 0x80 =? 0) then 0x1B else 0)).

Definition next_q (q : Z) : Z :=
  let q := to_u8 (Z.lxor q (Z.shiftl q 1)) in
  let q := to_u8 (Z.lxor q (Z.shiftl q 2)) in
  let q := to_u8 (Z.lxor q (Z.shiftl q 4)) in
  to_u8 (Z.lxor q (if negb (Z.land q 0x80 =? 0) then 0x09 else 0)).

Definition sbox_value (q : Z) : Z :=
  to_u8 (Z.lxor (Z.lxor (Z.lxor (Z.lxor (Z.lxor q (ROTL8 q 1)) (ROTL8 q 2)) (ROTL8 q 3)) (ROTL8 q 4)) 0x63).

(** [t[i] = v] on an array. *)
Definition write (t : list Z) (i v : Z) : list Z := <[Z.to_nat i := v]> t.

(** [p] runs through the powers of 3 and [q] through their inverses. *)
Fixpoint sbox_loop (fuel : nat) (p q : Z) (sbox sbox_reverse : list Z) : option (list Z * list Z) :=
  match fuel with
  | O => None
  | S fuel =>
      let p := next_p p in
      let q := next_q q in
      let value := sbox_value q in
      let sbox := write sbox p value in
      let sbox_reverse := write sbox_reverse value p in
      if p =? 1 then Some (sbox, sbox_reverse) else sbox_loop fuel p q sbox sbox_reverse
  end.

Definition make_sbox : option (list Z * list Z) :=
  '(sbox, sbox_reverse) ← sbox_loop 256 1 1 (repeat 0 256) (repeat 0 256);
  Some (write sbox 0 0x63, write sbox_reverse 0x63 0).

(** The eight arrays. *)
Record tables := Tables {
  lutEnc0 : list Z; lutEnc1 : list Z; lutEnc2 : list Z; lutEnc3 : list Z;
  lutDec0 : list Z; lutDec1 : list Z; lutDec2 : list Z; lutDec3 : list Z
}.

Definition rotate8 (w : Z) : Z := Z.lor (to_u32 (Z.shiftl w 8)) (Z.shiftr w 24).

(** The word that shares its memory with [p], and its three word_rotations. *)
Definition word_rotations (p : list Z) : list Z :=
  let w := le_val p in
  let w1 := rotate8 w in
  let w2 := rotate8 w1 in
  let w3 := rotate8 w2 in
  [w; w1; w2; w3].

Definition enc_column (s : Z) : option (list Z) :=
  p0 ← mul_gf2 s 2; p3 ← mul_gf2 s 3; Some [to_u8 p0; to_u8 s; to_u8 s; to_u8 p3].

Definition dec_column (s : Z) : option (list Z) :=
  p0 ← mul_gf2 s 0xe; p1 ← mul_gf2 s 0x9; p2 ← mul_gf2 s 0xd; p3 ← mul_gf2 s 0xb;
  Some [to_u8 p0; to_u8 p1; to_u8 p2; to_u8 p3].

(** The entries number [i] of the arrays. *)
Definition table_row (sbox sbox_reverse : list Z) (i : nat) : option (list Z) :=
  s ← sbox !! i; p ← enc_column s;
  s ← sbox_reverse !! i; p' ← dec_column s;
  Some (word_rotations p ++ word_rotations p').

Definition SAESInitializer : option tables :=
  '(sbox, sbox_reverse) ← make_sbox;
  rows ← mapM (table_row sbox sbox_reverse) (seq 0 256);
  let lut k := map (fun row => row !!! k) rows in
  Some (Tables (lut 0%nat) (lut 1%nat) (lut 2%nat) (lut 3%nat) (lut 4%nat) (lut 5%nat) (lut 6%nat) (lut 7%nat)).

(** ** The rounds of RandomX *)

(** [t0[i0] ^ t1[i1] ^ t2[i2] ^ t3[i3]] *)
Definition xor4 (t0 t1 t2 t3 : list Z) (i0 i1 i2 i3 : Z) : option Z :=
  a ← t0 !! Z.to_nat i0; b ← t1 !! Z.to_nat i1; c ← t2 !! Z.to_nat i2; d ← t3 !! Z.to_nat i3;
  Some (Z.lxor (Z.lxor (Z.lxor a b) c) d).

(** [aesenc<1>], which copies the bytes of [in]. *)
Definition aesenc_1 (T : tables) (in_ key : rx_vec_i128) : option rx_vec_i128 :=
  let s i := in_ !!! i in
  let lut := xor4 (lutEnc0 T) (lutEnc1 T) (lutEnc2 T) (lutEnc3 T) in
  s0 ← lut (s 0%nat) (s 5%nat) (s 10%nat) (s 15%nat);
  s1 ← lut (s 4%nat) (s 9%nat) (s 14%nat) (s 3%nat);
  s2 ← lut (s 8%nat) (s 13%nat) (s 2%nat) (s 7%nat);
  s3 ← lut (s 12%nat) (s 1%nat) (s 6%nat) (s 11%nat);
  Some (rx_xor_vec_i128 (rx_set_int_vec_i128 s3 s2 s1 s0) key).

Definition aesdec_1 (T : tables) (in_ key : rx_vec_i128) : option rx_vec_i128 :=
  let s i := in_ !!! i in
  let lut := xor4 (lutDec0 T) (lutDec1 T) (lutDec2 T) (lutDec3 T) in
  s0 ← lut (s 0%nat) (s 13%nat) (s 10%nat) (s 7%nat);
  s1 ← lut (s 4%nat) (s 1%nat) (s 14%nat) (s 11%nat);
  s2 ← lut (s 8%nat) (s 5%nat) (s 2%nat) (s 15%nat);
  s3 ← lut (s 12%nat) (s 9%nat) (s 6%nat) (s 3%nat);
  Some (rx_xor_vec_i128 (rx_set_int_vec_i128 s3 s2 s1 s0) key).

(** The bytes of a [uint32_t] as the rounds on words take them. *)
Definition b0 (s : Z) : Z := Z.land s 0xff.
Definition b1 (s : Z) : Z := Z.land (Z.shiftr s 8) 0xff.
Definition b2 (s : Z) : Z := Z.land (Z.shiftr s 16) 0xff.
Definition b3 (s : Z) : Z := Z.shiftr s 24.

Definition aesenc_2 (T : tables) (in_ key : rx_vec_i128) : option rx_vec_i128 :=
  let s0 := to_u32 (rx_vec_i128_w in_) in
  let s1 := to_u32 (rx_vec_i128_z in_) in
  let s2 := to_u32 (rx_vec_i128_y in_) in
  let s3 := to_u32 (rx_vec_i128_x in_) in
  let lut := xor4 (lutEnc0 T) (lutEnc1 T) (lutEnc2 T) (lutEnc3 T) in
  i3 ← lut (b0 s0) (b1 s3) (b2 s2) (b3 s1);
  i2 ← lut (b0 s1) (b1 s0) (b2 s3) (b3 s2);
  i1 ← lut (b0 s2) (b1 s1) (b2 s0) (b3 s3);
  i0 ← lut (b0 s3) (b1 s2) (b2 s1) (b3 s0);
  Some (rx_xor_vec_i128 (rx_set_int_vec_i128 i3 i2 i1 i0) key).

Definition aesdec_2 (T : tables) (in_ key : rx_vec_i128) : option rx_vec_i128 :=
  let s0 := to_u32 (rx_vec_i128_w in_) in
  let s1 := to_u32 (rx_vec_i128_z in_) in
  let s2 := to_u32 (rx_vec_i128_y in_) in
  let s3 := to_u32 (rx_vec_i128_x in_) in
  let lut := xor4 (lutDec0 T) (lutDec1 T) (lutDec2 T) (lutDec3 T) in
  i3 ← lut (b0 s0) (b1 s1) (b2 s2) (b3 s3);
  i2 ← lut (b0 s1) (b1 s2) (b2 s3) (b3 s0);
  i1 ← lut (b0 s2) (b1 s3) (b2 s0) (b3 s1);
  i0 ← lut (b0 s3) (b1 s0) (b2 s1) (b3 s2);
  Some (rx_xor_vec_i128 (rx_set_int_vec_i128 i3 i2 i1 i0) key).

(** ** The tables of CryptoNight *)

(** The list the macros apply [w] to. *)
Definition saes_data {A} (w : Z -> A) : list A := map w
  [0x63; 0x7c; 0x77; 0x7b; 0xf2; 0x6b; 0x6f; 0xc5; 0x30; 0x01; 0x67; 0x2b; 0xfe; 0xd7; 0xab; 0x76;
   0xca; 0x82; 0xc9; 0x7d; 0xfa; 0x59; 0x47; 0xf0; 0xad; 0xd4; 0xa2; 0xaf; 0x9c; 0xa4; 0x72; 0xc0;
   0xb7; 0xfd; 0x93; 0x26; 0x36; 0x3f; 0xf7; 0xcc; 0x34; 0xa5; 0xe5; 0xf1; 0x71; 0xd8; 0x31; 0x15;
   0x04; 0xc7; 0x23; 0xc3; 0x18; 0x96; 0x05; 0x9a; 0x07; 0x12; 0x80; 0xe2; 0xeb; 0x27; 0xb2; 0x75;
   0x09; 0x83; 0x2c; 0x1a; 0x1b; 0x6e; 0x5a; 0xa0; 0x52; 0x3b; 0xd6; 0xb3; 0x29; 0xe3; 0x2f; 0x84;
   0x53; 0xd1; 0x00; 0xed; 0x20; 0xfc; 0xb1; 0x5b; 0x6a; 0xcb; 0xbe; 0x39; 0x4a; 0x4c; 0x58; 0xcf;
   0xd0; 0xef; 0xaa; 0xfb; 0x43; 0x4d; 0x33; 0x85; 0x45; 0xf9; 0x02; 0x7f; 0x50; 0x3c; 0x9f; 0xa8;
   0x51; 0xa3; 0x40; 0x8f; 0x92; 0x9d; 0x38; 0xf5; 0xbc; 0xb6; 0xda; 0x21; 0x10; 0xff; 0xf3; 0xd2;
   0xcd; 0x0c; 0x13; 0xec; 0x5f; 0x97; 0x44; 0x17; 0xc4; 0xa7; 0x7e; 0x3d; 0x64; 0x5d; 0x19; 0x73;
   0x60; 0x81; 0x4f; 0xdc; 0x22; 0x2a; 0x90; 0x88; 0x46; 0xee; 0xb8; 0x14; 0xde; 0x5e; 0x0b; 0xdb;
   0xe0; 0x32; 0x3a; 0x0a; 0x49; 0x06; 0x24; 0x5c; 0xc2; 0xd3; 0xac; 0x62; 0x91; 0x95; 0xe4; 0x79;
   0xe7; 0xc8; 0x37; 0x6d; 0x8d; 0xd5; 0x4e; 0xa9; 0x6c; 0x56; 0xf4; 0xea; 0x65; 0x7a; 0xae; 0x08;
   0xba; 0x78; 0x25; 0x2e; 0x1c; 0xa6; 0xb4; 0xc6; 0xe8; 0xdd; 0x74; 0x1f; 0x4b; 0xbd; 0x8b; 0x8a;
   0x70; 0x3e; 0xb5; 0x66; 0x48; 0x03; 0xf6; 0x0e; 0x61; 0x35; 0x57; 0xb9; 0x86; 0xc1; 0x1d; 0x9e;
   0xe1; 0xf8; 0x98; 0x11; 0x69; 0xd9; 0x8e; 0x94; 0x9b; 0x1e; 0x87; 0xe9; 0xce; 0x55; 0x28; 0xdf;
   0x8c; 0xa1; 0x89; 0x0d; 0xbf; 0xe6; 0x42; 0x68; 0x41; 0x99; 0x2d; 0x0f; 0xb0; 0x54; 0xbb; 0x16].

Definition SAES_WPOLY : Z := 0x011b.

(** The last operand is an [int] after the shifts of [uint32_t] operands. *)
Definition saes_b2w (b0 b1 b2 b3 : Z) : Z :=
  Z.lor (Z.lor (Z.lor (to_u32 (Z.shiftl b3 24)) (to_u32 (Z.shiftl b2 16))) (to_u32 (Z.shiftl b1 8))) (to_u32 b0).

Definition saes_f2 (x : Z) : Z := Z.lxor (Z.shiftl x 1) (Z.land (Z.shiftr x 7) 1 * SAES_WPOLY).
Definition saes_f3 (x : Z) : Z := Z.lxor (saes_f2 x) x.
Definition saes_h0 (x : Z) : Z := x.

Definition saes_u0 (p : Z) : Z := saes_b2w (saes_f2 p) p p (saes_f3 p).
Definition saes_u1 (p : Z) : Z := saes_b2w (saes_f3 p) (saes_f2 p) p p.
Definition saes_u2 (p : Z) : Z := saes_b2w p (saes_f3 p) (saes_f2 p) p.
Definition saes_u3 (p : Z) : Z := saes_b2w p p (saes_f3 p) (saes_f2 p).

Definition saes_table : list (list Z) := [saes_data saes_u0; saes_data saes_u1; saes_data saes_u2; saes_data saes_u3].
Definition saes_sbox : list Z := map to_u8 (saes_data saes_h0).

(** ** The rounds of CryptoNight *)

(** The intrinsics [_mm_set_epi32], [_mm_xor_si128], [_mm_cvtsi128_si32] and
    [_mm_shuffle_epi32], of which the latter picks a word for each two bits. *)
Definition mm_set_epi32 := rx_set_int_vec_i128.
Definition mm_xor_si128 (a b : rx_vec_i128) : rx_vec_i128 := zip_with Z.lxor a b.
Definition mm_cvtsi128_si32 (a : rx_vec_i128) : Z := to_i32 (vec_u32 a 0).
Definition mm_shuffle_epi32 (a : rx_vec_i128) (imm : Z) : rx_vec_i128 :=
  of_u32 (map (fun k => vec_u32 a (Z.to_nat (Z.land (Z.shiftr imm (2 * k)) 3))) [0; 1; 2; 3]).

(** What both overloads do with the four words. *)
Definition saes_round (x0 x1 x2 x3 : Z) (key : rx_vec_i128) : option rx_vec_i128 :=
  let saes := xor4 (saes_table !!! 0%nat) (saes_table !!! 1%nat) (saes_table !!! 2%nat) (saes_table !!! 3%nat) in
  i3 ← saes (b0 x3) (b1 x0) (b2 x1) (b3 x2);
  i2 ← saes (b0 x2) (b1 x3) (b2 x0) (b3 x1);
  i1 ← saes (b0 x1) (b1 x2) (b2 x3) (b3 x0);
  i0 ← saes (b0 x0) (b1 x1) (b2 x2) (b3 x3);
  Some (mm_xor_si128 (mm_set_epi32 i3 i2 i1 i0) key).

(** [soft_aesenc(const uint32_t* in, __m128i key)] *)
Definition soft_aesenc_words (in_ : list Z) (key : rx_vec_i128) : option rx_vec_i128 :=
  x0 ← in_ !! 0%nat; x1 ← in_ !! 1%nat; x2 ← in_ !! 2%nat; x3 ← in_ !! 3%nat;
  saes_round x0 x1 x2 x3 key.

(** [soft_aesenc(__m128i in, __m128i key)] *)
Definition soft_aesenc (in_ key : rx_vec_i128) : option rx_vec_i128 :=
  let x0 := to_u32 (mm_cvtsi128_si32 in_) in
  let x1 := to_u32 (mm_cvtsi128_si32 (mm_shuffle_epi32 in_ 0x55)) in
  let x2 := to_u32 (mm_cvtsi128_si32 (mm_shuffle_epi32 in_ 0xAA)) in
  let x3 := to_u32 (mm_cvtsi128_si32 (mm_shuffle_epi32 in_ 0xFF)) in
  saes_round x0 x1 x2 x3 key.

(** ** The step of the key schedule *)

(** A [uint8_t] shifted by 24 is an [int]; its sign bit is the bit 31 of the
    result. *)
Definition sub_word (key : Z) : option Z :=
  s3 ← saes_sbox !! Z.to_nat (b3 key); s2 ← saes_sbox !! Z.to_nat (b2 key);
  s1 ← saes_sbox !! Z.to_nat (b1 key); s0 ← saes_sbox !! Z.to_nat (b0 key);
  Some (to_u32 (Z.lor (Z.lor (Z.lor (to_i32 (Z.shiftl s3 24)) (Z.shiftl s2 16)) (Z.shiftl s1 8)) s0)).

Definition rotr32 (value amount : Z) : Z :=
  Z.lor (Z.shiftr value amount) (to_u32 (Z.shiftl value (Z.land (32 - amount) 31))).

Definition soft_aeskeygenassist (rcon : Z) (key : rx_vec_i128) : option rx_vec_i128 :=
  X1 ← sub_word (to_u32 (mm_cvtsi128_si32 (mm_shuffle_epi32 key 0x55)));
  X3 ← sub_word (to_u32 (mm_cvtsi128_si32 (mm_shuffle_epi32 key 0xFF)));
  Some (mm_set_epi32 (Z.lxor (rotr32 X3 8) rcon) X3 (Z.lxor (rotr32 X1 8) rcon) X1).
