(* ===== verification/SoftAesOk.v ===== *)
(** * AES in software: the rounds are those of FIPS 197

    Each table holds a column of the matrix of the round times the box, so that
    the exclusive or of four entries is a column of the next state. *)

From S2P Require Import Prelude.
From S2P Require Import CInt.
From S2P Require Import Bytes.
From S2P Require Import WordMatrix.
From S2P Require Import Aes.
From S2P Require Import SoftAes.

(** ** Words and their bytes *)

Lemma byte_lxor b c : is_byte b -> is_byte c -> is_byte (Z.lxor b c).
Proof. intros Hb Hc. apply (lxor_range 8); [lia | exact Hb | exact Hc]. Qed.

Lemma bytes_lxor n s t : bytes_of n s -> bytes_of n t -> bytes_of n (zip_with Z.lxor s t).
Proof.
  intros [Hs <-] [Ht Hl]. split; [|rewrite length_zip_with, Hl; lia]. clear Hl.
  revert t Ht. induction Hs as [|b s Hb _ IH]; intros t Ht; [constructor|]. destruct Ht as [|c t Hc Ht]; [constructor|].
  constructor; [apply byte_lxor; assumption | apply IH, Ht].
Qed.

Lemma split_byte b x : is_byte b -> b + 256 * x = Z.lxor b (Z.shiftl x 8).
Proof.
  intros Hb. unfold is_byte in Hb. change 256 with (2 ^ 8) in *. rewrite Z.mul_comm, <- lor_shiftl_add by lia.
  symmetry. apply Z.lxor_lor. apply Z.bits_inj'. intros i Hi. rewrite Z.land_spec, Z.bits_0. destruct (Z_lt_ge_dec i 8).
  - rewrite Z.shiftl_spec_low by assumption. apply andb_false_r.
  - rewrite <- (Z.mod_small b (2 ^ 8)), Z.mod_pow2_bits_high by lia. reflexivity.
Qed.

Lemma lxor_split b c x y : is_byte b -> is_byte c -> Z.lxor (b + 256 * x) (c + 256 * y) = Z.lxor b c + 256 * Z.lxor x y.
Proof.
  intros Hb Hc. rewrite !split_byte, Z.shiftl_lxor by (try apply byte_lxor; assumption).
  rewrite !Z.lxor_assoc. f_equal. rewrite <- !Z.lxor_assoc. f_equal. apply Z.lxor_comm.
Qed.

Lemma le_val_lxor s t : is_bytes s -> is_bytes t -> length s = length t ->
  Z.lxor (le_val s) (le_val t) = le_val (zip_with Z.lxor s t).
Proof.
  intros Hs. revert t. induction Hs as [|b s Hb _ IH]; intros t Ht Hl; destruct Ht as [|c t Hc Ht]; try discriminate; [reflexivity|].
  cbn [le_val zip_with]. rewrite lxor_split, IH by (assumption || (cbn in Hl; lia)). reflexivity.
Qed.

Lemma split_bits b x i : is_byte b -> 0 <= i -> Z.testbit (b + 256 * x) i = if i <? 8 then Z.testbit b i else Z.testbit x (i - 8).
Proof.
  intros Hb Hi. rewrite split_byte, Z.lxor_spec, Z.shiftl_spec by assumption. unfold is_byte in Hb. destruct (Z.ltb_spec i 8).
  - rewrite (Z.testbit_neg_r x) by lia. apply xorb_false_r.
  - rewrite <- (Z.mod_small b (2 ^ 8)), Z.mod_pow2_bits_high by lia. reflexivity.
Qed.

Lemma byte_land b c : is_byte b -> is_byte (Z.land b c).
Proof.
  intros Hb. unfold is_byte in Hb. assert (E : Z.land b c = Z.land b c mod 2 ^ 8).
  { apply Z.bits_inj'. intros i Hi. destruct (Z_lt_ge_dec i 8).
    - rewrite Z.mod_pow2_bits_low by assumption. reflexivity.
    - rewrite Z.mod_pow2_bits_high, Z.land_spec, <- (Z.mod_small b (2 ^ 8)), Z.mod_pow2_bits_high by lia. reflexivity. }
  unfold is_byte. rewrite E. apply Z.mod_pos_bound. lia.
Qed.

Lemma le_val_land s t : is_bytes s -> is_bytes t -> length s = length t ->
  Z.land (le_val s) (le_val t) = le_val (zip_with Z.land s t).
Proof.
  intros Hs. revert t. induction Hs as [|b s Hb _ IH]; intros t Ht Hl; destruct Ht as [|c t Hc Ht]; try discriminate; [reflexivity|].
  cbn [le_val zip_with]. rewrite <- IH by (assumption || (cbn in Hl; lia)). apply Z.bits_inj'. intros i Hi.
  rewrite Z.land_spec, !split_bits, !Z.land_spec by (try apply byte_land; assumption).
  destruct (i <? 8); reflexivity.
Qed.

(** A word from four bytes, and the bytes as the rounds take them. *)
Lemma word_range a b c d : is_bytes [a; b; c; d] -> 0 <= le_val [a; b; c; d] < 2 ^ 32.
Proof. apply (le_val_range [a; b; c; d]). Qed.

Lemma bytes_of_word a b c d : is_bytes [a; b; c; d] ->
  let w := le_val [a; b; c; d] in b0 w = a /\ b1 w = b /\ b2 w = c /\ b3 w = d.
Proof.
  intros H w. repeat (apply Forall_cons in H as [? H]). unfold b0, b1, b2, b3, is_byte in *.
  change 0xff with (Z.ones 8). rewrite !Z.land_ones, !Z.shiftr_div_pow2 by lia. subst w. cbn [le_val].
  change (2 ^ 8) with 256. change (2 ^ 16) with 65536. change (2 ^ 24) with 16777216. split_and!.
  - symmetry. apply Z.mod_unique with (b + 256 * (c + 256 * (d + 256 * 0))); lia.
  - symmetry. apply Z.mod_unique with (c + 256 * d); [lia|]. symmetry. rewrite Z.add_comm at 1. symmetry.
    replace (a + 256 * (b + 256 * (c + 256 * (d + 256 * 0)))) with (a + (b + 256 * (c + 256 * d)) * 256) by lia.
    rewrite Z.div_add, Z.div_small by lia. lia.
  - replace (a + 256 * (b + 256 * (c + 256 * (d + 256 * 0)))) with (a + 256 * b + (c + 256 * d) * 65536) by lia.
    rewrite Z.div_add, Z.div_small by lia. symmetry. apply Z.mod_unique with d; lia.
  - symmetry. apply Z.div_unique with (a + 256 * b + 65536 * c); lia.
Qed.

Lemma to_u32_i32 w : to_u32 (to_i32 w) = to_u32 w.
Proof.
  unfold to_u32, to_i32. rewrite Zminus_mod_idemp_l. f_equal. lia.
Qed.

Lemma word_unsigned w : bytes_of 4 w -> to_u32 (to_i32 (le_val w)) = le_val w.
Proof. intros [Hw Hl]. rewrite to_u32_i32. pose proof (le_val_range w Hw) as Hr. rewrite Hl in Hr. apply Z.mod_small, Hr. Qed.

Lemma word_le_bytes w : bytes_of 4 w -> le_bytes 4 (le_val w) = w.
Proof. intros [Hw Hl]. rewrite <- Hl. apply le_bytes_le_val, Hw. Qed.

(** ** Vectors *)

Lemma set_int_words s3 s2 s1 s0 : bytes_of 4 s3 -> bytes_of 4 s2 -> bytes_of 4 s1 -> bytes_of 4 s0 ->
  rx_set_int_vec_i128 (le_val s3) (le_val s2) (le_val s1) (le_val s0) = s0 ++ s1 ++ s2 ++ s3.
Proof.
  intros. unfold rx_set_int_vec_i128, of_u32. cbn [map concat]. rewrite !word_unsigned, !word_le_bytes by assumption.
  rewrite app_nil_r. reflexivity.
Qed.

(** Split a vector into its bytes. *)
Ltac vec_bytes v H :=
  let Hl := fresh in destruct H as [H Hl];
  do 16 (destruct v as [|? v]; [discriminate Hl|]); destruct v; [clear Hl | discriminate Hl];
  repeat (let Hb := fresh "Hb" in apply Forall_cons in H as [Hb H]); clear H.

(** A string of known bytes. *)
Ltac bytes_tac := repeat first [apply Forall_nil_2 | apply Forall_cons_2]; auto using byte_lxor.

Lemma xor_vec a b : bytes_of 16 a -> bytes_of 16 b -> rx_xor_vec_i128 a b = zip_with Z.lxor a b.
Proof.
  intros Ha Hb. vec_bytes a Ha. vec_bytes b Hb. unfold rx_xor_vec_i128, vec_u32, of_u32.
  cbn [take drop Nat.mul Nat.add map concat].
  rewrite !le_val_lxor by (reflexivity || bytes_tac). cbn [zip_with].
  rewrite !word_le_bytes by (split; [bytes_tac | reflexivity]). reflexivity.
Qed.

(** ** Columns *)

(** Column [j] of the circulant matrix, times [x]. *)
Definition matrix_column (k : list Z) (j : nat) (x : Z) : list Z := map (fun r => gf_mul (k !!! ((j + 4 - r) mod 4)%nat) x) (seq 0 4).

Lemma mix_column_columns k a b c d : mix_column k [a; b; c; d] =
  zip_with Z.lxor (zip_with Z.lxor (zip_with Z.lxor (matrix_column k 0 a) (matrix_column k 1 b)) (matrix_column k 2 c)) (matrix_column k 3 d).
Proof. reflexivity. Qed.

(** The tables [ts] hold the columns of the matrix of [k] times the box. *)
Definition column_tables (k : list Z) (box : Z -> Z) (ts : list (list Z)) : Prop :=
  forall b, is_byte b -> map (fun t => t !! Z.to_nat b) ts = map (fun j => Some (le_val (matrix_column k j (box b)))) (seq 0 4) /\
    Forall (fun j => bytes_of 4 (matrix_column k j (box b))) (seq 0 4).

Definition column_check (k : list Z) (box : Z -> Z) (ts : list (list Z)) (b : Z) : bool :=
  let x := box b in
  bool_decide (map (fun t => t !! Z.to_nat b) ts = map (fun j => Some (le_val (matrix_column k j x))) (seq 0 4)) &&
  bool_decide (Forall (fun j => bytes_of 4 (matrix_column k j x)) (seq 0 4)).

Lemma column_check_ok k box ts : forallb (column_check k box ts) all_bytes = true -> column_tables k box ts.
Proof.
  intros H b Hb. pose proof (every_byte _ H b Hb) as Hc. apply andb_true_iff in Hc as [H1 H2].
  apply bool_decide_eq_true in H1. apply bool_decide_eq_true in H2. split; assumption.
Qed.

Definition k_enc : list Z := [2; 3; 1; 1].
Definition k_dec : list Z := [0xe; 0xb; 0xd; 0x9].

(** The tables made at the start. *)
Definition tables_ok (T : tables) : Prop :=
  column_tables k_enc SBox [lutEnc0 T; lutEnc1 T; lutEnc2 T; lutEnc3 T] /\
  column_tables k_dec InvSBox [lutDec0 T; lutDec1 T; lutDec2 T; lutDec3 T].

Lemma initializer_ok : returns SAESInitializer tables_ok.
Proof.
  assert (H : match SAESInitializer with
    | Some T => forallb (column_check k_enc SBox [lutEnc0 T; lutEnc1 T; lutEnc2 T; lutEnc3 T]) all_bytes &&
                forallb (column_check k_dec InvSBox [lutDec0 T; lutDec1 T; lutDec2 T; lutDec3 T]) all_bytes
    | None => false end = true) by eval_closed.
  destruct SAESInitializer as [T|]; [|discriminate]. apply andb_true_iff in H as [H1 H2].
  apply returns_Some. split; apply column_check_ok; assumption.
Qed.

Lemma saes_table_ok : column_tables k_enc SBox saes_table.
Proof. apply column_check_ok. eval_closed. Qed.

Lemma saes_sbox_ok b : is_byte b -> saes_sbox !! Z.to_nat b = Some (SBox b) /\ is_byte (SBox b).
Proof.
  intros Hb. assert (H : (bool_decide (saes_sbox !! Z.to_nat b = Some (SBox b)) && bool_decide (is_byte (SBox b))) = true).
  { revert b Hb. apply every_byte. eval_closed. }
  apply andb_true_iff in H as [H1 H2]. apply bool_decide_eq_true in H1. apply bool_decide_eq_true in H2. split; assumption.
Qed.

(** Four entries make a column of the product. *)
Lemma xor4_ok k box t0 t1 t2 t3 a b c d : column_tables k box [t0; t1; t2; t3] -> is_bytes [a; b; c; d] ->
  xor4 t0 t1 t2 t3 a b c d = Some (le_val (mix_column k (map box [a; b; c; d]))) /\ bytes_of 4 (mix_column k (map box [a; b; c; d])).
Proof.
  intros HT H. repeat (let Hx := fresh "Hx" in apply Forall_cons in H as [Hx H]).
  destruct (HT a Hx) as [Ea Ba], (HT b Hx0) as [Eb Bb], (HT c Hx1) as [Ec Bc], (HT d Hx2) as [Ed Bd].
  apply (f_equal (fun l => hd None l)) in Ea. apply (f_equal (fun l => hd None (drop 1 l))) in Eb.
  apply (f_equal (fun l => hd None (drop 2 l))) in Ec. apply (f_equal (fun l => hd None (drop 3 l))) in Ed.
  cbn [map seq hd drop] in *.
  repeat match goal with H : Forall _ (_ :: _) |- _ => apply Forall_cons in H as [? H] end.
  rewrite mix_column_columns. unfold xor4. rewrite Ea, Eb, Ec, Ed. cbn [mbind option_bind].
  assert (B1 := bytes_lxor 4 (matrix_column k 0 (box a)) (matrix_column k 1 (box b)) ltac:(assumption) ltac:(assumption)).
  assert (B2 := bytes_lxor 4 _ (matrix_column k 2 (box c)) B1 ltac:(assumption)).
  assert (B3 := bytes_lxor 4 _ (matrix_column k 3 (box d)) B2 ltac:(assumption)).
  split; [|exact B3]. rewrite !le_val_lxor; try reflexivity; try apply B1; try apply B2;
    match goal with H : bytes_of 4 ?x |- is_bytes ?x => apply H end.
Qed.

(** ** The rounds *)

Lemma mix_columns_vec k a0 a1 a2 a3 c0 c1 c2 c3 d0 d1 d2 d3 e0 e1 e2 e3 :
  concat (map (mix_column k) (columns [a0; a1; a2; a3; c0; c1; c2; c3; d0; d1; d2; d3; e0; e1; e2; e3])) =
  mix_column k [a0; a1; a2; a3] ++ mix_column k [c0; c1; c2; c3] ++ mix_column k [d0; d1; d2; d3] ++ mix_column k [e0; e1; e2; e3].
Proof. unfold columns. cbn [map seq take drop concat Nat.mul Nat.add]. rewrite app_nil_r. reflexivity. Qed.

(** Four words of columns make the vector the round adds the key to. *)
Lemma round_vec k box t0 t1 t2 t3 key a0 a1 a2 a3 c0 c1 c2 c3 d0 d1 d2 d3 e0 e1 e2 e3
  (xor : rx_vec_i128 -> rx_vec_i128 -> rx_vec_i128) :
  (forall a b, bytes_of 16 a -> bytes_of 16 b -> xor a b = zip_with Z.lxor a b) ->
  column_tables k box [t0; t1; t2; t3] -> bytes_of 16 key ->
  let x := [a0; a1; a2; a3; c0; c1; c2; c3; d0; d1; d2; d3; e0; e1; e2; e3] in is_bytes x ->
  exists i0 i1 i2 i3, xor4 t0 t1 t2 t3 a0 a1 a2 a3 = Some i0 /\ xor4 t0 t1 t2 t3 c0 c1 c2 c3 = Some i1 /\
    xor4 t0 t1 t2 t3 d0 d1 d2 d3 = Some i2 /\ xor4 t0 t1 t2 t3 e0 e1 e2 e3 = Some i3 /\
    xor (rx_set_int_vec_i128 i3 i2 i1 i0) key = AddRoundKey (concat (map (mix_column k) (columns (map box x)))) key.
Proof.
  intros Hxor HT Hkey x Hx. subst x. repeat (let H := fresh "Hb" in apply Forall_cons in Hx as [H Hx]).
  destruct (xor4_ok k box t0 t1 t2 t3 a0 a1 a2 a3 HT) as [E0 B0]; [bytes_tac|].
  destruct (xor4_ok k box t0 t1 t2 t3 c0 c1 c2 c3 HT) as [E1 B1']; [bytes_tac|].
  destruct (xor4_ok k box t0 t1 t2 t3 d0 d1 d2 d3 HT) as [E2 B2']; [bytes_tac|].
  destruct (xor4_ok k box t0 t1 t2 t3 e0 e1 e2 e3 HT) as [E3 B3']; [bytes_tac|].
  eexists _, _, _, _. split; [exact E0|]. split; [exact E1|]. split; [exact E2|]. split; [exact E3|].
  rewrite set_int_words by assumption. cbn [map]. rewrite mix_columns_vec. cbn [map] in *.
  apply Hxor; [|exact Hkey]. destruct B0, B1', B2', B3'.
  split; [repeat (apply Forall_app; split; [assumption|]); assumption | rewrite !length_app; lia].
Qed.

(** A round makes a vector. *)
Lemma round_bytes k box t0 t1 t2 t3 x key : column_tables k box [t0; t1; t2; t3] -> bytes_of 16 x -> bytes_of 16 key ->
  bytes_of 16 (AddRoundKey (concat (map (mix_column k) (columns (map box x)))) key).
Proof.
  intros HT Hx Hkey. vec_bytes x Hx. apply bytes_lxor; [|exact Hkey]. cbn [map]. rewrite mix_columns_vec.
  repeat match goal with |- context [mix_column k [box ?a; box ?b; box ?c; box ?d]] =>
    let B := fresh "B" in destruct (xor4_ok k box t0 t1 t2 t3 a b c d HT) as [_ B]; [bytes_tac|]; cbn [map] in B;
    revert B; generalize (mix_column k [box a; box b; box c; box d]); intros ? [? ?]
  end.
  split; [repeat (apply Forall_app; split; [assumption|]); assumption | rewrite !length_app; lia].
Qed.

(** Words of the vector. *)
Lemma vec_words a0 a1 a2 a3 c0 c1 c2 c3 d0 d1 d2 d3 e0 e1 e2 e3 :
  let v := [a0; a1; a2; a3; c0; c1; c2; c3; d0; d1; d2; d3; e0; e1; e2; e3] in is_bytes v ->
  to_u32 (rx_vec_i128_x v) = le_val [a0; a1; a2; a3] /\ to_u32 (rx_vec_i128_y v) = le_val [c0; c1; c2; c3] /\
  to_u32 (rx_vec_i128_z v) = le_val [d0; d1; d2; d3] /\ to_u32 (rx_vec_i128_w v) = le_val [e0; e1; e2; e3].
Proof.
  intros v H. repeat (let Hb := fresh "Hb" in apply Forall_cons in H as [Hb H]).
  split_and!; apply word_unsigned; (split; [bytes_tac | reflexivity]).
Qed.

(** Take the bytes of words apart. *)
Ltac take_bytes :=
  repeat match goal with
  | |- context [b0 (le_val [?a; ?b; ?c; ?d])] =>
      let H := fresh in assert (H := bytes_of_word a b c d ltac:(bytes_tac)); destruct H as (-> & -> & -> & ->)
  end.

Ltac finish_round HC Hxor Hkey :=
  unfold AESENC, AESDEC, SubBytes, InvSubBytes, MixColumns, InvMixColumns;
  match goal with |- context [columns (map _ ?x)] => let y := eval cbv in x in change x with y end;
  match goal with |- context [columns (map _ [?a0; ?a1; ?a2; ?a3; ?c0; ?c1; ?c2; ?c3; ?d0; ?d1; ?d2; ?d3; ?e0; ?e1; ?e2; ?e3])] =>
    destruct (round_vec _ _ _ _ _ _ _ a0 a1 a2 a3 c0 c1 c2 c3 d0 d1 d2 d3 e0 e1 e2 e3 _ Hxor HC Hkey) as (i0 & i1 & i2 & i3 & E0 & E1 & E2 & E3 & E);
    [bytes_tac | rewrite ?E0, ?E1, ?E2, ?E3; cbn [mbind option_bind]; f_equal; exact E]
  end.

Lemma aesenc_1_ok T in_ key : tables_ok T -> bytes_of 16 in_ -> bytes_of 16 key ->
  aesenc_1 T in_ key = Some (AESENC in_ key).
Proof.
  intros [HC _] Hin Hkey. vec_bytes in_ Hin. unfold aesenc_1. cbn [lookup_total list_lookup_total].
  finish_round HC xor_vec Hkey.
Qed.

Lemma aesdec_1_ok T in_ key : tables_ok T -> bytes_of 16 in_ -> bytes_of 16 key ->
  aesdec_1 T in_ key = Some (AESDEC in_ key).
Proof.
  intros [_ HC] Hin Hkey. vec_bytes in_ Hin. unfold aesdec_1. cbn [lookup_total list_lookup_total].
  finish_round HC xor_vec Hkey.
Qed.

(** The rounds on the words of the vector. *)
Ltac words_round :=
  match goal with |- context [rx_vec_i128_x [?a0; ?a1; ?a2; ?a3; ?c0; ?c1; ?c2; ?c3; ?d0; ?d1; ?d2; ?d3; ?e0; ?e1; ?e2; ?e3]] =>
    destruct (vec_words a0 a1 a2 a3 c0 c1 c2 c3 d0 d1 d2 d3 e0 e1 e2 e3) as (-> & -> & -> & ->); [bytes_tac|]
  end; cbv zeta; take_bytes.

Lemma aesenc_2_ok T in_ key : tables_ok T -> bytes_of 16 in_ -> bytes_of 16 key ->
  aesenc_2 T in_ key = Some (AESENC in_ key).
Proof.
  intros [HC _] Hin Hkey. vec_bytes in_ Hin. unfold aesenc_2. words_round. finish_round HC xor_vec Hkey.
Qed.

Lemma aesdec_2_ok T in_ key : tables_ok T -> bytes_of 16 in_ -> bytes_of 16 key ->
  aesdec_2 T in_ key = Some (AESDEC in_ key).
Proof.
  intros [_ HC] Hin Hkey. vec_bytes in_ Hin. unfold aesdec_2. words_round. finish_round HC xor_vec Hkey.
Qed.

(** The intrinsics: the key is added byte by byte, and a shuffle that repeats
    one word puts it first. *)
Lemma mm_xor_vec a b : bytes_of 16 a -> bytes_of 16 b -> mm_xor_si128 a b = zip_with Z.lxor a b.
Proof. reflexivity. Qed.

Lemma shuffled_word v imm i : Z.to_nat (Z.land (Z.shiftr imm (2 * 0)) 3) = i ->
  to_u32 (mm_cvtsi128_si32 (mm_shuffle_epi32 v imm)) = to_u32 (to_i32 (vec_u32 v i)).
Proof.
  intros <-. unfold mm_cvtsi128_si32. rewrite !to_u32_i32. unfold mm_shuffle_epi32. cbn [map].
  set (w := vec_u32 v _). unfold of_u32 at 1. cbn [map concat]. unfold vec_u32 at 1. rewrite drop_0.
  rewrite take_app_length' by (symmetry; apply le_bytes_length). rewrite le_bytes_val. unfold to_u32. apply Zmod_mod.
Qed.

Ltac open_saes_round :=
  unfold saes_round, mm_set_epi32;
  change (saes_table !!! 0%nat) with (saes_data saes_u0); change (saes_table !!! 1%nat) with (saes_data saes_u1);
  change (saes_table !!! 2%nat) with (saes_data saes_u2); change (saes_table !!! 3%nat) with (saes_data saes_u3).

Lemma soft_aesenc_ok in_ key : bytes_of 16 in_ -> bytes_of 16 key -> soft_aesenc in_ key = Some (AESENC in_ key).
Proof.
  intros Hin Hkey. pose proof saes_table_ok as HC. vec_bytes in_ Hin. unfold soft_aesenc.
  rewrite (shuffled_word _ 0x55 1), (shuffled_word _ 0xAA 2), (shuffled_word _ 0xFF 3) by reflexivity.
  change (to_u32 (mm_cvtsi128_si32 ?v)) with (to_u32 (rx_vec_i128_x v)). change (to_u32 (to_i32 (vec_u32 ?v 1))) with (to_u32 (rx_vec_i128_y v)).
  change (to_u32 (to_i32 (vec_u32 ?v 2))) with (to_u32 (rx_vec_i128_z v)). change (to_u32 (to_i32 (vec_u32 ?v 3))) with (to_u32 (rx_vec_i128_w v)).
  words_round. open_saes_round. take_bytes. finish_round HC mm_xor_vec Hkey.
Qed.

Lemma soft_aesenc_words_ok in_ key : bytes_of 16 in_ -> bytes_of 16 key ->
  soft_aesenc_words (map (vec_u32 in_) (seq 0 4)) key = Some (AESENC in_ key).
Proof.
  intros Hin Hkey. pose proof saes_table_ok as HC. vec_bytes in_ Hin. unfold soft_aesenc_words, vec_u32.
  cbn [map seq lookup list_lookup mbind option_bind take drop Nat.mul Nat.add].
  open_saes_round. take_bytes. finish_round HC mm_xor_vec Hkey.
Qed.

(** ** The key schedule *)

Lemma to_u32_lor x y : to_u32 (Z.lor x y) = Z.lor (to_u32 x) (to_u32 y).
Proof.
  unfold to_u32. change 4294967296 with (2 ^ 32). rewrite <- !Z.land_ones by lia.
  rewrite Z.land_lor_distr_l. reflexivity.
Qed.

(** Four bytes at their places in a word. *)
Lemma word_lor a b c d : is_bytes [a; b; c; d] ->
  Z.lor (Z.lor (Z.lor (Z.shiftl d 24) (Z.shiftl c 16)) (Z.shiftl b 8)) a = le_val [a; b; c; d].
Proof.
  intros H. repeat (let Hx := fresh in apply Forall_cons in H as [Hx H]; unfold is_byte in Hx).
  transitivity (Z.lor (Z.lor (Z.lor a (Z.shiftl b 8)) (Z.shiftl c 16)) (Z.shiftl d 24)).
  { apply Z.bits_inj'. intros i _. rewrite !Z.lor_spec.
    destruct (Z.testbit a i), (Z.testbit (Z.shiftl b 8) i), (Z.testbit (Z.shiftl c 16) i), (Z.testbit (Z.shiftl d 24) i); reflexivity. }
  rewrite (lor_shiftl_add a b 8) by lia. rewrite (lor_shiftl_add _ c 16) by lia. rewrite (lor_shiftl_add _ d 24) by lia.
  cbn [le_val]. lia.
Qed.

Lemma sub_word_ok a b c d : is_bytes [a; b; c; d] ->
  sub_word (le_val [a; b; c; d]) = Some (le_val (SubWord [a; b; c; d])) /\ bytes_of 4 (SubWord [a; b; c; d]).
Proof.
  intros H. destruct (bytes_of_word a b c d H) as (E0 & E1 & E2 & E3). unfold sub_word. rewrite E0, E1, E2, E3.
  repeat (let Hx := fresh "Hx" in apply Forall_cons in H as [Hx H]).
  destruct (saes_sbox_ok a Hx) as [-> ?], (saes_sbox_ok b Hx0) as [-> ?], (saes_sbox_ok c Hx1) as [-> ?], (saes_sbox_ok d Hx2) as [-> ?].
  cbn [mbind option_bind]. assert (HB : is_bytes [SBox a; SBox b; SBox c; SBox d]) by bytes_tac.
  split; [|split; [exact HB | reflexivity]]. f_equal. rewrite !to_u32_lor, to_u32_i32, <- !to_u32_lor, word_lor by exact HB.
  apply Z.mod_small, (le_val_range _ HB).
Qed.

Lemma rotr_word a b c d : is_bytes [a; b; c; d] -> rotr32 (le_val [a; b; c; d]) 8 = le_val [b; c; d; a].
Proof.
  intros H. repeat (let Hx := fresh in apply Forall_cons in H as [Hx H]; unfold is_byte in Hx).
  unfold rotr32. change (Z.land (32 - 8) 31) with 24. rewrite Z.shiftr_div_pow2, Z.shiftl_mul_pow2 by lia. cbn [le_val].
  unfold to_u32. change (2 ^ 8) with 256. replace ((a + 256 * (b + 256 * (c + 256 * (d + 256 * 0)))) * 2 ^ 24)
    with (a * 2 ^ 24 + (b + 256 * (c + 256 * d)) * 4294967296) by (change (2 ^ 24) with 16777216; lia).
  rewrite Z.mod_add, (Z.mod_small (a * 2 ^ 24)) by (change (2 ^ 24) with 16777216; lia).
  replace (a + 256 * (b + 256 * (c + 256 * (d + 256 * 0)))) with (a + (b + 256 * (c + 256 * d)) * 256) by lia.
  rewrite Z.div_add, Z.div_small, Z.add_0_l by lia. rewrite <- (Z.shiftl_mul_pow2 a 24), lor_shiftl_add by (change (2 ^ 24) with 16777216; lia).
  change (2 ^ 24) with 16777216. lia.
Qed.

Lemma rotated_word w rcon : bytes_of 4 w -> is_byte rcon ->
  Z.lxor (rotr32 (le_val w) 8) rcon = le_val (zip_with Z.lxor (RotWord w) [rcon; 0; 0; 0]) /\
  bytes_of 4 (zip_with Z.lxor (RotWord w) [rcon; 0; 0; 0]).
Proof.
  intros [Hw Hl] Hr. do 4 (destruct w as [|? w]; [discriminate Hl|]). destruct w; [|discriminate Hl].
  rewrite rotr_word by exact Hw. repeat (let Hx := fresh "Hx" in apply Forall_cons in Hw as [Hx Hw]).
  assert (H0 : is_byte 0) by (split; lia). replace rcon with (le_val [rcon; 0; 0; 0]) at 1 by (cbn [le_val]; lia).
  unfold RotWord. cbn [take drop app]. split; [apply le_val_lxor; [bytes_tac | bytes_tac | reflexivity]|].
  apply bytes_lxor; (split; [bytes_tac | reflexivity]).
Qed.

Lemma soft_aeskeygenassist_ok rcon key : is_byte rcon -> bytes_of 16 key ->
  soft_aeskeygenassist rcon key = Some (AESKEYGENASSIST key rcon).
Proof.
  intros Hr Hkey. vec_bytes key Hkey. unfold soft_aeskeygenassist.
  rewrite (shuffled_word _ 0x55 1), (shuffled_word _ 0xFF 3) by reflexivity.
  unfold vec_u32. cbn [take drop Nat.mul Nat.add]. rewrite !word_unsigned by (split; [bytes_tac | reflexivity]).
  destruct (sub_word_ok z3 z4 z5 z6) as [-> Hy]; [bytes_tac|]. destruct (sub_word_ok z11 z12 z13 z14) as [-> Hz]; [bytes_tac|].
  cbn [mbind option_bind]. unfold AESKEYGENASSIST. cbn [take drop].
  destruct (rotated_word _ rcon Hy Hr) as [-> Hy'], (rotated_word _ rcon Hz Hr) as [-> Hz'].
  f_equal. apply set_int_words; assumption.
Qed.

(** ** The rounds make vectors *)

Lemma permuted_bytes (st : list Z) (at_ : nat -> nat) : bytes_of 16 st -> (forall i, (i < 16)%nat -> (at_ i < 16)%nat) ->
  bytes_of 16 (map (fun i => st !!! at_ i) (seq 0 16)).
Proof.
  intros [Hb Hl] Hat. split; [|reflexivity]. apply Forall_forall. intros b Hin. apply list_elem_of_In, in_map_iff in Hin as (i & <- & Hi).
  apply in_seq in Hi. destruct (lookup_lt_is_Some_2 st (at_ i)) as [c Hc]; [rewrite Hl; apply Hat; lia|].
  rewrite (list_lookup_total_correct _ _ _ Hc). revert Hc. apply Forall_lookup_1, Hb.
Qed.

Lemma AESENC_bytes st key : bytes_of 16 st -> bytes_of 16 key -> bytes_of 16 (AESENC st key).
Proof.
  intros Hs Hk. apply (round_bytes k_enc SBox _ _ _ _ (ShiftRows st) key saes_table_ok); [|exact Hk].
  apply (permuted_bytes st (fun i => i mod 4 + 4 * ((i / 4 + i mod 4) mod 4))%nat Hs).
  intros i _. pose proof (Nat.mod_upper_bound i 4). pose proof (Nat.mod_upper_bound (i / 4 + i mod 4) 4). lia.
Qed.

Lemma AESDEC_bytes st key : bytes_of 16 st -> bytes_of 16 key -> bytes_of 16 (AESDEC st key).
Proof.
  intros Hs Hk. destruct initializer_ok as (T & _ & _ & HT).
  apply (round_bytes k_dec InvSBox _ _ _ _ (InvShiftRows st) key HT); [|exact Hk].
  apply (permuted_bytes st (fun i => i mod 4 + 4 * ((i / 4 + 4 - i mod 4) mod 4))%nat Hs).
  intros i _. pose proof (Nat.mod_upper_bound i 4). pose proof (Nat.mod_upper_bound (i / 4 + 4 - i mod 4) 4). lia.
Qed.
