(* ===== verification/AesHash.v ===== *)
(** * Hashing and filling a scratchpad with AES

    crypto/randomx/aes_hash.cpp: [hashAes1Rx4], [fillAes1Rx4], [fillAes4Rx4], the
    fused [hashAndFillAes1Rx4] in its instances, and the choice of one of them in
    [SelectSoftAESImpl]; the keys of crypto/randomx/randomx.cpp.

    Memory is a list of bytes; a vector loaded or stored outside it is [None].  The
    rounds are those of the template argument [softAes], given as an instance. *)

From S2P Require Import Prelude.
From S2P Require Import CInt.
From S2P Require Import Bytes.
From S2P Require Import Job.
From S2P Require Import SoftAes.

(** ** The rounds a function is instantiated with *)

Class AesRounds := {
  aesenc : rx_vec_i128 -> rx_vec_i128 -> option rx_vec_i128;
  aesdec : rx_vec_i128 -> rx_vec_i128 -> option rx_vec_i128
}.

Definition soft_1 (T : tables) : AesRounds := {| aesenc := aesenc_1 T; aesdec := aesdec_1 T |}.
Definition soft_2 (T : tables) : AesRounds := {| aesenc := aesenc_2 T; aesdec := aesdec_2 T |}.

(** [softAes = 0]: the instructions of the processor. *)
Definition hardware (enc dec : rx_vec_i128 -> rx_vec_i128 -> rx_vec_i128) : AesRounds :=
  {| aesenc := fun s k => Some (enc s k); aesdec := fun s k => Some (dec s k) |}.

(** ** Memory *)

Definition rx_load_vec_i128 (mem : list Z) (p : Z) : option rx_vec_i128 :=
  if (0 <=? p) && (p + 16 <=? Z.of_nat (length mem)) then Some (take 16 (drop (Z.to_nat p) mem)) else None.

Definition rx_store_vec_i128 (mem : list Z) (p : Z) (v : rx_vec_i128) : option (list Z) :=
  if (0 <=? p) && (p + 16 <=? Z.of_nat (length mem)) then Some (memcpy mem (Z.to_nat p) v) else None.

(** The variables [state0] to [state3]. *)
Record lanes := Lanes { state0 : rx_vec_i128; state1 : rx_vec_i128; state2 : rx_vec_i128; state3 : rx_vec_i128 }.

Definition load_lanes (mem : list Z) (p : Z) : option lanes :=
  a ← rx_load_vec_i128 mem p; b ← rx_load_vec_i128 mem (p + 16);
  c ← rx_load_vec_i128 mem (p + 32); d ← rx_load_vec_i128 mem (p + 48);
  Some (Lanes a b c d).

Definition store_lanes (mem : list Z) (p : Z) (st : lanes) : option (list Z) :=
  mem ← rx_store_vec_i128 mem p (state0 st); mem ← rx_store_vec_i128 mem (p + 16) (state1 st);
  mem ← rx_store_vec_i128 mem (p + 32) (state2 st); rx_store_vec_i128 mem (p + 48) (state3 st).

(** ** Constants *)

Definition AES_HASH_1R_STATE0 := rx_set_int_vec_i128 0xd7983aad 0xcc82db47 0x9fa856de 0x92b52c0d.
Definition AES_HASH_1R_STATE1 := rx_set_int_vec_i128 0xace78057 0xf59e125a 0x15c7b798 0x338d996e.
Definition AES_HASH_1R_STATE2 := rx_set_int_vec_i128 0xe8a07ce4 0x5079506b 0xae62c7d0 0x6a770017.
Definition AES_HASH_1R_STATE3 := rx_set_int_vec_i128 0x7e994948 0x79a10005 0x07ad828d 0x630a240c.
Definition AES_HASH_1R_XKEY0 := rx_set_int_vec_i128 0x06890201 0x90dc56bf 0x8b24949f 0xf6fa8389.
Definition AES_HASH_1R_XKEY1 := rx_set_int_vec_i128 0xed18f99b 0xee1043c6 0x51f4e03c 0x61b263d1.
Definition AES_GEN_1R_KEY0 := rx_set_int_vec_i128 0xb4f44917 0xdbb5552b 0x62716609 0x6daca553.
Definition AES_GEN_1R_KEY1 := rx_set_int_vec_i128 0x0da1dc4e 0x1725d378 0x846a710d 0x6d7caf07.
Definition AES_GEN_1R_KEY2 := rx_set_int_vec_i128 0x3e20e345 0xf4c0794f 0x9f947ec6 0x3f1262f1.
Definition AES_GEN_1R_KEY3 := rx_set_int_vec_i128 0x49169154 0x16314c88 0xb1ba317c 0x6aef8135.

Definition hash_start : lanes := Lanes AES_HASH_1R_STATE0 AES_HASH_1R_STATE1 AES_HASH_1R_STATE2 AES_HASH_1R_STATE3.

(** [RandomX_CurrentConfig.fillAes4Rx4_Key]: of the base configuration, and of
    the one for Wownero. *)
Definition base_keys : list rx_vec_i128 := [
  rx_set_int_vec_i128 0x99e5d23f 0x2f546d2b 0xd1833ddb 0x6421aadd;
  rx_set_int_vec_i128 0xa5dfcde5 0x06f79d53 0xb6913f55 0xb20e3450;
  rx_set_int_vec_i128 0x171c02bf 0x0aa4679f 0x515e7baf 0x5c3ed904;
  rx_set_int_vec_i128 0xd8ded291 0xcd673785 0xe78f5d08 0x85623763;
  rx_set_int_vec_i128 0x229effb4 0x3d518b6d 0xe3d6a7a6 0xb5826f73;
  rx_set_int_vec_i128 0xb272b7d2 0xe9024d4e 0x9c10b3d9 0xc7566bf3;
  rx_set_int_vec_i128 0xf63befa7 0x2ba9660a 0xf765a38b 0xf273c9e7;
  rx_set_int_vec_i128 0xc0b0762d 0x0c06d1fd 0x915839de 0x7a7cd609].

Definition wownero_keys : list rx_vec_i128 :=
  let keys := [
    rx_set_int_vec_i128 0xcf359e95 0x141f82b7 0x7ffbe4a6 0xf890465d;
    rx_set_int_vec_i128 0x6741ffdc 0xbd5c5ac3 0xfee8278a 0x6a55c450;
    rx_set_int_vec_i128 0x3d324aac 0xa7279ad2 0xd524fde4 0x114c47a4;
    rx_set_int_vec_i128 0x76f6db08 0x42d3dbd9 0x99a9aeff 0x810c3a2a] in
  keys ++ keys.

(** The mask: two instructions of opcode, dst, src, mod and imm32. *)
Definition inst : list Z := [0xFF; 7; 7; 0xFF] ++ le_bytes 4 0xFFFFFFFF.
Definition inst_mask : rx_vec_i128 := inst ++ inst.

Section Functions.
Context `{AesRounds}.

(** ** hashAes1Rx4 *)

(** One round of each lane, with a key each. *)
Definition hash_lanes (st keys : lanes) : option lanes :=
  a ← aesenc (state0 st) (state0 keys); b ← aesdec (state1 st) (state1 keys);
  c ← aesenc (state2 st) (state2 keys); d ← aesdec (state3 st) (state3 keys);
  Some (Lanes a b c d).

Definition same_key (k : rx_vec_i128) : lanes := Lanes k k k k.

Fixpoint hash_turns (fuel : nat) (input : list Z) (inptr inputEnd : Z) (st : lanes) : option lanes :=
  match fuel with
  | O => None
  | S fuel =>
      if inptr <? inputEnd then
        keys ← load_lanes input inptr; st ← hash_lanes st keys;
        hash_turns fuel input (inptr + 64) inputEnd st
      else Some st
  end.

(** The two extra rounds, and the four vectors of the hash. *)
Definition hash_finish (st : lanes) : option (list Z) :=
  st ← hash_lanes st (same_key AES_HASH_1R_XKEY0);
  st ← hash_lanes st (same_key AES_HASH_1R_XKEY1);
  store_lanes (repeat 0 64) 0 st.

Definition turns_for (size : Z) : nat := S (Z.to_nat ((size + 63) / 64)).

Definition hashAes1Rx4 (input : list Z) (inputSize : Z) : option (list Z) :=
  st ← hash_turns (turns_for inputSize) input 0 inputSize hash_start;
  hash_finish st.

(** ** fillAes1Rx4 *)

Definition fill_lanes (st : lanes) : option lanes :=
  a ← aesdec (state0 st) AES_GEN_1R_KEY0; b ← aesenc (state1 st) AES_GEN_1R_KEY1;
  c ← aesdec (state2 st) AES_GEN_1R_KEY2; d ← aesenc (state3 st) AES_GEN_1R_KEY3;
  Some (Lanes a b c d).

Fixpoint fill_turns (fuel : nat) (buffer : list Z) (outptr outputEnd : Z) (st : lanes) : option (list Z * lanes) :=
  match fuel with
  | O => None
  | S fuel =>
      if outptr <? outputEnd then
        st ← fill_lanes st; buffer ← store_lanes buffer outptr st;
        fill_turns fuel buffer (outptr + 64) outputEnd st
      else Some (buffer, st)
  end.

(** The state and the buffer. *)
Definition fillAes1Rx4 (state : list Z) (outputSize : Z) (buffer : list Z) : option (list Z * list Z) :=
  st ← load_lanes state 0;
  '(buffer, st) ← fill_turns (turns_for outputSize) buffer 0 outputSize st;
  state ← store_lanes state 0 st;
  Some (state, buffer).

(** ** fillAes4Rx4 *)

(** A round of TRANSFORM with the keys of the first and of the last two lanes. *)
Definition transform_round (st : lanes) (k k' : rx_vec_i128) : option lanes :=
  a ← aesdec (state0 st) k; b ← aesenc (state1 st) k; c ← aesdec (state2 st) k'; d ← aesenc (state3 st) k';
  Some (Lanes a b c d).

Definition TRANSFORM (keys : list rx_vec_i128) (st : lanes) : option lanes :=
  key0 ← keys !! 0%nat; key1 ← keys !! 1%nat; key2 ← keys !! 2%nat; key3 ← keys !! 3%nat;
  key4 ← keys !! 4%nat; key5 ← keys !! 5%nat; key6 ← keys !! 6%nat; key7 ← keys !! 7%nat;
  st ← transform_round st key0 key4; st ← transform_round st key1 key5;
  st ← transform_round st key2 key6; transform_round st key3 key7.

Definition mask_lanes (st : lanes) : lanes :=
  Lanes (rx_and_vec_i128 (state0 st) inst_mask) (rx_and_vec_i128 (state1 st) inst_mask)
    (rx_and_vec_i128 (state2 st) inst_mask) (rx_and_vec_i128 (state3 st) inst_mask).

Fixpoint instructions_loop (fuel : nat) (keys : list rx_vec_i128) (buffer : list Z) (outptr outputEnd : Z) (st : lanes) : option (list Z) :=
  match fuel with
  | O => None
  | S fuel =>
      if outptr <? outputEnd then
        st ← TRANSFORM keys st; buffer ← store_lanes buffer outptr (mask_lanes st);
        instructions_loop fuel keys buffer (outptr + 64) outputEnd st
      else Some buffer
  end.

Definition fillAes4Rx4 (keys : list rx_vec_i128) (state : list Z) (outputSize : Z) (buffer : list Z) : option (list Z) :=
  st ← load_lanes state 0;
  st ← TRANSFORM keys st; buffer ← store_lanes buffer 0 st;
  st ← TRANSFORM keys st; buffer ← store_lanes buffer 64 st;
  instructions_loop (turns_for outputSize) keys buffer 128 outputSize st.

(** ** hashAndFillAes1Rx4 *)

(** What a turn of the loop works on. *)
Record fused := Fused { scratchpad : list Z; scratchpadPtr : Z; hash_state : lanes; fill_state : lanes }.

Definition HASH_STATE (k : Z) (s : fused) : option fused :=
  keys ← load_lanes (scratchpad s) (scratchpadPtr s + k * 64);
  h ← hash_lanes (hash_state s) keys;
  Some (Fused (scratchpad s) (scratchpadPtr s) h (fill_state s)).

Definition FILL_STATE (k : Z) (s : fused) : option fused :=
  f ← fill_lanes (fill_state s);
  mem ← store_lanes (scratchpad s) (scratchpadPtr s + k * 64) f;
  Some (Fused mem (scratchpadPtr s) (hash_state s) f).

Definition advance_ptr (n : Z) (s : fused) : fused := Fused (scratchpad s) (scratchpadPtr s + n) (hash_state s) (fill_state s).

(** The body of the loop for the template arguments; prefetching has no effect
    on the state. *)
Definition fused_turn (softAes unroll : Z) (s : fused) : option fused :=
  if softAes =? 0 then
    s ← HASH_STATE 0 s; s ← HASH_STATE 1 s; s ← FILL_STATE 0 s; s ← FILL_STATE 1 s; Some (advance_ptr 128 s)
  else if unroll =? 4 then
    s ← HASH_STATE 0 s; s ← FILL_STATE 0 s; s ← HASH_STATE 1 s; s ← FILL_STATE 1 s;
    s ← HASH_STATE 2 s; s ← FILL_STATE 2 s; s ← HASH_STATE 3 s; s ← FILL_STATE 3 s; Some (advance_ptr (64 * 4) s)
  else if unroll =? 2 then
    s ← HASH_STATE 0 s; s ← FILL_STATE 0 s; s ← HASH_STATE 1 s; s ← FILL_STATE 1 s; Some (advance_ptr (64 * 2) s)
  else
    s ← HASH_STATE 0 s; s ← FILL_STATE 0 s; Some (advance_ptr 64 s).

Fixpoint fused_loop (fuel : nat) (softAes unroll scratchpadEnd : Z) (s : fused) : option fused :=
  match fuel with
  | O => None
  | S fuel =>
      if scratchpadPtr s <? scratchpadEnd then
        s ← fused_turn softAes unroll s; fused_loop fuel softAes unroll scratchpadEnd s
      else Some s
  end.

Definition PREFETCH_DISTANCE : Z := 7168.

(** The two passes, the second to the end of the scratchpad; the hash, the
    scratchpad and the state. *)
Definition hashAndFillAes1Rx4 (softAes unroll : Z) (pad : list Z) (scratchpadSize : Z) (state : list Z) :
  option (list Z * list Z * list Z) :=
  f ← load_lanes state 0;
  s ← fused_loop (turns_for scratchpadSize) softAes unroll (scratchpadSize - PREFETCH_DISTANCE) (Fused pad 0 hash_start f);
  s ← fused_loop (turns_for scratchpadSize) softAes unroll scratchpadSize s;
  state ← store_lanes state 0 (fill_state s);
  hash ← hash_finish (hash_state s);
  Some (hash, scratchpad s, state).
End Functions.

(** ** SelectSoftAESImpl *)

(** The instances to choose from, by template arguments. *)
Definition impl : list (Z * Z) := [(1, 1); (2, 1); (2, 2); (2, 4)].

Definition instance_rounds (T : tables) (softAes : Z) : AesRounds := if softAes =? 1 then soft_1 T else soft_2 T.

Definition implementation (T : tables) (i : Z * Z) : list Z -> Z -> list Z -> option (list Z * list Z * list Z) :=
  hashAndFillAes1Rx4 (H := instance_rounds T (fst i)) (fst i) (snd i).

(** The speed of the instance [i] in the [run] is what the clock measured. *)
Definition SelectSoftAESImpl {speed : Type} (faster : speed -> speed -> bool) (zero : speed) (measured : nat -> nat -> speed) : nat :=
  fst (foldl (fun '(fast_idx, fast_speed) run =>
    foldl (fun '(fast_idx, fast_speed) i =>
      if faster (measured run i) fast_speed then (i, measured run i) else (fast_idx, fast_speed)) (fast_idx, fast_speed) (seq 0 (length impl)))
    (0%nat, zero) (seq 0 3)).
