(* ===== verification/AesHashOk.v ===== *)
(** * Hashing and filling: the loops

    The generators over blocks of 64 bytes, and the loops of aes_hash.cpp as turns
    over the blocks of a scratchpad. *)

From S2P Require Import Prelude.
From S2P Require Import CInt.
From S2P Require Import Bytes.
From S2P Require Import Job.
From S2P Require Import Nonce.
From S2P Require Import Blocks.
From S2P Require Import Aes.
From S2P Require Import SoftAes.
From S2P Require Import SoftAesOk.
From S2P Require Import AesHash.

(** ** What is to be computed *)

(** The rounds an instance has to have. *)
Class AesRoundsOk (R : AesRounds) : Prop := {
  aesenc_ok : forall s k, bytes_of 16 s -> bytes_of 16 k -> aesenc s k = Some (AESENC s k);
  aesdec_ok : forall s k, bytes_of 16 s -> bytes_of 16 k -> aesdec s k = Some (AESDEC s k)
}.

Lemma soft_1_ok T : tables_ok T -> AesRoundsOk (soft_1 T).
Proof. intros HT. split; intros s k Hs Hk; [apply aesenc_1_ok | apply aesdec_1_ok]; assumption. Qed.

Lemma soft_2_ok T : tables_ok T -> AesRoundsOk (soft_2 T).
Proof. intros HT. split; intros s k Hs Hk; [apply aesenc_2_ok | apply aesdec_2_ok]; assumption. Qed.

Definition bytes_of_lanes (st : lanes) : list Z := state0 st ++ state1 st ++ state2 st ++ state3 st.
Definition lanes_of (m : list Z) : lanes :=
  Lanes (take 16 m) (take 16 (drop 16 m)) (take 16 (drop 32 m)) (take 16 (drop 48 m)).

Definition vectors (st : lanes) : Prop :=
  bytes_of 16 (state0 st) /\ bytes_of 16 (state1 st) /\ bytes_of 16 (state2 st) /\ bytes_of 16 (state3 st).

(** Lanes 0 and 2 encrypt when hashing and decrypt when filling. *)
Definition spec_absorb (st keys : lanes) : lanes :=
  Lanes (AESENC (state0 st) (state0 keys)) (AESDEC (state1 st) (state1 keys))
    (AESENC (state2 st) (state2 keys)) (AESDEC (state3 st) (state3 keys)).

Definition spec_next (st : lanes) : lanes :=
  Lanes (AESDEC (state0 st) AES_GEN_1R_KEY0) (AESENC (state1 st) AES_GEN_1R_KEY1)
    (AESDEC (state2 st) AES_GEN_1R_KEY2) (AESENC (state3 st) AES_GEN_1R_KEY3).

Definition absorbed_lanes (blocks : list (list Z)) : lanes := foldl (fun st b => spec_absorb st (lanes_of b)) hash_start blocks.

(** The hash: the blocks are the keys of the rounds, and two rounds follow. *)
Definition spec_hash (blocks : list (list Z)) : list Z :=
  bytes_of_lanes (spec_absorb (spec_absorb (absorbed_lanes blocks) (same_key AES_HASH_1R_XKEY0)) (same_key AES_HASH_1R_XKEY1)).

(** The state after [n] blocks, and the blocks. *)
Definition spec_state (f : lanes) (n : nat) : lanes := Nat.iter n spec_next f.
Definition spec_stream (f : lanes) (n : nat) : list (list Z) := map (fun i => bytes_of_lanes (spec_state f (S i))) (seq 0 n).

(** ** Vectors in lanes *)

Lemma bytes_of_closed n s : bool_decide (bytes_of n s) = true -> bytes_of n s.
Proof. apply bool_decide_eq_true. Qed.

Lemma hash_start_vectors : vectors hash_start.
Proof. split_and!; apply bytes_of_closed; eval_closed. Qed.

Lemma xkey_vectors : vectors (same_key AES_HASH_1R_XKEY0) /\ vectors (same_key AES_HASH_1R_XKEY1).
Proof. split; split_and!; apply bytes_of_closed; eval_closed. Qed.

Lemma gen_keys_bytes : bytes_of 16 AES_GEN_1R_KEY0 /\ bytes_of 16 AES_GEN_1R_KEY1 /\ bytes_of 16 AES_GEN_1R_KEY2 /\ bytes_of 16 AES_GEN_1R_KEY3.
Proof. split_and!; apply bytes_of_closed; eval_closed. Qed.

Lemma take_drop_vec m k : is_bytes m -> (k + 16 <= length m)%nat -> bytes_of 16 (take 16 (drop k m)).
Proof. intros Hm Hk. split; [apply Forall_take, Forall_drop, Hm | rewrite length_take, length_drop; lia]. Qed.

Lemma lanes_of_vectors m : bytes_of 64 m -> vectors (lanes_of m).
Proof. intros [Hm Hl]. split_and!; [apply (take_drop_vec m 0) | apply (take_drop_vec m 16) | apply (take_drop_vec m 32) | apply (take_drop_vec m 48)]; auto; lia. Qed.

Lemma bytes_of_lanes_ok st : vectors st -> bytes_of 64 (bytes_of_lanes st).
Proof.
  intros ([? ?] & [? ?] & [? ?] & [? ?]). unfold bytes_of_lanes.
  split; [repeat (apply Forall_app; split; [assumption|]); assumption | rewrite !length_app; lia].
Qed.

Lemma lanes_of_bytes m : bytes_of 64 m -> bytes_of_lanes (lanes_of m) = m.
Proof.
  intros [_ Hl]. unfold bytes_of_lanes, lanes_of. cbn [state0 state1 state2 state3].
  rewrite (take_ge (drop 48 m)) by (rewrite length_drop; lia).
  replace (drop 48 m) with (drop 16 (drop 32 m)) by (rewrite drop_drop; reflexivity). rewrite take_drop.
  replace (drop 32 m) with (drop 16 (drop 16 m)) by (rewrite drop_drop; reflexivity). rewrite take_drop. apply take_drop.
Qed.

Lemma lanes_of_lanes st : vectors st -> lanes_of (bytes_of_lanes st) = st.
Proof.
  intros ([_ H0] & [_ H1] & [_ H2] & [_ H3]). destruct st as [a b c d]. cbn [state0 state1 state2 state3] in *.
  unfold lanes_of, bytes_of_lanes. cbn [state0 state1 state2 state3]. f_equal.
  - apply take_app_length', eq_sym, H0.
  - rewrite drop_app_length' by auto. apply take_app_length', eq_sym, H1.
  - rewrite (app_assoc a), drop_app_length' by (rewrite length_app; lia). apply take_app_length', eq_sym, H2.
  - rewrite (app_assoc b), (app_assoc a), drop_app_length' by (rewrite !length_app; lia). apply take_ge. lia.
Qed.

Lemma absorb_vectors st keys : vectors st -> vectors keys -> vectors (spec_absorb st keys).
Proof.
  intros (? & ? & ? & ?) (? & ? & ? & ?). unfold vectors, spec_absorb. cbn [state0 state1 state2 state3].
  split; [apply AESENC_bytes; assumption|]. split; [apply AESDEC_bytes; assumption|].
  split; [apply AESENC_bytes | apply AESDEC_bytes]; assumption.
Qed.

Lemma next_vectors st : vectors st -> vectors (spec_next st).
Proof.
  intros (? & ? & ? & ?). destruct gen_keys_bytes as (? & ? & ? & ?).
  unfold vectors, spec_next. cbn [state0 state1 state2 state3].
  split; [apply AESDEC_bytes; assumption|]. split; [apply AESENC_bytes; assumption|].
  split; [apply AESDEC_bytes | apply AESENC_bytes]; assumption.
Qed.

Lemma state_vectors f n : vectors f -> vectors (spec_state f n).
Proof. intros Hf. induction n as [|n IH]; [exact Hf | apply next_vectors, IH]. Qed.

Lemma absorbed_snoc blocks b : absorbed_lanes (blocks ++ [b]) = spec_absorb (absorbed_lanes blocks) (lanes_of b).
Proof. unfold absorbed_lanes. rewrite foldl_app. reflexivity. Qed.

Lemma absorbed_vectors blocks : blocks_of 64 blocks -> vectors (absorbed_lanes blocks).
Proof.
  induction blocks as [|b blocks IH] using rev_ind; intros H; [apply hash_start_vectors|].
  apply Forall_app in H as [H Hb]. apply Forall_cons in Hb as [Hb _].
  rewrite absorbed_snoc. apply absorb_vectors; [apply IH, H | apply lanes_of_vectors, Hb].
Qed.

Lemma stream_snoc f n : spec_stream f (S n) = spec_stream f n ++ [bytes_of_lanes (spec_state f (S n))].
Proof. unfold spec_stream. rewrite seq_S, map_app. reflexivity. Qed.

Lemma stream_blocks f n : vectors f -> blocks_of 64 (spec_stream f n).
Proof.
  intros Hf. induction n as [|n IH]; [constructor|]. rewrite stream_snoc. apply Forall_app. split; [exact IH|].
  constructor; [apply bytes_of_lanes_ok, state_vectors, Hf | constructor].
Qed.

Lemma stream_length f n : length (spec_stream f n) = n.
Proof. unfold spec_stream. rewrite length_map, length_seq. reflexivity. Qed.

(** ** Loads and stores between what is done and what is left *)

Lemma in_memory (A w B : list Z) : length w = 16%nat ->
  (0 <=? Z.of_nat (length A)) && (Z.of_nat (length A) + 16 <=? Z.of_nat (length (A ++ w ++ B))) = true.
Proof. intros Hw. rewrite !length_app, Hw, andb_true_iff, !Z.leb_le. lia. Qed.

Lemma load_at (A v B mem : list Z) p : mem = A ++ v ++ B -> p = Z.of_nat (length A) -> length v = 16%nat ->
  rx_load_vec_i128 mem p = Some v.
Proof.
  intros -> -> Hv. unfold rx_load_vec_i128. rewrite in_memory, Nat2Z.id by exact Hv.
  rewrite drop_app_length, take_app_length' by auto. reflexivity.
Qed.

Lemma store_at (A w B v mem : list Z) p : mem = A ++ w ++ B -> p = Z.of_nat (length A) -> length w = 16%nat -> length v = 16%nat ->
  rx_store_vec_i128 mem p v = Some (A ++ v ++ B).
Proof.
  intros -> -> Hw Hv. unfold rx_store_vec_i128. rewrite in_memory, Nat2Z.id by exact Hw.
  unfold memcpy. rewrite take_app_length. do 3 f_equal.
  rewrite Hv, <- Hw, <- length_app, app_assoc. apply drop_app_length.
Qed.

Lemma load_lanes_at (A b B mem : list Z) p : mem = A ++ b ++ B -> p = Z.of_nat (length A) -> bytes_of 64 b ->
  load_lanes mem p = Some (lanes_of b).
Proof.
  intros Hm Hp Hb. pose proof (lanes_of_vectors b Hb) as ([_ L0] & [_ L1] & [_ L2] & [_ L3]).
  rewrite <- (lanes_of_bytes b Hb) in Hm. destruct (lanes_of b) as [v0 v1 v2 v3]. cbn [state0 state1 state2 state3] in *.
  unfold bytes_of_lanes in Hm. cbn [state0 state1 state2 state3] in Hm. unfold load_lanes.
  rewrite (load_at A v0 (v1 ++ v2 ++ v3 ++ B) mem p), (load_at (A ++ v0) v1 (v2 ++ v3 ++ B) mem (p + 16)),
    (load_at (A ++ v0 ++ v1) v2 (v3 ++ B) mem (p + 32)), (load_at (A ++ v0 ++ v1 ++ v2) v3 B mem (p + 48)); try assumption; try (rewrite Hm, <- !app_assoc; reflexivity); try (rewrite !length_app; lia).
  reflexivity.
Qed.

Lemma store_lanes_at (A b B mem : list Z) p st : mem = A ++ b ++ B -> p = Z.of_nat (length A) -> bytes_of 64 b -> vectors st ->
  store_lanes mem p st = Some (A ++ bytes_of_lanes st ++ B).
Proof.
  intros Hm Hp Hb. pose proof (lanes_of_vectors b Hb) as ([_ L0] & [_ L1] & [_ L2] & [_ L3]).
  rewrite <- (lanes_of_bytes b Hb) in Hm. destruct (lanes_of b) as [v0 v1 v2 v3]. cbn [state0 state1 state2 state3] in *.
  intros ([_ S0] & [_ S1] & [_ S2] & [_ S3]). destruct st as [s0 s1 s2 s3]. cbn [state0 state1 state2 state3] in *.
  unfold bytes_of_lanes in *. cbn [state0 state1 state2 state3] in *. unfold store_lanes. cbn [state0 state1 state2 state3].
  rewrite (store_at A v0 (v1 ++ v2 ++ v3 ++ B)); [cbn [mbind option_bind] | rewrite Hm, <- !app_assoc; reflexivity | lia | lia | lia].
  rewrite (store_at (A ++ s0) v1 (v2 ++ v3 ++ B)); [cbn [mbind option_bind] | rewrite <- !app_assoc; reflexivity | rewrite !length_app; lia | lia | lia].
  rewrite (store_at (A ++ s0 ++ s1) v2 (v3 ++ B)); [cbn [mbind option_bind] | rewrite <- !app_assoc; reflexivity | rewrite !length_app; lia | lia | lia].
  rewrite (store_at (A ++ s0 ++ s1 ++ s2) v3 B); [rewrite <- !app_assoc; reflexivity | rewrite <- !app_assoc; reflexivity | rewrite !length_app; lia | lia | lia].
Qed.

(** ** The loops *)

Section Loops.
Context (R : AesRounds) (HR : AesRoundsOk R).

Lemma hash_lanes_ok st keys : vectors st -> vectors keys -> hash_lanes st keys = Some (spec_absorb st keys).
Proof using HR.
  intros (? & ? & ? & ?) (? & ? & ? & ?). unfold hash_lanes.
  rewrite (aesenc_ok (state0 st)), (aesdec_ok (state1 st)), (aesenc_ok (state2 st)), (aesdec_ok (state3 st)) by assumption. reflexivity.
Qed.

Lemma fill_lanes_ok st : vectors st -> fill_lanes st = Some (spec_next st).
Proof using HR.
  intros (? & ? & ? & ?). destruct gen_keys_bytes as (? & ? & ? & ?). unfold fill_lanes.
  rewrite (aesdec_ok (state0 st)), (aesenc_ok (state1 st)), (aesdec_ok (state2 st)), (aesenc_ok (state3 st)) by assumption. reflexivity.
Qed.

Lemma hash_finish_ok blocks : blocks_of 64 blocks -> hash_finish (absorbed_lanes blocks) = Some (spec_hash blocks).
Proof using HR.
  intros Hb. pose proof (absorbed_vectors blocks Hb). destruct xkey_vectors as [? ?]. unfold hash_finish.
  rewrite hash_lanes_ok by assumption. cbn [mbind option_bind].
  assert (vectors (spec_absorb (absorbed_lanes blocks) (same_key AES_HASH_1R_XKEY0))) by (apply absorb_vectors; assumption).
  rewrite hash_lanes_ok by assumption. cbn [mbind option_bind].
  rewrite (store_lanes_at [] (repeat 0 64) []); [rewrite app_nil_r; reflexivity | reflexivity | reflexivity | split; [apply zeros_bytes | reflexivity]|].
  apply absorb_vectors; assumption.
Qed.

Lemma turns_for_blocks n : turns_for (64 * Z.of_nat n) = S n.
Proof. unfold turns_for. f_equal. replace ((64 * Z.of_nat n + 63) / 64) with (Z.of_nat n) by (apply Z.div_unique with 63; lia). apply Nat2Z.id. Qed.

Lemma hash_turns_ok todo : forall done tail fuel, blocks_of 64 (done ++ todo) -> (length todo < fuel)%nat ->
  hash_turns fuel (concat done ++ concat todo ++ tail) (64 * Z.of_nat (length done)) (64 * Z.of_nat (length (done ++ todo))) (absorbed_lanes done) =
  Some (absorbed_lanes (done ++ todo)).
Proof using HR.
  induction todo as [|b todo IH]; intros done tail [|fuel] Hb Hf; cbn [length] in Hf; try lia.
  - rewrite app_nil_r. cbn [hash_turns]. rewrite Z.ltb_irrefl. reflexivity.
  - cbn [hash_turns concat]. rewrite length_app. cbn [length]. rewrite (proj2 (Z.ltb_lt _ _)) by lia.
    pose proof Hb as Hb'. apply Forall_app in Hb' as [Hd Ht]. apply Forall_cons in Ht as [Hbb Ht].
    rewrite (load_lanes_at (concat done) b (concat todo ++ tail)); [| rewrite <- app_assoc; reflexivity | rewrite (blocks_length 64 done Hd); lia | exact Hbb].
    cbn [mbind option_bind]. rewrite hash_lanes_ok by (try apply absorbed_vectors; try apply lanes_of_vectors; assumption). cbn [mbind option_bind].
    rewrite <- absorbed_snoc. specialize (IH (done ++ [b]) tail fuel). rewrite <- app_assoc in IH. cbn [app] in IH.
    specialize (IH Hb ltac:(lia)). rewrite !length_app in IH. cbn [length] in IH. rewrite concat_app in IH. cbn [concat] in IH. rewrite app_nil_r, <- !app_assoc in IH.
    rewrite <- app_assoc. replace (64 * Z.of_nat (length done) + 64) with (64 * Z.of_nat (length done + 1)) by lia. exact IH.
Qed.

Lemma fill_turns_ok f todo : forall i tail fuel, vectors f -> blocks_of 64 todo -> (length todo < fuel)%nat ->
  fill_turns fuel (concat (spec_stream f i) ++ concat todo ++ tail) (64 * Z.of_nat i) (64 * Z.of_nat (i + length todo)) (spec_state f i) =
  Some (concat (spec_stream f (i + length todo)) ++ tail, spec_state f (i + length todo)).
Proof using HR.
  induction todo as [|b todo IH]; intros i tail [|fuel] Hf Hb Hl; cbn [length] in Hl; try lia.
  - cbn [fill_turns length concat]. rewrite Nat.add_0_r, Z.ltb_irrefl. reflexivity.
  - cbn [fill_turns concat length]. rewrite (proj2 (Z.ltb_lt _ _)) by lia. apply Forall_cons in Hb as [Hbb Hb].
    rewrite fill_lanes_ok by (apply state_vectors, Hf). cbn [mbind option_bind].
    change (spec_next (spec_state f i)) with (spec_state f (S i)).
    rewrite (store_lanes_at (concat (spec_stream f i)) b (concat todo ++ tail)); [| rewrite <- app_assoc; reflexivity
      | rewrite (blocks_length 64 _ (stream_blocks f i Hf)), stream_length; lia | exact Hbb | apply state_vectors, Hf].
    cbn [mbind option_bind]. specialize (IH (S i) tail fuel Hf Hb ltac:(lia)).
    rewrite stream_snoc, concat_app in IH. cbn [concat] in IH. rewrite app_nil_r, <- app_assoc in IH.
    replace (64 * Z.of_nat i + 64) with (64 * Z.of_nat (S i)) by lia. replace (i + S (length todo))%nat with (S i + length todo)%nat by lia. exact IH.
Qed.

Lemma hashAes1Rx4_ok blocks : blocks_of 64 blocks ->
  hashAes1Rx4 (concat blocks) (64 * Z.of_nat (length blocks)) = Some (spec_hash blocks).
Proof using HR.
  intros Hb. unfold hashAes1Rx4. rewrite turns_for_blocks. pose proof (hash_turns_ok blocks [] [] (S (length blocks)) Hb ltac:(lia)) as E.
  cbn [concat app length] in E. rewrite app_nil_r in E. change (64 * Z.of_nat 0) with 0 in E. change (absorbed_lanes []) with hash_start in E.
  rewrite E. apply hash_finish_ok, Hb.
Qed.

Lemma fillAes1Rx4_ok state blocks tail : bytes_of 64 state -> blocks_of 64 blocks ->
  fillAes1Rx4 state (64 * Z.of_nat (length blocks)) (concat blocks ++ tail) =
  Some (bytes_of_lanes (spec_state (lanes_of state) (length blocks)), concat (spec_stream (lanes_of state) (length blocks)) ++ tail).
Proof using HR.
  intros Hs Hb. pose proof (lanes_of_vectors state Hs) as Hf. unfold fillAes1Rx4. rewrite turns_for_blocks.
  rewrite (load_lanes_at [] state []) by (rewrite ?app_nil_r; auto). cbn [mbind option_bind].
  pose proof (fill_turns_ok (lanes_of state) blocks 0 tail (S (length blocks)) Hf Hb ltac:(lia)) as E.
  cbn [spec_stream seq map concat app Nat.add] in E. change (64 * Z.of_nat 0) with 0 in E. change (spec_state (lanes_of state) 0) with (lanes_of state) in E.
  rewrite E. cbn [mbind option_bind Nat.add].
  rewrite (store_lanes_at [] state []) by (rewrite ?app_nil_r; auto using state_vectors). cbn [mbind option_bind app]. rewrite app_nil_r. reflexivity.
Qed.

(** ** The fused loop *)

(** [i] blocks are hashed and [j] are filled. *)
Definition midway (blocks : list (list Z)) (f : lanes) (i j : nat) (ptr : Z) : fused :=
  Fused (concat (spec_stream f j) ++ concat (drop j blocks)) ptr (absorbed_lanes (take i blocks)) (spec_state f j).

Lemma HASH_STATE_ok blocks f i j ptr k : blocks_of 64 blocks -> vectors f -> (j <= i < length blocks)%nat ->
  ptr + k * 64 = 64 * Z.of_nat i -> HASH_STATE k (midway blocks f i j ptr) = Some (midway blocks f (S i) j ptr).
Proof using HR.
  intros Hb Hf Hi Hp. destruct (lookup_lt_is_Some_2 blocks i) as [b Hbi]; [lia|].
  assert (Hbb : bytes_of 64 b) by (revert Hbi; apply Forall_lookup_1, Hb).
  unfold HASH_STATE, midway. cbn [scratchpad scratchpadPtr hash_state fill_state].
  assert (E : drop j blocks = take (i - j) (drop j blocks) ++ b :: drop (S i) blocks).
  { rewrite <- (take_drop (i - j) (drop j blocks)) at 1. f_equal. rewrite drop_drop. replace (j + (i - j))%nat with i by lia. apply drop_S, Hbi. }
  assert (Ht : blocks_of 64 (take (i - j) (drop j blocks))) by (apply Forall_take, Forall_drop, Hb).
  rewrite (load_lanes_at (concat (spec_stream f j) ++ concat (take (i - j) (drop j blocks))) b (concat (drop (S i) blocks))).
  - cbn [mbind option_bind]. rewrite hash_lanes_ok by (try apply absorbed_vectors, Forall_take; try apply lanes_of_vectors; assumption).
    cbn [mbind option_bind]. rewrite (take_S_r _ _ _ Hbi), absorbed_snoc. reflexivity.
  - rewrite E at 1. rewrite concat_app. cbn [concat]. rewrite <- !app_assoc. reflexivity.
  - rewrite length_app, (blocks_length 64 _ (stream_blocks f j Hf)), stream_length, (blocks_length 64 _ Ht), length_take, length_drop. lia.
  - exact Hbb.
Qed.

Lemma FILL_STATE_ok blocks f i j ptr k : blocks_of 64 blocks -> vectors f -> (j < length blocks)%nat ->
  ptr + k * 64 = 64 * Z.of_nat j -> FILL_STATE k (midway blocks f i j ptr) = Some (midway blocks f i (S j) ptr).
Proof using HR.
  intros Hb Hf Hj Hp. destruct (lookup_lt_is_Some_2 blocks j) as [b Hbj]; [lia|].
  assert (Hbb : bytes_of 64 b) by (revert Hbj; apply Forall_lookup_1, Hb).
  unfold FILL_STATE, midway. cbn [scratchpad scratchpadPtr hash_state fill_state].
  rewrite fill_lanes_ok by (apply state_vectors, Hf). cbn [mbind option_bind]. change (spec_next (spec_state f j)) with (spec_state f (S j)).
  rewrite (store_lanes_at (concat (spec_stream f j)) b (concat (drop (S j) blocks))).
  - cbn [mbind option_bind]. rewrite stream_snoc, concat_app. cbn [concat]. rewrite app_nil_r, <- app_assoc. reflexivity.
  - rewrite (drop_S _ _ _ Hbj). cbn [concat]. reflexivity.
  - rewrite (blocks_length 64 _ (stream_blocks f j Hf)), stream_length. lia.
  - exact Hbb.
  - apply state_vectors, Hf.
Qed.

(** The blocks of a turn. *)
Definition turn_width (softAes unroll : Z) : nat :=
  if softAes =? 0 then 2 else if unroll =? 4 then 4 else if unroll =? 2 then 2 else 1.

Lemma fused_turn_ok blocks f softAes unroll i : blocks_of 64 blocks -> vectors f -> (i + turn_width softAes unroll <= length blocks)%nat ->
  fused_turn softAes unroll (midway blocks f i i (64 * Z.of_nat i)) =
  Some (midway blocks f (i + turn_width softAes unroll) (i + turn_width softAes unroll) (64 * Z.of_nat (i + turn_width softAes unroll))).
Proof using HR.
  intros Hb Hf Hi. unfold turn_width in *. unfold fused_turn.
  destruct (softAes =? 0); [|destruct (unroll =? 4); [|destruct (unroll =? 2)]];
    repeat first [rewrite HASH_STATE_ok by (assumption || lia); cbn [mbind option_bind] | rewrite FILL_STATE_ok by (assumption || lia); cbn [mbind option_bind]];
    unfold advance_ptr, midway; cbn [scratchpad scratchpadPtr hash_state fill_state];
    rewrite ?Nat.add_succ_r, Nat.add_0_r; do 2 f_equal; lia.
Qed.

Lemma fused_loop_ok blocks f softAes unroll m : forall i fuel, blocks_of 64 blocks -> vectors f -> (m < fuel)%nat ->
  let e := (i + turn_width softAes unroll * m)%nat in (e <= length blocks)%nat ->
  fused_loop fuel softAes unroll (64 * Z.of_nat e) (midway blocks f i i (64 * Z.of_nat i)) = Some (midway blocks f e e (64 * Z.of_nat e)).
Proof using HR.
  assert (Hw : (0 < turn_width softAes unroll)%nat) by (unfold turn_width; repeat destruct (_ =? _); lia).
  induction m as [|m IH]; intros i [|fuel] Hb Hf Hm e He; try lia; subst e.
  - rewrite Nat.mul_0_r, Nat.add_0_r. cbn [fused_loop midway scratchpadPtr]. rewrite Z.ltb_irrefl. reflexivity.
  - cbn [fused_loop]. unfold midway at 1. cbn [scratchpadPtr]. rewrite (proj2 (Z.ltb_lt _ _)) by lia.
    rewrite fused_turn_ok by (assumption || lia). cbn [mbind option_bind].
    replace (i + turn_width softAes unroll * S m)%nat with (i + turn_width softAes unroll + turn_width softAes unroll * m)%nat by lia.
    apply IH; (assumption || lia).
Qed.
End Loops.
