(* ===== verification/AesSpec.v ===== *)
(** * AES, the scratchpad and the programs of RandomX: the properties *)

From S2P Require Import Prelude.
From S2P Require Import CInt.
From S2P Require Import Bytes.
From S2P Require Import Job.
From S2P Require Import Nonce.
From S2P Require Import Blocks.
From S2P Require Import Aes.
From S2P Require Import SoftAes.
From S2P Require Import SoftAesOk.
From S2P Require Import AesHash.
From S2P Require Import AesHashOk.

(** ** The fused pass *)

Lemma fused_pass_ok R (HR : AesRoundsOk R) softAes unroll q blocks state :
  blocks_of 64 blocks -> length blocks = (turn_width softAes unroll * q)%nat -> bytes_of 64 state ->
  let n := length blocks in let f := lanes_of state in
  hashAndFillAes1Rx4 softAes unroll (concat blocks) (64 * Z.of_nat n) state =
    Some (spec_hash blocks, concat (spec_stream f n), bytes_of_lanes (spec_state f n)).
Proof.
  intros Hb Hq Hs n f. pose proof (lanes_of_vectors state Hs) as Hf. unfold hashAndFillAes1Rx4. rewrite turns_for_blocks.
  rewrite (load_lanes_at [] state []) by (rewrite ?app_nil_r; auto). cbn [mbind option_bind]. fold f.
  assert (Hw : (turn_width softAes unroll = 1 \/ turn_width softAes unroll = 2 \/ turn_width softAes unroll = 4)%nat)
    by (unfold turn_width; repeat destruct (_ =? _); auto).
  change (Fused (concat blocks) 0 hash_start f) with (midway blocks f 0 0 (64 * Z.of_nat 0)).
  assert (E1 : exists q0, (q0 <= q)%nat /\ let e := (turn_width softAes unroll * q0)%nat in
    fused_loop (S n) softAes unroll (64 * Z.of_nat n - PREFETCH_DISTANCE) (midway blocks f 0 0 (64 * Z.of_nat 0)) = Some (midway blocks f e e (64 * Z.of_nat e))).
  { unfold PREFETCH_DISTANCE. destruct (Nat.le_gt_cases n 112) as [Hn|Hn].
    - exists 0%nat. split; [lia|]. rewrite Nat.mul_0_r. cbn [fused_loop midway scratchpadPtr].
      rewrite (proj2 (Z.ltb_ge _ _)) by lia. reflexivity.
    - assert (Hq0 : exists q0, (turn_width softAes unroll * q0 = n - 112)%nat /\ (q0 <= q)%nat).
      { subst n. rewrite Hq in *. destruct Hw as [-> | [-> | ->]]; [exists (q - 112)%nat | exists (q - 56)%nat | exists (q - 28)%nat]; lia. }
      destruct Hq0 as (q0 & Eq & Hq0). exists q0. split; [exact Hq0|]. cbv zeta. rewrite Eq.
      replace (64 * Z.of_nat n - 7168) with (64 * Z.of_nat (n - 112)) by lia.
      pose proof (fused_loop_ok R HR blocks f softAes unroll q0 0 (S n) Hb Hf) as E. cbv zeta in E. rewrite Nat.add_0_l, Eq in E.
      apply E; subst n; [destruct Hw as [W | [W | W]]; rewrite W in *; lia | lia]. }
  destruct E1 as (q0 & Hq0 & ->). cbn [mbind option_bind].
  set (e := (turn_width softAes unroll * q0)%nat).
  assert (E2 : fused_loop (S n) softAes unroll (64 * Z.of_nat n) (midway blocks f e e (64 * Z.of_nat e)) = Some (midway blocks f n n (64 * Z.of_nat n))).
  { pose proof (fused_loop_ok R HR blocks f softAes unroll (q - q0) e (S n) Hb Hf) as E. cbv zeta in E.
    replace (e + turn_width softAes unroll * (q - q0))%nat with n in E by (subst e n; rewrite Hq; destruct Hw as [-> | [-> | ->]]; lia).
    apply E; subst n; [destruct Hw as [W | [W | W]]; rewrite W in *; lia | lia]. }
  rewrite E2. cbn [mbind option_bind fill_state hash_state scratchpad midway].
  rewrite (store_lanes_at [] state []) by (rewrite ?app_nil_r; auto using state_vectors). cbn [mbind option_bind app].
  rewrite (take_ge blocks n), (drop_ge blocks n) by (subst n; lia).
  rewrite (hash_finish_ok R HR blocks Hb). cbn [mbind option_bind concat]. rewrite !app_nil_r. reflexivity.
Qed.

(** ** The choice of an instance *)

Lemma selected_instance {speed} faster (zero : speed) measured : (SelectSoftAESImpl faster zero measured < length impl)%nat.
Proof.
  unfold SelectSoftAESImpl. change (length impl) with 4%nat. cbn [seq foldl].
  repeat match goal with |- context [if faster ?a ?b then _ else _] => destruct (faster a b) end; cbn [fst]; lia.
Qed.

Lemma instance_rounds_ok T softAes : tables_ok T -> AesRoundsOk (instance_rounds T softAes).
Proof. intros HT. unfold instance_rounds. destruct (softAes =? 1); [apply soft_1_ok | apply soft_2_ok]; exact HT. Qed.

Lemma initialized T : SAESInitializer = Some T -> tables_ok T.
Proof. intros E. destruct initializer_ok as (T' & E' & HT). rewrite E in E'. injection E' as ->. exact HT. Qed.

Lemma hardware_ok enc dec : (forall s k, bytes_of 16 s -> bytes_of 16 k -> enc s k = AESENC s k /\ dec s k = AESDEC s k) -> AesRoundsOk (hardware enc dec).
Proof. intros H. split; intros s k Hs Hk; destruct (H s k Hs Hk) as [E E'];
    [exact (f_equal Some E) | exact (f_equal Some E')]. Qed.

(** ** The programs *)

(** A round of TRANSFORM, and the whole of it. *)
Definition spec_transform_round (st : lanes) (k : rx_vec_i128 * rx_vec_i128) : lanes :=
  Lanes (AESDEC (state0 st) (fst k)) (AESENC (state1 st) (fst k)) (AESDEC (state2 st) (snd k)) (AESENC (state3 st) (snd k)).
Definition spec_transform (keys : list rx_vec_i128) (st : lanes) : lanes := foldl spec_transform_round st (zip (take 4 keys) (drop 4 keys)).

(** Of the eight bytes of an instruction, those of the registers are reduced to
    three bits. *)
Definition spec_mask (block : list Z) : list Z :=
  imap (fun i b => if decide (i mod 8 = 1 \/ i mod 8 = 2)%nat then b mod 8 else b) block.

Fixpoint spec_instructions (keys : list rx_vec_i128) (st : lanes) (n : nat) : list (list Z) :=
  match n with
  | O => []
  | S n => let st := spec_transform keys st in spec_mask (bytes_of_lanes st) :: spec_instructions keys st n
  end.

(** The entropy, which is not masked, and [n] times eight instructions. *)
Definition spec_program (keys : list rx_vec_i128) (f : lanes) (n : nat) : list Z :=
  let f1 := spec_transform keys f in
  let f2 := spec_transform keys f1 in
  bytes_of_lanes f1 ++ bytes_of_lanes f2 ++ concat (spec_instructions keys f2 n).

Definition keys_ok (keys : list rx_vec_i128) : Prop := length keys = 8%nat /\ Forall (bytes_of 16) keys.

Lemma round_vectors st k : vectors st -> bytes_of 16 (fst k) -> bytes_of 16 (snd k) -> vectors (spec_transform_round st k).
Proof.
  intros (? & ? & ? & ?) ? ?. unfold vectors, spec_transform_round. cbn [state0 state1 state2 state3].
  split; [apply AESDEC_bytes; assumption|]. split; [apply AESENC_bytes; assumption|].
  split; [apply AESDEC_bytes | apply AESENC_bytes]; assumption.
Qed.

Lemma TRANSFORM_ok R (HR : AesRoundsOk R) keys st : keys_ok keys -> vectors st ->
  TRANSFORM keys st = Some (spec_transform keys st) /\ vectors (spec_transform keys st).
Proof.
  intros [Hl Hk] Hst. do 8 (destruct keys as [|? keys]; [discriminate Hl|]). destruct keys; [clear Hl | discriminate Hl].
  repeat (let H := fresh "K" in apply Forall_cons in Hk as [H Hk]).
  assert (E : forall st k k', vectors st -> bytes_of 16 k -> bytes_of 16 k' ->
    transform_round st k k' = Some (spec_transform_round st (k, k')) /\ vectors (spec_transform_round st (k, k'))).
  { intros s k k' Hs Hk1 Hk2. split; [|apply round_vectors; assumption]. destruct Hs as (? & ? & ? & ?). unfold transform_round.
    rewrite (aesdec_ok (state0 s)), (aesenc_ok (state1 s)), (aesdec_ok (state2 s)), (aesenc_ok (state3 s)) by assumption. reflexivity. }
  unfold TRANSFORM, spec_transform. cbn [lookup list_lookup mbind option_bind take drop zip zip_with foldl].
  edestruct E as [-> V1]; [exact Hst | eassumption | eassumption |]. cbn [mbind option_bind].
  edestruct E as [-> V2]; [exact V1 | eassumption | eassumption |]. cbn [mbind option_bind].
  edestruct E as [-> V3]; [exact V2 | eassumption | eassumption |]. cbn [mbind option_bind].
  apply E; assumption.
Qed.

(** ** The mask *)

Lemma byte_mask b : is_byte b -> Z.land b 255 = b /\ Z.land b 7 = b mod 8.
Proof.
  intros Hb. unfold is_byte in Hb. change 255 with (Z.ones 8). change 7 with (Z.ones 3). rewrite !Z.land_ones by lia.
  split; [apply Z.mod_small; exact Hb | reflexivity].
Qed.

Lemma mod8_byte x : is_byte (x mod 8).
Proof. pose proof (Z.mod_pos_bound x 8). unfold is_byte. lia. Qed.

Lemma masked_word a b c d e f g h : let w := [a; b; c; d; e; f; g; h] in is_bytes w ->
  le_bytes 8 (Z.land (le_val w) (le_val inst)) = [a; b mod 8; c mod 8; d; e; f; g; h].
Proof.
  intros w H. assert (Hi : is_bytes inst) by (apply (bytes_of_closed 8); eval_closed).
  rewrite le_val_land by (assumption || reflexivity). subst w.
  repeat (let Hb := fresh "Hb" in apply Forall_cons in H as [Hb H]).
  change inst with [255; 7; 7; 255; 255; 255; 255; 255]. cbn [zip_with].
  rewrite (proj1 (byte_mask a Hb)), (proj2 (byte_mask b Hb0)), (proj2 (byte_mask c Hb1)), (proj1 (byte_mask d Hb2)), (proj1 (byte_mask e Hb3)),
    (proj1 (byte_mask f Hb4)), (proj1 (byte_mask g Hb5)), (proj1 (byte_mask h Hb6)).
  pose proof mod8_byte. apply (le_bytes_le_val [_; _; _; _; _; _; _; _]). bytes_tac.
Qed.

Lemma masked_vec v : bytes_of 16 v -> rx_and_vec_i128 v inst_mask = spec_mask v.
Proof.
  intros H. vec_bytes v H. unfold rx_and_vec_i128, of_u64, vec_u64. cbn [map concat Nat.mul Nat.add take drop].
  change (le_val (take 8 inst_mask)) with (le_val inst). change (le_val (take 8 (drop 8 inst_mask))) with (le_val inst).
  rewrite !masked_word by bytes_tac. reflexivity.
Qed.

Lemma mask_app a b : (length a mod 8 = 0)%nat -> spec_mask (a ++ b) = spec_mask a ++ spec_mask b.
Proof.
  intros Ha. unfold spec_mask. rewrite imap_app. f_equal. apply imap_ext. intros i x _. unfold compose.
  assert (E : ((length a + i) mod 8 = i mod 8)%nat) by (rewrite Nat.Div0.add_mod, Ha, Nat.add_0_l, Nat.Div0.mod_mod; reflexivity).
  rewrite E. reflexivity.
Qed.

Lemma mask_bytes b : is_bytes b -> is_bytes (spec_mask b).
Proof.
  intros Hb. apply Forall_lookup_2. intros i x Hx. unfold spec_mask in Hx. rewrite list_lookup_imap in Hx.
  destruct (b !! i) as [y|] eqn:E; [|discriminate]. injection Hx as <-. pose proof (Forall_lookup_1 _ _ _ _ Hb E) as Hy.
  destruct (decide _); [apply mod8_byte | exact Hy].
Qed.

Lemma mask_lanes_ok st : vectors st -> vectors (mask_lanes st) /\ bytes_of_lanes (mask_lanes st) = spec_mask (bytes_of_lanes st).
Proof.
  intros (H0 & H1 & H2 & H3). unfold mask_lanes, vectors, bytes_of_lanes. cbn [state0 state1 state2 state3].
  rewrite !masked_vec by assumption. split.
  - assert (M : forall v, bytes_of 16 v -> bytes_of 16 (spec_mask v)).
    { intros v [Hv Hl]. split; [apply mask_bytes, Hv | unfold spec_mask; rewrite length_imap; exact Hl]. }
    split_and!; apply M; assumption.
  - destruct H0 as [_ E0], H1 as [_ E1], H2 as [_ E2]. rewrite !mask_app; rewrite ?E0, ?E1, ?E2; reflexivity.
Qed.

Lemma instructions_loop_ok R (HR : AesRoundsOk R) keys todo : forall done tail fuel st, keys_ok keys -> vectors st ->
  blocks_of 64 done -> blocks_of 64 todo -> (length todo < fuel)%nat ->
  instructions_loop fuel keys (concat done ++ concat todo ++ tail) (64 * Z.of_nat (length done)) (64 * Z.of_nat (length done + length todo)) st =
  Some (concat done ++ concat (spec_instructions keys st (length todo)) ++ tail).
Proof.
  induction todo as [|b todo IH]; intros done tail [|fuel] st Hk Hst Hd Hb Hl; cbn [length] in Hl; try lia.
  - cbn [instructions_loop length concat spec_instructions]. rewrite Nat.add_0_r, Z.ltb_irrefl. reflexivity.
  - cbn [instructions_loop concat length spec_instructions]. rewrite (proj2 (Z.ltb_lt _ _)) by lia. apply Forall_cons in Hb as [Hbb Hb].
    destruct (TRANSFORM_ok R HR keys st Hk Hst) as [-> Hv]. cbn [mbind option_bind].
    destruct (mask_lanes_ok (spec_transform keys st) Hv) as [Hm Em].
    rewrite (store_lanes_at (concat done) b (concat todo ++ tail)); [| rewrite <- app_assoc; reflexivity
      | rewrite (blocks_length 64 _ Hd); lia | exact Hbb | exact Hm].
    cbn [mbind option_bind]. rewrite Em. pose proof (bytes_of_lanes_ok _ Hm) as Hmb. rewrite Em in Hmb.
    specialize (IH (done ++ [spec_mask (bytes_of_lanes (spec_transform keys st))]) tail fuel (spec_transform keys st) Hk Hv).
    rewrite concat_app, length_app in IH. cbn [concat length] in IH. rewrite app_nil_r, <- !app_assoc in IH.
    replace (64 * Z.of_nat (length done) + 64) with (64 * Z.of_nat (length done + 1)) by lia.
    replace (length done + S (length todo))%nat with (length done + 1 + length todo)%nat by lia. rewrite <- app_assoc.
    apply IH; [apply Forall_app; split; [exact Hd | constructor; [exact Hmb | constructor]] | exact Hb | lia].
Qed.

Lemma fillAes4Rx4_ok R (HR : AesRoundsOk R) keys state b1 b2 blocks tail : keys_ok keys -> bytes_of 64 state ->
  blocks_of 64 (b1 :: b2 :: blocks) ->
  fillAes4Rx4 keys state (128 + 64 * Z.of_nat (length blocks)) (concat (b1 :: b2 :: blocks) ++ tail) =
  Some (spec_program keys (lanes_of state) (length blocks) ++ tail).
Proof.
  intros Hk Hs Hb. pose proof (lanes_of_vectors state Hs) as Hf. apply Forall_cons in Hb as [Hb1 Hb]. apply Forall_cons in Hb as [Hb2 Hb].
  unfold fillAes4Rx4, spec_program. rewrite (load_lanes_at [] state []) by (rewrite ?app_nil_r; auto). cbn [mbind option_bind concat].
  destruct (TRANSFORM_ok R HR keys (lanes_of state) Hk Hf) as [-> V1]. cbn [mbind option_bind].
  rewrite (store_lanes_at [] b1 (b2 ++ concat blocks ++ tail)); [| rewrite <- !app_assoc; reflexivity | reflexivity | exact Hb1 | exact V1].
  cbn [mbind option_bind app]. destruct (TRANSFORM_ok R HR keys _ Hk V1) as [-> V2]. cbn [mbind option_bind].
  set (f1 := spec_transform keys (lanes_of state)) in *. set (f2 := spec_transform keys f1) in *.
  pose proof (bytes_of_lanes_ok f1 V1) as [B1 L1]. pose proof (bytes_of_lanes_ok f2 V2) as [B2 L2].
  rewrite (store_lanes_at (bytes_of_lanes f1) b2 (concat blocks ++ tail)); [| reflexivity | rewrite L1; reflexivity | exact Hb2 | exact V2].
  cbn [mbind option_bind].
  pose proof (instructions_loop_ok R HR keys blocks [bytes_of_lanes f1; bytes_of_lanes f2] tail (turns_for (128 + 64 * Z.of_nat (length blocks))) f2 Hk V2) as E.
  cbn [concat length] in E. rewrite app_nil_r, <- !app_assoc in E. replace (64 * Z.of_nat (2 + length blocks)) with (128 + 64 * Z.of_nat (length blocks)) in E by lia.
  change (64 * Z.of_nat 2) with 128 in E. rewrite <- !app_assoc. apply E.
  - repeat constructor; assumption.
  - exact Hb.
  - replace (128 + 64 * Z.of_nat (length blocks)) with (64 * Z.of_nat (2 + length blocks)) by lia. rewrite turns_for_blocks. lia.
Qed.

(** ** Registers *)

Definition reference_rounds : AesRounds := hardware AESENC AESDEC.

#[export] Instance reference_rounds_ok : AesRoundsOk reference_rounds.
Proof. apply hardware_ok. auto. Qed.

Lemma transform_vectors keys st : keys_ok keys -> vectors st -> vectors (spec_transform keys st).
Proof. intros Hk Hst. apply (TRANSFORM_ok reference_rounds _ keys st Hk Hst). Qed.

Lemma masked_block st : vectors st -> bytes_of 64 (spec_mask (bytes_of_lanes st)).
Proof. intros Hst. destruct (mask_lanes_ok st Hst) as [Hm <-]. apply bytes_of_lanes_ok, Hm. Qed.

Lemma instructions_bytes keys n : forall st, keys_ok keys -> vectors st -> bytes_of (64 * n) (concat (spec_instructions keys st n)).
Proof.
  induction n as [|n IH]; intros st Hk Hst; [split; [constructor | reflexivity]|]. cbn [spec_instructions concat].
  pose proof (transform_vectors keys st Hk Hst) as Hv. destruct (IH _ Hk Hv) as [B L], (masked_block _ Hv) as [B' L'].
  split; [apply Forall_app; auto | rewrite length_app; lia].
Qed.

Lemma instruction_registers keys n : forall st j, keys_ok keys -> vectors st -> (j < 64 * n)%nat -> (j mod 8 = 1 \/ j mod 8 = 2)%nat ->
  exists x, concat (spec_instructions keys st n) !! j = Some x /\ 0 <= x < 8.
Proof.
  induction n as [|n IH]; intros st j Hk Hst Hj Hm; [lia|]. cbn [spec_instructions concat].
  pose proof (transform_vectors keys st Hk Hst) as Hv. destruct (masked_block _ Hv) as [B L]. destruct (Nat.lt_ge_cases j 64) as [H|H].
  - rewrite lookup_app_l by lia. unfold spec_mask. rewrite list_lookup_imap.
    destruct (lookup_lt_is_Some_2 (bytes_of_lanes (spec_transform keys st)) j) as [y ->]; [rewrite (proj2 (bytes_of_lanes_ok _ Hv)); exact H|].
    eexists. split; [reflexivity|]. rewrite decide_True by exact Hm. apply Z.mod_pos_bound. lia.
  - rewrite lookup_app_r, L by lia. apply IH; [exact Hk | exact Hv | lia|].
    replace j with (j - 64 + 8 * 8)%nat in Hm by lia. rewrite Nat.Div0.mod_add in Hm. exact Hm.
Qed.

Lemma config_keys_ok : keys_ok base_keys /\ keys_ok wownero_keys.
Proof. split; (split; [reflexivity|]); apply (bool_decide_unpack _); vm_compute; exact I. Qed.

(** ** The properties *)

(** C18: the tables made at the start exist, and every software implementation of
    an AES round or of a step of the key schedule - both template instances of
    RandomX, both overloads of CryptoNight - computes the transformation of FIPS
    197, for all states and keys, and reads only inside its tables. *)
Theorem soft_aes_rounds_correct in_ key rcon : bytes_of 16 in_ -> bytes_of 16 key -> is_byte rcon ->
  exists T, SAESInitializer = Some T /\
    aesenc_1 T in_ key = Some (AESENC in_ key) /\ aesenc_2 T in_ key = Some (AESENC in_ key) /\
    aesdec_1 T in_ key = Some (AESDEC in_ key) /\ aesdec_2 T in_ key = Some (AESDEC in_ key) /\
    soft_aesenc in_ key = Some (AESENC in_ key) /\
    soft_aesenc_words (map (vec_u32 in_) (seq 0 4)) key = Some (AESENC in_ key) /\
    soft_aeskeygenassist rcon key = Some (AESKEYGENASSIST key rcon).
Proof.
  intros Hin Hkey Hr. destruct initializer_ok as (T & HT & Ok). exists T. split; [exact HT|].
  split_and!; [apply aesenc_1_ok | apply aesenc_2_ok | apply aesdec_1_ok | apply aesdec_2_ok | apply soft_aesenc_ok
    | apply soft_aesenc_words_ok | apply soft_aeskeygenassist_ok]; assumption.
Qed.

(** C19: whatever rounds are used, with any template arguments, the fused pass over
    a scratchpad returns the hash of its old contents by hashAes1Rx4 and leaves in
    it and in the state what fillAes1Rx4 makes, although each block is overwritten
    as soon as it is hashed; so does the implementation SelectSoftAESImpl chooses,
    whatever speeds it measures.  Hash and stream are the four lanes of AES
    rounds over the blocks. *)
Theorem hash_and_fill_correct R softAes unroll q pad state {speed} (faster : speed -> speed -> bool) zero measured :
  AesRoundsOk R -> bytes_of (64 * (4 * q)) pad -> bytes_of 64 state ->
  let n := (4 * q)%nat in let size := 64 * Z.of_nat n in let f := lanes_of state in
  exists hash state' pad',
    hashAes1Rx4 pad size = Some hash /\ fillAes1Rx4 state size pad = Some (state', pad') /\
    hashAndFillAes1Rx4 softAes unroll pad size state = Some (hash, pad', state') /\
    (exists T i, SAESInitializer = Some T /\ impl !! SelectSoftAESImpl faster zero measured = Some i /\
      implementation T i pad size state = Some (hash, pad', state')) /\
    hash = spec_hash (chunks 64 n pad) /\ pad' = concat (spec_stream f n) /\ state' = bytes_of_lanes (spec_state f n).
Proof.
  intros HR [Hp Hl] Hs n size f. set (blocks := chunks 64 n pad).
  assert (Hb : blocks_of 64 blocks) by (apply chunks_blocks; [exact Hp | subst n; lia]).
  assert (Hn : length blocks = n) by apply chunks_length.
  assert (E : pad = concat blocks) by (subst blocks; rewrite concat_chunks, take_ge by (subst n; lia); reflexivity).
  assert (Hq : forall s u, exists q', length blocks = (turn_width s u * q')%nat).
  { intros s u. rewrite Hn. subst n. unfold turn_width. repeat destruct (_ =? _); [exists (2 * q)%nat | exists q | exists (2 * q)%nat | exists (4 * q)%nat]; lia. }
  exists (spec_hash blocks), (bytes_of_lanes (spec_state f n)), (concat (spec_stream f n)).
  subst size. rewrite <- Hn, E. split; [apply hashAes1Rx4_ok; assumption|].
  split; [rewrite <- (app_nil_r (concat blocks)), (fillAes1Rx4_ok R HR state blocks [] Hs Hb), app_nil_r; reflexivity|].
  split; [destruct (Hq softAes unroll) as [q' Hq']; apply (fused_pass_ok R HR softAes unroll q' blocks state Hb Hq' Hs)|].
  split; [|auto]. destruct initializer_ok as (T & HT & Ok). exists T.
  destruct (lookup_lt_is_Some_2 _ _ (selected_instance faster zero measured)) as [i Hi]. exists i.
  split; [exact HT|]. split; [exact Hi|]. destruct (Hq (fst i) (snd i)) as [q' Hq'].
  apply (fused_pass_ok (instance_rounds T (fst i)) (instance_rounds_ok T (fst i) Ok) (fst i) (snd i) q' blocks state Hb Hq' Hs).
Qed.

(** C20: fillAes4Rx4 turns a state into a program: 128 bytes of entropy and then
    instructions, all made of four lanes of four AES rounds, and nothing after them
    is touched; the destination and the source of every instruction are registers
    below 8. *)
Theorem fillAes4Rx4_correct R keys state n buffer tail :
  AesRoundsOk R -> keys_ok keys -> bytes_of 64 state -> bytes_of (128 + 64 * n) buffer ->
  let program := spec_program keys (lanes_of state) n in
  fillAes4Rx4 keys state (128 + 64 * Z.of_nat n) (buffer ++ tail) = Some (program ++ tail) /\
  bytes_of (128 + 64 * n) program /\
  forall i, (i < 8 * n)%nat -> exists dst src, program !! (128 + 8 * i + 1)%nat = Some dst /\
    program !! (128 + 8 * i + 2)%nat = Some src /\ 0 <= dst < 8 /\ 0 <= src < 8.
Proof.
  intros HR Hk Hs [Hb Hl] program. pose proof (lanes_of_vectors state Hs) as Hf.
  pose proof (transform_vectors _ _ Hk Hf) as V1. pose proof (transform_vectors _ _ Hk V1) as V2.
  destruct (bytes_of_lanes_ok _ V1) as [B1 L1], (bytes_of_lanes_ok _ V2) as [B2 L2].
  destruct (instructions_bytes keys n _ Hk V2) as [B3 L3]. split; [|split].
  - assert (Hc : blocks_of 64 (chunks 64 (2 + n) buffer)) by (apply chunks_blocks; [exact Hb | lia]).
    assert (E : buffer = concat (chunks 64 (2 + n) buffer)) by (rewrite concat_chunks, take_ge by lia; reflexivity).
    rewrite E. cbn [chunks Nat.add] in Hc |- *.
    rewrite <- (chunks_length 64 n (drop 64 (drop 64 buffer))) at 1. rewrite (fillAes4Rx4_ok R HR keys state _ _ _ tail Hk Hs Hc), chunks_length. reflexivity.
  - split; [do 2 (apply Forall_app; split; [assumption|]); assumption | unfold program, spec_program; rewrite !length_app, L1, L2, L3; lia].
  - intros i Hi. destruct (instruction_registers keys n _ (8 * i + 1) Hk V2) as (x & Ex & Hx); [lia | left; rewrite Nat.add_comm, Nat.mul_comm, Nat.Div0.mod_add; reflexivity|].
    destruct (instruction_registers keys n _ (8 * i + 2) Hk V2) as (y & Ey & Hy); [lia | right; rewrite Nat.add_comm, Nat.mul_comm, Nat.Div0.mod_add; reflexivity|].
    exists x, y. unfold program, spec_program. rewrite !(lookup_app_r (bytes_of_lanes _)) by lia. rewrite L1, L2.
    replace (128 + 8 * i + 1 - 64 - 64)%nat with (8 * i + 1)%nat by lia. replace (128 + 8 * i + 2 - 64 - 64)%nat with (8 * i + 2)%nat by lia. auto.
Qed.

(** ** The hypotheses can hold *)

Lemma soft_aes_rounds_correct_witness :
  bytes_of 16 (repeat 7 16) /\ exists T, SAESInitializer = Some T /\ aesenc_1 T (repeat 7 16) (repeat 255 16) = Some (AESENC (repeat 7 16) (repeat 255 16)).
Proof.
  assert (H : forall b, is_byte b -> bytes_of 16 (repeat b 16)) by (intros b Hb; split; [repeat constructor; apply Hb | reflexivity]).
  split; [apply H; split; lia|].
  destruct (soft_aes_rounds_correct (repeat 7 16) (repeat 255 16) 1) as (T & HT & E & _);
    [apply H; split; lia | apply H; split; lia | split; lia | exists T; split; assumption].
Defined.

Lemma hash_and_fill_correct_witness :
  exists hash, hashAes1Rx4 (H := reference_rounds) (repeat 0 256) 256 = Some hash /\
    exists state' pad', hashAndFillAes1Rx4 (H := reference_rounds) 0 2 (repeat 0 256) 256 (repeat 1 64) = Some (hash, pad', state').
Proof.
  destruct (hash_and_fill_correct reference_rounds 0 2 1 (repeat 0 256) (repeat 1 64) Z.ltb 0 (fun _ _ => 5)) as (hash & state' & pad' & E1 & _ & E2 & _).
  - exact reference_rounds_ok.
  - apply (bool_decide_unpack _). vm_compute. exact I.
  - apply (bool_decide_unpack _). vm_compute. exact I.
  - exists hash. split; [exact E1|]. exists state', pad'. exact E2.
Defined.

Lemma fillAes4Rx4_correct_witness :
  fillAes4Rx4 (H := reference_rounds) base_keys (repeat 3 64) 192 (repeat 0 192) = Some (spec_program base_keys (lanes_of (repeat 3 64)) 1 ++ []).
Proof.
  apply (fillAes4Rx4_correct reference_rounds base_keys (repeat 3 64) 1 (repeat 0 192) []).
  - exact reference_rounds_ok.
  - exact (proj1 config_keys_ok).
  - apply (bool_decide_unpack _). vm_compute. exact I.
  - apply (bool_decide_unpack _). vm_compute. exact I.
Defined.
