(* ===== verification/GroestlSpec.v ===== *)
(** * Groestl-256: the specification and the hash

    The permutations and the compression function of the specification, on states
    of 64 bytes, and the rounds on words against them; the padding of a message
    and the digest. *)

From S2P Require Import Prelude.
From S2P Require Import CInt.
From S2P Require Import Bytes.
From S2P Require Import Blocks.
From S2P Require Import WordMatrix.
From S2P Require Import Aes.
From S2P Require Import SoftAes.
From S2P Require Import SoftAesOk.
From S2P Require Import Job.
From S2P Require Import Nonce.
From S2P Require Import Groestl.

(** ** The specification: states

    Byte [k] is in row [k mod 8] and column [k / 8]. *)

Definition constants_P (i : Z) : list Z :=
  map (fun k => if decide (k mod 8 = 0)%nat then Z.lxor (16 * Z.of_nat (k / 8)) i else 0) (seq 0 64).
Definition constants_Q (i : Z) : list Z :=
  map (fun k => if decide (k mod 8 = 7)%nat then Z.lxor 255 (Z.lxor (16 * Z.of_nat (k / 8)) i) else 255) (seq 0 64).

Definition AddRoundConstant (st c : list Z) : list Z := zip_with Z.lxor st c.

(** Row [i] moves by [sigma i] columns to the left. *)
Definition ShiftBytes (sigma : list nat) (st : list Z) : list Z :=
  map (fun k => st !!! (k mod 8 + 8 * ((k / 8 + sigma !!! (k mod 8)) mod 8))%nat) (seq 0 64).

Definition sigma_P : list nat := [0; 1; 2; 3; 4; 5; 6; 7]%nat.
Definition sigma_Q : list nat := [1; 3; 5; 7; 0; 2; 4; 6]%nat.

(** The circulant matrix of this first row times a column. *)
Definition matrix_row : list Z := [2; 2; 3; 4; 5; 3; 5; 7].
Definition mix_bytes_column (col : list Z) : list Z :=
  map (fun i => fold_left Z.lxor (map (fun j => gf_mul (matrix_row !!! ((j + 8 - i) mod 8)%nat) (col !!! j)) [1; 2; 3; 4; 5; 6; 7]%nat)
    (gf_mul (matrix_row !!! ((8 - i) mod 8)%nat) (col !!! 0%nat))) (seq 0 8).

Definition MixBytes (st : list Z) : list Z := concat (map (fun c => mix_bytes_column (take 8 (drop (8 * c) st))) (seq 0 8)).

Definition round_P (st : list Z) (i : Z) : list Z := MixBytes (ShiftBytes sigma_P (SubBytes (AddRoundConstant st (constants_P i)))).
Definition round_Q (st : list Z) (i : Z) : list Z := MixBytes (ShiftBytes sigma_Q (SubBytes (AddRoundConstant st (constants_Q i)))).

Definition rounds : list Z := [0; 1; 2; 3; 4; 5; 6; 7; 8; 9].
Definition perm_P (st : list Z) : list Z := foldl round_P st rounds.
Definition perm_Q (st : list Z) : list Z := foldl round_Q st rounds.

Definition spec_f (h m : list Z) : list Z :=
  zip_with Z.lxor h (zip_with Z.lxor (perm_P (zip_with Z.lxor h m)) (perm_Q m)).
Definition spec_output (h : list Z) : list Z := zip_with Z.lxor h (perm_P h).

(** ** Words and bytes *)

Definition words_of (s : list Z) : list Z := map (fun i => le_val (take 4 (drop (4 * i) s))) (seq 0 16).

Lemma le_byte s k b : is_bytes s -> s !! k = Some b -> Z.land (Z.shiftr (le_val s) (8 * Z.of_nat k)) 0xff = b.
Proof.
  intros Hs Hk. change 0xff with (Z.ones 8). rewrite Z.land_ones, Z.shiftr_div_pow2, <- le_val_drop by (assumption || lia).
  rewrite (drop_S _ _ _ Hk). cbn [le_val]. pose proof (Forall_lookup_1 _ _ _ _ Hs Hk) as Hb. unfold is_byte in Hb.
  change (2 ^ 8) with 256. rewrite Z.mul_comm, Z.mod_add, Z.mod_small by lia. reflexivity.
Qed.

Lemma byte_at_ok s k : bytes_of 64 s -> (k < 64)%nat -> byte_at (words_of s) k = Some (s !!! k).
Proof.
  intros [Hs Hl] Hk. pose proof (Nat.div_mod k 4) as D. pose proof (Nat.mod_upper_bound k 4) as M.
  assert (Hq : (k / 4 < 16)%nat) by lia. unfold byte_at, words_of. rewrite list_lookup_fmap, lookup_seq_lt by exact Hq.
  cbn [fmap option_fmap option_map mbind option_bind]. f_equal. apply le_byte; [apply Forall_take, Forall_drop, Hs|].
  rewrite lookup_take_lt, lookup_drop by lia. replace (4 * (0 + k / 4) + k mod 4)%nat with k by lia.
  apply list_lookup_lookup_total_lt. lia.
Qed.

Lemma words_of_lxor s t : bytes_of 64 s -> bytes_of 64 t -> words_of (zip_with Z.lxor s t) = zip_with Z.lxor (words_of s) (words_of t).
Proof.
  intros [Hs Ls] [Ht Lt]. unfold words_of.
  assert (E : forall n k, (4 * (k + n) <= 64)%nat ->
    map (fun i => le_val (take 4 (drop (4 * i) (zip_with Z.lxor s t)))) (seq k n) =
    zip_with Z.lxor (map (fun i => le_val (take 4 (drop (4 * i) s))) (seq k n)) (map (fun i => le_val (take 4 (drop (4 * i) t))) (seq k n))).
  { induction n as [|n IH]; intros k Hk; [reflexivity|]. cbn [seq map zip_with]. rewrite IH by lia. f_equal.
    rewrite le_val_lxor; [| apply Forall_take, Forall_drop, Hs | apply Forall_take, Forall_drop, Ht | rewrite !length_take, !length_drop, Ls, Lt; reflexivity].
    rewrite zip_with_drop, zip_with_take. reflexivity. }
  apply E. lia.
Qed.

(** ** The table *)

Definition matrix_col (j : nat) (x : Z) : list Z := map (fun i => gf_mul (matrix_row !!! ((j + 8 - i) mod 8)%nat) x) (seq 0 8).

Lemma table_ok b : is_byte b -> T !! Z.to_nat (2 * b) = Some (le_val (take 4 (matrix_col 0 (SBox b)))) /\
  T !! Z.to_nat (2 * b + 1) = Some (le_val (drop 4 (matrix_col 0 (SBox b)))) /\ Forall (fun k => bytes_of 8 (matrix_col k (SBox b))) (seq 0 4).
Proof.
  intros Hb. assert (H : (let x := SBox b in bool_decide (T !! Z.to_nat (2 * b) = Some (le_val (take 4 (matrix_col 0 x)))) &&
    (bool_decide (T !! Z.to_nat (2 * b + 1) = Some (le_val (drop 4 (matrix_col 0 x)))) && bool_decide (Forall (fun k => bytes_of 8 (matrix_col k x)) (seq 0 4)))) = true).
  { revert b Hb. apply every_byte. eval_closed. }
  cbv zeta in H. apply andb_true_iff in H as [H1 H]. apply andb_true_iff in H as [H2 H3].
  apply bool_decide_eq_true in H1, H2, H3. auto.
Qed.

(** Rotating both words is rotating the eight bytes. *)
Lemma rotate_word a0 a1 a2 a3 a4 a5 a6 a7 n : is_bytes [a0; a1; a2; a3; a4; a5; a6; a7] -> (n < 4)%nat -> (0 < n)%nat ->
  let v := [a0; a1; a2; a3; a4; a5; a6; a7] in
  Z.lor (to_u32 (Z.shiftl (le_val [a0; a1; a2; a3]) (8 * Z.of_nat n))) (Z.shiftr (le_val [a4; a5; a6; a7]) (8 * (4 - Z.of_nat n))) =
  le_val (take 4 (drop (8 - n) v ++ v)).
Proof.
  intros H Hn Hn' v. subst v. repeat (let Hb := fresh in apply Forall_cons in H as [Hb H]; unfold is_byte in Hb).
  rewrite Z.lor_comm, Z.shiftl_mul_pow2, Z.shiftr_div_pow2 by lia. unfold to_u32.
  assert (C : (n = 1 \/ n = 2 \/ n = 3)%nat) by lia. destruct C as [-> | [-> | ->]]; cbn [le_val take drop app Nat.sub].
  - change (2 ^ (8 * Z.of_nat 1)) with 256. change (2 ^ (8 * (4 - Z.of_nat 1))) with 16777216.
    replace ((a4 + 256 * (a5 + 256 * (a6 + 256 * (a7 + 256 * 0)))) / 16777216) with a7 by (apply Z.div_unique with (a4 + 256 * a5 + 65536 * a6); lia).
    replace ((a0 + 256 * (a1 + 256 * (a2 + 256 * (a3 + 256 * 0)))) * 256 mod 4294967296) with (Z.shiftl (a0 + 256 * a1 + 65536 * a2) 8)
      by (rewrite Z.shiftl_mul_pow2 by lia; apply Z.mod_unique with a3; lia).
    rewrite lor_shiftl_add by lia. lia.
  - change (2 ^ (8 * Z.of_nat 2)) with 65536. change (2 ^ (8 * (4 - Z.of_nat 2))) with 65536.
    replace ((a4 + 256 * (a5 + 256 * (a6 + 256 * (a7 + 256 * 0)))) / 65536) with (a6 + 256 * a7) by (apply Z.div_unique with (a4 + 256 * a5); lia).
    replace ((a0 + 256 * (a1 + 256 * (a2 + 256 * (a3 + 256 * 0)))) * 65536 mod 4294967296) with (Z.shiftl (a0 + 256 * a1) 16)
      by (rewrite Z.shiftl_mul_pow2 by lia; apply Z.mod_unique with (a2 + 256 * a3); lia).
    rewrite lor_shiftl_add by lia. lia.
  - change (2 ^ (8 * Z.of_nat 3)) with 16777216. change (2 ^ (8 * (4 - Z.of_nat 3))) with 256.
    replace ((a4 + 256 * (a5 + 256 * (a6 + 256 * (a7 + 256 * 0)))) / 256) with (a5 + 256 * a6 + 65536 * a7) by (apply Z.div_unique with a4; lia).
    replace ((a0 + 256 * (a1 + 256 * (a2 + 256 * (a3 + 256 * 0)))) * 16777216 mod 4294967296) with (Z.shiftl a0 24)
      by (rewrite Z.shiftl_mul_pow2 by lia; apply Z.mod_unique with (a1 + 256 * a2 + 65536 * a3); lia).
    rewrite lor_shiftl_add by lia. lia.
Qed.

Ltac swap_halves B := repeat (let H := fresh in apply Forall_cons in B as [H B]); bytes_tac.

(** An entry, rotated, is a column of the matrix. *)
Lemma table_column_ok s c k : bytes_of 64 s -> (4 * c + k < 64)%nat -> (k < 4)%nat ->
  let m := matrix_col k (SBox (s !!! (4 * c + k)%nat)) in
  table_column (words_of s) c k = Some (le_val (take 4 m), le_val (drop 4 m)) /\ bytes_of 8 m.
Proof.
  intros Hs Hc Hk m. unfold table_column. rewrite byte_at_ok by assumption. cbn [mbind option_bind].
  assert (Hb : is_byte (s !!! (4 * c + k)%nat)).
  { destruct Hs as [Hs Hl]. destruct (lookup_lt_is_Some_2 s (4 * c + k)) as [b E]; [lia|].
    rewrite (list_lookup_total_correct _ _ _ E). revert E. apply Forall_lookup_1, Hs. }
  destruct (table_ok _ Hb) as (-> & -> & HB). cbn [mbind option_bind]. subst m.
  revert HB. generalize (SBox (s !!! (4 * c + k)%nat)). intros x HB.
  assert (B0 : bytes_of 8 (matrix_col 0 x)) by (apply Forall_cons in HB as [? _]; assumption).
  assert (Bk : bytes_of 8 (matrix_col k x)) by (apply (Forall_lookup_1 _ _ k k HB), lookup_seq_lt, Hk).
  split; [|exact Bk]. destruct (decide _) as [->|Hk0]; [reflexivity|]. destruct B0 as [B0 _]. unfold ROTATE_COLUMN_DOWN. f_equal.
  unfold matrix_col in B0 |- *. cbn [map seq take drop] in B0 |- *.
  rewrite !rotate_word by (try assumption; try lia; swap_halves B0).
  assert (C : (k = 1 \/ k = 2 \/ k = 3)%nat) by lia. destruct C as [-> | [-> | ->]]; reflexivity.
Qed.

(** ** A column *)

Lemma matrix_col_next k x : (k < 4)%nat -> matrix_col (k + 4) x = drop 4 (matrix_col k x) ++ take 4 (matrix_col k x).
Proof. intros Hk. assert (C : (k = 0 \/ k = 1 \/ k = 2 \/ k = 3)%nat) by lia. destruct C as [-> | [-> | [-> | ->]]]; reflexivity. Qed.

Lemma mix_bytes_columns x0 x1 x2 x3 x4 x5 x6 x7 : mix_bytes_column [x0; x1; x2; x3; x4; x5; x6; x7] =
  foldl (zip_with Z.lxor) (matrix_col 0 x0) [matrix_col 1 x1; matrix_col 2 x2; matrix_col 3 x3; matrix_col 4 x4; matrix_col 5 x5; matrix_col 6 x6; matrix_col 7 x7].
Proof. reflexivity. Qed.

(** The two halves of a column as words, and what one is xored with. *)
Definition halves (t : list Z) : Z * Z := (le_val (take 4 t), le_val (drop 4 t)).

Lemma halves_lxor s t : bytes_of 8 s -> bytes_of 8 t ->
  Z.lxor (fst (halves s)) (fst (halves t)) = fst (halves (zip_with Z.lxor s t)) /\
  Z.lxor (snd (halves s)) (snd (halves t)) = snd (halves (zip_with Z.lxor s t)).
Proof.
  intros [Hs Ls] [Ht Lt]. unfold halves. cbn [fst snd]. rewrite zip_with_take, zip_with_drop.
  split; apply le_val_lxor; try apply Forall_take; try apply Forall_drop; try assumption; rewrite ?length_take, ?length_drop; lia.
Qed.

Lemma halves_swap k x : (k < 4)%nat -> fst (halves (matrix_col (k + 4) x)) = snd (halves (matrix_col k x)) /\
  snd (halves (matrix_col (k + 4) x)) = fst (halves (matrix_col k x)).
Proof.
  intros Hk. rewrite matrix_col_next by exact Hk. unfold halves. cbn [fst snd].
  rewrite take_app_length', drop_app_length' by reflexivity. auto.
Qed.

Lemma matrix_col_bytes k x : (k < 4)%nat -> bytes_of 8 (matrix_col k x) -> bytes_of 8 (matrix_col (k + 4) x).
Proof.
  intros Hk [Hb Hl]. rewrite matrix_col_next by exact Hk. split; [apply Forall_app; split; [apply Forall_drop | apply Forall_take]; exact Hb|].
  rewrite length_app, length_take, length_drop. lia.
Qed.

(** Bytes [4 c_k + (k mod 4)] of the state. *)
Definition picked (s : list Z) (c : list nat) : list Z := zip_with (fun c k => s !!! (4 * c + k)%nat) c [0; 1; 2; 3; 0; 1; 2; 3]%nat.

Lemma COLUMN_ok s c0 c1 c2 c3 c4 c5 c6 c7 : bytes_of 64 s -> let c := [c0; c1; c2; c3; c4; c5; c6; c7] in Forall (fun c => (c < 16)%nat) c ->
  let col := mix_bytes_column (map SBox (picked s c)) in
  COLUMN (words_of s) c = Some [fst (halves col); snd (halves col)] /\ bytes_of 8 col.
Proof.
  intros Hs c Hc col. subst c. repeat (let H := fresh "L" in apply Forall_cons in Hc as [H Hc]).
  unfold COLUMN. cbn [lookup list_lookup mbind option_bind].
  destruct (table_column_ok s c0 0 Hs) as [-> B0]; [lia | lia|]. destruct (table_column_ok s c1 1 Hs) as [-> B1]; [lia | lia|].
  destruct (table_column_ok s c2 2 Hs) as [-> B2]; [lia | lia|]. destruct (table_column_ok s c3 3 Hs) as [-> B3]; [lia | lia|].
  destruct (table_column_ok s c4 0 Hs) as [-> B4]; [lia | lia|]. destruct (table_column_ok s c5 1 Hs) as [-> B5]; [lia | lia|].
  destruct (table_column_ok s c6 2 Hs) as [-> B6]; [lia | lia|]. destruct (table_column_ok s c7 3 Hs) as [-> B7]; [lia | lia|].
  cbn [mbind option_bind]. unfold picked in col. cbn [zip_with map] in col. subst col. rewrite mix_bytes_columns. cbn [foldl].
  revert B0 B1 B2 B3 B4 B5 B6 B7.
  generalize (SBox (s !!! (4 * c0 + 0)%nat)), (SBox (s !!! (4 * c1 + 1)%nat)), (SBox (s !!! (4 * c2 + 2)%nat)), (SBox (s !!! (4 * c3 + 3)%nat)),
    (SBox (s !!! (4 * c4 + 0)%nat)), (SBox (s !!! (4 * c5 + 1)%nat)), (SBox (s !!! (4 * c6 + 2)%nat)), (SBox (s !!! (4 * c7 + 3)%nat)).
  intros x0 x1 x2 x3 x4 x5 x6 x7 B0 B1 B2 B3 B4 B5 B6 B7.
  apply (matrix_col_bytes 0) in B4; [|lia]. apply (matrix_col_bytes 1) in B5; [|lia]. apply (matrix_col_bytes 2) in B6; [|lia]. apply (matrix_col_bytes 3) in B7; [|lia].
  cbn [Nat.add] in B4, B5, B6, B7.
  assert (A1 := bytes_lxor 8 _ _ B0 B1). assert (A2 := bytes_lxor 8 _ _ A1 B2). assert (A3 := bytes_lxor 8 _ _ A2 B3). assert (A4 := bytes_lxor 8 _ _ A3 B4).
  assert (A5 := bytes_lxor 8 _ _ A4 B5). assert (A6 := bytes_lxor 8 _ _ A5 B6). assert (A7 := bytes_lxor 8 _ _ A6 B7).
  split; [|exact A7]. do 2 f_equal.
  - destruct (halves_lxor _ _ A6 B7) as [<- _], (halves_lxor _ _ A5 B6) as [<- _], (halves_lxor _ _ A4 B5) as [<- _], (halves_lxor _ _ A3 B4) as [<- _],
      (halves_lxor _ _ A2 B3) as [<- _], (halves_lxor _ _ A1 B2) as [<- _], (halves_lxor _ _ B0 B1) as [<- _].
    change (matrix_col 4) with (matrix_col (0 + 4)). change (matrix_col 5) with (matrix_col (1 + 4)). change (matrix_col 6) with (matrix_col (2 + 4)). change (matrix_col 7) with (matrix_col (3 + 4)).
    rewrite (proj1 (halves_swap 0 x4 ltac:(lia))), (proj1 (halves_swap 1 x5 ltac:(lia))), (proj1 (halves_swap 2 x6 ltac:(lia))), (proj1 (halves_swap 3 x7 ltac:(lia))).
    unfold halves. cbn [fst snd Nat.add]. reflexivity.
  - f_equal. destruct (halves_lxor _ _ A6 B7) as [_ <-], (halves_lxor _ _ A5 B6) as [_ <-], (halves_lxor _ _ A4 B5) as [_ <-], (halves_lxor _ _ A3 B4) as [_ <-],
      (halves_lxor _ _ A2 B3) as [_ <-], (halves_lxor _ _ A1 B2) as [_ <-], (halves_lxor _ _ B0 B1) as [_ <-].
    change (matrix_col 4) with (matrix_col (0 + 4)). change (matrix_col 5) with (matrix_col (1 + 4)). change (matrix_col 6) with (matrix_col (2 + 4)). change (matrix_col 7) with (matrix_col (3 + 4)).
    rewrite (proj2 (halves_swap 0 x4 ltac:(lia))), (proj2 (halves_swap 1 x5 ltac:(lia))), (proj2 (halves_swap 2 x6 ltac:(lia))), (proj2 (halves_swap 3 x7 ltac:(lia))).
    unfold halves. cbn [fst snd Nat.add]. reflexivity.
Qed.

(** ** A round *)

(** Eight columns, as words. *)
Lemma words_of_columns cols : length cols = 8%nat -> Forall (bytes_of 8) cols ->
  concat (map (fun t => [fst (halves t); snd (halves t)]) cols) = words_of (concat cols).
Proof.
  intros Hl Hc. do 8 (destruct cols as [|? cols]; [discriminate Hl|]). destruct cols; [|discriminate Hl].
  repeat (apply Forall_cons in Hc as [[_ ?] Hc]).
  repeat match goal with H : length ?t = 8%nat |- _ => do 8 (destruct t as [|? t]; [discriminate H|]); destruct t; [clear H | discriminate H] end.
  reflexivity.
Qed.

Lemma columns_ok s cs : bytes_of 64 s -> Forall (fun c => length c = 8%nat /\ Forall (fun c => (c < 16)%nat) c) cs ->
  let cols := map (fun c => mix_bytes_column (map SBox (picked s c))) cs in
  mapM (COLUMN (words_of s)) cs = Some (map (fun t => [fst (halves t); snd (halves t)]) cols) /\ Forall (bytes_of 8) cols.
Proof.
  intros Hs. induction 1 as [|c cs [Hl Hc] _ [IH IHb]]; [split; [reflexivity | constructor]|]. cbn [map mapM].
  do 8 (destruct c as [|? c]; [discriminate Hl|]). destruct c; [|discriminate Hl].
  edestruct (COLUMN_ok s) as [E B]; [exact Hs | exact Hc|]. rewrite E. cbn [mbind option_bind]. rewrite IH.
  split; [reflexivity | constructor; assumption].
Qed.

(** The columns of the macro calls are those the bytes are shifted to. *)
Lemma calls_ok cs sigma s : length s = 64%nat ->
  map (picked s) cs = map (fun c => take 8 (drop (8 * c) (ShiftBytes sigma s))) (seq 0 8) ->
  map (fun c => mix_bytes_column (map SBox (picked s c))) cs =
  map (fun c => mix_bytes_column (take 8 (drop (8 * c) (ShiftBytes sigma (SubBytes s))))) (seq 0 8).
Proof.
  intros Hl E. assert (ES : ShiftBytes sigma (SubBytes s) = map SBox (ShiftBytes sigma s)).
  { unfold ShiftBytes, SubBytes. rewrite map_map. apply map_ext_in. intros k Hk. apply in_seq in Hk.
    apply list_lookup_total_fmap. pose proof (Nat.mod_upper_bound k 8). pose proof (Nat.mod_upper_bound (k / 8 + sigma !!! (k mod 8)%nat) 8). lia. }
  rewrite ES, <- (map_map (picked s) (fun t => mix_bytes_column (map SBox t))), E, map_map. apply map_ext. intros c.
  rewrite skipn_map, firstn_map. reflexivity.
Qed.

Lemma calls_P s : length s = 64%nat -> map (picked s) columns_P = map (fun c => take 8 (drop (8 * c) (ShiftBytes sigma_P s))) (seq 0 8).
Proof. intros _. reflexivity. Qed.

Lemma calls_Q s : length s = 64%nat -> map (picked s) columns_Q = map (fun c => take 8 (drop (8 * c) (ShiftBytes sigma_Q s))) (seq 0 8).
Proof. intros _. reflexivity. Qed.

Lemma columns_range : Forall (fun c => length c = 8%nat /\ Forall (fun c => (c < 16)%nat) c) columns_P /\
  Forall (fun c => length c = 8%nat /\ Forall (fun c => (c < 16)%nat) c) columns_Q.
Proof. split; apply (bool_decide_unpack _); vm_compute; exact I. Qed.

Lemma mixed cs sigma s : bytes_of 64 s -> length cs = 8%nat -> Forall (fun c => length c = 8%nat /\ Forall (fun c => (c < 16)%nat) c) cs ->
  map (picked s) cs = map (fun c => take 8 (drop (8 * c) (ShiftBytes sigma s))) (seq 0 8) ->
  (y ← mapM (COLUMN (words_of s)) cs; Some (concat y)) = Some (words_of (MixBytes (ShiftBytes sigma (SubBytes s)))) /\
  bytes_of 64 (MixBytes (ShiftBytes sigma (SubBytes s))).
Proof.
  intros Hs Hl Hc E. destruct (columns_ok s cs Hs Hc) as [-> HB]. cbn [mbind option_bind]. unfold MixBytes.
  rewrite <- (calls_ok cs sigma s (proj2 Hs) E). split.
  - f_equal. apply words_of_columns; [rewrite length_map; exact Hl | exact HB].
  - split; [apply concat_bytes; eapply Forall_impl; [exact HB | intros ? [? _]; assumption]|].
    rewrite (blocks_length 8 _ HB), length_map, Hl. reflexivity.
Qed.

Lemma words_length s : length (words_of s) = 16%nat.
Proof. reflexivity. Qed.

Lemma words_range s : bytes_of 64 s -> Forall (fun w => 0 <= w < 2 ^ 32) (words_of s).
Proof.
  intros [Hs Hl]. apply Forall_map. apply Forall_forall. intros i Hi. apply elem_of_seq in Hi.
  pose proof (le_val_range (take 4 (drop (4 * i) s)) ltac:(apply Forall_take, Forall_drop, Hs)) as H.
  rewrite length_take, length_drop, Hl in H. replace (4 `min` (64 - 4 * i))%nat with 4%nat in H by lia. exact H.
Qed.

Lemma lxor_ones w : 0 <= w < 2 ^ 32 -> 0xffffffff - w = Z.lxor w 0xffffffff.
Proof.
  intros Hw. change 0xffffffff with (Z.ones 32). assert (E : Z.land w (Z.lxor w (Z.ones 32)) = 0).
  { apply Z.bits_inj'. intros i Hi. rewrite Z.land_spec, Z.lxor_spec, Z.bits_0. destruct (Z_lt_ge_dec i 32).
    - rewrite Z.ones_spec_low by lia. destruct (Z.testbit w i); reflexivity.
    - rewrite <- (Z.mod_small w (2 ^ 32)), Z.mod_pow2_bits_high by lia. reflexivity. }
  apply Z.add_nocarry_lxor in E. rewrite <- Z.lxor_assoc, Z.lxor_nilpotent, Z.lxor_0_l in E. lia.
Qed.

Lemma constants_bytes i : In i rounds -> bytes_of 64 (constants_P i) /\ bytes_of 64 (constants_Q i).
Proof. revert i. apply List.Forall_forall. repeat apply List.Forall_cons; [..|constructor]; split; apply (bool_decide_unpack _); vm_compute; exact I. Qed.

Lemma constants_words i : In i rounds ->
  words_of (constants_P i) = [Z.lxor 0x00000000 i; 0; Z.lxor 0x00000010 i; 0; Z.lxor 0x00000020 i; 0; Z.lxor 0x00000030 i; 0;
    Z.lxor 0x00000040 i; 0; Z.lxor 0x00000050 i; 0; Z.lxor 0x00000060 i; 0; Z.lxor 0x00000070 i; 0] /\
  let r := 16777216 * i in
  words_of (constants_Q i) = [0xffffffff; Z.lxor 0xffffffff r; 0xffffffff; Z.lxor 0xefffffff r; 0xffffffff; Z.lxor 0xdfffffff r; 0xffffffff; Z.lxor 0xcfffffff r;
    0xffffffff; Z.lxor 0xbfffffff r; 0xffffffff; Z.lxor 0xafffffff r; 0xffffffff; Z.lxor 0x9fffffff r; 0xffffffff; Z.lxor 0x8fffffff r].
Proof. revert i. apply List.Forall_forall. repeat apply List.Forall_cons; [..|constructor]; split; eval_closed. Qed.

Ltac split_words w := let H := fresh in
  assert (H : length w = 16%nat) by reflexivity; revert H; generalize w; intros ws H;
  do 16 (destruct ws as [|? ws]; [discriminate H|]); destruct ws; [clear H | discriminate H].

Lemma RND512P_ok s i : bytes_of 64 s -> In i rounds ->
  RND512P (words_of s) i = Some (words_of (round_P s i)) /\ bytes_of 64 (round_P s i).
Proof.
  intros Hs Hi. destruct (constants_bytes i Hi) as [HB _]. destruct (constants_words i Hi) as [HW _].
  assert (Ha : bytes_of 64 (AddRoundConstant s (constants_P i))) by (apply bytes_lxor; assumption).
  destruct (mixed columns_P sigma_P _ Ha eq_refl (proj1 columns_range) (calls_P _ (proj2 Ha))) as [E B].
  split; [|exact B]. unfold round_P. rewrite <- E. unfold RND512P. cbv zeta.
  match goal with |- (y ← mapM (COLUMN ?x) _; _) = _ => assert (Ex : x = words_of (AddRoundConstant s (constants_P i))) end; [|rewrite Ex; reflexivity].
  unfold AddRoundConstant. rewrite (words_of_lxor s _ Hs HB), HW. split_words (words_of s).
  cbn [xor_word alter list_alter zip_with]. rewrite !Z.lxor_0_r. reflexivity.
Qed.

Lemma RND512Q_ok s i : bytes_of 64 s -> In i rounds ->
  RND512Q (words_of s) (16777216 * i) = Some (words_of (round_Q s i)) /\ bytes_of 64 (round_Q s i).
Proof.
  intros Hs Hi. destruct (constants_bytes i Hi) as [_ HB]. destruct (constants_words i Hi) as [_ HW].
  assert (Ha : bytes_of 64 (AddRoundConstant s (constants_Q i))) by (apply bytes_lxor; assumption).
  destruct (mixed columns_Q sigma_Q _ Ha eq_refl (proj2 columns_range) (calls_Q _ (proj2 Ha))) as [E B].
  split; [|exact B]. unfold round_Q. rewrite <- E. unfold RND512Q. cbv zeta.
  match goal with |- (y ← mapM (COLUMN ?x) _; _) = _ => assert (Ex : x = words_of (AddRoundConstant s (constants_Q i))) end; [|rewrite Ex; reflexivity].
  unfold AddRoundConstant. rewrite (words_of_lxor s _ Hs HB), HW. pose proof (words_range s Hs) as HR. revert HR. split_words (words_of s). intros HR.
  repeat (let H := fresh "R" in apply Forall_cons in HR as [H HR]).
  cbn [xor_word not_word alter list_alter zip_with]. rewrite !lxor_ones by assumption. reflexivity.
Qed.

(** ** The permutations and the compression function *)

Lemma ten_rounds_ok rnd spec (f : Z -> Z) l : (forall s i, bytes_of 64 s -> In i l -> rnd (words_of s) (f i) = Some (words_of (spec s i)) /\ bytes_of 64 (spec s i)) ->
  forall s, bytes_of 64 s -> ten_rounds rnd (words_of s) (map f l) = Some (words_of (foldl spec s l)) /\ bytes_of 64 (foldl spec s l).
Proof.
  unfold ten_rounds. induction l as [|i l IH]; intros H s Hs; [split; [reflexivity | exact Hs]|].
  cbn [map foldl]. cbn [mbind option_bind]. destruct (H s i Hs (or_introl eq_refl)) as [-> B]. apply IH; [|exact B].
  intros s' i' Hs' Hi'. apply H; [exact Hs' | right; exact Hi'].
Qed.

Lemma perm_P_ok s : bytes_of 64 s -> ten_rounds RND512P (words_of s) rs_P = Some (words_of (perm_P s)) /\ bytes_of 64 (perm_P s).
Proof. apply (ten_rounds_ok RND512P round_P (fun i => i) rounds). exact RND512P_ok. Qed.

Lemma perm_Q_ok s : bytes_of 64 s -> ten_rounds RND512Q (words_of s) rs_Q = Some (words_of (perm_Q s)) /\ bytes_of 64 (perm_Q s).
Proof. apply (ten_rounds_ok RND512Q round_Q (fun i => 16777216 * i) rounds). exact RND512Q_ok. Qed.

Lemma F512_ok h m : bytes_of 64 h -> bytes_of 64 m -> F512 (words_of h) (words_of m) = Some (words_of (spec_f h m)) /\ bytes_of 64 (spec_f h m).
Proof.
  intros Hh Hm. pose proof (bytes_lxor 64 _ _ Hh Hm) as Hx. unfold F512. rewrite <- words_of_lxor by assumption.
  destruct (perm_Q_ok m Hm) as [-> BQ], (perm_P_ok _ Hx) as [-> BP]. cbn [mbind option_bind].
  pose proof (bytes_lxor 64 _ _ BP BQ) as B. pose proof (bytes_lxor 64 _ _ Hh B) as B'.
  unfold spec_f. rewrite !words_of_lxor by assumption. split; [reflexivity | exact B'].
Qed.

(** ** The specified hash

    A message of [databitlen] bits is followed by a bit 1, zeros and the number of
    blocks; the bits after it in its last byte are not part of it. *)

Definition be_bytes (n : nat) (v : Z) : list Z := rev (le_bytes n v).

Definition marked_byte (b rem : Z) : Z := if decide (rem = 0) then 128 else b / 2 ^ (8 - rem) * 2 ^ (8 - rem) + 2 ^ (7 - rem).

Definition marked (data : list Z) (databitlen : Z) : list Z :=
  let n := Z.to_nat (databitlen / 8) in take n data ++ [marked_byte (data !!! n) (databitlen mod 8)].

Definition block_count (databitlen : Z) : nat := ((Z.to_nat (databitlen / 8) + 72) / 64)%nat.

Definition padded (data : list Z) (databitlen : Z) : list Z :=
  let m := marked data databitlen in
  let n := block_count databitlen in
  m ++ repeat 0 (64 * n - 8 - length m) ++ be_bytes 8 (Z.of_nat n).

Definition spec_iv : list Z := repeat 0 62 ++ [1; 0].

Definition chain (blocks : list (list Z)) : list Z := foldl spec_f spec_iv blocks.

Definition spec_groestl (data : list Z) (databitlen : Z) : list Z :=
  drop 32 (spec_output (chain (chunks 64 (block_count databitlen) (padded data databitlen)))).

(** ** What a state holds *)

Record holds (c : groestlHashState) (blocks : list (list Z)) (tail : list Z) : Prop := {
  holds_chain : chaining c = words_of (chain blocks);
  holds_count : block_counter1 c = Z.of_nat (length blocks);
  holds_high : block_counter2 c = 0;
  holds_blocks : blocks_of 64 blocks;
  holds_buffer : in_buffer 64 (g_buffer c) tail;
  holds_ptr : buf_ptr c = Z.of_nat (length tail)
}.

Lemma chain_bytes blocks : blocks_of 64 blocks -> bytes_of 64 (chain blocks).
Proof.
  induction blocks as [|b blocks IH] using rev_ind; intros H; [apply (bool_decide_unpack _); vm_compute; exact I|].
  apply Forall_app in H as [H Hb]. apply Forall_cons in Hb as [Hb _]. unfold chain. rewrite foldl_app. apply F512_ok; [apply IH, H | exact Hb].
Qed.

Lemma chaining_snoc blocks b : chain (blocks ++ [b]) = spec_f (chain blocks) b.
Proof. unfold chain. rewrite foldl_app. reflexivity. Qed.

Lemma input_words_ok b rest : bytes_of 64 b -> input_words (b ++ rest) = Some (words_of b).
Proof.
  intros [_ Hl]. unfold input_words. rewrite decide_True by (rewrite length_app; lia). f_equal. unfold words_of.
  apply map_ext_in. intros i Hi. apply in_seq in Hi. f_equal. rewrite drop_app_le, take_app_le by (rewrite ?length_drop; lia). reflexivity.
Qed.

(** Whole blocks are chained; the buffer is not read. *)
Lemma transform_ok bs : forall c blocks tail rest r fuel, holds c blocks tail -> blocks_of 64 bs -> 0 <= r < 64 ->
  Z.of_nat (length blocks + length bs) < 2 ^ 32 -> (length bs < fuel)%nat ->
  exists c', transform_loop fuel c (concat bs ++ rest) (64 * Z.of_nat (length bs) + r) = Some c' /\ holds c' (blocks ++ bs) tail /\
    bits_in_last_byte c' = bits_in_last_byte c.
Proof.
  induction bs as [|b bs IH]; intros c blocks tail rest r [|fuel] Hc Hb Hr Hn Hf; cbn [length] in *; try lia.
  - exists c. cbn [transform_loop]. rewrite (proj2 (Z.leb_gt SIZE512 _)) by (change SIZE512 with 64; lia). rewrite app_nil_r. auto.
  - cbn [transform_loop concat]. rewrite (proj2 (Z.leb_le SIZE512 _)) by (change SIZE512 with 64; lia). apply Forall_cons in Hb as [Hbb Hb].
    rewrite <- app_assoc, input_words_ok by exact Hbb. cbn [mbind option_bind]. destruct Hc as [H1 H2 H3 H4 H5 H6].
    rewrite H1. destruct (F512_ok (chain blocks) b (chain_bytes _ H4) Hbb) as [-> _]. cbn [mbind option_bind].
    rewrite drop_app_length' by (symmetry; apply Hbb). change SIZE512 with 64.
    replace (64 * Z.of_nat (S (length bs)) + r - 64) with (64 * Z.of_nat (length bs) + r) by lia.
    set (c1 := count_block _).
    destruct (IH c1 (blocks ++ [b]) tail rest r fuel) as (c' & E & Hc' & Hbits).
    + assert (Hn1 : to_u32 (Z.of_nat (length blocks) + 1) = Z.of_nat (length (blocks ++ [b])))
        by (rewrite length_app; cbn [length]; unfold to_u32; rewrite Z.mod_small by (change 4294967296 with (2 ^ 32); lia); lia).
      subst c1. unfold count_block, set_chaining, set_counters. cbn [block_counter1 block_counter2]. rewrite H2, H3, Hn1.
      rewrite (proj2 (Z.eqb_neq _ 0)) by (rewrite length_app; cbn [length]; lia).
      split; cbn [chaining block_counter1 block_counter2 g_buffer buf_ptr]; auto.
      * rewrite chaining_snoc. reflexivity.
      * apply Forall_app. auto using Forall_cons_2, Forall_nil_2.
    + exact Hb.
    + exact Hr.
    + rewrite length_app. cbn [length]. lia.
    + lia.
    + exists c'. split; [exact E|]. rewrite <- app_assoc in Hc'. auto.
Qed.

(** A byte goes to the end of the buffer. *)
Lemma append_ok c blocks tail b : holds c blocks tail -> (length tail < 64)%nat -> is_byte b ->
  exists c', append_byte c b = Some c' /\ holds c' blocks (tail ++ [b]) /\ bits_in_last_byte c' = bits_in_last_byte c.
Proof.
  intros [H1 H2 H3 H4 (Ht & [Hb Hl] & Hp) H6] Hn Hbyte. unfold append_byte, put_byte. rewrite H6. change SIZE512 with 64.
  rewrite (proj2 (Z.leb_le 0 _)), (proj2 (Z.ltb_lt _ 64)) by lia. cbn [andb mbind option_bind]. rewrite Nat2Z.id.
  replace (to_u8 b) with b by (symmetry; apply Z.mod_small, Hbyte).
  eexists. split; [reflexivity|]. split; [|reflexivity].
  split; cbn [set_buf_ptr chaining block_counter1 block_counter2 g_buffer buf_ptr]; auto; [|rewrite length_app; cbn [length]; lia].
  split; [apply Forall_app; auto using Forall_cons_2, Forall_nil_2|]. split; [split; [apply Forall_insert; assumption | rewrite length_insert; exact Hl]|].
  rewrite length_app. cbn [length]. rewrite Nat.add_comm. cbn [Nat.add].
  rewrite (take_S_r _ _ b) by (apply list_lookup_insert_eq; lia). rewrite take_insert_ge by lia. rewrite Hp. reflexivity.
Qed.

Lemma store_rest_ok s : forall c blocks tail rest, holds c blocks tail -> is_bytes s -> (length tail + length s <= 64)%nat ->
  exists c', store_rest c (s ++ rest) (length s) = Some (c', rest) /\ holds c' blocks (tail ++ s) /\ bits_in_last_byte c' = bits_in_last_byte c.
Proof.
  induction s as [|b s IH]; intros c blocks tail rest Hc Hs Hl; [exists c; rewrite app_nil_r; auto|].
  apply Forall_cons in Hs as [Hb Hs]. cbn [length] in Hl. cbn [store_rest length app lookup list_lookup mbind option_bind].
  destruct (append_ok c blocks tail b Hc) as (c1 & E1 & Hc1 & Eb1); [lia | exact Hb|]. rewrite E1. cbn [mbind option_bind]. change (drop 1 (b :: s ++ rest)) with (s ++ rest).
  destruct (IH c1 blocks (tail ++ [b]) rest Hc1 Hs) as (c2 & E2 & Hc2 & Eb2); [rewrite length_app; cbn [length]; lia|].
  exists c2. split; [exact E2|]. rewrite <- app_assoc in Hc2. split; [exact Hc2 | congruence].
Qed.

Lemma zeros_until_ok n : forall fuel c blocks tail limit, holds c blocks tail -> limit = Z.of_nat (length tail + n) -> limit <= 64 -> (n < fuel)%nat ->
  exists c', zeros_until fuel limit c = Some c' /\ holds c' blocks (tail ++ repeat 0 n).
Proof.
  induction n as [|n IH]; intros [|fuel] c blocks tail limit Hc El Hl Hf; try lia; cbn [zeros_until]; rewrite (holds_ptr _ _ _ Hc).
  - rewrite (proj2 (Z.ltb_ge _ _)) by lia. exists c. cbn [repeat]. rewrite app_nil_r. auto.
  - rewrite (proj2 (Z.ltb_lt _ _)) by lia. destruct (append_ok c blocks tail 0 Hc) as (c1 & E1 & Hc1 & _); [lia | split; lia|].
    rewrite E1. cbn [mbind option_bind]. destruct (IH fuel c1 blocks (tail ++ [0]) limit Hc1) as (c2 & E2 & Hc2); [rewrite length_app; cbn [length]; lia | lia | lia|].
    exists c2. split; [exact E2|]. rewrite <- app_assoc in Hc2. exact Hc2.
Qed.

(** A full buffer is chained as a block. *)
Lemma transform_buffer_ok c blocks b : holds c blocks b -> length b = 64%nat -> Z.of_nat (length blocks + 1) < 2 ^ 32 ->
  exists c', Transform c (g_buffer c) SIZE512 = Some c' /\ holds c' (blocks ++ [b]) b.
Proof.
  intros Hc Hl Hn. destruct (buffer_full 64 _ _ (holds_buffer _ _ _ Hc) Hl) as [E Hb]. unfold Transform. change SIZE512 with 64.
  destruct (transform_ok [b] c blocks b [] 0 (S (Z.to_nat 64)) Hc) as (c' & Et & Hc' & _).
  - constructor; [exact Hb | constructor].
  - lia.
  - exact Hn.
  - cbn. lia.
  - exists c'. cbn [concat length] in Et. rewrite !app_nil_r in Et. rewrite E. split; [exact Et | exact Hc'].
Qed.

(** ** The end of the message *)

(** The marked byte: the bits of the message, and a bit 1. *)
Lemma mark_bits b rem : is_byte b -> 0 < rem < 8 ->
  to_u8 (Z.lxor (Z.land b (Z.shiftl (Z.shiftl 1 rem - 1) (8 - rem))) (Z.shiftl 1 (7 - rem))) = marked_byte b rem /\ is_byte (marked_byte b rem).
Proof.
  intros Hb Hr. assert (H : forallb (fun r => let x := marked_byte b r in
    (to_u8 (Z.lxor (Z.land b (Z.shiftl (Z.shiftl 1 r - 1) (8 - r))) (Z.shiftl 1 (7 - r))) =? x) && bool_decide (is_byte x)) [1; 2; 3; 4; 5; 6; 7] = true).
  { revert b Hb. apply (every_byte (fun b => forallb (fun r => let x := marked_byte b r in (to_u8 (Z.lxor (Z.land b (Z.shiftl (Z.shiftl 1 r - 1) (8 - r))) (Z.shiftl 1 (7 - r))) =? x) && bool_decide (is_byte x)) [1; 2; 3; 4; 5; 6; 7])). eval_closed. }
  rewrite List.forallb_forall in H. specialize (H rem). cbv zeta in H. rewrite andb_true_iff, bool_decide_eq_true, Z.eqb_eq in H.
  apply H. cbn. lia.
Qed.

(** The byte before the position is written over. *)
Lemma put_last_ok c blocks tail b v : holds c blocks (tail ++ [b]) -> is_byte (to_u8 v) -> (length tail < 64)%nat ->
  exists c', put_byte c (buf_ptr c - 1) v = Some c' /\ holds c' blocks (tail ++ [to_u8 v]).
Proof.
  intros [H1 H2 H3 H4 (Ht & [Hb Hl] & Hp) H6] Hv Hn. rewrite length_app in Hp, H6. cbn [length] in Hp, H6.
  unfold put_byte. rewrite H6. change SIZE512 with 64. rewrite (proj2 (Z.leb_le 0 _)), (proj2 (Z.ltb_lt _ 64)) by lia. cbn [andb].
  replace (Z.to_nat (Z.of_nat (length tail + 1) - 1)) with (length tail) by lia. apply Forall_app in Ht as [Ht _].
  assert (Hp' : take (length tail) (g_buffer c) = tail) by (apply (f_equal (take (length tail))) in Hp; rewrite take_take, take_app_length in Hp; replace (length tail `min` (length tail + 1))%nat with (length tail) in Hp by lia; exact Hp).
  eexists. split; [reflexivity|]. split; cbn [chaining block_counter1 block_counter2 g_buffer buf_ptr]; auto; [|rewrite length_app; cbn [length]; lia].
  split; [apply Forall_app; auto using Forall_cons_2, Forall_nil_2|]. split; [split; [apply Forall_insert; assumption | rewrite length_insert; exact Hl]|].
  rewrite length_app. cbn [length]. rewrite Nat.add_comm. cbn [Nat.add].
  rewrite (take_S_r _ _ (to_u8 v)) by (apply list_lookup_insert_eq; lia). rewrite take_insert_ge by lia. rewrite Hp'. reflexivity.
Qed.

Lemma pad_bit_ok c blocks tail (data : list Z) (n : nat) rem : holds c blocks (tail ++ (if rem =? 0 then [] else [data !!! n])) -> bits_in_last_byte c = rem ->
  0 <= rem < 8 -> (length tail < 64)%nat -> (rem <> 0 -> is_byte (data !!! n)) ->
  exists c', pad_bit c = Some c' /\ holds c' blocks (tail ++ [marked_byte (data !!! n) rem]).
Proof.
  intros Hc Eb Hr Hn Hbyte. unfold pad_bit. rewrite Eb. destruct (Z.eqb_spec rem 0) as [E0|Hz]; cbn [negb].
  - rewrite app_nil_r in Hc. rewrite E0. destruct (append_ok c blocks tail 0x80 Hc Hn) as (c' & E & Hc' & _); [split; lia|]. exists c'. split; [exact E | exact Hc'].
  - destruct (mark_bits (data !!! n) rem (Hbyte Hz)) as [EM BM]; [lia|]. pose proof (holds_ptr _ _ _ Hc) as Ep. rewrite length_app in Ep. cbn [length] in Ep.
    rewrite (proj2 (Z.leb_le 0 _)) by lia. destruct (holds_buffer _ _ _ Hc) as (_ & _ & Hp).
    assert (El : g_buffer c !! Z.to_nat (buf_ptr c - 1) = Some (data !!! n)).
    { replace (Z.to_nat (buf_ptr c - 1)) with (length tail) by lia. rewrite length_app in Hp. cbn [length] in Hp.
      rewrite <- (lookup_take_lt _ (length tail + 1)) by lia. rewrite Hp. apply list_lookup_middle. reflexivity. }
    rewrite El. cbn [mbind option_bind].
    edestruct (put_last_ok c blocks tail) as (c' & E & Hc'); [exact Hc | rewrite EM; exact BM | exact Hn |]. rewrite E. cbn [mbind option_bind].
    rewrite EM in Hc'. eexists. split; [reflexivity|]. destruct Hc' as [? ? ? ? ? ?]. split; assumption.
Qed.

Lemma insert_middle (X : list Z) y B v : <[length X := v]> (X ++ y :: B) = X ++ v :: B.
Proof. induction X as [|x X IH]; [reflexivity|]. cbn. f_equal. exact IH. Qed.

(** A counter, backwards from the position. *)
Lemma put_counter_ok k : forall fuel first c limit A mid B, g_buffer c = A ++ mid ++ B -> length mid = k -> length (g_buffer c) = 64%nat ->
  buf_ptr c = Z.of_nat (length A + k) -> limit = Z.of_nat (length A) -> (k < fuel)%nat ->
  exists c', put_counter fuel first limit c = Some c' /\ g_buffer c' = A ++ be_bytes k (counter first c) ++ B /\
    chaining c' = chaining c /\ buf_ptr c' = limit /\ counter (negb first) c' = counter (negb first) c.
Proof.
  induction k as [|k IH]; intros [|fuel] first c limit A mid B Eg Hm Hl Ep El Hf; try lia; cbn [put_counter]; rewrite Ep.
  - rewrite (proj2 (Z.ltb_ge _ _)) by lia. exists c. destruct mid; [|discriminate]. rewrite Nat.add_0_r in Ep. rewrite El. auto.
  - rewrite (proj2 (Z.ltb_lt _ _)) by lia. destruct (exists_last (l := mid)) as (m & y & ->); [intros ->; discriminate|]. rewrite length_app in Hm. cbn [length] in Hm.
    assert (Hlen : (length A + k + 1 + length B = 64)%nat) by (rewrite Eg, !length_app in Hl; cbn [length] in Hl; lia).
    unfold put_byte. change SIZE512 with 64. rewrite (proj2 (Z.leb_le 0 _)), (proj2 (Z.ltb_lt _ 64)) by lia. cbn [andb mbind option_bind].
    set (c1 := set_counter _ _ _).
    assert (C1 : counter first c1 = counter first c / 256 /\ chaining c1 = chaining c /\ buf_ptr c1 = Z.of_nat (length A + k) /\ counter (negb first) c1 = counter (negb first) c /\
      g_buffer c1 = A ++ m ++ (counter first c mod 256) :: B).
    { subst c1. replace (Z.to_nat (Z.of_nat (length A + S k) - 1)) with (length (A ++ m)) by (rewrite length_app; lia).
      assert (Ei : <[length (A ++ m) := to_u8 (counter first c)]> (g_buffer c) = A ++ m ++ (counter first c mod 256) :: B).
      { rewrite Eg, <- (app_assoc m), (app_assoc A). cbn [app]. rewrite insert_middle, <- app_assoc. reflexivity. }
      destruct first; cbn in *; (split; [rewrite Z.shiftr_div_pow2 by lia; reflexivity|]); (split; [reflexivity|]); (split; [lia|]); (split; [reflexivity | exact Ei]). }
    destruct C1 as (C1 & C2 & C3 & C4 & C5).
    destruct (IH fuel first c1 limit A m (counter first c mod 256 :: B)) as (c' & E & E1 & E2 & E3 & E4); [exact C5 | lia | rewrite C5, !length_app; cbn [length]; lia | exact C3 | exact El | lia|].
    exists c'. split; [exact E|]. rewrite E1, C1, E2, E3, E4, C2, C4. split; [|auto].
    unfold be_bytes. cbn [le_bytes rev]. rewrite <- !app_assoc. reflexivity.
Qed.

(** The last block. *)
Lemma last_transform c h b : chaining c = words_of h -> bytes_of 64 h -> g_buffer c = b -> bytes_of 64 b ->
  exists c', Transform c (g_buffer c) SIZE512 = Some c' /\ chaining c' = words_of (spec_f h b).
Proof.
  intros Hc Hh Hb Hbb. unfold Transform. change SIZE512 with 64. change (S (Z.to_nat 64)) with (S (S 63)). cbn [transform_loop].
  change (SIZE512 <=? 64) with true. cbv iota. pose proof (input_words_ok b [] Hbb) as Ei. rewrite app_nil_r in Ei. rewrite Hb, Ei. cbn [mbind option_bind].
  rewrite Hc. destruct (F512_ok h b Hh Hbb) as [-> _]. cbn [mbind option_bind]. change (SIZE512 <=? 64 - SIZE512) with false. cbv iota.
  eexists. split; [reflexivity|]. reflexivity.
Qed.

Lemma chunks_seq w n : forall p, chunks w n p = map (fun i => take w (drop (w * i) p)) (seq 0 n).
Proof.
  induction n as [|n IH]; intros p; [reflexivity|]. cbn [chunks]. rewrite <- cons_seq. cbn [map]. rewrite Nat.mul_0_r, drop_0. f_equal.
  rewrite IH, <- seq_shift, map_map. apply map_ext. intros i. rewrite drop_drop. do 2 f_equal. lia.
Qed.

Lemma words_bytes64 s : bytes_of 64 s -> concat (map (le_bytes 4) (words_of s)) = s.
Proof.
  intros [Hs Hl]. unfold words_of. rewrite <- (map_map (fun i => take 4 (drop (4 * i) s)) le_val), <- chunks_seq, map_map.
  rewrite (map_ext_in _ (fun t => t)).
  - rewrite map_id, concat_chunks, take_ge by lia. reflexivity.
  - intros t Ht. assert (HB : blocks_of 4 (chunks 4 16 s)) by (apply chunks_blocks; [exact Hs | lia]).
    rewrite <- (proj2 (proj1 (List.Forall_forall _ _) HB t Ht)). apply le_bytes_le_val. apply (proj1 (List.Forall_forall _ _) HB t Ht).
Qed.

Lemma be_bytes_ok n v : bytes_of n (be_bytes n v).
Proof. split; [apply Forall_rev, le_bytes_bytes | unfold be_bytes; rewrite length_rev; apply le_bytes_length]. Qed.

Lemma be_bytes_8 v : 0 <= v < 2 ^ 32 -> be_bytes 4 0 ++ be_bytes 4 v = be_bytes 8 v.
Proof.
  intros Hv. unfold be_bytes. rewrite <- rev_app_distr. f_equal. change 8%nat with (4 + 4)%nat. rewrite le_bytes_add. f_equal.
  rewrite Z.div_small by (change (8 * Z.of_nat 4) with 32; lia). reflexivity.
Qed.

(** From the padded buffer to the digest. *)
Lemma finish_ok c blocks tail : holds c blocks tail -> length tail = 56%nat -> Z.of_nat (length blocks + 1) < 2 ^ 32 ->
  exists c', finish_message c =
    Some (c', drop 32 (spec_output (chain (blocks ++ [tail ++ be_bytes 8 (Z.of_nat (length blocks + 1))])))).
Proof.
  intros [H1 H2 H3 H4 (Ht & [Hb Hl] & Hp) H6] H56 Hn. unfold finish_message. set (c1 := set_buf_ptr _ _).
  assert (Hn1 : to_u32 (Z.of_nat (length blocks) + 1) = Z.of_nat (length blocks + 1)) by (unfold to_u32; rewrite Z.mod_small by (change 4294967296 with (2 ^ 32); lia); lia).
  assert (C1 : counter true c1 = Z.of_nat (length blocks + 1) /\ counter false c1 = 0 /\ chaining c1 = words_of (chain blocks) /\ g_buffer c1 = g_buffer c /\ buf_ptr c1 = 64).
  { subst c1. unfold count_block. rewrite H2, Hn1, (proj2 (Z.eqb_neq _ 0)) by lia. cbn. auto. }
  destruct C1 as (C1 & C2 & C3 & C4 & C5).
  assert (Eg : exists m, g_buffer c = tail ++ m /\ length m = 8%nat).
  { exists (drop (length tail) (g_buffer c)). split; [|rewrite length_drop; lia].
    rewrite <- (take_drop (length tail) (g_buffer c)) at 1. rewrite Hp. reflexivity. }
  destruct Eg as (m & Eg & Hm). rewrite <- (take_drop 4 m) in Eg.
  destruct (put_counter_ok 4 9 true c1 (SIZE512 - 4) (tail ++ take 4 m) (drop 4 m) []) as (c2 & E2 & G2 & F2 & P2 & N2).
  { rewrite C4, Eg, app_nil_r, <- app_assoc. reflexivity. } { rewrite length_drop. lia. } { rewrite C4. exact Hl. }
  { rewrite C5, length_app, length_take. lia. } { change SIZE512 with 64. rewrite length_app, length_take. lia. } { lia. }
  rewrite E2. cbn [mbind option_bind]. rewrite C1, app_nil_r in G2. cbn [negb] in N2. rewrite C2 in N2.
  assert (L4 := proj2 (be_bytes_ok 4 (Z.of_nat (length blocks + 1)))).
  destruct (put_counter_ok 4 9 false c2 (SIZE512 - LENGTHFIELDLEN) tail (take 4 m) (be_bytes 4 (Z.of_nat (length blocks + 1)))) as (c3 & E3 & G3 & F3 & P3 & _).
  { rewrite G2, <- app_assoc. reflexivity. } { rewrite length_take. lia. } { rewrite G2, !length_app, length_take, L4. lia. }
  { rewrite P2. change SIZE512 with 64. lia. } { change (SIZE512 - LENGTHFIELDLEN) with 56. lia. } { lia. }
  rewrite E3. cbn [mbind option_bind]. rewrite N2, be_bytes_8 in G3 by lia.
  set (last := tail ++ be_bytes 8 (Z.of_nat (length blocks + 1))) in *.
  assert (HL : bytes_of 64 last).
  { destruct (be_bytes_ok 8 (Z.of_nat (length blocks + 1))) as [B8 L8]. split; [apply Forall_app; auto | unfold last; rewrite length_app; lia]. }
  pose proof (chain_bytes blocks H4) as HC. rewrite F2, C3 in F3.
  destruct (last_transform c3 (chain blocks) last F3 HC G3 HL) as (c4 & E4 & F4). rewrite E4. cbn [mbind option_bind].
  rewrite <- chaining_snoc in F4. assert (HC' : bytes_of 64 (chain (blocks ++ [last]))) by (apply chain_bytes, Forall_app; auto using Forall_cons_2, Forall_nil_2).
  unfold OutputTransformation. rewrite F4. destruct (perm_P_ok _ HC') as [-> BP]. cbn [mbind option_bind set_chaining chaining].
  rewrite <- words_of_lxor by assumption. rewrite words_bytes64 by (apply bytes_lxor; assumption). eexists. reflexivity.
Qed.

(** The bytes and bits of the message after its whole blocks. *)
Lemma absorbed_ok buffer data databitlen : bytes_of 64 buffer -> is_bytes data -> 0 <= databitlen < 2 ^ 34 -> databitlen <= 8 * Z.of_nat (length data) ->
  let n := Z.to_nat (databitlen / 8) in let q := (n / 64)%nat in
  exists c, Update (Init buffer) data databitlen = Some c /\ bits_in_last_byte c = databitlen mod 8 /\
    holds c (chunks 64 q data) (take (n mod 64) (drop (64 * q) data) ++ (if databitlen mod 8 =? 0 then [] else [data !!! n])).
Proof.
  intros Hbuf Hd Hlen Hdata n q. assert (Hn : 0 <= databitlen / 8 < 2 ^ 31) by (split; [apply Z.div_pos; lia | apply Z.div_lt_upper_bound; lia]).
  pose proof (Z.mod_pos_bound databitlen 8) as Hrem. pose proof (Z.div_mod databitlen 8) as Hdm.
  pose proof (Nat.div_mod n 64 ltac:(lia)) as Hq. pose proof (Nat.mod_upper_bound n 64 ltac:(lia)) as Hr. fold q in Hq.
  assert (Hnl : (n <= length data)%nat) by (subst n; lia).
  unfold Update. change (buf_ptr (Init buffer) =? 0) with true. cbn [negb]. rewrite to_i32_id by (change (2 ^ 31) with 2147483648 in Hn; lia). fold n.
  unfold digest_rest, Transform. rewrite Nat2Z.id.
  assert (H0 : holds (Init buffer) [] []).
  { split; try reflexivity; [constructor|]. split; [constructor|]. split; [exact Hbuf | reflexivity]. }
  destruct (transform_ok (chunks 64 q data) (Init buffer) [] [] (drop (64 * q) data) (Z.of_nat (n mod 64)) (S n) H0) as (c1 & E1 & Hc1 & B1).
  { apply chunks_blocks; [exact Hd | lia]. } { lia. } { rewrite chunks_length. cbn [length]. lia. } { rewrite chunks_length. lia. }
  rewrite concat_chunks, take_drop, chunks_length in E1. replace (64 * Z.of_nat q + Z.of_nat (n mod 64)) with (Z.of_nat n) in E1 by lia.
  rewrite E1. cbn [mbind option_bind]. fold q. replace (q * 64)%nat with (64 * q)%nat by lia. replace (n - 64 * q)%nat with (n mod 64)%nat by lia.
  set (tl := drop (64 * q) data) in *. assert (Htl : length tl = (length data - 64 * q)%nat) by apply length_drop.
  assert (Htb : is_bytes tl) by apply Forall_drop, Hd. cbn [app] in Hc1.
  destruct (store_rest_ok (take (n mod 64) tl) c1 (chunks 64 q data) [] (drop (n mod 64) tl) Hc1) as (c2 & E2 & Hc2 & B2).
  { apply Forall_take, Htb. } { rewrite length_take. cbn [length]. lia. }
  rewrite take_drop, length_take in E2. replace ((n mod 64) `min` length tl)%nat with (n mod 64)%nat in E2 by lia. rewrite E2. cbn [mbind option_bind app] in *.
  unfold last_bits. destruct (Z.eqb_spec (databitlen mod 8) 0) as [Ez|Ez]; cbn [negb].
  - exists c2. split; [reflexivity|]. rewrite app_nil_r. split; [rewrite B2, B1, Ez; reflexivity | exact Hc2].
  - assert (Hx : data !! n = Some (data !!! n)) by (apply list_lookup_lookup_total_lt; lia).
    assert (El : drop (n mod 64) tl !! 0%nat = Some (data !!! n)).
    { rewrite lookup_drop. subst tl. rewrite lookup_drop. replace (64 * q + (n mod 64 + 0))%nat with n by lia. exact Hx. }
    rewrite El. cbn [mbind option_bind]. assert (Hs : holds (set_bits c2 (databitlen mod 8)) (chunks 64 q data) (take (n mod 64) tl)) by (destruct Hc2; split; assumption).
    destruct (append_ok _ _ _ (data !!! n) Hs) as (c3 & E3 & Hc3 & B3); [rewrite length_take; lia | revert Hx; apply Forall_lookup_1, Hd|].
    exists c3. split; [exact E3|]. split; [exact B3 | exact Hc3].
Qed.

(** The padding with zeros leaves a last block of 56 bytes, after a whole one
    where the marked byte is behind them. *)
Lemma pad_zeros_ok c blocks tail : holds c blocks tail -> (length tail <= 64)%nat -> Z.of_nat (length blocks + 2) < 2 ^ 32 ->
  exists c' bs last, pad_zeros c = Some c' /\ holds c' (blocks ++ bs) last /\ length last = 56%nat /\
    length bs = (if decide (56 < length tail)%nat then 1 else 0)%nat /\
    concat bs ++ last = tail ++ repeat 0 (64 * length bs + 56 - length tail).
Proof.
  intros Hc Hl Hn. unfold pad_zeros. rewrite (holds_ptr _ _ _ Hc). change (SIZE512 - LENGTHFIELDLEN) with 56.
  destruct (decide (56 < length tail)%nat) as [Hlong|Hshort].
  - rewrite (proj2 (Z.ltb_lt _ _)) by lia.
    destruct (zeros_until_ok (64 - length tail) 65 c _ _ SIZE512 Hc) as (c2 & -> & Hc2); [change SIZE512 with 64; lia | change SIZE512 with 64; lia | lia|].
    set (b := tail ++ repeat 0 (64 - length tail)) in *. assert (Lb : length b = 64%nat) by (unfold b; rewrite length_app, repeat_length; lia).
    cbn [mbind option_bind]. destruct (transform_buffer_ok c2 _ b Hc2 Lb) as (c3 & -> & Hc3); [lia|]. cbn [mbind option_bind].
    assert (Hc3' : holds (set_buf_ptr c3 0) (blocks ++ [b]) []).
    { destruct Hc3 as [? ? ? ? (? & HB3 & ?) ?]. split; cbn [set_buf_ptr chaining block_counter1 block_counter2 g_buffer buf_ptr]; auto.
      split; [constructor|]. split; [exact HB3 | reflexivity]. }
    destruct (zeros_until_ok 56 65 _ _ _ 56 Hc3') as (c4 & -> & Hc4); [reflexivity | lia | lia|].
    exists c4, [b], (repeat 0 56). split_and!; [reflexivity | exact Hc4 | reflexivity | reflexivity|].
    cbn [concat length]. unfold b. rewrite app_nil_r, <- app_assoc, <- repeat_app. do 2 f_equal. lia.
  - rewrite (proj2 (Z.ltb_ge _ _)) by lia. cbn [mbind option_bind].
    destruct (zeros_until_ok (56 - length tail) 65 c _ _ 56 Hc) as (c2 & -> & Hc2); [lia | lia | lia|].
    exists c2, [], (tail ++ repeat 0 (56 - length tail)). rewrite app_nil_r. split_and!; [reflexivity | exact Hc2 | | reflexivity | reflexivity].
    rewrite length_app, repeat_length. lia.
Qed.

(** The blocks of the padded message, from what [pad_zeros] leaves. *)
Lemma padded_blocks data databitlen blocks tail bs last : blocks_of 64 (blocks ++ bs) -> is_bytes last -> length last = 56%nat ->
  marked data databitlen = concat blocks ++ tail -> length (marked data databitlen) = (Z.to_nat (databitlen / 8) + 1)%nat ->
  (length tail <= 64)%nat -> (0 < length tail)%nat -> length bs = (if decide (56 < length tail)%nat then 1 else 0)%nat ->
  concat bs ++ last = tail ++ repeat 0 (64 * length bs + 56 - length tail) ->
  chunks 64 (block_count databitlen) (padded data databitlen) = (blocks ++ bs) ++ [last ++ be_bytes 8 (Z.of_nat (length (blocks ++ bs) + 1))].
Proof.
  intros Hb Hl H56 Hm Lm Ht Hpos Hbs E. set (n := Z.to_nat (databitlen / 8)) in *. pose proof Hb as [Hb1 _]%Forall_app.
  assert (Ln : (n + 1 = 64 * length blocks + length tail)%nat) by (rewrite <- Lm, Hm, length_app, (blocks_length 64) by exact Hb1; lia).
  assert (HN : block_count databitlen = (length (blocks ++ bs) + 1)%nat).
  { unfold block_count. fold n. rewrite length_app, Hbs. symmetry.
    case_decide; [apply Nat.div_unique with (length tail - 57)%nat | apply Nat.div_unique with (length tail + 7)%nat]; lia. }
  destruct (be_bytes_ok 8 (Z.of_nat (length (blocks ++ bs) + 1))) as [B8 L8].
  set (all := (blocks ++ bs) ++ _). assert (Hall : blocks_of 64 all).
  { apply Forall_app. split; [exact Hb|]. constructor; [|constructor]. split; [apply Forall_app; auto | rewrite length_app; lia]. }
  assert (Lall : length all = block_count databitlen) by (unfold all; rewrite length_app, HN; reflexivity).
  rewrite <- Lall, <- (app_nil_r (padded data databitlen)). replace (padded data databitlen) with (concat all); [apply chunks_concat, Hall|].
  unfold padded, all. cbv zeta. rewrite Lm, HN, Hm, !concat_app. cbn [concat]. rewrite app_nil_r, <- !app_assoc.
  f_equal. rewrite app_assoc, E, <- app_assoc. do 3 f_equal. rewrite length_app. lia.
Qed.

(** C24: groestl writes the digest of the specification of Groestl-256 for every
    message of less than 2^34 bits, whole bytes or not, whatever the buffer held,
    and reads and writes only inside the message, the table and the buffer. *)
Theorem groestl_correct buffer data databitlen :
  bytes_of 64 buffer -> is_bytes data -> 0 <= databitlen < 2 ^ 34 -> databitlen <= 8 * Z.of_nat (length data) ->
  groestl buffer data databitlen = Some (spec_groestl data databitlen).
Proof.
  intros Hbuf Hd Hlen Hdata. destruct (absorbed_ok buffer data databitlen Hbuf Hd Hlen Hdata) as (c & Ec & Eb & Hc).
  set (n := Z.to_nat (databitlen / 8)) in *. set (q := (n / 64)%nat) in *.
  assert (Hrem : 0 <= databitlen mod 8 < 8) by (apply Z.mod_pos_bound; lia). pose proof (Z.div_mod databitlen 8 ltac:(lia)) as Hdm.
  pose proof (Nat.div_mod n 64 ltac:(lia)) as Hq. pose proof (Nat.mod_upper_bound n 64 ltac:(lia)) as Hr. fold q in Hq.
  assert (Hn : 0 <= databitlen / 8 < 2 ^ 31) by (split; [apply Z.div_pos; lia | apply Z.div_lt_upper_bound; lia]).
  assert (Hnl : (n <= length data)%nat) by (subst n; lia). set (t := take (n mod 64) (drop (64 * q) data)) in *.
  assert (Lt : length t = (n mod 64)%nat) by (unfold t; rewrite length_take, length_drop; lia). set (mk := marked_byte (data !!! n) (databitlen mod 8)).
  destruct (pad_bit_ok c _ t data n _ Hc Eb) as (c1 & E1 & Hc1); [lia | lia | |].
  { intros Hz. apply (Forall_lookup_1 _ _ n _ Hd). apply list_lookup_lookup_total_lt. lia. }
  fold mk in Hc1. assert (Lq : length (chunks 64 q data) = q) by apply chunks_length. assert (Lm1 : length (t ++ [mk]) = (n mod 64 + 1)%nat) by (rewrite length_app, Lt; reflexivity).
  assert (Hm : marked data databitlen = concat (chunks 64 q data) ++ t ++ [mk]).
  { unfold marked. fold n mk. rewrite concat_chunks, app_assoc. f_equal. unfold t. rewrite take_take_drop. f_equal. lia. }
  destruct (pad_zeros_ok c1 _ _ Hc1) as (c2 & bs & last & E2 & Hc2 & L56 & Lbs & Ebs); [lia | rewrite Lq; lia|].
  destruct (finish_ok c2 _ _ Hc2 L56) as (c3 & E3); [rewrite length_app, Lq, Lbs; case_decide; lia|].
  unfold groestl, Final. rewrite Ec. cbn [mbind option_bind]. rewrite E1. cbn [mbind option_bind]. rewrite E2. cbn [mbind option_bind].
  rewrite E3. cbn [mbind option_bind]. unfold spec_groestl.
  rewrite (padded_blocks data databitlen (chunks 64 q data) (t ++ [mk]) bs last); [reflexivity | apply (holds_blocks _ _ _ Hc2) | apply (holds_buffer _ _ _ Hc2) | exact L56
    | exact Hm | fold n; rewrite Hm, length_app, (blocks_length 64 _ (holds_blocks _ _ _ Hc1)), Lq, Lm1; lia | lia | lia | exact Lbs | exact Ebs].
Qed.

(** Digests known from the submission and elsewhere, and a message of twenty bits. *)
Definition fox : list Z :=
  [84; 104; 101; 32; 113; 117; 105; 99; 107; 32; 98; 114; 111; 119; 110; 32; 102; 111; 120; 32; 106;
   117; 109; 112; 115; 32; 111; 118; 101; 114; 32; 116; 104; 101; 32; 108; 97; 122; 121; 32; 100; 111;
   103].

Example groestl_of_nothing : spec_groestl [] 0 =
  [26; 82; 209; 29; 85; 0; 57; 190; 22; 16; 127; 156; 88; 219; 158; 188; 196; 23; 241; 111; 115; 106;
   219; 37; 2; 86; 113; 25; 240; 8; 52; 103].
Proof. vm_compute. reflexivity. Qed.

Example groestl_of_fox : spec_groestl fox 344 =
  [140; 122; 214; 46; 178; 106; 33; 41; 123; 195; 156; 45; 114; 147; 180; 189; 77; 51; 153; 250; 138;
   250; 178; 158; 151; 4; 113; 115; 158; 40; 179; 1].
Proof. vm_compute. reflexivity. Qed.

Lemma groestl_correct_witness :
  groestl (repeat 7 64) fox 344 = Some (spec_groestl fox 344) /\
  groestl (repeat 7 64) [1; 2; 255] 20 = Some (spec_groestl [1; 2; 255] 20).
Proof.
  split; apply groestl_correct; try (apply (bool_decide_unpack _); vm_compute; exact I); try (vm_compute; split; congruence); vm_compute; congruence.
Defined.
